(** * ImageAI custom detection: post-processing and video aggregation

    A shallow embedding of [imageai/Detection/Custom/__init__.py]:
    the box utilities of [CustomDetectionUtils] ([decode_netout],
    [correct_yolo_boxes], [bbox_iou], [do_nms], [RoI], [get_boxes]), the
    control flow of [CustomObjectDetection.detectObjectsFromImage] and the
    frame loop of [CustomVideoObjectDetection.detectObjectsFromVideo].

    Conventions of the embedding.
    - Python [int] is [Z]; Python and numpy floats are rationals [Q].
      [np.exp] is a parameter [np_exp : Q -> Q] of the definitions that
      use it.  Where a result depends on how a float operation rounds
      (the product under [int()] in [correct_yolo_boxes]), the rounding
      is a parameter [rnd : Q -> Q] and the statements hold for every
      rounding that keeps the order and zero; elsewhere the operations
      are exact.  Infinities and NaN are outside the model: an [np.exp]
      that overflows and a numpy division by a size that is zero have no
      counterpart here, so the statements on such values either assume
      positive sizes or claim bounds that hold with the limit values too
      (a sigmoid of 0 or 1).
    - A Python exception is a value [Raise e] of the type [result];
      [try: ... except: ...] is [try_except].
    - Objects mutated in place ([BoundBox.classes], the box list) are
      threaded through the functions as values; no two boxes share a
      class vector, so no aliasing is lost.
    - [np.argsort] is a parameter of [do_nms]: numpy fixes the order of
      tied keys only for its stable sorts, so the model leaves it open.
    - Frames and images are reduced to what the control flow reads of
      them: an image to its height and width (a crop follows the slice
      rules of Python, and [cv2.imwrite] raises on an empty one), a frame
      of a video to [tt].  [add_region_of_interest_to_frame] indexes the
      region it is given before it draws. *)

From Stdlib Require Import QArith Qminmax Qround Lia Lqa List Permutation Sorted.
From stdpp Require Import gmap strings list fin_maps.

Local Open Scope Z_scope.

(** ** Python exceptions and results *)

Inductive py_exn : Type :=
| ValueError
| IndexError
| KeyError
| ZeroDivisionError
| AttributeError
| TypeError
| Cv2Error.    (* cv2.error *)

Inductive result (A : Type) : Type :=
| Ok (a : A)
| Raise (e : py_exn).
Arguments Ok {A} a.
Arguments Raise {A} e.

#[global] Instance result_ret : MRet result := fun A a => Ok a.
#[global] Instance result_bind : MBind result :=
  fun A B f m => match m with Ok a => f a | Raise e => Raise e end.
#[global] Instance result_fmap : FMap result :=
  fun A B f m => match m with Ok a => Ok (f a) | Raise e => Raise e end.

(** [try: m  except: handler] with a bare [except]. *)
Definition try_except {A : Type} (m : result A) (handler : A) : A :=
  match m with Ok a => a | Raise _ => handler end.

(** [l[i]] on a Python list or numpy vector, [i >= 0]. *)
Definition py_index {A : Type} (l : list A) (i : nat) : result A :=
  match l !! i with Some a => Ok a | None => Raise IndexError end.

(** [d[k]] on a Python dict. *)
Definition py_getitem `{Countable K} {A : Type} (d : gmap K A) (k : K) : result A :=
  match d !! k with Some a => Ok a | None => Raise KeyError end.

(** [a % b] on Python ints: the sign follows the divisor, as [Z.modulo]. *)
Definition py_mod (a b : Z) : result Z :=
  if b =? 0 then Raise ZeroDivisionError else Ok (a mod b).

(** [for x in xs: body], the state threaded through, stopping at the
    first exception. *)
Fixpoint for_each {A S : Type} (body : A -> S -> result S) (xs : list A) (s : S)
  : result S :=
  match xs with
  | [] => Ok s
  | x :: xs' => s' ← body x s; for_each body xs' s'
  end.

(** ** Numbers *)

Definition Qltb (x y : Q) : bool := negb (Qle_bool y x).

(** Truth value of a number: [if x:] holds when [x] is not zero. *)
Definition py_truthy (x : Q) : bool := negb (Qeq_bool x 0).

(** [int(x)] on a float: truncation toward zero. *)
Definition py_int (x : Q) : Z := Z.quot (Qnum x) (Z.pos (Qden x)).

(** [float(a) / float(b)]: raises on a zero divisor. *)
Definition py_truediv (a b : Q) : result Q :=
  if Qeq_bool b 0 then Raise ZeroDivisionError else Ok (a / b)%Q.

(** ** BoundBox *)

Record BoundBox : Type := mkBoundBox {
  xmin : Q;
  ymin : Q;
  xmax : Q;
  ymax : Q;
  objness : Q;
  classes : list Q
}.

Definition set_classes (b : BoundBox) (cs : list Q) : BoundBox :=
  mkBoundBox (xmin b) (ymin b) (xmax b) (ymax b) (objness b) cs.

(** [box.classes[c] = v]; the caller has read [box.classes[c]] before. *)
Definition set_class (c : nat) (v : Q) (b : BoundBox) : BoundBox :=
  set_classes b (<[c := v]> (classes b)).

(** ** CustomDetectionUtils: intersection over union *)

Definition _interval_overlap (interval_a interval_b : Q * Q) : Q :=
  let '(x1, x2) := interval_a in
  let '(x3, x4) := interval_b in
  if Qltb x3 x1 then
    if Qltb x4 x1 then 0%Q else (Qmin x2 x4 - x1)%Q
  else
    if Qltb x2 x3 then 0%Q else (Qmin x2 x4 - x3)%Q.

Definition intersect_of (box1 box2 : BoundBox) : Q :=
  let intersect_w := _interval_overlap (xmin box1, xmax box1) (xmin box2, xmax box2) in
  let intersect_h := _interval_overlap (ymin box1, ymax box1) (ymin box2, ymax box2) in
  (intersect_w * intersect_h)%Q.

Definition union_of (box1 box2 : BoundBox) : Q :=
  let w1 := (xmax box1 - xmin box1)%Q in
  let h1 := (ymax box1 - ymin box1)%Q in
  let w2 := (xmax box2 - xmin box2)%Q in
  let h2 := (ymax box2 - ymin box2)%Q in
  (w1 * h1 + w2 * h2 - intersect_of box1 box2)%Q.

Definition bbox_iou (box1 box2 : BoundBox) : Q :=
  let intersect := intersect_of box1 box2 in
  let union := union_of box1 box2 in
  try_except (py_truediv intersect union) 0%Q.

(** ** numpy arrays of rank 3 *)

(** The tensor of one detection scale: its shape and its entries. *)
Record ndarray3 : Type := mkArray {
  shape_h : nat;
  shape_w : nat;
  shape_d : nat;
  at3 : nat -> nat -> nat -> Q
}.

(** [arr.reshape((shape_h, shape_w, n, -1))]: the length of the inferred
    last axis.  numpy rejects the request when the known sizes multiply
    to zero or do not divide the number of entries. *)
Definition reshape_last (arr : ndarray3) (n : nat) : result nat :=
  let known := (shape_h arr * shape_w arr * n)%nat in
  let size := (shape_h arr * shape_w arr * shape_d arr)%nat in
  if (known =? 0)%nat then Raise ValueError
  else if (size mod known =? 0)%nat then Ok (size / known)%nat
  else Raise ValueError.

(** ** CustomDetectionUtils: decoding the network output *)

Definition nb_box : nat := 3.

Definition bool_to_Q (b : bool) : Q := if b then 1%Q else 0%Q.

Section Decoder.

Variable np_exp : Q -> Q.

Definition _sigmoid (x : Q) : Q := (1 / (1 + np_exp (- x)))%Q.

(** The four in-place array statements of [decode_netout], on the last
    axis of the reshaped array at a fixed [(row, col, b)]. *)
Definition sigmoid_xy (v : nat -> Q) : nat -> Q :=
  fun k => if (k <? 2)%nat then _sigmoid (v k) else v k.
Definition sigmoid_tail (v : nat -> Q) : nat -> Q :=
  fun k => if (4 <=? k)%nat then _sigmoid (v k) else v k.
Definition scale_by_objectness (v : nat -> Q) : nat -> Q :=
  fun k => if (5 <=? k)%nat then (v 4%nat * v k)%Q else v k.
Definition mask_below (obj_thresh : Q) (v : nat -> Q) : nat -> Q :=
  fun k => if (5 <=? k)%nat then (v k * bool_to_Q (Qltb obj_thresh (v k)))%Q else v k.

Definition decoded_slot (obj_thresh : Q) (raw : nat -> Q) : nat -> Q :=
  mask_below obj_thresh (scale_by_objectness (sigmoid_tail (sigmoid_xy raw))).

(** The body of the innermost loop: one [(row, col, b)]. *)
Definition decode_cell (netout : ndarray3) (last : nat) (anchors : list Q)
    (obj_thresh : Q) (net_h net_w : Z) (cell : nat * nat * nat)
    (boxes : list BoundBox) : result (list BoundBox) :=
  let '(row, col, b) := cell in
  let v := decoded_slot obj_thresh (fun k => at3 netout row col (b * last + k)%nat) in
  let objectness := v 4%nat in
  if Qltb obj_thresh objectness then
    let x := ((inject_Z (Z.of_nat col) + v 0%nat) / inject_Z (Z.of_nat (shape_w netout)))%Q in
    let y := ((inject_Z (Z.of_nat row) + v 1%nat) / inject_Z (Z.of_nat (shape_h netout)))%Q in
    anchor_w ← py_index anchors (2 * b + 0)%nat;
    let w := (anchor_w * np_exp (v 2%nat) / inject_Z net_w)%Q in
    anchor_h ← py_index anchors (2 * b + 1)%nat;
    let h := (anchor_h * np_exp (v 3%nat) / inject_Z net_h)%Q in
    let classes := map v (seq 5 (last - 5)) in
    Ok (boxes ++ [mkBoundBox (x - w / 2) (y - h / 2) (x + w / 2) (y + h / 2)
                             objectness classes])
  else Ok boxes.

(** [for row in range(grid_h): for col in range(grid_w): for b in range(nb_box)]. *)
Definition grid_cells (grid_h grid_w : nat) : list (nat * nat * nat) :=
  row ← seq 0 grid_h; col ← seq 0 grid_w; b ← seq 0 nb_box; [(row, col, b)].

Definition decode_netout (netout : ndarray3) (anchors : list Q) (obj_thresh : Q)
    (net_h net_w : Z) : result (list BoundBox) :=
  let grid_h := shape_h netout in
  let grid_w := shape_w netout in
  last ← reshape_last netout nb_box;
  (* netout[..., 4] needs a fifth entry on the last axis *)
  if (last <=? 4)%nat then Raise IndexError
  else for_each (decode_cell netout last anchors obj_thresh net_h net_w)
                (grid_cells grid_h grid_w) [].

End Decoder.

(** ** CustomDetectionUtils: back to the pixels of the image *)

(** [a * n] for a float [a] and an int [n]: the int is converted to the
    format of [a] and the exact product is rounded to it.  The rounding
    [rnd] of the format is a parameter; [exact] is the rounding that
    rounds nothing. *)
Definition exact (x : Q) : Q := x.

Definition fl_mul (rnd : Q -> Q) (a : Q) (n : Z) : Q :=
  rnd (a * rnd (inject_Z n))%Q.

(** The body of the loop, with the products rounded by [rnd] before
    [int] truncates them.  The offsets and the scales are computed, with
    their divisions, and used in a warning only. *)
Definition correct_box_fl (rnd : Q -> Q) (image_h image_w : Z) (net_h net_w : Z)
    (b : BoundBox) : result BoundBox :=
  let new_w := net_w in
  let new_h := net_h in
  x_offset ← py_truediv (inject_Z (net_w - new_w) / 2) (inject_Z net_w);
  x_scale ← py_truediv (inject_Z new_w) (inject_Z net_w);
  y_offset ← py_truediv (inject_Z (net_h - new_h) / 2) (inject_Z net_h);
  y_scale ← py_truediv (inject_Z new_h) (inject_Z net_h);
  Ok (mkBoundBox (inject_Z (py_int (fl_mul rnd (xmin b) image_w)))
                 (inject_Z (py_int (fl_mul rnd (ymin b) image_h)))
                 (inject_Z (py_int (fl_mul rnd (xmax b) image_w)))
                 (inject_Z (py_int (fl_mul rnd (ymax b) image_h)))
                 (objness b) (classes b)).

(** The same in the exact arithmetic of the other definitions. *)
Definition correct_box (image_h image_w : Z) (net_h net_w : Z) (b : BoundBox)
  : result BoundBox :=
  correct_box_fl exact image_h image_w net_h net_w b.

Fixpoint traverse {A B : Type} (f : A -> result B) (xs : list A) : result (list B) :=
  match xs with
  | [] => Ok []
  | x :: xs' => y ← f x; ys ← traverse f xs'; Ok (y :: ys)
  end.

Definition correct_yolo_boxes_fl (rnd : Q -> Q) (boxes : list BoundBox)
    (image_h image_w : Z) (net_h net_w : Z) : result (list BoundBox) :=
  traverse (correct_box_fl rnd image_h image_w net_h net_w) boxes.

Definition correct_yolo_boxes (boxes : list BoundBox) (image_h image_w : Z)
    (net_h net_w : Z) : result (list BoundBox) :=
  traverse (correct_box image_h image_w net_h net_w) boxes.

(** ** CustomDetectionUtils: region of interest *)

(** [x in range(lo, hi)] for an int [x]. *)
Definition in_range (x lo hi : Z) : bool := (lo <=? x) && (x <? hi).

(** [boxes[i].classes[c] = 0] at an index that was just read. *)
Definition py_setitem {A : Type} (l : list A) (i : nat) (v : A) : result (list A) :=
  if (i <? length l)%nat then Ok (<[i := v]> l) else Raise IndexError.

(** The body of the inner loop of [RoI]: one class [c] of one box. *)
Definition RoI_class (x0 x1 y0 y1 : Z) (c : nat) (box : BoundBox) : result BoundBox :=
  v ← py_index (classes box) c;
  if py_truthy v then
    let x_centre := py_int ((xmax box + xmin box) / 2) in
    let y_centre := py_int ((ymax box + ymin box) / 2) in
    if negb (in_range x_centre x0 x1) || negb (in_range y_centre y0 y1)
    then cs ← py_setitem (classes box) c 0%Q; Ok (set_classes box cs)
    else Ok box
  else Ok box.

Definition RoI (boxes : list BoundBox) (region_of_interest : option (list Z))
  : result (list BoundBox) :=
  match region_of_interest with
  | Some [x0; x1; y0; y1] =>
      match boxes with
      | [] => Ok boxes
      | box0 :: _ =>
          traverse (for_each (RoI_class x0 x1 y0 y1) (seq 0 (length (classes box0)))) boxes
      end
  | _ => Ok boxes
  end.

(** ** CustomDetectionUtils: non-maximum suppression *)

Section NMS.

(** [np.argsort(keys)]: the indices of [keys] in ascending order of key. *)
Variable argsort : list Q -> list nat.

(** [[-box.classes[c] for box in boxes]] *)
Definition class_keys (c : nat) (boxes : list BoundBox) : result (list Q) :=
  traverse (fun box => v ← py_index (classes box) c; Ok (- v)%Q) boxes.

(** The body of the loop over [j]. *)
Definition nms_compare (nms_thresh : Q) (c : nat) (sorted_indices : list nat)
    (i j : nat) (boxes : list BoundBox) : result (list BoundBox) :=
  index_i ← py_index sorted_indices i;
  box_i ← py_index boxes index_i;
  index_j ← py_index sorted_indices j;
  box_j ← py_index boxes index_j;
  if Qle_bool nms_thresh (bbox_iou box_i box_j) then
    cs ← py_setitem (classes box_j) c 0%Q;
    Ok (<[index_j := set_classes box_j cs]> boxes)
  else Ok boxes.

(** The body of the loop over [i]. *)
Definition nms_from (nms_thresh : Q) (c : nat) (sorted_indices : list nat)
    (i : nat) (boxes : list BoundBox) : result (list BoundBox) :=
  index_i ← py_index sorted_indices i;
  box_i ← py_index boxes index_i;
  v ← py_index (classes box_i) c;
  if py_truthy v then
    for_each (nms_compare nms_thresh c sorted_indices i)
             (seq (i + 1) (length sorted_indices - (i + 1))) boxes
  else Ok boxes.

(** The body of the loop over the classes. *)
Definition nms_class (nms_thresh : Q) (c : nat) (boxes : list BoundBox)
  : result (list BoundBox) :=
  keys ← class_keys c boxes;
  let sorted_indices := argsort keys in
  for_each (nms_from nms_thresh c sorted_indices)
           (seq 0 (length sorted_indices)) boxes.

Definition do_nms (boxes : list BoundBox) (nms_thresh : Q) : result (list BoundBox) :=
  match boxes with
  | [] => Ok boxes
  | box0 :: _ => for_each (nms_class nms_thresh) (seq 0 (length (classes box0))) boxes
  end.

End NMS.

(** A stable [argsort]: insertion of every index after the keys that are
    not greater; the order numpy's stable kinds produce. *)
Fixpoint insert_index (keys : list Q) (i : nat) (sorted : list nat) : list nat :=
  match sorted with
  | [] => [i]
  | j :: rest =>
      if Qltb (nth i keys 0%Q) (nth j keys 0%Q) then i :: j :: rest
      else j :: insert_index keys i rest
  end.

Definition stable_argsort (keys : list Q) : list nat :=
  fold_left (fun sorted i => insert_index keys i sorted) (seq 0 (length keys)) [].

(** ** CustomDetectionUtils: selection *)

Definition selection : Type := list BoundBox * list string * list Q.

(** The body of the inner loop of [get_boxes]: label [i] of one box. *)
Definition get_boxes_label (labels : list string) (thresh : Q) (box : BoundBox)
    (i : nat) (acc : selection) : result selection :=
  let '(v_boxes, v_labels, v_scores) := acc in
  score ← py_index (classes box) i;
  if Qltb thresh score then
    label ← py_index labels i;
    Ok (v_boxes ++ [box], v_labels ++ [label], v_scores ++ [(score * 100)%Q])
  else Ok acc.

Definition get_boxes (boxes : list BoundBox) (labels : list string) (thresh : Q)
  : result selection :=
  for_each (fun box => for_each (get_boxes_label labels thresh box)
                                (seq 0 (length labels)))
           boxes ([], [], []).

(** ** Slices

    [a[start:stop]] on an axis of [n] entries: a negative bound counts
    from the end, and both bounds are brought into [0 .. n]. *)
Definition slice_bound (i n : Z) : Z :=
  if i <? 0 then Z.max (i + n) 0 else Z.min i n.

Definition slice_length (start stop n : Z) : Z :=
  Z.max (slice_bound stop n - slice_bound start n) 0.

(** ** CustomObjectDetection.detectObjectsFromImage *)

(** A pixel buffer, reduced to its shape: the pixels play no part in
    the geometry of the boxes. *)
Record image : Type := mkImage { im_height : Z; im_width : Z }.

(** The value of the parameter [input_image]: a path or an array. *)
Inductive py_input : Type :=
| InPath (path : string)
| InArray (im : image).

(** One entry of [output_objects_array]. *)
Record detection : Type := mkDetection {
  name : string;
  percentage_probability : Q;
  box_points : list Q
}.

(** One entry of [detected_objects_image_array]. *)
Inductive extracted : Type :=
| ExtractedPath (objects_dir : string) (object_name : string) (cnt : nat)
| ExtractedArray (points : list Q).

(** What [detectObjectsFromImage] hands back. *)
Inductive image_return : Type :=
| ReturnNone
| ReturnObjects (objects : list detection)
| ReturnObjectsPaths (objects : list detection) (paths : list extracted)
| ReturnImageObjects (drawn : image) (objects : list detection)
| ReturnImageObjectsArrays (drawn : image) (objects : list detection)
                           (arrays : list extracted).

(** The calls that leave the process, in the order they are made. *)
Inductive io_event : Type :=
| MakeDirs (objects_dir : string)
| ImRead (path : string)
| Predict (im : image)
| ImWriteObject (e : extracted)
| ImWrite (path : string).

(** [np.max(a, axis)] on a scalar [a]: numpy reduces a zero-dimensional
    array to its only entry; the second positional argument is the axis,
    not a second operand. *)
Definition np_max (a : Q) (axis : Z) : Q := a.

Record CustomObjectDetection : Type := mkDetector {
  model_loaded : bool;              (* self.__model is not None *)
  model_type : string;
  model_labels : list string;
  model_anchors : list (list Q);
  input_size : Z
}.

Record image_call : Type := mkImageCall {
  input_image : py_input;
  output_image_path : string;
  input_type : string;
  output_type : string;
  extract_detected_objects : bool;
  minimum_percentage_probability : Q;
  nms_threshold : Q;
  region_of_interest : option (list Z)
}.

(** Effects and exceptions together: the events so far and the outcome. *)
Definition io (A : Type) : Type := list io_event -> list io_event * result A.

Definition io_ret {A : Type} (a : A) : io A := fun tr => (tr, Ok a).
Definition io_bind {A B : Type} (m : io A) (k : A -> io B) : io B :=
  fun tr => match m tr with
            | (tr', Ok a) => k a tr'
            | (tr', Raise e) => (tr', Raise e)
            end.
Definition io_emit (e : io_event) : io unit := fun tr => (tr ++ [e], Ok tt).
Definition io_raise {A : Type} (e : py_exn) : io A := fun tr => (tr, Raise e).
Definition io_lift {A : Type} (r : result A) : io A := fun tr => (tr, r).

Notation "'let*' x ':=' m 'in' k" := (io_bind m (fun x => k))
  (at level 10, x binder, m at level 100, k at level 200, only parsing).

(** [zip(all_boxes, all_labels, all_scores)] *)
Fixpoint zip3 {A B C : Type} (xs : list A) (ys : list B) (zs : list C)
  : list (A * B * C) :=
  match xs, ys, zs with
  | x :: xs', y :: ys', z :: zs' => (x, y, z) :: zip3 xs' ys' zs'
  | _, _, _ => []
  end.

(** The dictionary appended to [output_objects_array] for one selected box. *)
Definition output_object (entry : BoundBox * string * Q) : detection :=
  let '(object_box, object_label, object_score) := entry in
  mkDetection object_label object_score
    [np_max (xmin object_box) 0; np_max (ymin object_box) 0;
     xmax object_box; ymax object_box].

Section ObjectDetection.

Variable np_exp : Q -> Q.
Variable argsort : list Q -> list nat.
(** [re.subn(r'\.(?:jpe?g|png|tif|webp|PPM|PGM)$', '', path, flags=re.I)] *)
Variable re_subn_suffix : string -> string * Z.
(** [cv2.imread]: [None] for a file that cannot be read. *)
Variable cv2_imread : string -> option image.
(** [self.__model.predict] followed by [result[0]] on each output. *)
Variable predict : image -> list ndarray3.

(** [for idx, result in enumerate(yolo_results): boxes += decode_netout(...)] *)
Definition decode_all (self : CustomObjectDetection) (object_threshold : Q)
    (yolo_results : list ndarray3) : result (list BoundBox) :=
  for_each (fun '(idx, res) boxes =>
              anchors ← py_index (model_anchors self) idx;
              box_set ← decode_netout np_exp res anchors object_threshold
                                      (input_size self) (input_size self);
              Ok (boxes ++ box_set))
           (imap (fun idx res => (idx, res)) yolo_results) [].

(** Lines 807-851: from the network output to [output_objects_array]. *)
Definition detect_objects (self : CustomObjectDetection) (call : image_call)
    (height width : Z) (yolo_results : list ndarray3) : result (list detection) :=
  let object_threshold := (minimum_percentage_probability call / 100)%Q in
  boxes ← decode_all self object_threshold yolo_results;
  boxes ← correct_yolo_boxes boxes height width (input_size self) (input_size self);
  boxes ← RoI boxes (region_of_interest call);
  boxes ← do_nms argsort boxes (nms_threshold call);
  '(all_boxes, all_labels, all_scores) ← get_boxes boxes (model_labels self) object_threshold;
  Ok (map output_object (zip3 all_boxes all_labels all_scores)).

(** [image_frame[y0:y1, x0:x1]], reduced to its shape.  The corners are
    ints held as rationals; a negative corner counts from the far edge,
    as every Python index does. *)
Definition splitted_image (image_frame : image) (each_object : detection)
  : result image :=
  y0 ← py_index (box_points each_object) 1;
  y1 ← py_index (box_points each_object) 3;
  x0 ← py_index (box_points each_object) 0;
  x1 ← py_index (box_points each_object) 2;
  Ok (mkImage (slice_length (py_int y0) (py_int y1) (im_height image_frame))
              (slice_length (py_int x0) (py_int x1) (im_width image_frame))).

(** An array without a row or without a column. *)
Definition empty_image (im : image) : bool :=
  (im_height im <=? 0) || (im_width im <=? 0).

(** Lines 865-876, for one object.  [cv2.imwrite] raises [cv2.error] on
    an empty array. *)
Definition extract_object (call : image_call) (image_frame : image)
    (output_image_folder : string) (entry : nat * detection) : io (list extracted) :=
  let '(cnt, each_object) := entry in
  let* crop := io_lift (splitted_image image_frame each_object) in
  if bool_decide (output_type call = "file") then
    let objects_dir := String.append output_image_folder "-objects" in
    let e := ExtractedPath objects_dir (name each_object) cnt in
    if empty_image crop then io_raise Cv2Error
    else let* _ := io_emit (ImWriteObject e) in io_ret [e]
  else if bool_decide (output_type call = "array") then
    io_ret [ExtractedArray (box_points each_object)]
  else io_ret [].

Fixpoint extract_objects (call : image_call) (image_frame : image)
    (output_image_folder : string) (entries : list (nat * detection))
  : io (list extracted) :=
  match entries with
  | [] => io_ret []
  | entry :: rest =>
      let* here := extract_object call image_frame output_image_folder entry in
      let* there := extract_objects call image_frame output_image_folder rest in
      io_ret (here ++ there)
  end.

(** Lines 746-769: the checks on [output_image_path]; the value is
    [output_image_folder]. *)
Definition prepare_output (call : image_call) : io string :=
  if bool_decide (output_type call = "file") then
    let '(folder, n_subs) := re_subn_suffix (output_image_path call) in
    if n_subs =? 0 then io_raise ValueError
    else if extract_detected_objects call
         then let* _ := io_emit (MakeDirs (String.append folder "-objects")) in
              io_ret folder
         else io_ret folder
  else io_ret EmptyString.

(** Lines 778-787: the image, and [image.copy()] on it. *)
Definition read_input (call : image_call) : io image :=
  if bool_decide (input_type call = "file") then
    match input_image call with
    | InPath path =>
        let* _ := io_emit (ImRead path) in
        match cv2_imread path with
        | Some im => io_ret im
        | None => io_raise AttributeError   (* None.copy() *)
        end
    | InArray _ => io_raise TypeError       (* imread of an array *)
    end
  else if bool_decide (input_type call = "array") then
    match input_image call with
    | InArray im => io_ret im
    | InPath _ => io_raise AttributeError   (* str.copy() *)
    end
  else io_raise ValueError.

(** Lines 881-891: the [return] that is reached, or none. *)
Definition return_value (call : image_call) (drawn_image : image)
    (output_objects_array : list detection)
    (detected_objects_image_array : list extracted) : image_return :=
  if extract_detected_objects call then
    if bool_decide (output_type call = "file")
    then ReturnObjectsPaths output_objects_array detected_objects_image_array
    else if bool_decide (output_type call = "array")
    then ReturnImageObjectsArrays drawn_image output_objects_array
                                  detected_objects_image_array
    else ReturnNone
  else
    if bool_decide (output_type call = "file")
    then ReturnObjects output_objects_array
    else if bool_decide (output_type call = "array")
    then ReturnImageObjects drawn_image output_objects_array
    else ReturnNone.

Definition detectObjectsFromImage (self : CustomObjectDetection) (call : image_call)
  : io image_return :=
  if negb (model_loaded self) then io_raise ValueError
  else
    let* output_image_folder := prepare_output call in
    let* im := read_input call in
    let height := im_height im in
    let width := im_width im in
    if bool_decide (model_type self = "yolov3") then
      let* _ := io_emit (Predict im) in
      let* output_objects_array :=
        io_lift (detect_objects self call height width (predict im)) in
      let drawn_image := im in
      let* detected_objects_image_array :=
        (if extract_detected_objects call
         then extract_objects call im output_image_folder
                (imap (fun cnt o => (cnt, o)) output_objects_array)
         else io_ret []) in
      let* _ := (if bool_decide (output_type call = "file")
                 then io_emit (ImWrite (output_image_path call))
                 else io_ret tt) in
      io_ret (return_value call drawn_image output_objects_array
                           detected_objects_image_array)
    else io_ret ReturnNone.

End ObjectDetection.

(** ** CustomVideoObjectDetection.detectObjectsFromVideo *)

(** The keyword arguments that steer the frame loop.  A callback is
    reduced to whether one was passed; [detection_timeout] is [None] or
    an int. *)
Record video_call : Type := mkVideoCall {
  frame_detection_interval : Z;
  log_progress : bool;
  performance_mode : bool;
  per_frame_function : bool;
  per_second_function : bool;
  per_minute_function : bool;
  video_complete_function : bool;
  return_detected_frame : bool;
  detection_timeout : option Z;
  video_region_of_interest : option (list Z)    (* region_of_interest *)
}.

(** One call of a user function, with the arguments it receives; the
    frame buffer is reduced to whether it is passed. *)
Inductive callback : Type :=
| PerFrame (position : Z) (objects : list detection) (counts : gmap string Z)
           (with_frame : bool)
| PerSecond (position : Z) (objects : list (list detection))
            (counts : list (gmap string Z)) (average : gmap string Z)
            (with_frame : bool)
| PerMinute (position : Z) (objects : list (list detection))
            (counts : list (gmap string Z)) (average : gmap string Z)
            (with_frame : bool)
| VideoComplete (objects : list (list detection))
                (counts : list (gmap string Z)) (average : gmap string Q).

(** What [cv2.rectangle] is asked to draw on the frame: its two corner
    points. *)
Record rectangle : Type := mkRectangle { pt1 : Z * Z; pt2 : Z * Z }.

(** [add_region_of_interest_to_frame]: the frame that comes back, and the
    rectangle drawn on it, if any.  [if region_of_interest:] holds for a
    list that is not empty. *)
Definition add_region_of_interest_to_frame {A : Type} (image_frame : A)
    (region_of_interest : option (list Z)) : result (A * option rectangle) :=
  match region_of_interest with
  | Some (x :: rest) =>
      let roi := x :: rest in
      roi_0 ← py_index roi 0;
      roi_2 ← py_index roi 2;
      roi_1 ← py_index roi 1;
      roi_3 ← py_index roi 3;
      Ok (image_frame, Some (mkRectangle (roi_0, roi_2) (roi_1, roi_3)))
  | _ => Ok (image_frame, None)
  end.

(** The local variables of the frame loop; [calls] lists the user
    functions called so far, each with the value of [n_frame] at the
    call. *)
Record scan : Type := mkScan {
  n_frame : Z;
  output_frames_dict : gmap Z (list detection);
  output_frames_count_dict : gmap Z (gmap string Z);
  detection_timeout_count : Z;
  calls : list (Z * callback)
}.

Definition scan_start : scan := mkScan 0 ∅ ∅ 0 [].

(** [if detection_timeout:] *)
Definition timeout_set (detection_timeout : option Z) : option Z :=
  match detection_timeout with
  | Some t => if t =? 0 then None else Some t
  | None => None
  end.

(** [n_frame == 1 or n_frame % frame_detection_interval == 0] *)
Definition detection_due (call : video_call) (n : Z) : result bool :=
  if n =? 1 then Ok true
  else m ← py_mod n (frame_detection_interval call); Ok (m =? 0).

(** [try: count[name] += 1  except: count[name] = 1] over the objects of
    one frame. *)
Definition count_object (output_objects_count : gmap string Z) (eachItem : detection)
  : gmap string Z :=
  match output_objects_count !! name eachItem with
  | Some v => <[name eachItem := v + 1]> output_objects_count
  | None => <[name eachItem := 1]> output_objects_count
  end.

Definition count_objects (output_objects_array : list detection) : gmap string Z :=
  fold_left count_object output_objects_array ∅.

(** [for eachItem in eachCountingDict: try: total[k] = total[k] + d[k]
    except: total[k] = d[k]] *)
Definition add_counts (total eachCountingDict : gmap string Z) : gmap string Z :=
  map_fold (fun eachItem v acc =>
              match acc !! eachItem with
              | Some t => <[eachItem := t + v]> acc
              | None => <[eachItem := v]> acc
              end) total eachCountingDict.

Definition sum_counts (counting_array : list (gmap string Z)) : gmap string Z :=
  fold_left add_counts counting_array ∅.

(** [for idx in range(n_frame): if idx >= n_frame - window: append(d[idx + 1])] *)
Definition window_of {A : Type} (d : gmap Z A) (n window : Z) : result (list A) :=
  for_each (fun idx acc =>
              if n - window <=? idx
              then v ← py_getitem d (idx + 1); Ok (acc ++ [v])
              else Ok acc)
           (seqZ 0 n) [].

(** [int(a / b)] on ints: true division, then truncation. *)
Definition int_div (a b : Z) : Z := py_int (inject_Z a / inject_Z b).

(** The block of a windowed callback: the last [window] frames, the
    counts summed over them and divided by [window]. *)
Definition window_summary (s : scan) (window : Z)
  : result (list (list detection) * list (gmap string Z) * gmap string Z) :=
  this_output_object_array ← window_of (output_frames_dict s) (n_frame s) window;
  this_counting_array ← window_of (output_frames_count_dict s) (n_frame s) window;
  let this_counting := sum_counts this_counting_array in
  Ok (this_output_object_array, this_counting_array,
      (fun total => int_div total window) <$> this_counting).

(** The user functions called at the current frame are appended to [calls]. *)
Definition add_calls (s : scan) (new : list (Z * callback)) : scan :=
  mkScan (n_frame s) (output_frames_dict s) (output_frames_count_dict s)
         (detection_timeout_count s) (calls s ++ new).

Definition push_call (s : scan) (c : callback) : scan :=
  add_calls s [(n_frame s, c)].

(** What the detector does on one frame: the objects it returns, or the
    exception it raises. *)
Abbreviation frame_outcome := (result (list detection)).

(** Lines 1112-1116: the timeout.  The value is the new count and whether
    the loop breaks. *)
Definition check_timeout (call : video_call) (frames_per_second n : Z) (count : Z)
  : result (Z * bool) :=
  match timeout_set (detection_timeout call) with
  | Some t =>
      m ← py_mod n frames_per_second;
      let count := if m =? 0 then count + 1 else count in
      Ok (count, t <=? count)
  | None => Ok (count, false)
  end.

(** Lines 1158-1162: the per-frame function. *)
Definition per_frame_block (call : video_call) (output_objects_array : list detection)
    (output_objects_count : gmap string Z) (s : scan) : result scan :=
  if per_frame_function call then
    due ← detection_due call (n_frame s);
    if (due : bool)
    then Ok (push_call s (PerFrame (n_frame s) output_objects_array output_objects_count
                                   (return_detected_frame call)))
    else Ok s
  else Ok s.

(** Lines 1165-1201 and 1204-1240: the per-second and the per-minute
    function, the same block with windows of [frames_per_second] and of
    [frames_per_second * 60] frames. *)
Definition window_block (passed : bool) (window : Z)
    (make : Z -> list (list detection) -> list (gmap string Z) -> gmap string Z -> bool
            -> callback)
    (call : video_call) (s : scan) : result scan :=
  if passed && negb (n_frame s =? 1) then
    m ← py_mod (n_frame s) window;
    if m =? 0 then
      '(objects, counts, average) ← window_summary s window;
      Ok (push_call s (make (int_div (n_frame s) window) objects counts average
                            (return_detected_frame call)))
    else Ok s
  else Ok s.

(** One turn of the [while] loop on a frame that was read.  The boolean
    tells whether the turn ended in [break].  The frame buffer is reduced
    to [tt]; [add_region_of_interest_to_frame] is called on it outside
    every [try], at line 1103 and at line 1151. *)
Definition process_frame (call : video_call) (frames_per_second : Z)
    (frame : frame_outcome) (s : scan) : result (scan * bool) :=
  let n := n_frame s + 1 in
  _ ← (if log_progress call then py_mod n (frame_detection_interval call) else Ok 0);
  if performance_mode call then
    due ← detection_due call n;
    (* the objects found are drawn on the frame and kept nowhere else *)
    detected_frame ← add_region_of_interest_to_frame tt (video_region_of_interest call);
    Ok (mkScan n (output_frames_dict s) (output_frames_count_dict s)
               (detection_timeout_count s) (calls s), false)
  else
    '(count, broke) ← check_timeout call frames_per_second n (detection_timeout_count s);
    if (broke : bool) then
      Ok (mkScan n (output_frames_dict s) (output_frames_count_dict s) count (calls s), true)
    else
      due ← detection_due call n;
      let output_objects_array := if (due : bool) then try_except frame [] else [] in
      let output_objects_count := count_objects output_objects_array in
      let s := mkScan n (<[n := output_objects_array]> (output_frames_dict s))
                      (<[n := output_objects_count]> (output_frames_count_dict s))
                      count (calls s) in
      detected_frame ← add_region_of_interest_to_frame tt (video_region_of_interest call);
      s ← per_frame_block call output_objects_array output_objects_count s;
      s ← window_block (per_second_function call) frames_per_second PerSecond call s;
      s ← window_block (per_minute_function call) (frames_per_second * 60) PerMinute call s;
      Ok (s, false).

(** The [while] loop: it ends when no frame is left or a turn breaks. *)
Fixpoint scan_frames (call : video_call) (frames_per_second : Z)
    (frames : list frame_outcome) (s : scan) : result scan :=
  match frames with
  | [] => Ok s
  | frame :: rest =>
      '(s', broke) ← process_frame call frames_per_second frame s;
      if (broke : bool) then Ok s' else scan_frames call frames_per_second rest s'
  end.

(** The block after the loop: the whole history and the counts divided
    by [n_frame]. *)
Definition video_complete (call : video_call) (s : scan) : result scan :=
  if video_complete_function call then
    '(this_video_output_object_array, this_video_counting_array) ←
      for_each (fun idx acc =>
                  objects ← py_getitem (output_frames_dict s) (idx + 1);
                  counts ← py_getitem (output_frames_count_dict s) (idx + 1);
                  Ok (acc.1 ++ [objects], acc.2 ++ [counts]))
               (seqZ 0 (n_frame s)) ([], []);
    let this_video_counting := sum_counts this_video_counting_array in
    Ok (push_call s (VideoComplete this_video_output_object_array this_video_counting_array
                       ((fun total => (inject_Z total / inject_Z (n_frame s))%Q)
                          <$> this_video_counting)))
  else Ok s.

(** The video is the frames the capture yields, each with what the
    detector does on it. *)
Definition detectObjectsFromVideo (self_model_type : string) (call : video_call)
    (frames_per_second : Z) (frames : list frame_outcome) : result scan :=
  if bool_decide (self_model_type = "yolov3") then
    s ← scan_frames call frames_per_second frames scan_start;
    video_complete call s
  else Ok scan_start.

(** * Vocabulary of the statements *)

(** Whether the centre of a box lies outside the region. *)
Definition roi_outside (x0 x1 y0 y1 : Z) (box : BoundBox) : bool :=
  negb (in_range (py_int ((xmax box + xmin box) / 2)) x0 x1)
  || negb (in_range (py_int ((ymax box + ymin box) / 2)) y0 y1).


(** What C5 says of one box that [decode_netout] returns: its objectness
    is the sigmoid of the objectness channel of a cell of the grid and
    exceeds the threshold, and each class score is zero or exceeds the
    threshold. *)
Definition gated (np_exp : Q -> Q) (netout : ndarray3) (last : nat) (obj_thresh : Q)
    (box : BoundBox) : Prop :=
  (exists row col b : nat,
      (row < shape_h netout)%nat /\ (col < shape_w netout)%nat /\ (b < nb_box)%nat
      /\ objness box = _sigmoid np_exp (at3 netout row col (b * last + 4)%nat))
  /\ (obj_thresh < objness box)%Q
  /\ Forall (fun score => (score == 0)%Q \/ (obj_thresh < score)%Q) (classes box).

(** A box whose corners are in order. *)
Definition ordered (box : BoundBox) : Prop :=
  (xmin box <= xmax box)%Q /\ (ymin box <= ymax box)%Q.

(** What is asked of the rounding of a float format: it keeps the order
    and it keeps zero.  Rounding to nearest does both, in every format. *)
Definition rounding (rnd : Q -> Q) : Prop :=
  (forall a b, (a <= b)%Q -> (rnd a <= rnd b)%Q) /\ (rnd 0 == 0)%Q.

(** What C7 says of a decoded box [box] and the same box after
    [correct_yolo_boxes]: each corner is the integer part of the float
    product of the corner of [box] and the image size, and the corners
    are in order. *)
Definition pixel_box (rnd : Q -> Q) (image_h image_w : Z) (box box' : BoundBox) : Prop :=
  xmin box' = inject_Z (py_int (fl_mul rnd (xmin box) image_w))
  /\ xmax box' = inject_Z (py_int (fl_mul rnd (xmax box) image_w))
  /\ ymin box' = inject_Z (py_int (fl_mul rnd (ymin box) image_h))
  /\ ymax box' = inject_Z (py_int (fl_mul rnd (ymax box) image_h))
  /\ ordered box'.

(** Two rectangles that do not overlap: one lies left of, right of, above
    or below the other; they may touch. *)
Definition apart (box1 box2 : BoundBox) : Prop :=
  (xmax box1 <= xmin box2)%Q \/ (xmax box2 <= xmin box1)%Q
  \/ (ymax box1 <= ymin box2)%Q \/ (ymax box2 <= ymin box1)%Q.

(** A box retains class [c] when it carries a score for it that is not zero. *)
Definition retains (box : BoundBox) (c : nat) : Prop :=
  exists v, classes box !! c = Some v /\ py_truthy v = true.

(** [box'] is [box] with, at most, its score for class [c] set to zero. *)
Definition zeroed (c : nat) (box box' : BoundBox) : Prop :=
  box' = box \/ box' = set_class c 0 box.

(** [box'] has the corners of [box] and its score for class [c]. *)
Definition keeps_class (c : nat) (box box' : BoundBox) : Prop :=
  xmin box' = xmin box /\ ymin box' = ymin box
  /\ xmax box' = xmax box /\ ymax box' = ymax box
  /\ length (classes box') = length (classes box)
  /\ classes box' !! c = classes box !! c.

(** No two boxes that retain class [c] overlap by [t] or more. *)
Definition suppressed (t : Q) (c : nat) (boxes : list BoundBox) : Prop :=
  forall x y box_x box_y,
    x <> y -> boxes !! x = Some box_x -> boxes !! y = Some box_y ->
    retains box_x c -> retains box_y c ->
    ((bbox_iou box_x box_y < t)%Q \/ (bbox_iou box_y box_x < t)%Q)
    /\ (ordered box_x -> ordered box_y -> (bbox_iou box_x box_y < t)%Q).

(** What [np.argsort] promises: the indices of the keys, each once, in
    ascending order of key. *)
Definition argsort_spec (argsort : list Q -> list nat) : Prop :=
  forall keys,
    Permutation (argsort keys) (seq 0 (length keys))
    /\ StronglySorted (fun a b => (nth a keys 0 <= nth b keys 0)%Q) (argsort keys).

(** The corners of a box. *)
Definition corners (box : BoundBox) : Q * Q * Q * Q :=
  (xmin box, ymin box, xmax box, ymax box).

(** The list of dictionaries in what [detectObjectsFromImage] returns. *)
Definition returned_objects (ret : image_return) : list detection :=
  match ret with
  | ReturnNone => []
  | ReturnObjects objects
  | ReturnObjectsPaths objects _
  | ReturnImageObjects _ objects
  | ReturnImageObjectsArrays _ objects _ => objects
  end.

(** The boxes of an image after [decode_netout] on every scale and
    [correct_yolo_boxes]. *)
Definition corrected_boxes (np_exp : Q -> Q) (self : CustomObjectDetection)
    (call : image_call) (im : image) (yolo_results : list ndarray3)
  : result (list BoundBox) :=
  boxes ← decode_all np_exp self (minimum_percentage_probability call / 100)%Q yolo_results;
  correct_yolo_boxes boxes (im_height im) (im_width im) (input_size self) (input_size self).

(** The same call with another [output_type]. *)
Definition with_output_type (call : image_call) (ot : string) : image_call :=
  mkImageCall (input_image call) (output_image_path call) (input_type call) ot
              (extract_detected_objects call) (minimum_percentage_probability call)
              (nms_threshold call) (region_of_interest call).

(** Whether the network was run: a [Predict] among the events. *)
Definition predicted (tr : list io_event) : Prop := exists im, Predict im ∈ tr.

(** A region that [add_region_of_interest_to_frame] can draw or leaves
    alone: none, an empty list, or a list of four entries or more. *)
Definition drawable (region_of_interest : option (list Z)) : Prop :=
  match region_of_interest with
  | Some (x :: rest) => (3 <= length rest)%nat
  | _ => True
  end.

(** What the frame loop records for frame [n]: the objects of the
    detector on the frames where detection is due, nothing on the others
    and where the detector raises. *)
Definition recorded (call : video_call) (n : Z) (frame : frame_outcome) : list detection :=
  if (n =? 1) || (n mod frame_detection_interval call =? 0)
  then try_except frame [] else [].

Definition history (call : video_call) (frames : list frame_outcome)
  : list (list detection) :=
  imap (fun i frame => recorded call (Z.of_nat i + 1) frame) frames.

(** No timeout cuts a scan of [n] frames short. *)
Definition uncut (call : video_call) (frames_per_second n : Z) : Prop :=
  match timeout_set (detection_timeout call) with
  | Some t => n < frames_per_second * t
  | None => True
  end.

(** What holds of the local variables between two turns of the loop: the
    frames 1 to [n_frame], and no other, are in the two dictionaries, and
    the timeout count is the number of whole seconds read. *)
Definition scan_inv (call : video_call) (frames_per_second : Z) (s : scan) : Prop :=
  0 <= n_frame s
  /\ (forall k, 1 <= k <= n_frame s ->
        is_Some (output_frames_dict s !! k)
        /\ is_Some (output_frames_count_dict s !! k))
  /\ (forall k, n_frame s < k -> output_frames_dict s !! k = None)
  /\ (forall t, timeout_set (detection_timeout call) = Some t ->
        frames_per_second * detection_timeout_count s <= n_frame s
        < frames_per_second * (detection_timeout_count s + 1)).

(** The frames on which the per-second function is due. *)
Definition on_the_second (frames_per_second : Z) (k : Z) : Prop :=
  k <> 1 /\ k mod frames_per_second = 0.

#[global] Instance on_the_second_dec (frames_per_second k : Z) :
  Decision (on_the_second frames_per_second k).
Proof. unfold on_the_second. apply _. Defined.

(** * Concrete inputs *)

(** A rational stand-in for [np.exp]: [1 + x] right of zero and
    [1 / (1 - x)] left of it; positive and increasing, one at zero. *)
Definition np_exp_rational (x : Q) : Q :=
  if Qle_bool 0 x then (1 + x)%Q else (1 / (1 - x))%Q.

(** A toy rounding, to the nearest multiple of [step], halves upwards. *)
Definition round_to (step : Q) (x : Q) : Q :=
  (inject_Z (Qfloor (x / step + (1 # 2))) * step)%Q.

(** The anchors of the coarsest scale of YOLOv3. *)
Definition sample_anchors : list Q := [116; 90; 156; 198; 373; 326]%Q.

(** A 2 x 2 grid with three slots of six channels: one class.  The slot
    [b = 1] of the cell [(0, 1)] has objectness logit 2; every other slot
    has objectness logit -3.  Class logits are 3, the rest is 1/4. *)
Definition sample_netout : ndarray3 :=
  mkArray 2 2 18
    (fun row col k =>
       if (k mod 6 =? 4)%nat then
         if ((row =? 0) && (col =? 1) && (k =? 10))%nat then 2%Q else (-3)%Q
       else if (k mod 6 =? 5)%nat then 3%Q
       else (1 # 4)%Q).

(** A box reduced to a point, and two boxes of positive area. *)
Definition point_box : BoundBox := mkBoundBox 0 0 0 0 1 [1%Q].
Definition unit_box : BoundBox := mkBoundBox 0 0 1 1 1 [1%Q].
Definition far_box : BoundBox := mkBoundBox 5 5 6 6 1 [1%Q].

(** Two boxes of one class that overlap by 9/10, with scores 9/10 and 8/10. *)
Definition strong_box : BoundBox := mkBoundBox 0 0 10 10 1 [(9 # 10)%Q].
Definition weak_box : BoundBox := mkBoundBox 0 0 10 9 1 [(8 # 10)%Q].

(** A loaded detector of one class with the sample anchors, and a call on
    an array of 480 rows and 640 columns that asks for the array back. *)
Definition sample_detector : CustomObjectDetection :=
  mkDetector true "yolov3" ["person"] [sample_anchors] 416.
Definition sample_image : image := mkImage 480 640.
Definition sample_call : image_call :=
  mkImageCall (InArray sample_image) "" "array" "array" false 50 (4 # 10) None.
Definition no_suffix (path : string) : string * Z := (path, 0).
Definition no_file (path : string) : option image := None.
Definition sample_predict (im : image) : list ndarray3 := [sample_netout].

(** The sample call with an [output_type], and with an [input_type], that
    the function does not know. *)
Definition stream_output_call : image_call := with_output_type sample_call "stream".
Definition stream_input_call : image_call :=
  mkImageCall (InArray sample_image) "" "stream" "array" false 50 (4 # 10) None.

(** A detection named [who], and calls of [detectObjectsFromVideo] with
    every callback passed; [timed_video_call] adds a timeout of one
    second, [fast_video_call] sets the performance mode. *)
Definition seen (who : string) : detection := mkDetection who 60 [0; 0; 1; 1]%Q.
Definition plain_video_call : video_call :=
  mkVideoCall 1 false false true true true true false None None.
Definition timed_video_call : video_call :=
  mkVideoCall 1 false false true true true true false (Some 1) None.
Definition fast_video_call : video_call :=
  mkVideoCall 1 false true true true true true false None None.

(** A video of [n] frames with one person on each. *)
Definition person_video (n : nat) : list frame_outcome :=
  replicate n (Ok [seen "person"]).

(** The frames at which the per-second function, and the end-of-video
    function, were called. *)
Definition per_second_frames (calls : list (Z * callback)) : list Z :=
  omap (fun '(n, c) => match c with PerSecond _ _ _ _ _ => Some n | _ => None end) calls.
Definition video_complete_calls (calls : list (Z * callback)) : list callback :=
  omap (fun '(n, c) => match c with VideoComplete _ _ _ => Some c | _ => None end) calls.

(** The arguments of the end-of-video function after a scan of [frames]:
    the history, the counts of every frame, and the counts summed and
    divided by the number of frames. *)
Definition video_summary (call : video_call) (frames : list frame_outcome) : callback :=
  let objects := history call frames in
  let counts := map count_objects objects in
  VideoComplete objects counts
    ((fun total => (inject_Z total / inject_Z (Z.of_nat (length frames)))%Q)
       <$> sum_counts counts).

(** Performance mode with the per-second function alone. *)
Definition fast_second_call : video_call :=
  mkVideoCall 1 false true false true false false false None None.

(** Three frames; the detector raises on the second. *)
Definition faulty_video : list frame_outcome :=
  [Ok [seen "person"]; Raise TypeError; Ok [seen "person"]].

(** The dictionary that the sample call returns. *)
Definition sample_detection : detection :=
  mkDetection "person" (1200 # 20) [347; -9; 647; 276]%Q.

(** * Further code of the module *)

From Stdlib Require DecimalString DecimalZ DecimalPos.

(** ** BoundBox: the label and the score *)

(** A box as [BoundBox.__init__] leaves it and [get_label] and
    [get_score] update it: [label] is [None] for the [-1] of the
    constructor, an index of [classes] afterwards; [score] is [-1] until
    [get_score] stores a class score. *)
Record scored_box : Type := mkScoredBox {
  bound_box : BoundBox;
  label : option nat;
  score : Q
}.

Definition new_box (box : BoundBox) : scored_box := mkScoredBox box None (-1).

(** [np.argmax] of a vector: the first index of its greatest entry. *)
Fixpoint np_argmax_from (best : nat) (best_value : Q) (i : nat) (values : list Q) : nat :=
  match values with
  | [] => best
  | v :: rest =>
      if Qltb best_value v then np_argmax_from i v (S i) rest
      else np_argmax_from best best_value (S i) rest
  end.

Definition np_argmax (values : list Q) : result nat :=
  match values with
  | [] => Raise ValueError
  | v :: rest => Ok (np_argmax_from 0 v 1 rest)
  end.

Definition get_label (self : scored_box) : result (nat * scored_box) :=
  match label self with
  | None =>
      l ← np_argmax (classes (bound_box self));
      Ok (l, mkScoredBox (bound_box self) (Some l) (score self))
  | Some l => Ok (l, self)
  end.

Definition get_score (self : scored_box) : result (Q * scored_box) :=
  if Qeq_bool (score self) (-1) then
    '(l, self) ← get_label self;
    v ← py_index (classes (bound_box self)) l;
    Ok (v, mkScoredBox (bound_box self) (label self) v)
  else Ok (score self, self).

(** [box.classes = cs] on a box that carries a label and a score. *)
Definition with_classes (self : scored_box) (cs : list Q) : scored_box :=
  mkScoredBox (set_classes (bound_box self) cs) (label self) (score self).

(** ** DetectionModelTrainer: the GPUs *)

(** The character [,]. *)
Definition comma : Ascii.ascii :=
  Ascii.Ascii false false true true false true false false.

(** [s.split(',')] *)
Fixpoint split_comma (s : string) : list string :=
  match s with
  | EmptyString => [EmptyString]
  | String c rest =>
      if Ascii.eqb c comma then EmptyString :: split_comma rest
      else match split_comma rest with
           | piece :: pieces => String c piece :: pieces
           | [] => [String c EmptyString]
           end
  end.

(** [','.join(pieces)] *)
Definition join_comma (pieces : list string) : string := String.concat "," pieces.

(** [str(gpu)] of an int: its decimal digits, after a minus sign below
    zero. *)
Definition str_of_int (z : Z) : string :=
  DecimalString.NilZero.string_of_int (Z.to_int z).

(** What [setGpuUsage] accepts: a string, a number of GPUs, a list of
    GPU ids. *)
Inductive gpus : Type :=
| GpusString (s : string)
| GpusInt (n : Z)
| GpusList (ids : list Z).

(** The value that [setGpuUsage] stores in [__train_gpus]; [str] of a
    piece of a string is the piece. *)
Definition setGpuUsage (train_gpus : gpus) : string :=
  match train_gpus with
  | GpusString s => join_comma (split_comma s)
  | GpusInt n => join_comma (map str_of_int (seqZ 0 n))
  | GpusList ids => join_comma (map str_of_int ids)
  end.

(** Line 267, in [trainModel]:
    [multi_gpu = [int(gpu) for gpu in self.__train_gpus.split(',')]];
    [int] on strings is a parameter. *)
Definition multi_gpu (int_of_str : string -> result Z) (train_gpus : string)
  : result (list Z) :=
  traverse int_of_str (split_comma train_gpus).

(** ** DetectionModelTrainer: the training instances *)

(** [int(round(x))]: to the nearest integer, a tie to the even one. *)
Definition py_round (x : Q) : Z :=
  let f := Qfloor x in
  let r := (x - inject_Z f)%Q in
  if Qltb r (1 # 2) then f
  else if Qltb (1 # 2) r then f + 1
  else if Z.even f then f else f + 1.

(** [max(values)] on a list of ints. *)
Definition py_max (values : list Z) : result Z :=
  match values with
  | [] => Raise ValueError
  | v :: rest => Ok (fold_left Z.max rest v)
  end.

Section TrainingInstances.

(** An instance is what [parse_voc_annotation] returns for one image;
    [object_count inst] is [len(inst['object'])].  [shuffle] is
    [np.random.shuffle] after [np.random.seed(0)], [sorted] is the
    builtin on a list of strings. *)
Context {instance : Type}.
Variable object_count : instance -> Z.
Variable shuffle : list instance -> list instance.
Variable sorted : list string -> list string.

(** [parsed_train] and [parsed_valid] are the results of
    [parse_voc_annotation] on the two folders, the second being [None]
    when the validation folder does not exist; a dictionary of seen labels
    is the list of its items.  The value [None] is the tuple of four
    [None]. *)
Definition _create_training_instances
    (parsed_train : list instance * list (string * Z))
    (parsed_valid : option (list instance * list (string * Z)))
    (labels : list string)
  : result (option (list instance * list instance * list string * Z)) :=
  let '(train_ints, train_labels) := parsed_train in
  let '(train_ints, valid_ints) :=
    match parsed_valid with
    | Some (valid_ints, valid_labels) => (train_ints, valid_ints)
    | None =>
        let train_valid_split :=
          Z.to_nat (py_round ((8 # 10) * inject_Z (Z.of_nat (length train_ints)))) in
        let train_ints := shuffle train_ints in
        (take train_valid_split train_ints, drop train_valid_split train_ints)
    end in
  if (0 <? length labels)%nat then
    let overlap_labels : gset string :=
      list_to_set labels ∩ list_to_set (map fst train_labels) in
    if (size overlap_labels <? length labels)%nat then Ok None
    else
      max_box_per_image ← py_max (map object_count (train_ints ++ valid_ints));
      Ok (Some (train_ints, valid_ints, sorted labels, max_box_per_image))
  else
    let labels := map fst train_labels in
    max_box_per_image ← py_max (map object_count (train_ints ++ valid_ints));
    Ok (Some (train_ints, valid_ints, sorted labels, max_box_per_image)).

End TrainingInstances.

(** * Vocabulary of the further statements *)

(** A box with every score that is not zero set to zero: what [RoI]
    makes of a box whose centre lies outside the region. *)
Definition roi_zeroed (box : BoundBox) : BoundBox :=
  set_classes box (map (fun v => if py_truthy v then 0%Q else v) (classes box)).

(** [box'] is [box] with some of its scores set to zero. *)
Definition only_zeroed (box box' : BoundBox) : Prop :=
  corners box' = corners box /\ objness box' = objness box
  /\ Forall2 (fun v v' => v' = v \/ v' = 0%Q) (classes box) (classes box').

(** What [get_boxes] appends for label [i] of a box, if anything. *)
Definition select_label (labels : list string) (thresh : Q) (box : BoundBox) (i : nat)
  : option (BoundBox * string * Q) :=
  match classes box !! i, labels !! i with
  | Some score, Some label =>
      if Qltb thresh score then Some (box, label, (score * 100)%Q) else None
  | _, _ => None
  end.

(** The entries that a box contributes, in the order of the labels. *)
Definition selected (labels : list string) (thresh : Q) (box : BoundBox)
  : list (BoundBox * string * Q) :=
  omap (select_label labels thresh box) (seq 0 (length labels)).

(** The three parallel lists of a list of entries. *)
Definition unzip3 {A B C : Type} (l : list (A * B * C)) : list A * list B * list C :=
  (map (fun e => e.1.1) l, map (fun e => e.1.2) l, map (fun e => e.2) l).

(** [box] carries a score for class [c] that no box of the list exceeds. *)
Definition greatest_score (c : nat) (boxes : list BoundBox) (box : BoundBox) : Prop :=
  exists v, classes box !! c = Some v
    /\ forall other w, other ∈ boxes -> classes other !! c = Some w -> (w <= v)%Q.

(** The timeout does not end the loop on the first frame: performance
    mode has no timeout, and otherwise either none is set or it is of
    more than one second, on a video whose frame rate is not zero. *)
Definition first_frame_uncut (call : video_call) (frames_per_second : Z) : Prop :=
  performance_mode call = true
  \/ match timeout_set (detection_timeout call) with
     | Some t => frames_per_second <> 0 /\ 1 < t
     | None => True
     end.

(** The box at the index [k] carries a score for class [c] that is above
    the score of every other box of the list. *)
Definition strictly_best (c : nat) (boxes : list BoundBox) (k : nat) : Prop :=
  exists box v, boxes !! k = Some box /\ classes box !! c = Some v
    /\ forall j other w, j <> k -> boxes !! j = Some other ->
                         classes other !! c = Some w -> (w < v)%Q.

(** The box that [decode_netout] builds for the slot [b] of the cell
    [(row, col)], with the anchor of the slot. *)
Definition cell_box (np_exp : Q -> Q) (netout : ndarray3) (last : nat) (obj_thresh : Q)
    (net_h net_w : Z) (anchor_w anchor_h : Q) (row col b : nat) : BoundBox :=
  let v := decoded_slot np_exp obj_thresh (fun k => at3 netout row col (b * last + k)%nat) in
  let x := ((inject_Z (Z.of_nat col) + v 0%nat) / inject_Z (Z.of_nat (shape_w netout)))%Q in
  let y := ((inject_Z (Z.of_nat row) + v 1%nat) / inject_Z (Z.of_nat (shape_h netout)))%Q in
  let w := (anchor_w * np_exp (v 2%nat) / inject_Z net_w)%Q in
  let h := (anchor_h * np_exp (v 3%nat) / inject_Z net_h)%Q in
  mkBoundBox (x - w / 2) (y - h / 2) (x + w / 2) (y + h / 2)
             (v 4%nat) (map v (seq 5 (last - 5))).

(** The centre of a box. *)
Definition x_centre (box : BoundBox) : Q := ((xmin box + xmax box) / 2)%Q.
Definition y_centre (box : BoundBox) : Q := ((ymin box + ymax box) / 2)%Q.

(** The entries of [detected_objects_image_array] for the objects found:
    a path in the objects directory for every object, or a crop of the
    image at its [box_points]. *)
Definition extracted_entries (call : image_call) (output_image_folder : string)
    (objects : list detection) : list extracted :=
  if bool_decide (output_type call = "file") then
    imap (fun cnt o => ExtractedPath (String.append output_image_folder "-objects")
                                     (name o) cnt) objects
  else if bool_decide (output_type call = "array") then
    map (fun o => ExtractedArray (box_points o)) objects
  else [].

(** An object whose crop has a row and a column. *)
Definition croppable (image_frame : image) (o : detection) : Prop :=
  exists crop, splitted_image image_frame o = Ok crop /\ empty_image crop = false.

(** An object whose crop lacks a row or a column. *)
Definition empty_crop (image_frame : image) (o : detection) : Prop :=
  exists crop, splitted_image image_frame o = Ok crop /\ empty_image crop = true.

(** Whether an event writes to the disk. *)
Definition writes (e : io_event) : bool :=
  match e with
  | MakeDirs _ | ImWriteObject _ | ImWrite _ => true
  | ImRead _ | Predict _ => false
  end.

(** How many objects of a list carry the name [nm]. *)
Definition occurrences (nm : string) (objects : list detection) : nat :=
  length (filter (fun o => name o = nm) objects).

(** A count the way a dictionary of counts holds it: no entry for zero. *)
Definition count_entry (k : nat) : option Z :=
  if (k =? 0)%nat then None else Some (Z.of_nat k).

(** The call that a windowed block makes at the frame that ends the
    history [hist]: the frames of the window are the last [window] ones. *)
Definition window_call (passed : bool) (window : Z)
    (make : Z -> list (list detection) -> list (gmap string Z) -> gmap string Z -> bool
            -> callback)
    (call : video_call) (hist : list (list detection)) : list (Z * callback) :=
  if passed && negb (Z.of_nat (length hist) =? 1) then
    if Z.of_nat (length hist) mod window =? 0 then
      [(Z.of_nat (length hist),
        make (int_div (Z.of_nat (length hist)) window)
             (drop (Z.to_nat (Z.of_nat (length hist) - window)) hist)
             (map count_objects (drop (Z.to_nat (Z.of_nat (length hist) - window)) hist))
             ((fun total => int_div total window)
                <$> sum_counts
                      (map count_objects
                           (drop (Z.to_nat (Z.of_nat (length hist) - window)) hist)))
             (return_detected_frame call))]
    else []
  else [].

(** The calls at the frame that ends the history [hist], in their order. *)
Definition frame_calls (call : video_call) (frames_per_second : Z)
    (hist : list (list detection)) : list (Z * callback) :=
  (if per_frame_function call
      && ((Z.of_nat (length hist) =? 1)
          || (Z.of_nat (length hist) mod frame_detection_interval call =? 0))
   then [(Z.of_nat (length hist),
          PerFrame (Z.of_nat (length hist)) (default [] (last hist))
                   (count_objects (default [] (last hist)))
                   (return_detected_frame call))]
   else [])
  ++ window_call (per_second_function call) frames_per_second PerSecond call hist
  ++ window_call (per_minute_function call) (frames_per_second * 60) PerMinute call hist.

(** The calls of a scan of [frames], the end-of-video function apart. *)
Definition expected_calls (call : video_call) (frames_per_second : Z)
    (frames : list frame_outcome) : list (Z * callback) :=
  concat (map (fun k => frame_calls call frames_per_second (take k (history call frames)))
              (seq 1 (length frames))).

(** A string without a comma. *)
Fixpoint no_comma (s : string) : bool :=
  match s with
  | EmptyString => true
  | String c rest => negb (Ascii.eqb c comma) && no_comma rest
  end.

(** [m] is the greatest entry of [values] and [k] the first index where
    it occurs. *)
Definition first_greatest (values : list Q) (k : nat) (m : Q) : Prop :=
  values !! k = Some m
  /\ Forall (fun v => (v <= m)%Q) values
  /\ (forall j v, (j < k)%nat -> values !! j = Some v -> (v < m)%Q).

(** * Further concrete inputs *)

(** The sample call with a region of interest that is the whole image. *)
Definition region_call : image_call :=
  mkImageCall (InArray sample_image) "" "array" "array" false 50 (4 # 10)
              (Some [0; 640; 0; 480]).

(** A stand-in for [re.subn] on the path ["out.jpg"]: the suffix is
    matched and removed. *)
Definition jpg_suffix (path : string) : string * Z := ("out", 1).

(** A call on the sample array that writes the drawn image and the
    objects to files, and the same call with an [input_type] that the
    function does not know. *)
Definition file_call : image_call :=
  mkImageCall (InArray sample_image) "out.jpg" "array" "file" true 50 (4 # 10) None.
Definition stream_file_call : image_call :=
  mkImageCall (InArray sample_image) "out.jpg" "stream" "file" true 50 (4 # 10) None.

(** The sample grid with the objectness of the slot [b = 1] of the cell
    [(1, 0)] raised instead: its box lies inside the image on the left
    and at the top. *)
Definition inner_netout : ndarray3 :=
  mkArray 2 2 18
    (fun row col k =>
       if (k mod 6 =? 4)%nat then
         if ((row =? 1) && (col =? 0) && (k =? 10))%nat then 2%Q else (-3)%Q
       else if (k mod 6 =? 5)%nat then 3%Q
       else (1 # 4)%Q).
Definition inner_predict (im : image) : list ndarray3 := [inner_netout].
Definition inner_detection : detection :=
  mkDetection "person" (1200 # 20) [27; 230; 327; 516]%Q.


(** A call with the per-second function alone and a timeout of two
    seconds. *)
Definition timed_second_call : video_call :=
  mkVideoCall 1 false false false true false false false (Some 2) None.

(** A call whose region of interest has two coordinates. *)
Definition short_region_call : video_call :=
  mkVideoCall 1 false false true true true true false None (Some [10; 20]).

(** A reader of decimal digits for [int] on strings: it accepts what
    [str] prints of an int and refuses the empty string. *)
Definition decimal_int (s : string) : result Z :=
  match DecimalString.NilZero.int_of_string s with
  | Some d => Ok (Z.of_int d)
  | None => Raise ValueError
  end.

(** Two labels that are the same one, on a dataset that shows it. *)
Definition twice_cat : list string := ["cat"; "cat"].
Definition cat_dataset : list nat * list (string * Z) := ([2%nat; 1%nat], [("cat", 3)]).
(** * Properties *)

(** ** Booleans on rationals *)

Lemma Qltb_true (x y : Q) : Qltb x y = true <-> (x < y)%Q.
Proof.
  unfold Qltb. rewrite negb_true_iff. split.
  - intros H. apply Qnot_le_lt. intros Hle. apply Qle_bool_iff in Hle. congruence.
  - intros H. destruct (Qle_bool y x) eqn:E; [|reflexivity].
    apply Qle_bool_iff in E. exfalso. exact (Qlt_not_le _ _ H E).
Qed.

Lemma Qltb_false (x y : Q) : Qltb x y = false <-> (y <= x)%Q.
Proof.
  unfold Qltb. rewrite negb_false_iff. apply Qle_bool_iff.
Qed.

Lemma py_truthy_true (x : Q) : py_truthy x = true <-> ~ (x == 0)%Q.
Proof.
  unfold py_truthy. rewrite negb_true_iff. split.
  - intros H. apply Qeq_bool_neq. exact H.
  - intros H. destruct (Qeq_bool x 0) eqn:E; [|reflexivity].
    apply Qeq_bool_eq in E. contradiction.
Qed.

Lemma py_truthy_zero : py_truthy 0 = false.
Proof. reflexivity. Qed.

(** ** Intersection over union *)

Lemma bbox_iou_unfold (box1 box2 : BoundBox) :
  bbox_iou box1 box2 =
    if Qeq_bool (union_of box1 box2) 0 then 0%Q
    else (intersect_of box1 box2 / union_of box1 box2)%Q.
Proof.
  unfold bbox_iou, py_truediv, try_except.
  destruct (Qeq_bool (union_of box1 box2) 0); reflexivity.
Qed.

Lemma _interval_overlap_self (lo hi : Q) :
  (lo <= hi)%Q -> (_interval_overlap (lo, hi) (lo, hi) == hi - lo)%Q.
Proof.
  intros Hle. unfold _interval_overlap.
  assert (H1 : Qltb lo lo = false) by (apply Qltb_false; apply Qle_refl).
  assert (H2 : Qltb hi lo = false) by (apply Qltb_false; exact Hle).
  rewrite H1, H2. rewrite Q.min_id. reflexivity.
Qed.

Lemma bbox_iou_disjoint (box1 box2 : BoundBox) :
  (intersect_of box1 box2 == 0)%Q -> (bbox_iou box1 box2 == 0)%Q.
Proof.
  intros H. rewrite bbox_iou_unfold.
  destruct (Qeq_bool (union_of box1 box2) 0); [reflexivity|].
  rewrite H. unfold Qdiv. apply Qmult_0_l.
Qed.

(** Intervals that lie apart, or only touch, overlap by zero. *)
Lemma _interval_overlap_apart (x1 x2 x3 x4 : Q) :
  (x1 <= x2)%Q -> (x3 <= x4)%Q -> (x2 <= x3)%Q \/ (x4 <= x1)%Q ->
  (_interval_overlap (x1, x2) (x3, x4) == 0)%Q.
Proof.
  intros H12 H34 Hapart. unfold _interval_overlap.
  destruct (Qltb x3 x1) eqn:E1.
  - apply Qltb_true in E1. destruct (Qltb x4 x1) eqn:E2; [reflexivity|].
    apply Qltb_false in E2.
    destruct (Q.min_spec x2 x4) as [[Hlt Hmin]|[Hle Hmin]]; rewrite Hmin;
      destruct Hapart; lra.
  - apply Qltb_false in E1. destruct (Qltb x2 x3) eqn:E2; [reflexivity|].
    apply Qltb_false in E2.
    destruct (Q.min_spec x2 x4) as [[Hlt Hmin]|[Hle Hmin]]; rewrite Hmin;
      destruct Hapart; lra.
Qed.

Lemma intersect_of_apart (box1 box2 : BoundBox) :
  ordered box1 -> ordered box2 -> apart box1 box2 ->
  (intersect_of box1 box2 == 0)%Q.
Proof.
  intros [Hx1 Hy1] [Hx2 Hy2] Hapart. unfold intersect_of. cbv zeta.
  destruct Hapart as [H|[H|[H|H]]].
  - rewrite (_interval_overlap_apart _ _ _ _ Hx1 Hx2) by (left; exact H).
    apply Qmult_0_l.
  - rewrite (_interval_overlap_apart _ _ _ _ Hx1 Hx2) by (right; exact H).
    apply Qmult_0_l.
  - rewrite (_interval_overlap_apart _ _ _ _ Hy1 Hy2) by (left; exact H).
    apply Qmult_0_r.
  - rewrite (_interval_overlap_apart _ _ _ _ Hy1 Hy2) by (right; exact H).
    apply Qmult_0_r.
Qed.

Lemma bbox_iou_degenerate (box1 box2 : BoundBox) :
  (union_of box1 box2 == 0)%Q -> bbox_iou box1 box2 = 0%Q.
Proof.
  intros H. rewrite bbox_iou_unfold.
  rewrite (Qeq_eq_bool _ _ H). reflexivity.
Qed.

Lemma bbox_iou_identical (box : BoundBox) :
  (xmin box < xmax box)%Q -> (ymin box < ymax box)%Q ->
  (bbox_iou box box == 1)%Q.
Proof.
  intros Hx Hy.
  assert (Hi : (intersect_of box box == (xmax box - xmin box) * (ymax box - ymin box))%Q).
  { unfold intersect_of.
    rewrite (_interval_overlap_self _ _ (Qlt_le_weak _ _ Hx)).
    rewrite (_interval_overlap_self _ _ (Qlt_le_weak _ _ Hy)). reflexivity. }
  assert (Hu : (union_of box box == (xmax box - xmin box) * (ymax box - ymin box))%Q).
  { unfold union_of. rewrite Hi. ring. }
  assert (Hpos : (0 < (xmax box - xmin box) * (ymax box - ymin box))%Q).
  { apply Qmult_lt_0_compat; unfold Qminus; apply (proj1 (Qlt_minus_iff _ _)); assumption. }
  rewrite bbox_iou_unfold.
  destruct (Qeq_bool (union_of box box) 0) eqn:E.
  - apply Qeq_bool_eq in E. rewrite Hu in E. rewrite E in Hpos.
    exfalso. exact (Qlt_irrefl _ Hpos).
  - rewrite Hi, Hu. apply Qmult_inv_r.
    intros H0. rewrite H0 in Hpos. exact (Qlt_irrefl _ Hpos).
Qed.

(** ** Region of interest *)

Lemma py_setitem_lookup {A : Type} (l : list A) (i : nat) (v w : A) :
  l !! i = Some v -> py_setitem l i w = Ok (<[i := w]> l).
Proof.
  intros H. unfold py_setitem.
  apply lookup_lt_Some in H. apply Nat.ltb_lt in H. rewrite H. reflexivity.
Qed.

Lemma RoI_class_step (x0 x1 y0 y1 : Z) (c : nat) (box : BoundBox) (v : Q) :
  classes box !! c = Some v ->
  RoI_class x0 x1 y0 y1 c box =
    Ok (if py_truthy v && roi_outside x0 x1 y0 y1 box then set_class c 0 box else box).
Proof.
  intros Hv. unfold RoI_class, py_index. rewrite Hv. cbn.
  fold (roi_outside x0 x1 y0 y1 box).
  destruct (py_truthy v); [|reflexivity].
  destruct (roi_outside x0 x1 y0 y1 box); [|reflexivity].
  cbn. rewrite (py_setitem_lookup _ _ v _ Hv). reflexivity.
Qed.

Lemma RoI_class_raises (x0 x1 y0 y1 : Z) (c : nat) (box : BoundBox) :
  classes box !! c = None -> RoI_class x0 x1 y0 y1 c box = Raise IndexError.
Proof. intros Hv. unfold RoI_class, py_index. rewrite Hv. reflexivity. Qed.

Lemma roi_outside_set_class (x0 x1 y0 y1 : Z) (c : nat) (v : Q) (box : BoundBox) :
  roi_outside x0 x1 y0 y1 (set_class c v box) = roi_outside x0 x1 y0 y1 box.
Proof. reflexivity. Qed.

(** A pass over the classes changes nothing else than scores, and a score
    only to zero; where the box lies outside, every class it visited is
    left without a score. *)
Lemma RoI_pass_result (x0 x1 y0 y1 : Z) (cs : list nat) :
  forall box box' : BoundBox,
    for_each (RoI_class x0 x1 y0 y1) cs box = Ok box' ->
    roi_outside x0 x1 y0 y1 box' = roi_outside x0 x1 y0 y1 box
    /\ length (classes box') = length (classes box)
    /\ (forall c v, classes box !! c = Some v ->
          py_truthy v = false -> classes box' !! c = Some v
          \/ classes box' !! c = Some 0%Q)
    /\ (forall c, c ∈ cs -> exists v, classes box' !! c = Some v
          /\ (roi_outside x0 x1 y0 y1 box = true -> py_truthy v = false)).
Proof.
  induction cs as [|c cs IH]; intros box box' Hrun.
  - cbn in Hrun. injection Hrun as <-. repeat split; eauto.
    intros c Hc. inversion Hc.
  - cbn in Hrun.
    destruct (classes box !! c) as [v|] eqn:Hv.
    2:{ rewrite (RoI_class_raises _ _ _ _ _ _ Hv) in Hrun. discriminate. }
    rewrite (RoI_class_step _ _ _ _ _ _ _ Hv) in Hrun. cbn in Hrun.
    set (box1 := if py_truthy v && roi_outside x0 x1 y0 y1 box
                 then set_class c 0 box else box) in *.
    destruct (IH _ _ Hrun) as (Ho & Hl & Hkeep & Hseen).
    assert (Ho1 : roi_outside x0 x1 y0 y1 box1 = roi_outside x0 x1 y0 y1 box).
    { unfold box1. destruct (py_truthy v && roi_outside x0 x1 y0 y1 box); reflexivity. }
    assert (Hl1 : length (classes box1) = length (classes box)).
    { unfold box1. destruct (py_truthy v && roi_outside x0 x1 y0 y1 box);
        [cbn; apply length_insert | reflexivity]. }
    assert (Hk1 : forall c' w, classes box !! c' = Some w -> py_truthy w = false ->
                   exists w', classes box1 !! c' = Some w' /\ py_truthy w' = false
                              /\ (w' = w \/ w' = 0%Q)).
    { intros c' w Hw Hz. unfold box1.
      destruct (py_truthy v && roi_outside x0 x1 y0 y1 box); [|eauto].
      cbn. destruct (decide (c = c')) as [<-|Hne].
      - exists 0%Q. rewrite list_lookup_insert_eq by (eapply lookup_lt_Some; eauto).
        auto.
      - exists w. rewrite list_lookup_insert_ne by exact Hne. auto. }
    repeat split.
    + congruence.
    + congruence.
    + intros c' w Hw Hz.
      destruct (Hk1 _ _ Hw Hz) as (w' & Hw' & Hz' & [-> | ->]).
      * apply (Hkeep _ _ Hw' Hz').
      * destruct (Hkeep _ _ Hw' Hz') as [H|H]; right; exact H.
    + intros c' Hc'. apply elem_of_cons in Hc' as [-> | Hin].
      * assert (H1 : exists w, classes box1 !! c = Some w
                     /\ (roi_outside x0 x1 y0 y1 box = true -> py_truthy w = false)).
        { unfold box1. destruct (py_truthy v) eqn:Ht; cbn.
          - destruct (roi_outside x0 x1 y0 y1 box) eqn:Hout; cbn.
            + exists 0%Q. rewrite list_lookup_insert_eq by (eapply lookup_lt_Some; eauto).
              auto.
            + exists v. split; [exact Hv | discriminate].
          - exists v. auto. }
        destruct H1 as (w & Hw & Hzw).
        destruct (roi_outside x0 x1 y0 y1 box) eqn:Hout.
        -- destruct (Hkeep _ _ Hw (Hzw eq_refl)) as [H|H]; eauto.
        -- assert (Hsome : is_Some (classes box' !! c)).
           { apply lookup_lt_is_Some. rewrite Hl, Hl1. eapply lookup_lt_Some; eauto. }
           destruct Hsome as [u Hu]. exists u. split; [exact Hu | discriminate].
      * destruct (Hseen _ Hin) as (u & Hu & Hzu). exists u. split; [exact Hu|].
        intros Hout. apply Hzu. rewrite Ho1. exact Hout.
Qed.

(** A pass over classes that carry no score, or over a box inside the
    region, leaves the box as it is. *)
Lemma RoI_pass_fixed (x0 x1 y0 y1 : Z) (cs : list nat) (box : BoundBox) :
  (forall c, c ∈ cs -> exists v, classes box !! c = Some v
     /\ (roi_outside x0 x1 y0 y1 box = true -> py_truthy v = false)) ->
  for_each (RoI_class x0 x1 y0 y1) cs box = Ok box.
Proof.
  induction cs as [|c cs IH]; intros Hall; [reflexivity|].
  cbn. destruct (Hall c) as (v & Hv & Hz); [left|].
  rewrite (RoI_class_step _ _ _ _ _ _ _ Hv).
  assert (Hsame : py_truthy v && roi_outside x0 x1 y0 y1 box = false).
  { destruct (roi_outside x0 x1 y0 y1 box); [rewrite Hz by reflexivity|];
      destruct (py_truthy v); reflexivity. }
  rewrite Hsame. cbn. apply IH. intros c' Hc'. apply Hall. right. exact Hc'.
Qed.

Lemma RoI_pass_idempotent (x0 x1 y0 y1 : Z) (cs : list nat) (box box' : BoundBox) :
  for_each (RoI_class x0 x1 y0 y1) cs box = Ok box' ->
  for_each (RoI_class x0 x1 y0 y1) cs box' = Ok box'.
Proof.
  intros Hrun. destruct (RoI_pass_result _ _ _ _ _ _ _ Hrun) as (Ho & _ & _ & Hseen).
  apply RoI_pass_fixed. intros c Hc. destruct (Hseen c Hc) as (v & Hv & Hz).
  exists v. split; [exact Hv|]. rewrite Ho. exact Hz.
Qed.

Lemma traverse_idempotent {A : Type} (f : A -> result A) (xs ys : list A) :
  (forall x y, f x = Ok y -> f y = Ok y) ->
  traverse f xs = Ok ys -> traverse f ys = Ok ys.
Proof.
  intros Hf. revert ys. induction xs as [|x xs IH]; intros ys Hrun; cbn in Hrun.
  - injection Hrun as <-. reflexivity.
  - destruct (f x) as [y|e] eqn:Hx; cbn in Hrun; [|discriminate].
    destruct (traverse f xs) as [ys'|e] eqn:Hxs; cbn in Hrun; [|discriminate].
    injection Hrun as <-. cbn. rewrite (Hf _ _ Hx). cbn.
    rewrite (IH _ eq_refl). reflexivity.
Qed.

(** C8.  The region filter is idempotent: for every list of boxes and every
    value of [region_of_interest], filtering the filtered boxes again gives
    the boxes of the first filtering, class scores included; a call that
    raises does so in both. *)
Theorem RoI_idempotent (boxes : list BoundBox) (region_of_interest : option (list Z)) :
  RoI boxes region_of_interest ≫= (fun boxes' => RoI boxes' region_of_interest)
  = RoI boxes region_of_interest.
Proof.
  destruct (RoI boxes region_of_interest) as [boxes'|e] eqn:Hrun; [|reflexivity].
  cbn. unfold RoI in *.
  destruct region_of_interest as [[|x0 [|x1 [|y0 [|y1 [|? ?]]]]]|];
    try (injection Hrun as <-; reflexivity).
  destruct boxes as [|box0 rest]; [injection Hrun as <-; reflexivity|].
  cbn in Hrun.
  destruct (for_each (RoI_class x0 x1 y0 y1) (seq 0 (length (classes box0))) box0)
    as [box0'|e] eqn:H0; cbn in Hrun; [|discriminate].
  destruct (traverse _ rest) as [rest'|e] eqn:Hrest; cbn in Hrun; [|discriminate].
  injection Hrun as <-.
  destruct (RoI_pass_result _ _ _ _ _ _ _ H0) as (_ & Hlen & _).
  rewrite Hlen.
  apply (traverse_idempotent _ (box0 :: rest)).
  - intros x y. apply RoI_pass_idempotent.
  - cbn. rewrite H0. cbn. rewrite Hrest. reflexivity.
Qed.

(** ** Loops *)

(** A loop whose every turn succeeds and keeps an invariant, indexed by
    the number of turns made, succeeds and ends in the invariant. *)
Lemma for_each_total {A St : Type} (P : nat -> St -> Prop) (body : A -> St -> result St)
    (xs : list A) (s : St) :
  P 0%nat s ->
  (forall i x s, xs !! i = Some x -> P i s -> exists s', body x s = Ok s' /\ P (S i) s') ->
  exists s', for_each body xs s = Ok s' /\ P (length xs) s'.
Proof.
  revert P s. induction xs as [|x xs IH]; intros P s H0 Hstep.
  - exists s. split; [reflexivity | exact H0].
  - destruct (Hstep 0%nat x s eq_refl H0) as (s1 & Hs1 & HP1).
    destruct (IH (fun i => P (S i)) s1 HP1) as (s' & Hs' & HP').
    { intros i y t Hy Ht. apply (Hstep (S i) y t Hy Ht). }
    exists s'. split; [|exact HP']. cbn. rewrite Hs1. exact Hs'.
Qed.

(** An invariant kept by every turn that succeeds holds when the loop
    succeeds. *)
Lemma for_each_invariant {A St : Type} (P : St -> Prop) (body : A -> St -> result St)
    (xs : list A) :
  (forall x s s', x ∈ xs -> P s -> body x s = Ok s' -> P s') ->
  forall s s', P s -> for_each body xs s = Ok s' -> P s'.
Proof.
  induction xs as [|x xs IH]; intros Hstep s s' Hs Hrun; cbn in Hrun.
  - injection Hrun as <-. exact Hs.
  - destruct (body x s) as [s1|e] eqn:H1; cbn in Hrun; [|discriminate].
    apply (IH (fun y t t' Hy => Hstep y t t' (list_elem_of_further _ _ _ Hy)) s1 s');
      [|exact Hrun].
    apply (Hstep x s s1); [left | exact Hs | exact H1].
Qed.

Lemma for_each_app {A St : Type} (body : A -> St -> result St) (xs ys : list A) (s : St) :
  for_each body (xs ++ ys) s = for_each body xs s ≫= for_each body ys.
Proof.
  revert s. induction xs as [|x xs IH]; intros s; cbn; [reflexivity|].
  destruct (body x s) as [s1|e]; cbn; [apply IH | reflexivity].
Qed.

(** ** Decoding *)

Lemma length_bind_const {A B : Type} (f : A -> list B) (k : nat) (l : list A) :
  (forall x, length (f x) = k) -> length (l ≫= f) = (length l * k)%nat.
Proof.
  intros Hf. induction l as [|x l IH]; [reflexivity|].
  cbn. rewrite length_app, Hf, IH. reflexivity.
Qed.

Lemma length_grid_cells (grid_h grid_w : nat) :
  length (grid_cells grid_h grid_w) = (grid_h * grid_w * nb_box)%nat.
Proof.
  unfold grid_cells.
  rewrite (length_bind_const _ (grid_w * nb_box)%nat).
  - rewrite length_seq. lia.
  - intros row. rewrite (length_bind_const _ nb_box).
    + rewrite length_seq. reflexivity.
    + intros col. rewrite (length_bind_const _ 1%nat).
      * rewrite length_seq. lia.
      * reflexivity.
Qed.

Lemma elem_of_grid_cells (grid_h grid_w row col b : nat) :
  (row, col, b) ∈ grid_cells grid_h grid_w ->
  (row < grid_h)%nat /\ (col < grid_w)%nat /\ (b < nb_box)%nat.
Proof.
  unfold grid_cells. intros H.
  apply list_elem_of_bind in H as (row' & H & Hrow).
  apply list_elem_of_bind in H as (col' & H & Hcol).
  apply list_elem_of_bind in H as (b' & H & Hb).
  apply list_elem_of_singleton in H. injection H as -> -> ->.
  apply elem_of_seq in Hrow, Hcol, Hb. lia.
Qed.

Lemma reshape_last_shape (netout : ndarray3) (last : nat) :
  (0 < shape_h netout)%nat -> (0 < shape_w netout)%nat ->
  shape_d netout = (nb_box * last)%nat ->
  reshape_last netout nb_box = Ok last.
Proof.
  intros Hh Hw Hd. unfold reshape_last. rewrite Hd.
  set (known := (shape_h netout * shape_w netout * nb_box)%nat).
  assert (Hk : known <> 0%nat) by (unfold known, nb_box; nia).
  replace (shape_h netout * shape_w netout * (nb_box * last))%nat
    with (last * known)%nat by (unfold known; lia).
  apply Nat.eqb_neq in Hk as Hk'. rewrite Hk'.
  rewrite Nat.Div0.mod_mul, Nat.div_mul by exact Hk. reflexivity.
Qed.

(** The box that [decode_cell] appends for the cell [(row, col, b)]. *)
Lemma decode_cell_step (np_exp : Q -> Q) (netout : ndarray3) (last : nat)
    (anchors : list Q) (obj_thresh : Q) (net_h net_w : Z) (row col b : nat)
    (boxes : list BoundBox) :
  (b < nb_box)%nat -> (2 * nb_box <= length anchors)%nat ->
  let v := decoded_slot np_exp obj_thresh (fun k => at3 netout row col (b * last + k)%nat) in
  decode_cell np_exp netout last anchors obj_thresh net_h net_w (row, col, b) boxes
  = Ok boxes
    /\ Qltb obj_thresh (v 4%nat) = false
  \/ exists anchor_w anchor_h box,
       decode_cell np_exp netout last anchors obj_thresh net_h net_w (row, col, b) boxes
       = Ok (boxes ++ [box])
       /\ Qltb obj_thresh (v 4%nat) = true
       /\ anchors !! (2 * b + 0)%nat = Some anchor_w
       /\ anchors !! (2 * b + 1)%nat = Some anchor_h
       /\ box = let x := ((inject_Z (Z.of_nat col) + v 0%nat)
                          / inject_Z (Z.of_nat (shape_w netout)))%Q in
                let y := ((inject_Z (Z.of_nat row) + v 1%nat)
                          / inject_Z (Z.of_nat (shape_h netout)))%Q in
                let w := (anchor_w * np_exp (v 2%nat) / inject_Z net_w)%Q in
                let h := (anchor_h * np_exp (v 3%nat) / inject_Z net_h)%Q in
                mkBoundBox (x - w / 2) (y - h / 2) (x + w / 2) (y + h / 2)
                           (v 4%nat) (map v (seq 5 (last - 5))).
Proof.
  intros Hb Hlen v. unfold decode_cell. fold v.
  destruct (Qltb obj_thresh (v 4%nat)) eqn:Hgate; [right | left; auto].
  unfold nb_box in *.
  destruct (lookup_lt_is_Some_2 anchors (2 * b + 0)%nat) as [aw Haw]; [lia|].
  destruct (lookup_lt_is_Some_2 anchors (2 * b + 1)%nat) as [ah Hah]; [lia|].
  exists aw, ah. eexists. unfold py_index. rewrite Haw, Hah. cbn.
  repeat split; reflexivity.
Qed.

Lemma decoded_slot_objectness (np_exp : Q -> Q) (obj_thresh : Q) (raw : nat -> Q) :
  decoded_slot np_exp obj_thresh raw 4%nat = _sigmoid np_exp (raw 4%nat).
Proof. reflexivity. Qed.

Lemma decoded_slot_class (np_exp : Q -> Q) (obj_thresh : Q) (raw : nat -> Q) (k : nat) :
  (5 <= k)%nat ->
  (decoded_slot np_exp obj_thresh raw k == 0)%Q
  \/ (obj_thresh < decoded_slot np_exp obj_thresh raw k)%Q.
Proof.
  intros Hk. unfold decoded_slot, mask_below.
  apply Nat.leb_le in Hk. rewrite Hk.
  set (p := scale_by_objectness (sigmoid_tail np_exp (sigmoid_xy np_exp raw)) k).
  destruct (Qltb obj_thresh p) eqn:Hgate; cbn.
  - right. apply Qltb_true in Hgate. rewrite Qmult_1_r. exact Hgate.
  - left. apply Qmult_0_r.
Qed.

(** C5.  For every tensor of shape [(grid_h, grid_w, nb_box * (5 + nb_class))]
    over a grid that is not empty, and anchors for the [nb_box] slots,
    [decode_netout] returns at most [grid_h * grid_w * nb_box] boxes; every
    box has the sigmoid of the objectness channel of its cell as objectness,
    strictly above [obj_thresh], and every class score of a box is zero or
    strictly above [obj_thresh]. *)
Theorem decode_netout_gated (np_exp : Q -> Q) (netout : ndarray3) (nb_class : nat)
    (anchors : list Q) (obj_thresh : Q) (net_h net_w : Z) :
  (0 < shape_h netout)%nat -> (0 < shape_w netout)%nat ->
  shape_d netout = (nb_box * (5 + nb_class))%nat ->
  (2 * nb_box <= length anchors)%nat ->
  exists boxes,
    decode_netout np_exp netout anchors obj_thresh net_h net_w = Ok boxes
    /\ (length boxes <= shape_h netout * shape_w netout * nb_box)%nat
    /\ Forall (gated np_exp netout (5 + nb_class) obj_thresh) boxes.
Proof.
  intros Hh Hw Hd Hanchors. unfold decode_netout.
  rewrite (reshape_last_shape netout (5 + nb_class) Hh Hw Hd). cbn -[for_each grid_cells].
  destruct (for_each_total
              (fun i acc => (length acc <= i)%nat
                            /\ Forall (gated np_exp netout (5 + nb_class) obj_thresh) acc)
              (decode_cell np_exp netout (5 + nb_class) anchors obj_thresh net_h net_w)
              (grid_cells (shape_h netout) (shape_w netout)) [])
    as (boxes & Hrun & Hlen & Hall).
  - split; [cbn; lia | constructor].
  - intros i [[row col] b] acc Hcell [Hlen Hall].
    apply list_elem_of_lookup_2, elem_of_grid_cells in Hcell as (Hrow & Hcol & Hb).
    destruct (decode_cell_step np_exp netout (5 + nb_class) anchors obj_thresh
                net_h net_w row col b acc Hb Hanchors)
      as [[Hstep _] | (aw & ah & box & Hstep & Hgate & _ & _ & Hbox)].
    + exists acc. split; [exact Hstep|]. split; [lia | exact Hall].
    + exists (acc ++ [box]). split; [exact Hstep|]. split.
      * rewrite length_app. cbn. lia.
      * apply Forall_app. split; [exact Hall|]. constructor; [|constructor].
        subst box. unfold gated. cbn -[decoded_slot]. split; [|split].
        -- exists row, col, b. repeat split; try assumption.
        -- apply Qltb_true. exact Hgate.
        -- apply Forall_forall. intros score Hscore.
           apply list_elem_of_fmap in Hscore as (k & -> & Hk).
           apply elem_of_seq in Hk. apply decoded_slot_class. lia.
  - exists boxes. rewrite length_grid_cells in Hlen. auto.
Qed.

(** ** Truncation *)

Lemma py_int_floor (x : Q) : (0 <= x)%Q -> py_int x = Qfloor x.
Proof.
  destruct x as [n d]. unfold Qle, py_int, Qfloor. cbn. intros H.
  apply Z.quot_div_nonneg; lia.
Qed.

Lemma py_int_ceiling (x : Q) : (x <= 0)%Q -> py_int x = Qceiling x.
Proof.
  destruct x as [n d]. unfold Qle, py_int, Qceiling, Qfloor. cbn. intros H.
  rewrite <- (Z.opp_involutive n) at 1.
  rewrite Z.quot_opp_l by lia.
  rewrite Z.quot_div_nonneg by lia. reflexivity.
Qed.

Lemma py_int_le (x y : Q) : (x <= y)%Q -> py_int x <= py_int y.
Proof.
  intros Hxy.
  destruct (Qlt_le_dec x 0) as [Hx|Hx].
  - rewrite (py_int_ceiling x) by (apply Qlt_le_weak; exact Hx).
    destruct (Qlt_le_dec 0 y) as [Hy|Hy].
    + rewrite (py_int_floor y) by (apply Qlt_le_weak; exact Hy).
      transitivity 0.
      * change 0 with (Qceiling 0). apply Qceiling_resp_le, Qlt_le_weak, Hx.
      * change 0 with (Qfloor 0). apply Qfloor_resp_le, Qlt_le_weak, Hy.
    + rewrite (py_int_ceiling y) by exact Hy. apply Qceiling_resp_le, Hxy.
  - rewrite (py_int_floor x) by exact Hx.
    rewrite (py_int_floor y) by (eapply Qle_trans; eauto).
    apply Qfloor_resp_le, Hxy.
Qed.

Lemma pixel_le (lo hi : Q) (image_d : Z) :
  (lo <= hi)%Q -> 0 <= image_d ->
  (inject_Z (py_int (lo * inject_Z image_d)) <= inject_Z (py_int (hi * inject_Z image_d)))%Q.
Proof.
  intros Hle Hd. rewrite <- Zle_Qle. apply py_int_le.
  apply Qmult_le_compat_r; [exact Hle|].
  change 0%Q with (inject_Z 0). rewrite <- Zle_Qle. exact Hd.
Qed.

(** ** Correction to pixels *)

Lemma centre_spread (centre extent : Q) :
  (0 <= extent)%Q -> (centre - extent / 2 <= centre + extent / 2)%Q.
Proof.
  intros H. apply Qplus_le_r.
  assert (Hhalf : (0 <= extent / 2)%Q).
  { apply Qle_shift_div_l; [reflexivity|]. rewrite Qmult_0_l. exact H. }
  apply Qle_trans with 0%Q; [|exact Hhalf].
  apply (Qopp_le_compat 0 (extent / 2)) in Hhalf. exact Hhalf.
Qed.

Lemma anchor_extent (anchor e : Q) (net_d : Z) :
  (0 <= anchor)%Q -> (0 <= e)%Q -> 0 < net_d -> (0 <= anchor * e / inject_Z net_d)%Q.
Proof.
  intros Ha He Hd. apply Qle_shift_div_l.
  - change 0%Q with (inject_Z 0). rewrite <- Zlt_Qlt. exact Hd.
  - rewrite Qmult_0_l. apply Qmult_le_0_compat; assumption.
Qed.

Lemma decode_cell_ordered (np_exp : Q -> Q) (netout : ndarray3) (last : nat)
    (anchors : list Q) (obj_thresh : Q) (net_h net_w : Z) (cell : nat * nat * nat)
    (boxes boxes' : list BoundBox) :
  (forall x, 0 <= np_exp x)%Q -> Forall (fun a => 0 <= a)%Q anchors ->
  0 < net_h -> 0 < net_w ->
  Forall ordered boxes ->
  decode_cell np_exp netout last anchors obj_thresh net_h net_w cell boxes = Ok boxes' ->
  Forall ordered boxes'.
Proof.
  intros Hexp Hanchors Hh Hw Hall. destruct cell as [[row col] b].
  unfold decode_cell, py_index, mbind, result_bind. cbv zeta.
  destruct (Qltb obj_thresh _); [|intros [= <-]; exact Hall].
  destruct (anchors !! (2 * b + 0)%nat) as [aw|] eqn:Haw; [|intros [=]].
  destruct (anchors !! (2 * b + 1)%nat) as [ah|] eqn:Hah; [|intros [=]].
  intros [= <-].
  rewrite Forall_forall in Hanchors.
  apply Forall_app. split; [exact Hall|]. constructor; [|constructor].
  split; cbn; apply centre_spread; apply anchor_extent; auto;
    apply Hanchors; eapply list_elem_of_lookup_2; eauto.
Qed.

Lemma decode_netout_ordered (np_exp : Q -> Q) (netout : ndarray3) (anchors : list Q)
    (obj_thresh : Q) (net_h net_w : Z) (boxes : list BoundBox) :
  (forall x, 0 <= np_exp x)%Q -> Forall (fun a => 0 <= a)%Q anchors ->
  0 < net_h -> 0 < net_w ->
  decode_netout np_exp netout anchors obj_thresh net_h net_w = Ok boxes ->
  Forall ordered boxes.
Proof.
  intros Hexp Hanchors Hh Hw. unfold decode_netout.
  destruct (reshape_last netout nb_box) as [last|e]; cbn; [|discriminate].
  destruct (last <=? 4)%nat; [discriminate|].
  intros Hrun.
  apply (for_each_invariant (Forall ordered) _ _) with (s := []) (3 := Hrun);
    [|constructor].
  intros cell acc acc' _ Hacc Hstep.
  exact (decode_cell_ordered np_exp netout last anchors obj_thresh net_h net_w
           cell acc acc' Hexp Hanchors Hh Hw Hacc Hstep).
Qed.

Lemma pixel_fl_le (rnd : Q -> Q) (lo hi : Q) (image_d : Z) :
  rounding rnd -> (lo <= hi)%Q -> 0 <= image_d ->
  (inject_Z (py_int (fl_mul rnd lo image_d))
   <= inject_Z (py_int (fl_mul rnd hi image_d)))%Q.
Proof.
  intros [Hmono Hzero] Hle Hd. rewrite <- Zle_Qle. apply py_int_le. unfold fl_mul.
  apply Hmono. apply Qmult_le_compat_r; [exact Hle|].
  apply Qle_trans with (rnd 0%Q); [rewrite Hzero; apply Qle_refl|].
  apply Hmono. change 0%Q with (inject_Z 0). rewrite <- Zle_Qle. exact Hd.
Qed.

Lemma rounding_exact : rounding exact.
Proof. split; [intros a b H; exact H | reflexivity]. Qed.

Lemma rounding_round_to (step : Q) : (0 < step)%Q -> rounding (round_to step).
Proof.
  intros Hstep. split.
  - intros a b Hab. unfold round_to.
    apply Qmult_le_compat_r; [|apply Qlt_le_weak, Hstep].
    rewrite <- Zle_Qle. apply Qfloor_resp_le.
    apply Qplus_le_l. apply Qmult_le_compat_r; [exact Hab|].
    apply Qlt_le_weak, Qinv_lt_0_compat, Hstep.
  - unfold round_to.
    assert (H : (0 / step + (1 # 2) == 1 # 2)%Q).
    { unfold Qdiv. rewrite Qmult_0_l. reflexivity. }
    rewrite H. reflexivity.
Qed.

Lemma correct_box_fl_step (rnd : Q -> Q) (image_h image_w net_h net_w : Z)
    (box : BoundBox) :
  0 < net_h -> 0 < net_w ->
  correct_box_fl rnd image_h image_w net_h net_w box =
    Ok (mkBoundBox (inject_Z (py_int (fl_mul rnd (xmin box) image_w)))
                   (inject_Z (py_int (fl_mul rnd (ymin box) image_h)))
                   (inject_Z (py_int (fl_mul rnd (xmax box) image_w)))
                   (inject_Z (py_int (fl_mul rnd (ymax box) image_h)))
                   (objness box) (classes box)).
Proof.
  intros Hh Hw. unfold correct_box_fl, py_truediv.
  assert (Hnz : forall d, 0 < d -> Qeq_bool (inject_Z d) 0 = false).
  { intros d Hd. destruct (Qeq_bool (inject_Z d) 0) eqn:E; [|reflexivity].
    apply Qeq_bool_eq in E. unfold Qeq in E. cbn in E. lia. }
  rewrite (Hnz _ Hh), (Hnz _ Hw). reflexivity.
Qed.

Lemma correct_box_step (image_h image_w net_h net_w : Z) (box : BoundBox) :
  0 < net_h -> 0 < net_w ->
  correct_box image_h image_w net_h net_w box =
    Ok (mkBoundBox (inject_Z (py_int (xmin box * inject_Z image_w)))
                   (inject_Z (py_int (ymin box * inject_Z image_h)))
                   (inject_Z (py_int (xmax box * inject_Z image_w)))
                   (inject_Z (py_int (ymax box * inject_Z image_h)))
                   (objness box) (classes box)).
Proof.
  intros Hh Hw. unfold correct_box. rewrite (correct_box_fl_step _ _ _ _ _ _ Hh Hw).
  reflexivity.
Qed.


Lemma np_exp_rational_nonneg (x : Q) : (0 <= np_exp_rational x)%Q.
Proof.
  unfold np_exp_rational. destruct (Qle_bool 0 x) eqn:E.
  - apply Qle_bool_iff in E.
    apply Qle_trans with (0 + 0)%Q; [discriminate|].
    apply Qplus_le_compat; [discriminate | exact E].
  - assert (Hx : (x < 0)%Q).
    { apply Qnot_le_lt. intros H. apply Qle_bool_iff in H. congruence. }
    apply Qle_shift_div_l.
    + unfold Qminus. apply (proj1 (Qlt_minus_iff x 1)).
      apply Qlt_trans with 0%Q; [exact Hx | reflexivity].
    + rewrite Qmult_0_l. discriminate.
Qed.

Lemma sample_anchors_nonneg : Forall (fun a => 0 <= a)%Q sample_anchors.
Proof. repeat constructor; discriminate. Qed.

Lemma decode_netout_gated_witness :
  exists boxes,
    decode_netout np_exp_rational sample_netout sample_anchors (1 # 2) 416 416 = Ok boxes
    /\ (length boxes <= shape_h sample_netout * shape_w sample_netout * nb_box)%nat
    /\ Forall (gated np_exp_rational sample_netout (5 + 1) (1 # 2)) boxes.
Proof.
  apply (decode_netout_gated np_exp_rational sample_netout 1 sample_anchors (1 # 2) 416 416).
  - cbn. lia.
  - cbn. lia.
  - reflexivity.
  - cbn. lia.
Defined.

Example decode_netout_sample :
  exists box,
    decode_netout np_exp_rational sample_netout sample_anchors (1 # 2) 416 416 = Ok [box]
    /\ objness box = (3 # 4)%Q /\ classes box = [(12 # 20)%Q].
Proof. eexists. split; [vm_compute; reflexivity | split; reflexivity]. Qed.


(** A product that the rounding moves across an integer: with a format
    of quarters, [0.3 * 3] is 1 and its integer part 1, where the exact
    product 0.9 has the integer part 0. *)
Example correct_box_fl_rounds :
  correct_box_fl (round_to (1 # 4)) 480 3 416 416 (mkBoundBox (3 # 10) 0 1 1 1 [])
  = Ok (mkBoundBox 1 0 3 480 1 [])
  /\ correct_box 480 3 416 416 (mkBoundBox (3 # 10) 0 1 1 1 [])
     = Ok (mkBoundBox 0 0 3 480 1 []).
Proof. split; vm_compute; reflexivity. Qed.

Example correct_yolo_boxes_sample :
  (boxes ← decode_netout np_exp_rational sample_netout sample_anchors (1 # 2) 416 416;
   correct_yolo_boxes boxes 480 640 416 416)
  = Ok [mkBoundBox 347 (-9) 647 276 (3 # 4) [(12 # 20)%Q]].
Proof. vm_compute. reflexivity. Qed.

(** C6, as amended.  [bbox_iou] is zero for every pair of rectangles
    that do not overlap (one lies left of, right of, above or below the
    other, or they only touch), one for every box of positive width and
    height taken with itself, and zero, no exception escaping, whenever
    the union area is zero. *)
Theorem bbox_iou_zero_one (box1 box2 : BoundBox) :
  (ordered box1 -> ordered box2 -> apart box1 box2 -> (bbox_iou box1 box2 == 0)%Q)
  /\ ((xmin box1 < xmax box1)%Q -> (ymin box1 < ymax box1)%Q ->
      (bbox_iou box1 box1 == 1)%Q)
  /\ ((union_of box1 box2 == 0)%Q -> bbox_iou box1 box2 = 0%Q).
Proof.
  split; [|split].
  - intros H1 H2 Hapart. apply bbox_iou_disjoint, intersect_of_apart; assumption.
  - apply bbox_iou_identical.
  - apply bbox_iou_degenerate.
Qed.

Lemma bbox_iou_zero_one_witness :
  (bbox_iou unit_box far_box == 0)%Q
  /\ (bbox_iou unit_box unit_box == 1)%Q
  /\ bbox_iou point_box point_box = 0%Q.
Proof.
  split; [|split].
  - apply (proj1 (bbox_iou_zero_one unit_box far_box));
      [split; discriminate | split; discriminate | left; discriminate].
  - apply (proj1 (proj2 (bbox_iou_zero_one unit_box far_box))); reflexivity.
  - apply (proj2 (proj2 (bbox_iou_zero_one point_box point_box))). reflexivity.
Defined.

(** C6, as stated, fails on a box reduced to a point: it is identical to
    itself, its union area with itself is zero, and [bbox_iou] gives 0,
    not 1. *)
Lemma bbox_iou_point_box_not_one :
  bbox_iou point_box point_box = 0%Q /\ ~ (bbox_iou point_box point_box == 1)%Q.
Proof.
  split; [reflexivity|]. intros H. vm_compute in H. discriminate.
Qed.

(** ** Non-maximum suppression: what a pass leaves alone *)

Lemma set_class_id (c : nat) (box : BoundBox) :
  (length (classes box) <= c)%nat -> set_class c 0 box = box.
Proof.
  intros H. destruct box as [x0 y0 x1 y1 o cs]. unfold set_class, set_classes. cbn in *.
  rewrite list_insert_ge by exact H. reflexivity.
Qed.

Lemma set_class_twice (c : nat) (box : BoundBox) :
  set_class c 0 (set_class c 0 box) = set_class c 0 box.
Proof.
  unfold set_class, set_classes. cbn. rewrite list_insert_insert_eq. reflexivity.
Qed.

Lemma zeroed_refl (c : nat) (box : BoundBox) : zeroed c box box.
Proof. left. reflexivity. Qed.

Lemma zeroed_trans (c : nat) (b1 b2 b3 : BoundBox) :
  zeroed c b1 b2 -> zeroed c b2 b3 -> zeroed c b1 b3.
Proof.
  intros [-> | ->] [-> | ->]; try (left; reflexivity); try (right; reflexivity).
  right. apply set_class_twice.
Qed.

Lemma zeroed_corners (c : nat) (box box' : BoundBox) :
  zeroed c box box' ->
  xmin box' = xmin box /\ ymin box' = ymin box
  /\ xmax box' = xmax box /\ ymax box' = ymax box
  /\ length (classes box') = length (classes box).
Proof.
  intros [-> | ->]; cbn; repeat split. apply length_insert.
Qed.

Lemma zeroed_other (c c' : nat) (box box' : BoundBox) :
  zeroed c box box' -> c <> c' -> classes box' !! c' = classes box !! c'.
Proof.
  intros [-> | ->] Hne; [reflexivity|]. cbn. apply list_lookup_insert_ne. exact Hne.
Qed.

Lemma zeroed_keeps_class (c c' : nat) (box box' : BoundBox) :
  zeroed c box box' -> c <> c' -> keeps_class c' box box'.
Proof.
  intros Hz Hne. destruct (zeroed_corners _ _ _ Hz) as (H1 & H2 & H3 & H4 & H5).
  unfold keeps_class. repeat split; try assumption.
  apply (zeroed_other _ _ _ _ Hz Hne).
Qed.

(** A score that survives a pass is the score the box had before it. *)
Lemma zeroed_retains (c : nat) (box box' : BoundBox) :
  zeroed c box box' -> retains box' c -> box' = box.
Proof.
  intros [-> | ->] (v & Hv & Ht); [reflexivity|].
  destruct (decide (c < length (classes box))%nat) as [Hlt|Hge].
  - cbn in Hv. rewrite list_lookup_insert_eq in Hv by exact Hlt.
    injection Hv as <-. discriminate.
  - apply set_class_id. lia.
Qed.

Lemma bbox_iou_corners (b1 b2 b1' b2' : BoundBox) :
  xmin b1' = xmin b1 -> ymin b1' = ymin b1 -> xmax b1' = xmax b1 -> ymax b1' = ymax b1 ->
  xmin b2' = xmin b2 -> ymin b2' = ymin b2 -> xmax b2' = xmax b2 -> ymax b2' = ymax b2 ->
  bbox_iou b1' b2' = bbox_iou b1 b2.
Proof.
  intros. unfold bbox_iou, union_of, intersect_of. congruence.
Qed.

Lemma bbox_iou_zeroed (c : nat) (b1 b2 b1' b2' : BoundBox) :
  zeroed c b1 b1' -> zeroed c b2 b2' -> bbox_iou b1' b2' = bbox_iou b1 b2.
Proof.
  intros H1 H2.
  destruct (zeroed_corners _ _ _ H1) as (? & ? & ? & ? & _).
  destruct (zeroed_corners _ _ _ H2) as (? & ? & ? & ? & _).
  apply bbox_iou_corners; assumption.
Qed.

Lemma ordered_corners (box box' : BoundBox) :
  xmin box' = xmin box -> ymin box' = ymin box ->
  xmax box' = xmax box -> ymax box' = ymax box ->
  ordered box' -> ordered box.
Proof. unfold ordered. intros <- <- <- <-. auto. Qed.

Lemma Forall2_zeroed_refl (c : nat) (boxes : list BoundBox) :
  Forall2 (zeroed c) boxes boxes.
Proof. apply Forall_Forall2_diag, Forall_forall. intros. apply zeroed_refl. Qed.

Lemma Forall2_zeroed_trans (c : nat) (l1 l2 l3 : list BoundBox) :
  Forall2 (zeroed c) l1 l2 -> Forall2 (zeroed c) l2 l3 -> Forall2 (zeroed c) l1 l3.
Proof.
  intros H12. revert l3. induction H12; intros l3 H23; inversion H23; subst; constructor.
  - eapply zeroed_trans; eauto.
  - auto.
Qed.

Lemma Forall2_zeroed_insert (c : nat) (boxes : list BoundBox) (k : nat) (box : BoundBox) :
  boxes !! k = Some box ->
  Forall2 (zeroed c) boxes (<[k := set_class c 0 box]> boxes).
Proof.
  intros Hk. rewrite <- (list_insert_id boxes k box Hk) at 1.
  apply Forall2_insert; [apply Forall2_zeroed_refl | right; reflexivity].
Qed.

(** ** Intersection over union of ordered boxes is symmetric *)

Lemma _interval_overlap_sym (x1 x2 x3 x4 : Q) :
  (x1 <= x2)%Q -> (x3 <= x4)%Q ->
  (_interval_overlap (x1, x2) (x3, x4) == _interval_overlap (x3, x4) (x1, x2))%Q.
Proof.
  intros H12 H34. unfold _interval_overlap.
  destruct (Qltb x3 x1) eqn:E31; destruct (Qltb x1 x3) eqn:E13;
    destruct (Qltb x4 x1) eqn:E41; destruct (Qltb x2 x3) eqn:E23;
    repeat match goal with
           | H : Qltb _ _ = true |- _ => apply Qltb_true in H
           | H : Qltb _ _ = false |- _ => apply Qltb_false in H
           end;
    first [ reflexivity
          | rewrite (Q.min_comm x4 x2); reflexivity
          | exfalso; lra
          | assert (Heq : (x1 == x3)%Q) by lra;
            rewrite (Q.min_comm x4 x2), Heq; reflexivity ].
Qed.

Lemma intersect_of_sym (box1 box2 : BoundBox) :
  ordered box1 -> ordered box2 -> (intersect_of box1 box2 == intersect_of box2 box1)%Q.
Proof.
  intros [Hx1 Hy1] [Hx2 Hy2]. unfold intersect_of.
  rewrite (_interval_overlap_sym _ _ _ _ Hx1 Hx2).
  rewrite (_interval_overlap_sym _ _ _ _ Hy1 Hy2). reflexivity.
Qed.

Lemma bbox_iou_sym (box1 box2 : BoundBox) :
  ordered box1 -> ordered box2 -> (bbox_iou box1 box2 == bbox_iou box2 box1)%Q.
Proof.
  intros H1 H2. pose proof (intersect_of_sym _ _ H1 H2) as Hi.
  assert (Hu : (union_of box1 box2 == union_of box2 box1)%Q).
  { unfold union_of. rewrite Hi. ring. }
  rewrite !bbox_iou_unfold. rewrite (Qeqb_comp _ _ Hu 0%Q 0%Q (Qeq_refl 0)).
  destruct (Qeq_bool (union_of box2 box1) 0); [reflexivity|].
  rewrite Hi, Hu. reflexivity.
Qed.

(** ** Non-maximum suppression: one class *)

Lemma retains_lookup (box : BoundBox) (c : nat) (v : Q) :
  classes box !! c = Some v -> py_truthy v = false -> ~ retains box c.
Proof. intros Hv Hz (w & Hw & Ht). congruence. Qed.

Lemma not_retains_set_class (c : nat) (box : BoundBox) :
  (c < length (classes box))%nat -> ~ retains (set_class c 0 box) c.
Proof.
  intros Hlt. apply (retains_lookup _ _ 0%Q); [|reflexivity].
  cbn. apply list_lookup_insert_eq. exact Hlt.
Qed.

Lemma zeroed_retains_before (c c' : nat) (box box' : BoundBox) :
  zeroed c' box box' -> retains box' c -> retains box c.
Proof.
  intros Hz Hr. destruct (decide (c' = c)) as [->|Hne].
  - rewrite <- (zeroed_retains _ _ _ Hz Hr). exact Hr.
  - destruct Hr as (v & Hv & Ht). exists v. split; [|exact Ht].
    rewrite <- (zeroed_other _ _ _ _ Hz Hne). exact Hv.
Qed.

(** A box that retains class [c] after a pass over class [c] is the box
    it was. *)
Lemma Forall2_zeroed_retains (c : nat) (boxes boxes' : list BoundBox) (k : nat)
    (box' : BoundBox) :
  Forall2 (zeroed c) boxes boxes' -> boxes' !! k = Some box' -> retains box' c ->
  boxes !! k = Some box'.
Proof.
  intros Hall Hk Hr.
  destruct (Forall2_lookup_r _ _ _ _ _ Hall Hk) as (box & Hbox & Hz).
  rewrite (zeroed_retains _ _ _ Hz Hr). exact Hbox.
Qed.

Lemma Forall2_zeroed_in_range (c c' : nat) (boxes boxes' : list BoundBox) :
  Forall2 (zeroed c') boxes boxes' ->
  Forall (fun box => c < length (classes box))%nat boxes ->
  Forall (fun box => c < length (classes box))%nat boxes'.
Proof.
  intros Hall. induction Hall as [|b b' l l' Hz _ IH]; intros Hin; [constructor|].
  inversion Hin; subst. constructor; [|auto].
  destruct (zeroed_corners _ _ _ Hz) as (_ & _ & _ & _ & ->). assumption.
Qed.

Section OneClass.

Variable nms_thresh : Q.
Variable c : nat.
Variable sorted_indices : list nat.
Hypothesis sorted_NoDup : NoDup sorted_indices.

Lemma nms_compare_step (i j index_i index_j : nat) (boxes : list BoundBox)
    (box_i box_j : BoundBox) :
  sorted_indices !! i = Some index_i -> sorted_indices !! j = Some index_j ->
  boxes !! index_i = Some box_i -> boxes !! index_j = Some box_j ->
  (c < length (classes box_j))%nat ->
  nms_compare nms_thresh c sorted_indices i j boxes =
    Ok (if Qle_bool nms_thresh (bbox_iou box_i box_j)
        then <[index_j := set_class c 0 box_j]> boxes else boxes).
Proof.
  intros Hi Hj Hbi Hbj Hc. unfold nms_compare, py_index, mbind, result_bind.
  rewrite Hi, Hbi, Hj, Hbj.
  destruct (Qle_bool nms_thresh (bbox_iou box_i box_j)); [|reflexivity].
  unfold py_setitem. apply Nat.ltb_lt in Hc. rewrite Hc. reflexivity.
Qed.

(** The loop over [j]: every later box that overlaps box [i] by the
    threshold or more loses its score for class [c]; box [i] is left
    as it is. *)
Lemma nms_inner_loop (i index_i : nat) (boxes : list BoundBox) (box_i : BoundBox) :
  (forall k, k ∈ sorted_indices -> (k < length boxes)%nat) ->
  Forall (fun box => c < length (classes box))%nat boxes ->
  sorted_indices !! i = Some index_i -> boxes !! index_i = Some box_i ->
  exists boxes',
    for_each (nms_compare nms_thresh c sorted_indices i)
             (seq (i + 1) (length sorted_indices - (i + 1))) boxes = Ok boxes'
    /\ Forall2 (zeroed c) boxes boxes'
    /\ boxes' !! index_i = Some box_i
    /\ forall q index_q box_q,
         (i < q)%nat -> sorted_indices !! q = Some index_q ->
         boxes' !! index_q = Some box_q -> retains box_q c ->
         (bbox_iou box_i box_q < nms_thresh)%Q.
Proof.
  intros Hbound Hrange Hi Hbi.
  destruct (for_each_total
    (fun m acc =>
       Forall2 (zeroed c) boxes acc
       /\ acc !! index_i = Some box_i
       /\ forall q index_q box_q,
            (i < q < i + 1 + m)%nat -> sorted_indices !! q = Some index_q ->
            acc !! index_q = Some box_q -> retains box_q c ->
            (bbox_iou box_i box_q < nms_thresh)%Q)
    (nms_compare nms_thresh c sorted_indices i)
    (seq (i + 1) (length sorted_indices - (i + 1))) boxes)
    as (boxes' & Hrun & Hz & Hkeep & Hsafe).
  - split; [apply Forall2_zeroed_refl|]. split; [exact Hbi|]. intros; lia.
  - intros m j acc Hj (Hz & Hkeep & Hsafe).
    apply lookup_seq in Hj as [-> Hm].
    destruct (lookup_lt_is_Some_2 sorted_indices (i + 1 + m)) as [index_j Hj]; [lia|].
    assert (Hne : index_j <> index_i).
    { intros ->. pose proof (NoDup_lookup _ _ _ _ sorted_NoDup Hi Hj). lia. }
    assert (Hlen : length acc = length boxes)
      by (symmetry; eapply Forall2_length; eauto).
    destruct (lookup_lt_is_Some_2 acc index_j) as [box_j Hbj].
    { rewrite Hlen. apply Hbound. eapply list_elem_of_lookup_2; eauto. }
    assert (Hcj : (c < length (classes box_j))%nat).
    { pose proof (Forall2_zeroed_in_range c c _ _ Hz Hrange) as Hr.
      rewrite Forall_forall in Hr. apply Hr. eapply list_elem_of_lookup_2; eauto. }
    rewrite (nms_compare_step _ _ _ _ _ _ _ Hi Hj Hkeep Hbj Hcj).
    eexists. split; [reflexivity|].
    destruct (Qle_bool nms_thresh (bbox_iou box_i box_j)) eqn:Hcmp.
    + split; [|split].
      * eapply Forall2_zeroed_trans; [exact Hz|].
        apply Forall2_zeroed_insert. exact Hbj.
      * rewrite list_lookup_insert_ne by exact Hne. exact Hkeep.
      * intros q index_q box_q Hq Hiq Hbq Hr.
        destruct (decide (q = i + 1 + m)%nat) as [->|Hqm].
        -- rewrite Hj in Hiq. injection Hiq as <-.
           rewrite list_lookup_insert_eq in Hbq by (eapply lookup_lt_Some; eauto).
           injection Hbq as <-. exfalso. exact (not_retains_set_class _ _ Hcj Hr).
        -- assert (Hneq : index_j <> index_q).
           { intros ->. pose proof (NoDup_lookup _ _ _ _ sorted_NoDup Hj Hiq). lia. }
           rewrite list_lookup_insert_ne in Hbq by exact Hneq.
           apply (Hsafe q index_q box_q); [lia | assumption..].
    + split; [exact Hz|]. split; [exact Hkeep|].
      intros q index_q box_q Hq Hiq Hbq Hr.
      destruct (decide (q = i + 1 + m)%nat) as [->|Hqm].
      * rewrite Hj in Hiq. injection Hiq as <-.
        rewrite Hbj in Hbq. injection Hbq as <-.
        apply Qnot_le_lt. intros Hle. apply Qle_bool_iff in Hle. congruence.
      * apply (Hsafe q index_q box_q); [lia | assumption..].
  - exists boxes'. split; [exact Hrun|]. split; [exact Hz|]. split; [exact Hkeep|].
    intros q index_q box_q Hq Hiq Hbq Hr.
    apply (Hsafe q index_q box_q); try assumption.
    rewrite length_seq. apply lookup_lt_Some in Hiq. lia.
Qed.

End OneClass.

Lemma traverse_total {A B : Type} (f : A -> result B) (g : A -> B) (xs : list A) :
  Forall (fun x => f x = Ok (g x)) xs -> traverse f xs = Ok (map g xs).
Proof.
  induction 1 as [|x xs Hx _ IH]; [reflexivity|].
  cbn. rewrite Hx. cbn. rewrite IH. reflexivity.
Qed.

Section ClassPass.

Variable nms_thresh : Q.
Variable c : nat.

(** The loop over [i]: of two boxes that both retain class [c], the one
    earlier in the order does not overlap the later one by the threshold
    or more. *)
Lemma nms_outer_loop (sorted_indices : list nat) (boxes : list BoundBox) :
  NoDup sorted_indices ->
  (forall k, k ∈ sorted_indices -> (k < length boxes)%nat) ->
  Forall (fun box => c < length (classes box))%nat boxes ->
  exists boxes',
    for_each (nms_from nms_thresh c sorted_indices)
             (seq 0 (length sorted_indices)) boxes = Ok boxes'
    /\ Forall2 (zeroed c) boxes boxes'
    /\ forall p q index_p index_q box_p box_q,
         (p < q)%nat ->
         sorted_indices !! p = Some index_p -> sorted_indices !! q = Some index_q ->
         boxes' !! index_p = Some box_p -> boxes' !! index_q = Some box_q ->
         retains box_p c -> retains box_q c ->
         (bbox_iou box_p box_q < nms_thresh)%Q.
Proof.
  intros Hnodup Hbound Hrange.
  destruct (for_each_total
    (fun i acc =>
       Forall2 (zeroed c) boxes acc
       /\ forall p q index_p index_q box_p box_q,
            (p < i)%nat -> (p < q)%nat ->
            sorted_indices !! p = Some index_p -> sorted_indices !! q = Some index_q ->
            acc !! index_p = Some box_p -> acc !! index_q = Some box_q ->
            retains box_p c -> retains box_q c ->
            (bbox_iou box_p box_q < nms_thresh)%Q)
    (nms_from nms_thresh c sorted_indices)
    (seq 0 (length sorted_indices)) boxes)
    as (boxes' & Hrun & Hz & Hsafe).
  - split; [apply Forall2_zeroed_refl|]. intros; lia.
  - intros i i' acc Hi' (Hz & Hsafe).
    apply lookup_seq in Hi' as [-> Hi]. cbn in Hi |- *.
    destruct (lookup_lt_is_Some_2 sorted_indices i Hi) as [index_i Hidx].
    assert (Hlen : length acc = length boxes)
      by (symmetry; eapply Forall2_length; eauto).
    destruct (lookup_lt_is_Some_2 acc index_i) as [box_i Hbi].
    { rewrite Hlen. apply Hbound. eapply list_elem_of_lookup_2; eauto. }
    pose proof (Forall2_zeroed_in_range c c _ _ Hz Hrange) as Hrange'.
    assert (Hci : (c < length (classes box_i))%nat).
    { rewrite Forall_forall in Hrange'. apply Hrange'.
      eapply list_elem_of_lookup_2; eauto. }
    destruct (lookup_lt_is_Some_2 (classes box_i) c Hci) as [v Hv].
    unfold nms_from, py_index, mbind, result_bind. rewrite Hidx, Hbi, Hv.
    destruct (py_truthy v) eqn:Hv_true.
    + destruct (nms_inner_loop nms_thresh c sorted_indices Hnodup i index_i acc box_i)
        as (acc' & Hrun & Hz' & Hkeep & Hnew); try assumption.
      { intros k Hk. rewrite Hlen. apply Hbound, Hk. }
      exists acc'. split; [exact Hrun|]. split.
      * eapply Forall2_zeroed_trans; eauto.
      * intros p q index_p index_q box_p box_q Hp Hpq Hip Hiq Hbp Hbq Hrp Hrq.
        destruct (decide (p = i)) as [->|Hpi].
        -- rewrite Hidx in Hip. injection Hip as <-.
           rewrite Hkeep in Hbp. injection Hbp as <-.
           apply (Hnew q index_q box_q); assumption.
        -- apply (Hsafe p q index_p index_q box_p box_q); try assumption; [lia| |].
           ++ eapply Forall2_zeroed_retains; eauto.
           ++ eapply Forall2_zeroed_retains; eauto.
    + exists acc. split; [reflexivity|]. split; [exact Hz|].
      intros p q index_p index_q box_p box_q Hp Hpq Hip Hiq Hbp Hbq Hrp Hrq.
      destruct (decide (p = i)) as [->|Hpi].
      * rewrite Hidx in Hip. injection Hip as <-.
        rewrite Hbi in Hbp. injection Hbp as <-.
        exfalso. exact (retains_lookup _ _ _ Hv Hv_true Hrp).
      * apply (Hsafe p q index_p index_q box_p box_q); try assumption. lia.
  - exists boxes'. split; [exact Hrun|]. split; [exact Hz|].
    intros p q index_p index_q box_p box_q Hpq Hip Hiq.
    apply (Hsafe p q index_p index_q box_p box_q); try assumption.
    rewrite length_seq. apply lookup_lt_Some in Hiq. lia.
Qed.

Lemma class_keys_total (boxes : list BoundBox) :
  Forall (fun box => c < length (classes box))%nat boxes ->
  exists keys, class_keys c boxes = Ok keys /\ length keys = length boxes.
Proof.
  intros Hrange.
  exists (map (fun box => (- default 0 (classes box !! c))%Q) boxes).
  split; [|apply length_map].
  apply traverse_total. apply (Forall_impl _ _ _ Hrange).
  intros box Hc. destruct (lookup_lt_is_Some_2 (classes box) c Hc) as [v Hv].
  unfold py_index. rewrite Hv. reflexivity.
Qed.

(** One turn of the loop over the classes. *)
Lemma nms_class_suppresses (argsort : list Q -> list nat) (boxes : list BoundBox) :
  argsort_spec argsort ->
  Forall (fun box => c < length (classes box))%nat boxes ->
  exists boxes',
    nms_class argsort nms_thresh c boxes = Ok boxes'
    /\ Forall2 (zeroed c) boxes boxes'
    /\ suppressed nms_thresh c boxes'.
Proof.
  intros Hargsort Hrange.
  destruct (class_keys_total boxes Hrange) as (keys & Hkeys & Hlen).
  destruct (Hargsort keys) as [Hperm _]. rewrite Hlen in Hperm.
  assert (Hnodup : NoDup (argsort keys)).
  { rewrite Hperm. apply NoDup_seq. }
  assert (Hbound : forall k, k ∈ argsort keys -> (k < length boxes)%nat).
  { intros k Hk. rewrite Hperm in Hk. apply elem_of_seq in Hk. lia. }
  destruct (nms_outer_loop (argsort keys) boxes Hnodup Hbound Hrange)
    as (boxes' & Hrun & Hz & Hsafe).
  exists boxes'. unfold nms_class. rewrite Hkeys. cbn.
  split; [exact Hrun|]. split; [exact Hz|].
  assert (Hlen' : length boxes' = length boxes)
    by (symmetry; eapply Forall2_length; eauto).
  assert (Hpos : forall x box_x, boxes' !! x = Some box_x ->
                   exists p, argsort keys !! p = Some x).
  { intros x box_x Hx. apply list_elem_of_lookup_1. rewrite Hperm.
    apply elem_of_seq. apply lookup_lt_Some in Hx. lia. }
  intros x y box_x box_y Hxy Hx Hy Hrx Hry.
  destruct (Hpos _ _ Hx) as [p Hp]. destruct (Hpos _ _ Hy) as [q Hq].
  assert (Hpq : p <> q) by (intros ->; congruence).
  destruct (decide (p < q)%nat) as [Hlt|Hge].
  - pose proof (Hsafe p q x y box_x box_y Hlt Hp Hq Hx Hy Hrx Hry) as Hiou.
    split; [left; exact Hiou | intros; exact Hiou].
  - assert (Hlt : (q < p)%nat) by lia.
    pose proof (Hsafe q p y x box_y box_x Hlt Hq Hp Hy Hx Hry Hrx) as Hiou.
    split; [right; exact Hiou|].
    intros Hox Hoy. rewrite (bbox_iou_sym _ _ Hox Hoy). exact Hiou.
Qed.

End ClassPass.

(** ** Non-maximum suppression: all classes *)

Lemma keeps_class_refl (c : nat) (box : BoundBox) : keeps_class c box box.
Proof. unfold keeps_class. repeat split. Qed.

Lemma keeps_class_trans (c : nat) (b1 b2 b3 : BoundBox) :
  keeps_class c b1 b2 -> keeps_class c b2 b3 -> keeps_class c b1 b3.
Proof.
  unfold keeps_class. intros (? & ? & ? & ? & ? & ?) (? & ? & ? & ? & ? & ?).
  repeat split; congruence.
Qed.

Lemma Forall2_keeps_class_trans (c : nat) (l1 l2 l3 : list BoundBox) :
  Forall2 (keeps_class c) l1 l2 -> Forall2 (keeps_class c) l2 l3 ->
  Forall2 (keeps_class c) l1 l3.
Proof.
  intros H12. revert l3. induction H12; intros l3 H23; inversion H23; subst; constructor.
  - eapply keeps_class_trans; eauto.
  - auto.
Qed.

Lemma keeps_class_retains (c : nat) (box box' : BoundBox) :
  keeps_class c box box' -> retains box' c -> retains box c.
Proof.
  intros (_ & _ & _ & _ & _ & Hc) (v & Hv & Ht). exists v. split; congruence.
Qed.

Lemma keeps_class_iou (c : nat) (b1 b2 b1' b2' : BoundBox) :
  keeps_class c b1 b1' -> keeps_class c b2 b2' -> bbox_iou b1' b2' = bbox_iou b1 b2.
Proof.
  intros (? & ? & ? & ? & _) (? & ? & ? & ? & _). apply bbox_iou_corners; assumption.
Qed.

Lemma suppressed_keeps (t : Q) (c : nat) (boxes boxes' : list BoundBox) :
  Forall2 (keeps_class c) boxes boxes' -> suppressed t c boxes -> suppressed t c boxes'.
Proof.
  intros Hk Hs x y box_x' box_y' Hxy Hx Hy Hrx Hry.
  destruct (Forall2_lookup_r _ _ _ _ _ Hk Hx) as (box_x & Hbx & Hkx).
  destruct (Forall2_lookup_r _ _ _ _ _ Hk Hy) as (box_y & Hby & Hky).
  destruct (Hs x y box_x box_y Hxy Hbx Hby (keeps_class_retains _ _ _ Hkx Hrx)
              (keeps_class_retains _ _ _ Hky Hry)) as [Hor Hord].
  rewrite (keeps_class_iou _ _ _ _ _ Hkx Hky), (keeps_class_iou _ _ _ _ _ Hky Hkx).
  split; [exact Hor|]. intros Hox Hoy. apply Hord.
  - destruct Hkx as (H1 & H2 & H3 & H4 & _). exact (ordered_corners _ _ H1 H2 H3 H4 Hox).
  - destruct Hky as (H1 & H2 & H3 & H4 & _). exact (ordered_corners _ _ H1 H2 H3 H4 Hoy).
Qed.

Lemma Forall2_zeroed_keeps (c c' : nat) (boxes boxes' : list BoundBox) :
  Forall2 (zeroed c) boxes boxes' -> c <> c' -> Forall2 (keeps_class c') boxes boxes'.
Proof.
  intros Hz Hne. eapply Forall2_impl; [exact Hz|].
  intros box box' H. apply (zeroed_keeps_class _ _ _ _ H Hne).
Qed.

(** The loop over the classes, on any list of classes that every box
    carries: every class of the list ends suppressed, every other class
    is left as it was. *)
Lemma nms_classes_suppress (argsort : list Q -> list nat) (t : Q) (cs : list nat) :
  argsort_spec argsort ->
  forall boxes : list BoundBox,
    (forall c, c ∈ cs -> Forall (fun box => c < length (classes box))%nat boxes) ->
    exists boxes',
      for_each (nms_class argsort t) cs boxes = Ok boxes'
      /\ (forall c, c ∈ cs -> suppressed t c boxes')
      /\ (forall c, c ∉ cs -> Forall2 (keeps_class c) boxes boxes').
Proof.
  intros Hargsort. induction cs as [|c0 cs IH]; intros boxes Hrange.
  - exists boxes. split; [reflexivity|]. split.
    + intros c Hc. inversion Hc.
    + intros c _. apply Forall_Forall2_diag, Forall_forall. intros. apply keeps_class_refl.
  - destruct (nms_class_suppresses t c0 argsort boxes Hargsort (Hrange c0 ltac:(left)))
      as (boxes1 & Hrun1 & Hz & Hs0).
    destruct (IH boxes1) as (boxes' & Hrun & Hs & Hk).
    { intros c Hc. apply (Forall2_zeroed_in_range c c0 boxes boxes1 Hz).
      apply Hrange. right. exact Hc. }
    exists boxes'. split; [cbn; rewrite Hrun1; exact Hrun|]. split.
    + intros c Hc. destruct (decide (c ∈ cs)) as [Hin|Hnotin]; [apply Hs, Hin|].
      apply elem_of_cons in Hc as [-> | Hc]; [|contradiction].
      apply (suppressed_keeps t c0 boxes1 boxes' (Hk c0 Hnotin) Hs0).
    + intros c Hc. apply not_elem_of_cons in Hc as [Hne Hnotin].
      eapply Forall2_keeps_class_trans; [|apply Hk, Hnotin].
      apply (Forall2_zeroed_keeps c0 c _ _ Hz). congruence.
Qed.

(** [do_nms] on boxes whose class vectors have one length. *)
Lemma do_nms_suppressed (argsort : list Q -> list nat) (boxes : list BoundBox) (t : Q) :
  argsort_spec argsort ->
  (forall box box', box ∈ boxes -> box' ∈ boxes ->
     length (classes box) = length (classes box')) ->
  exists boxes',
    do_nms argsort boxes t = Ok boxes' /\ forall c, suppressed t c boxes'.
Proof.
  intros Hargsort Hsame. destruct boxes as [|box0 rest].
  - exists []. split; [reflexivity|]. intros c x y box_x box_y _ Hx. inversion Hx.
  - set (boxes := box0 :: rest) in *.
    assert (Hlen : Forall (fun box => length (classes box) = length (classes box0)) boxes).
    { apply Forall_forall. intros box Hbox. apply Hsame; [exact Hbox | left]. }
    destruct (nms_classes_suppress argsort t (seq 0 (length (classes box0))) Hargsort boxes)
      as (boxes' & Hrun & Hs & Hk).
    { intros c Hc. apply elem_of_seq in Hc. apply (Forall_impl _ _ _ Hlen).
      intros box ->. lia. }
    exists boxes'. split; [exact Hrun|]. intros c.
    destruct (decide (c < length (classes box0))%nat) as [Hlt|Hge].
    + apply Hs. apply elem_of_seq. lia.
    + assert (Hnotin : c ∉ seq 0 (length (classes box0))).
      { intros Hin. apply elem_of_seq in Hin. lia. }
      intros x y box_x' box_y' _ Hx _ Hrx _. exfalso.
      destruct (Forall2_lookup_r _ _ _ _ _ (Hk c Hnotin) Hx) as (box_x & Hbx & Hkx).
      destruct (keeps_class_retains _ _ _ Hkx Hrx) as (v & Hv & _).
      apply lookup_lt_Some in Hv. rewrite Forall_forall in Hlen.
      rewrite (Hlen box_x) in Hv by (eapply list_elem_of_lookup_2; eauto). lia.
Qed.

(** ** Non-maximum suppression: two boxes *)

Lemma argsort_pair (argsort : list Q -> list nat) (k1 k2 : Q) :
  argsort_spec argsort -> (k1 < k2)%Q ->
  argsort [k1; k2] = [0; 1]%nat /\ argsort [k2; k1] = [1; 0]%nat.
Proof.
  intros Hspec Hlt. split.
  - destruct (Hspec [k1; k2]) as [Hperm Hsorted]. cbn in Hperm.
    apply Permutation_sym, Permutation_length_2_inv in Hperm as [H|H]; [exact H|].
    rewrite H in Hsorted. inversion Hsorted as [|? ? _ Hall]; subst.
    inversion Hall as [|? ? Hle _]; subst. cbn in Hle. lra.
  - destruct (Hspec [k2; k1]) as [Hperm Hsorted]. cbn in Hperm.
    apply Permutation_sym, Permutation_length_2_inv in Hperm as [H|H]; [|exact H].
    rewrite H in Hsorted. inversion Hsorted as [|? ? _ Hall]; subst.
    inversion Hall as [|? ? Hle _]; subst. cbn in Hle. lra.
Qed.

Lemma nms_from_step (t : Q) (c : nat) (sorted_indices : list nat) (i index_i : nat)
    (boxes : list BoundBox) (box_i : BoundBox) (v : Q) :
  sorted_indices !! i = Some index_i -> boxes !! index_i = Some box_i ->
  classes box_i !! c = Some v ->
  nms_from t c sorted_indices i boxes =
    if py_truthy v
    then for_each (nms_compare t c sorted_indices i)
                  (seq (i + 1) (length sorted_indices - (i + 1))) boxes
    else Ok boxes.
Proof.
  intros Hi Hb Hv. unfold nms_from, py_index, mbind, result_bind.
  rewrite Hi, Hb, Hv. reflexivity.
Qed.

Lemma class_keys_pair (c : nat) (box1 box2 : BoundBox) (v1 v2 : Q) :
  classes box1 !! c = Some v1 -> classes box2 !! c = Some v2 ->
  class_keys c [box1; box2] = Ok [(- v1)%Q; (- v2)%Q].
Proof.
  intros H1 H2. unfold class_keys.
  rewrite (traverse_total _ (fun box => (- default 0 (classes box !! c))%Q)).
  - cbn. rewrite H1, H2. reflexivity.
  - repeat constructor; unfold py_index; [rewrite H1 | rewrite H2]; reflexivity.
Qed.

Lemma nms_class_pair (argsort : list Q -> list nat) (t : Q) (c : nat)
    (box1 box2 : BoundBox) (v1 v2 : Q) :
  argsort_spec argsort ->
  classes box1 !! c = Some v1 -> classes box2 !! c = Some v2 ->
  (v2 < v1)%Q -> py_truthy v1 = true ->
  Qle_bool t (bbox_iou box1 box2) = true ->
  nms_class argsort t c [box1; box2] = Ok [box1; set_class c 0 box2]
  /\ nms_class argsort t c [box2; box1] = Ok [set_class c 0 box2; box1].
Proof.
  intros Hspec H1 H2 Hlt Ht Hiou.
  assert (Hkeys : (- v1 < - v2)%Q) by lra.
  destruct (argsort_pair argsort _ _ Hspec Hkeys) as [Ha Hb].
  assert (Hc2 : (c < length (classes box2))%nat) by (eapply lookup_lt_Some; eauto).
  assert (H2' : classes (set_class c 0 box2) !! c = Some 0%Q).
  { cbn. apply list_lookup_insert_eq. exact Hc2. }
  split.
  - unfold nms_class. rewrite (class_keys_pair c _ _ _ _ H1 H2).
    change (for_each (nms_from t c (argsort [(- v1)%Q; (- v2)%Q]))
              (seq 0 (length (argsort [(- v1)%Q; (- v2)%Q]))) [box1; box2]
            = Ok [box1; set_class c 0 box2]).
    rewrite Ha. cbn [length seq for_each].
    rewrite (nms_from_step t c [0; 1]%nat 0 0 [box1; box2] box1 v1 eq_refl eq_refl H1).
    rewrite Ht. cbn [length Nat.add Nat.sub seq for_each].
    rewrite (nms_compare_step t c [0; 1]%nat 0 1 0 1 [box1; box2] box1 box2
               eq_refl eq_refl eq_refl eq_refl Hc2).
    rewrite Hiou. cbn [mbind result_bind].
    change (<[1%nat := set_class c 0 box2]> [box1; box2])
      with [box1; set_class c 0 box2].
    rewrite (nms_from_step t c [0; 1]%nat 1 1 [box1; set_class c 0 box2]
               (set_class c 0 box2) 0%Q eq_refl eq_refl H2').
    reflexivity.
  - unfold nms_class. rewrite (class_keys_pair c _ _ _ _ H2 H1).
    change (for_each (nms_from t c (argsort [(- v2)%Q; (- v1)%Q]))
              (seq 0 (length (argsort [(- v2)%Q; (- v1)%Q]))) [box2; box1]
            = Ok [set_class c 0 box2; box1]).
    rewrite Hb. cbn [length seq for_each].
    rewrite (nms_from_step t c [1; 0]%nat 0 1 [box2; box1] box1 v1 eq_refl eq_refl H1).
    rewrite Ht. cbn [length Nat.add Nat.sub seq for_each].
    rewrite (nms_compare_step t c [1; 0]%nat 0 1 1 0 [box2; box1] box1 box2
               eq_refl eq_refl eq_refl eq_refl Hc2).
    rewrite Hiou. cbn [mbind result_bind].
    change (<[0%nat := set_class c 0 box2]> [box2; box1])
      with [set_class c 0 box2; box1].
    rewrite (nms_from_step t c [1; 0]%nat 1 0 [set_class c 0 box2; box1]
               (set_class c 0 box2) 0%Q eq_refl eq_refl H2').
    reflexivity.
Qed.

Lemma for_each_nms_split (argsort : list Q -> list nat) (t : Q) (c n : nat)
    (boxes : list BoundBox) :
  (c < n)%nat ->
  for_each (nms_class argsort t) (seq 0 n) boxes =
    for_each (nms_class argsort t) (seq 0 c) boxes
    ≫= (fun boxes => nms_class argsort t c boxes
    ≫= for_each (nms_class argsort t) (seq (S c) (n - S c))).
Proof.
  intros Hc. replace n with (c + S (n - S c))%nat at 1 by lia.
  rewrite seq_app, for_each_app. cbn [seq for_each Nat.add]. reflexivity.
Qed.

(** Two boxes, the first with the greater score for class [c], that
    overlap by the threshold or more: whatever their order in the list,
    the first keeps its score and the second loses it. *)
Lemma do_nms_pair (argsort : list Q -> list nat) (t : Q) (c : nat)
    (box1 box2 : BoundBox) (v1 v2 : Q) (swap : bool) :
  argsort_spec argsort ->
  length (classes box1) = length (classes box2) ->
  classes box1 !! c = Some v1 -> classes box2 !! c = Some v2 ->
  (v2 < v1)%Q -> py_truthy v1 = true ->
  Qle_bool t (bbox_iou box1 box2) = true ->
  exists box1' box2',
    do_nms argsort (if swap then [box2; box1] else [box1; box2]) t
    = Ok (if swap then [box2'; box1'] else [box1'; box2'])
    /\ classes box1' !! c = Some v1 /\ classes box2' !! c = Some 0%Q.
Proof.
  intros Hspec Hlen H1 H2 Hlt Ht Hiou.
  set (n := length (classes box1)).
  assert (Hc : (c < n)%nat) by (eapply lookup_lt_Some; eauto).
  set (boxes := if swap then [box2; box1] else [box1; box2]).
  assert (Hn : length (classes (if swap then box2 else box1)) = n)
    by (destruct swap; unfold n; congruence).
  assert (Hrun0 : do_nms argsort boxes t = for_each (nms_class argsort t) (seq 0 n) boxes).
  { unfold boxes. destruct swap; cbn [do_nms]; rewrite <- Hn; reflexivity. }
  rewrite Hrun0, (for_each_nms_split argsort t c n boxes Hc).
  assert (Hall : Forall (fun box => length (classes box) = n) boxes).
  { unfold boxes. destruct swap; repeat constructor; unfold n; congruence. }
  (* the classes before [c] *)
  destruct (nms_classes_suppress argsort t (seq 0 c) Hspec boxes)
    as (boxesA & HrunA & _ & HkA).
  { intros c' Hc'. apply elem_of_seq in Hc'. apply (Forall_impl _ _ _ Hall).
    intros box ->. lia. }
  rewrite HrunA. cbn [mbind result_bind].
  assert (HnotinA : c ∉ seq 0 c) by (intros H; apply elem_of_seq in H; lia).
  specialize (HkA c HnotinA).
  assert (HA : exists a1 a2, boxesA = (if swap then [a2; a1] else [a1; a2])
                 /\ keeps_class c box1 a1 /\ keeps_class c box2 a2).
  { unfold boxes in HkA. destruct swap;
      inversion HkA as [|? ? ? ? K1 K]; subst;
      inversion K as [|? ? ? ? K2 K']; subst; inversion K'; subst; eauto. }
  destruct HA as (a1 & a2 & -> & Hk1 & Hk2).
  (* the class [c] *)
  assert (Ha1 : classes a1 !! c = Some v1) by (destruct Hk1 as (_&_&_&_&_&->); exact H1).
  assert (Ha2 : classes a2 !! c = Some v2) by (destruct Hk2 as (_&_&_&_&_&->); exact H2).
  assert (HiouA : Qle_bool t (bbox_iou a1 a2) = true)
    by (rewrite (keeps_class_iou c _ _ _ _ Hk1 Hk2); exact Hiou).
  destruct (nms_class_pair argsort t c a1 a2 v1 v2 Hspec Ha1 Ha2 Hlt Ht HiouA)
    as [Hpass Hpass'].
  assert (HrunB : nms_class argsort t c (if swap then [a2; a1] else [a1; a2])
                  = Ok (if swap then [set_class c 0 a2; a1] else [a1; set_class c 0 a2]))
    by (destruct swap; assumption).
  rewrite HrunB. cbn [mbind result_bind].
  (* the classes after [c] *)
  set (boxesB := if swap then [set_class c 0 a2; a1] else [a1; set_class c 0 a2]).
  assert (HallB : Forall (fun box => length (classes box) = n) boxesB).
  { destruct Hk1 as (_&_&_&_&L1&_). destruct Hk2 as (_&_&_&_&L2&_).
    assert (length (classes (set_class c 0 a2)) = n)
      by (cbn; rewrite length_insert; unfold n; congruence).
    unfold boxesB. destruct swap; repeat constructor; try assumption; unfold n; congruence. }
  destruct (nms_classes_suppress argsort t (seq (S c) (n - S c)) Hspec boxesB)
    as (boxesC & HrunC & _ & HkC).
  { intros c' Hc'. apply elem_of_seq in Hc'. apply (Forall_impl _ _ _ HallB).
    intros box ->. lia. }
  assert (HnotinC : c ∉ seq (S c) (n - S c)) by (intros H; apply elem_of_seq in H; lia).
  specialize (HkC c HnotinC).
  assert (HC : exists f1 f2, boxesC = (if swap then [f2; f1] else [f1; f2])
                 /\ keeps_class c a1 f1 /\ keeps_class c (set_class c 0 a2) f2).
  { unfold boxesB in HkC. destruct swap;
      inversion HkC as [|? ? ? ? K1 K]; subst;
      inversion K as [|? ? ? ? K2 K']; subst; inversion K'; subst; eauto. }
  destruct HC as (f1 & f2 & -> & Hf1 & Hf2).
  exists f1, f2. split; [exact HrunC|]. split.
  - destruct Hf1 as (_&_&_&_&_&->). exact Ha1.
  - destruct Hf2 as (_&_&_&_&_&->). cbn. apply list_lookup_insert_eq.
    eapply lookup_lt_Some; eauto.
Qed.

(** ** The stable argsort meets the promise of [np.argsort] *)

Lemma insert_index_perm (keys : list Q) (i : nat) (sorted : list nat) :
  Permutation (insert_index keys i sorted) (i :: sorted).
Proof.
  induction sorted as [|j rest IH]; cbn; [reflexivity|].
  destruct (Qltb (nth i keys 0%Q) (nth j keys 0%Q)); [reflexivity|].
  rewrite IH. apply perm_swap.
Qed.

Lemma insert_index_sorted (keys : list Q) (i : nat) (sorted : list nat) :
  StronglySorted (fun a b => (nth a keys 0 <= nth b keys 0)%Q) sorted ->
  StronglySorted (fun a b => (nth a keys 0 <= nth b keys 0)%Q) (insert_index keys i sorted).
Proof.
  induction 1 as [|j rest Hrest IH Hall]; cbn.
  - repeat constructor.
  - destruct (Qltb (nth i keys 0%Q) (nth j keys 0%Q)) eqn:E.
    + apply Qltb_true in E. constructor; [constructor; assumption|].
      constructor; [apply Qlt_le_weak, E|].
      apply (Forall_impl _ _ _ Hall). intros k Hk.
      eapply Qle_trans; [apply Qlt_le_weak, E | exact Hk].
    + apply Qltb_false in E. constructor; [exact IH|].
      rewrite (insert_index_perm keys i rest). constructor; assumption.
Qed.

Lemma stable_argsort_spec : argsort_spec stable_argsort.
Proof.
  intros keys. unfold stable_argsort.
  assert (Hfold : forall xs acc,
            Permutation (fold_left (fun sorted i => insert_index keys i sorted) xs acc)
                        (xs ++ acc)
            /\ (StronglySorted (fun a b => (nth a keys 0 <= nth b keys 0)%Q) acc ->
                StronglySorted (fun a b => (nth a keys 0 <= nth b keys 0)%Q)
                  (fold_left (fun sorted i => insert_index keys i sorted) xs acc))).
  { induction xs as [|x xs IH]; intros acc; cbn; [split; auto|].
    destruct (IH (insert_index keys x acc)) as [Hp Hs]. split.
    - rewrite Hp, insert_index_perm. symmetry. apply Permutation_middle.
    - intros Hacc. apply Hs, insert_index_sorted, Hacc. }
  destruct (Hfold (seq 0 (length keys)) []) as [Hp Hs]. split.
  - rewrite Hp, app_nil_r. reflexivity.
  - apply Hs. constructor.
Qed.

Example do_nms_strong_weak :
  do_nms stable_argsort [weak_box; strong_box] (45 # 100)
  = Ok [set_class 0 0 weak_box; strong_box]
  /\ bbox_iou strong_box weak_box = (90 # 100)%Q.
Proof. split; vm_compute; reflexivity. Qed.

(** C2.  For every list of boxes that is not empty and whose class vectors
    have one length, and every threshold [t], [do_nms] returns, and of the
    boxes it returns no two that both retain a score for one class overlap
    by [t] or more: the intersection over union of the one sorted first
    with the other is below [t], and for boxes with [xmin <= xmax] and
    [ymin <= ymax], where [bbox_iou] is symmetric, so is that of any of the
    two with the other.  In particular, of two boxes with scores 9/10 and
    8/10 for a class and intersection over union 9/10, under [t = 45/100]
    the first keeps its score and the second is left with zero, whatever
    their order in the list. *)
Theorem do_nms_no_overlap (argsort : list Q -> list nat) :
  argsort_spec argsort ->
  (forall (boxes : list BoundBox) (t : Q),
      boxes <> [] ->
      (forall box box', box ∈ boxes -> box' ∈ boxes ->
         length (classes box) = length (classes box')) ->
      exists boxes',
        do_nms argsort boxes t = Ok boxes' /\ forall c, suppressed t c boxes')
  /\ (forall (c : nat) (box1 box2 : BoundBox) (v1 v2 : Q) (swap : bool),
        length (classes box1) = length (classes box2) ->
        classes box1 !! c = Some v1 -> classes box2 !! c = Some v2 ->
        (v1 == 9 # 10)%Q -> (v2 == 8 # 10)%Q ->
        (bbox_iou box1 box2 == 9 # 10)%Q ->
        exists box1' box2',
          do_nms argsort (if swap then [box2; box1] else [box1; box2]) (45 # 100)
          = Ok (if swap then [box2'; box1'] else [box1'; box2'])
          /\ classes box1' !! c = Some v1 /\ classes box2' !! c = Some 0%Q).
Proof.
  intros Hspec. split.
  - intros boxes t _ Hsame. apply do_nms_suppressed; assumption.
  - intros c box1 box2 v1 v2 swap Hlen H1 H2 Hv1 Hv2 Hiou.
    apply (do_nms_pair argsort (45 # 100) c box1 box2 v1 v2 swap); try assumption.
    + rewrite Hv1, Hv2. reflexivity.
    + apply py_truthy_true. rewrite Hv1. discriminate.
    + apply Qle_bool_iff. rewrite Hiou. discriminate.
Qed.

Lemma do_nms_no_overlap_witness :
  (exists boxes',
      do_nms stable_argsort [weak_box; strong_box] (45 # 100) = Ok boxes'
      /\ forall c, suppressed (45 # 100) c boxes')
  /\ (exists box1' box2',
        do_nms stable_argsort [weak_box; strong_box] (45 # 100) = Ok [box2'; box1']
        /\ classes box1' !! 0%nat = Some (9 # 10)%Q
        /\ classes box2' !! 0%nat = Some 0%Q).
Proof.
  split.
  - apply (proj1 (do_nms_no_overlap stable_argsort stable_argsort_spec)).
    + discriminate.
    + intros box box' Hb Hb'.
      apply elem_of_cons in Hb as [->|Hb]; [|apply list_elem_of_singleton in Hb as ->];
        (apply elem_of_cons in Hb' as [->|Hb'];
         [|apply list_elem_of_singleton in Hb' as ->]); reflexivity.
  - apply (proj2 (do_nms_no_overlap stable_argsort stable_argsort_spec)
             0%nat strong_box weak_box (9 # 10)%Q (8 # 10)%Q true); reflexivity.
Defined.

(** ** The corners of a box after correction *)

Lemma traverse_Forall2 {A B : Type} (R : A -> B -> Prop) (f : A -> result B)
    (xs : list A) (ys : list B) :
  (forall x y, f x = Ok y -> R x y) -> traverse f xs = Ok ys -> Forall2 R xs ys.
Proof.
  intros Hf. revert ys. induction xs as [|x xs IH]; intros ys Hrun; cbn in Hrun.
  - injection Hrun as <-. constructor.
  - destruct (f x) as [y|e] eqn:Hx; cbn in Hrun; [|discriminate].
    destruct (traverse f xs) as [ys'|e]; cbn in Hrun; [|discriminate].
    injection Hrun as <-. constructor; [apply Hf, Hx | apply IH; reflexivity].
Qed.

Lemma Forall2_corners (boxes boxes' : list BoundBox) :
  Forall2 (fun box box' => corners box' = corners box) boxes boxes' ->
  map corners boxes' = map corners boxes.
Proof. induction 1; cbn; congruence. Qed.

Lemma RoI_class_corners (x0 x1 y0 y1 : Z) (c : nat) (box box' : BoundBox) :
  RoI_class x0 x1 y0 y1 c box = Ok box' -> corners box' = corners box.
Proof.
  destruct (classes box !! c) as [v|] eqn:Hv.
  - rewrite (RoI_class_step _ _ _ _ _ _ _ Hv).
    destruct (py_truthy v && roi_outside x0 x1 y0 y1 box); intros [= <-]; reflexivity.
  - rewrite (RoI_class_raises _ _ _ _ _ _ Hv). discriminate.
Qed.

Lemma RoI_corners (boxes boxes' : list BoundBox) (region_of_interest : option (list Z)) :
  RoI boxes region_of_interest = Ok boxes' -> map corners boxes' = map corners boxes.
Proof.
  unfold RoI.
  destruct region_of_interest as [[|x0 [|x1 [|y0 [|y1 [|? ?]]]]]|];
    try (intros [= <-]; reflexivity).
  destruct boxes as [|box0 rest]; [intros [= <-]; reflexivity|].
  intros Hrun. apply Forall2_corners.
  apply (traverse_Forall2 _ _ _ _ (fun box box' Hpass =>
           for_each_invariant (fun b => corners b = corners box) _ _
             (fun c b b' _ Hb Hstep => eq_trans (RoI_class_corners _ _ _ _ _ _ _ Hstep) Hb)
             box box' eq_refl Hpass) Hrun).
Qed.

Lemma nms_compare_corners (t : Q) (c : nat) (sorted_indices : list nat) (i j : nat)
    (boxes boxes' : list BoundBox) :
  nms_compare t c sorted_indices i j boxes = Ok boxes' ->
  map corners boxes' = map corners boxes.
Proof.
  unfold nms_compare, py_index, py_setitem, mbind, result_bind.
  destruct (sorted_indices !! i) as [index_i|]; [|discriminate].
  destruct (boxes !! index_i) as [box_i|]; [|discriminate].
  destruct (sorted_indices !! j) as [index_j|]; [|discriminate].
  destruct (boxes !! index_j) as [box_j|] eqn:Hj; [|discriminate].
  destruct (Qle_bool t (bbox_iou box_i box_j)); [|intros [= <-]; reflexivity].
  destruct (c <? length (classes box_j))%nat; [|discriminate].
  intros [= <-]. rewrite list_fmap_insert.
  apply list_insert_id. rewrite list_lookup_fmap, Hj. reflexivity.
Qed.

Lemma nms_from_corners (t : Q) (c : nat) (sorted_indices : list nat) (i : nat)
    (boxes boxes' : list BoundBox) :
  nms_from t c sorted_indices i boxes = Ok boxes' ->
  map corners boxes' = map corners boxes.
Proof.
  unfold nms_from, py_index, mbind, result_bind.
  destruct (sorted_indices !! i) as [index_i|]; [|discriminate].
  destruct (boxes !! index_i) as [box_i|]; [|discriminate].
  destruct (classes box_i !! c) as [v|]; [|discriminate].
  destruct (py_truthy v); [|intros [= <-]; reflexivity].
  apply (for_each_invariant (fun acc => map corners acc = map corners boxes)); [|reflexivity].
  intros j acc acc' _ Hacc Hstep.
  rewrite (nms_compare_corners _ _ _ _ _ _ _ Hstep). exact Hacc.
Qed.

Lemma nms_class_corners (argsort : list Q -> list nat) (t : Q) (c : nat)
    (boxes boxes' : list BoundBox) :
  nms_class argsort t c boxes = Ok boxes' -> map corners boxes' = map corners boxes.
Proof.
  unfold nms_class. destruct (class_keys c boxes) as [keys|]; cbn; [|discriminate].
  apply (for_each_invariant (fun acc => map corners acc = map corners boxes)); [|reflexivity].
  intros i acc acc' _ Hacc Hstep.
  rewrite (nms_from_corners _ _ _ _ _ _ Hstep). exact Hacc.
Qed.

Lemma do_nms_corners (argsort : list Q -> list nat) (t : Q)
    (boxes boxes' : list BoundBox) :
  do_nms argsort boxes t = Ok boxes' -> map corners boxes' = map corners boxes.
Proof.
  unfold do_nms. destruct boxes as [|box0 rest]; [intros [= <-]; reflexivity|].
  apply (for_each_invariant (fun acc => map corners acc = map corners (box0 :: rest)));
    [|reflexivity].
  intros c acc acc' _ Hacc Hstep.
  rewrite (nms_class_corners _ _ _ _ _ Hstep). exact Hacc.
Qed.

(** ** Selection *)

Lemma get_boxes_from (boxes : list BoundBox) (labels : list string) (thresh : Q)
    (v_boxes : list BoundBox) (v_labels : list string) (v_scores : list Q) :
  get_boxes boxes labels thresh = Ok (v_boxes, v_labels, v_scores) ->
  forall box, box ∈ v_boxes -> box ∈ boxes.
Proof.
  unfold get_boxes. intros Hrun.
  apply (for_each_invariant
           (fun acc : selection => forall box, box ∈ acc.1.1 -> box ∈ boxes)
           _ _) with (s := ([], [], [])) (3 := Hrun).
  - intros box0 acc acc' Hbox0 Hacc.
    apply (for_each_invariant
             (fun acc : selection => forall box, box ∈ acc.1.1 -> box ∈ boxes));
      [|exact Hacc].
    intros i [[vb vl] vs] acc2 _ Hin. unfold get_boxes_label, py_index, mbind, result_bind.
    destruct (classes box0 !! i) as [score|]; [|discriminate].
    destruct (Qltb thresh score); [|intros [= <-]; exact Hin].
    destruct (labels !! i) as [label|]; [|discriminate].
    intros [= <-]. cbn in *. intros box Hbox.
    apply elem_of_app in Hbox as [Hbox|Hbox]; [apply Hin, Hbox|].
    apply list_elem_of_singleton in Hbox as ->. exact Hbox0.
  - intros box Hbox. inversion Hbox.
Qed.

Lemma zip3_fst {A B C : Type} (xs : list A) (ys : list B) (zs : list C) (x : A) (y : B)
    (z : C) :
  (x, y, z) ∈ zip3 xs ys zs -> x ∈ xs.
Proof.
  revert ys zs. induction xs as [|x0 xs IH]; intros [|y0 ys] [|z0 zs] H;
    try (inversion H; fail).
  cbn in H. apply elem_of_cons in H as [[= -> -> ->]|H]; [left|right; eauto].
Qed.

(** Every dictionary of [output_objects_array] carries the four corners
    of a box as [correct_yolo_boxes] left it. *)
Lemma detect_objects_box_points (np_exp : Q -> Q) (argsort : list Q -> list nat)
    (self : CustomObjectDetection) (call : image_call) (im : image)
    (yolo_results : list ndarray3) (objects : list detection) :
  detect_objects np_exp argsort self call (im_height im) (im_width im) yolo_results
  = Ok objects ->
  exists corrected,
    corrected_boxes np_exp self call im yolo_results = Ok corrected
    /\ forall d, d ∈ objects ->
         exists box, box ∈ corrected
           /\ box_points d = [xmin box; ymin box; xmax box; ymax box].
Proof.
  unfold detect_objects, corrected_boxes.
  destruct (decode_all _ _ _ _) as [decoded|]; cbn; [|discriminate].
  destruct (correct_yolo_boxes _ _ _ _ _) as [corrected|]; cbn; [|discriminate].
  destruct (RoI corrected _) as [in_roi|] eqn:Hroi; cbn; [|discriminate].
  destruct (do_nms argsort in_roi _) as [kept|] eqn:Hnms; cbn; [|discriminate].
  destruct (get_boxes kept _ _) as [[[v_boxes v_labels] v_scores]|] eqn:Hget; cbn;
    [|discriminate].
  intros [= <-]. exists corrected. split; [reflexivity|].
  intros d Hd. apply list_elem_of_fmap in Hd as ([[box label] score] & -> & Hentry).
  apply zip3_fst in Hentry. apply (get_boxes_from _ _ _ _ _ _ Hget) in Hentry.
  assert (Hc : corners box ∈ map corners corrected).
  { rewrite <- (RoI_corners _ _ _ Hroi), <- (do_nms_corners _ _ _ _ Hnms).
    apply list_elem_of_fmap. eauto. }
  apply list_elem_of_fmap in Hc as (box0 & Hcorners & Hbox0).
  exists box0. split; [exact Hbox0|].
  unfold corners in Hcorners. injection Hcorners as H1 H2 H3 H4.
  cbn. unfold np_max. congruence.
Qed.

(** ** detectObjectsFromImage: the events of a call *)

Section ImageCall.

Variable np_exp : Q -> Q.
Variable argsort : list Q -> list nat.
Variable re_subn_suffix : string -> string * Z.
Variable cv2_imread : string -> option image.
Variable predict : image -> list ndarray3.

Lemma prepare_output_trace (call : image_call) (tr : list io_event) :
  exists suffix r,
    prepare_output re_subn_suffix call tr = (tr ++ suffix, r)
    /\ (forall im, Predict im ∉ suffix)
    /\ (forall e, r = Raise e -> e = ValueError).
Proof.
  assert (Hnil : forall im, Predict im ∉ @nil io_event) by (intros im H; inversion H).
  unfold prepare_output, io_bind, io_raise, io_ret, io_emit.
  destruct (bool_decide (output_type call = "file")).
  - destruct (re_subn_suffix (output_image_path call)) as [folder n_subs].
    destruct (n_subs =? 0).
    + exists [], (Raise ValueError). rewrite app_nil_r.
      split; [reflexivity|]. split; [exact Hnil | congruence].
    + destruct (extract_detected_objects call).
      * eexists _, _. split; [reflexivity|]. split; [|discriminate].
        intros im H. apply list_elem_of_singleton in H. discriminate.
      * exists [], (Ok folder). rewrite app_nil_r.
        split; [reflexivity|]. split; [exact Hnil | discriminate].
  - exists [], (Ok EmptyString). rewrite app_nil_r.
    split; [reflexivity|]. split; [exact Hnil | discriminate].
Qed.

Lemma prepare_output_other (call : image_call) (tr : list io_event) :
  output_type call <> "file" ->
  prepare_output re_subn_suffix call tr = (tr, Ok EmptyString).
Proof.
  intros H. unfold prepare_output. rewrite bool_decide_eq_false_2 by exact H.
  reflexivity.
Qed.

Lemma read_input_trace (call : image_call) (tr : list io_event) :
  exists suffix r,
    read_input cv2_imread call tr = (tr ++ suffix, r)
    /\ forall im, Predict im ∉ suffix.
Proof.
  assert (Hnil : forall im, Predict im ∉ @nil io_event) by (intros im H; inversion H).
  unfold read_input, io_bind, io_raise, io_ret, io_emit.
  destruct (bool_decide (input_type call = "file")).
  - destruct (input_image call) as [path|im0].
    + destruct (cv2_imread path); eexists _, _; (split; [reflexivity|]);
        intros im H; apply list_elem_of_singleton in H; discriminate.
    + exists [], (Raise TypeError). rewrite app_nil_r. auto.
  - destruct (bool_decide (input_type call = "array")).
    + destruct (input_image call) as [path|im0]; eexists [], _; rewrite app_nil_r; auto.
    + exists [], (Raise ValueError). rewrite app_nil_r. auto.
Qed.

Lemma read_input_invalid (call : image_call) (tr : list io_event) :
  input_type call <> "file" -> input_type call <> "array" ->
  read_input cv2_imread call tr = (tr, Raise ValueError).
Proof.
  intros Hf Ha. unfold read_input.
  rewrite bool_decide_eq_false_2 by exact Hf.
  rewrite bool_decide_eq_false_2 by exact Ha. reflexivity.
Qed.

Lemma splitted_image_total (image_frame : image) (each_object : detection) :
  length (box_points each_object) = 4%nat ->
  exists crop, splitted_image image_frame each_object = Ok crop.
Proof.
  intros Hlen. unfold splitted_image, py_index.
  destruct (box_points each_object) as [|xa [|ya [|xb [|yb [|? ?]]]]]; try discriminate.
  cbn. eauto.
Qed.

(** Extraction only writes object images; with an [output_type] other
    than ["file"] it writes nothing and does not raise. *)
Lemma extract_objects_trace (call : image_call) (image_frame : image) (folder : string)
    (entries : list (nat * detection)) :
  Forall (fun entry => length (box_points entry.2) = 4%nat) entries ->
  exists suffix r,
    (forall tr, extract_objects call image_frame folder entries tr = (tr ++ suffix, r))
    /\ (forall im, Predict im ∉ suffix)
    /\ (output_type call <> "file" -> suffix = [] /\ exists xs, r = Ok xs).
Proof.
  induction 1 as [|[cnt each_object] rest Hpoints _ (suffix & r & Hrun & Hno & Hnil)].
  - exists [], (Ok []). split; [|split].
    + intros tr. cbn. unfold io_ret. rewrite app_nil_r. reflexivity.
    + intros im H. inversion H.
    + intros _. eauto.
  - cbn [extract_objects]. unfold io_bind at 1. unfold extract_object.
    cbn [snd] in Hpoints.
    destruct (splitted_image_total image_frame each_object Hpoints) as [crop Hcrop].
    unfold io_bind at 1, io_lift. rewrite Hcrop.
    destruct (bool_decide (output_type call = "file")) eqn:Hfile.
    + destruct (empty_image crop).
      * exists [], (Raise Cv2Error). split; [|split].
        -- intros tr. unfold io_raise. rewrite app_nil_r. reflexivity.
        -- intros im H. inversion H.
        -- intros Hne. apply bool_decide_eq_true in Hfile. contradiction.
      * unfold io_bind, io_emit, io_ret.
        destruct r as [xs|e]; eexists (_ :: suffix), _; (split; [|split]);
          try (intros tr; rewrite Hrun, <- app_assoc; cbn [app]; reflexivity);
          try (intros im H; apply elem_of_cons in H as [H|H];
               [discriminate | exact (Hno im H)]);
          intros Hne; apply bool_decide_eq_true in Hfile; contradiction.
    + apply bool_decide_eq_false in Hfile. destruct (Hnil Hfile) as [-> [xs ->]].
      destruct (bool_decide (output_type call = "array"));
        unfold io_ret, io_bind; eexists [], _;
        (split; [intros tr; rewrite Hrun; reflexivity|]);
        (split; [intros im H; inversion H | intros _; eauto]).
Qed.

Lemma detect_objects_points (self : CustomObjectDetection) (call : image_call)
    (height width : Z) (yolo_results : list ndarray3) (objects : list detection) :
  detect_objects np_exp argsort self call height width yolo_results = Ok objects ->
  Forall (fun o => length (box_points o) = 4%nat) objects.
Proof.
  unfold detect_objects.
  destruct (decode_all _ _ _ _) as [decoded|]; cbn; [|discriminate].
  destruct (correct_yolo_boxes _ _ _ _ _) as [corrected|]; cbn; [|discriminate].
  destruct (RoI corrected _) as [in_roi|]; cbn; [|discriminate].
  destruct (do_nms argsort in_roi _) as [kept|]; cbn; [|discriminate].
  destruct (get_boxes kept _ _) as [[[v_boxes v_labels] v_scores]|]; cbn; [|discriminate].
  intros [= <-]. apply Forall_forall. intros o Ho.
  apply list_elem_of_fmap in Ho as ([[box lbl] sc] & -> & _). reflexivity.
Qed.

Lemma imap_points (objects : list detection) :
  Forall (fun o => length (box_points o) = 4%nat) objects ->
  Forall (fun entry : nat * detection => length (box_points entry.2) = 4%nat)
         (imap (fun cnt o => (cnt, o)) objects).
Proof.
  intros Hall. apply Forall_forall. intros [cnt o] Hin.
  apply list_elem_of_lookup_1 in Hin as [i Hi]. rewrite list_lookup_imap in Hi.
  destruct (objects !! i) as [o'|] eqn:Ho; [|discriminate]. cbn in Hi.
  injection Hi as <- <-. rewrite Forall_forall in Hall.
  apply Hall. eapply list_elem_of_lookup_2; eauto.
Qed.

Lemma returned_objects_return_value (call : image_call) (drawn : image)
    (objects : list detection) (arrays : list extracted) (d : detection) :
  d ∈ returned_objects (return_value call drawn objects arrays) -> d ∈ objects.
Proof.
  unfold return_value.
  destruct (extract_detected_objects call);
    destruct (bool_decide (output_type call = "file"));
    destruct (bool_decide (output_type call = "array")); cbn; auto;
    intros H; inversion H.
Qed.

(** A call that returns has run the network on the image and returns
    [return_value] of the objects found. *)
Lemma detectObjectsFromImage_returns (self : CustomObjectDetection) (call : image_call)
    (tr : list io_event) (ret : image_return) :
  detectObjectsFromImage np_exp argsort re_subn_suffix cv2_imread predict self call []
  = (tr, Ok ret) ->
  ret = ReturnNone
  \/ exists im objects arrays,
       Predict im ∈ tr
       /\ detect_objects np_exp argsort self call (im_height im) (im_width im) (predict im)
          = Ok objects
       /\ ret = return_value call im objects arrays.
Proof.
  unfold detectObjectsFromImage.
  destruct (negb (model_loaded self)); [discriminate|].
  unfold io_bind at 1.
  destruct (prepare_output re_subn_suffix call []) as [tr1 [folder|e]]; [|discriminate].
  unfold io_bind at 1.
  destruct (read_input cv2_imread call tr1) as [tr2 [im|e]]; [|discriminate].
  destruct (bool_decide (model_type self = "yolov3"));
    [|unfold io_ret; intros [= <- <-]; left; reflexivity].
  unfold io_bind at 1, io_emit. unfold io_bind at 1, io_lift.
  destruct (detect_objects np_exp argsort self call (im_height im) (im_width im)
              (predict im)) as [objects|e] eqn:Hdet; [|discriminate].
  unfold io_bind at 1.
  assert (Hextract : exists suffix r,
             (if extract_detected_objects call
              then extract_objects call im folder (imap (fun cnt o => (cnt, o)) objects)
              else io_ret []) (tr2 ++ [Predict im])
             = ((tr2 ++ [Predict im]) ++ suffix, r)).
  { destruct (extract_detected_objects call).
    - destruct (extract_objects_trace call im folder
                  (imap (fun cnt o => (cnt, o)) objects)
                  (imap_points _ (detect_objects_points _ _ _ _ _ _ Hdet)))
        as (suffix & r & Hrun & _). eauto.
    - exists [], (Ok []). unfold io_ret. rewrite app_nil_r. reflexivity. }
  destruct Hextract as (suffix & [arrays|e] & ->); [|discriminate].
  unfold io_bind, io_emit, io_ret.
  intros Hret. right. exists im, objects, arrays.
  assert (Hin : forall rest, Predict im ∈ ((tr2 ++ [Predict im]) ++ suffix) ++ rest).
  { intros rest. apply elem_of_app. left. apply elem_of_app. left.
    apply elem_of_app. right. left. }
  destruct (bool_decide (output_type call = "file")); injection Hret as <- <-.
  - split; [apply Hin | split; [exact Hdet | reflexivity]].
  - split; [rewrite <- (app_nil_r (_ ++ suffix)); apply Hin
           | split; [exact Hdet | reflexivity]].
Qed.

End ImageCall.



Lemma return_value_other (call : image_call) (drawn : image)
    (objects : list detection) (arrays : list extracted) :
  output_type call <> "file" -> output_type call <> "array" ->
  return_value call drawn objects arrays = ReturnNone.
Proof.
  intros Hf Ha. unfold return_value.
  rewrite (bool_decide_eq_false_2 _ Hf), (bool_decide_eq_false_2 _ Ha).
  destruct (extract_detected_objects call); reflexivity.
Qed.

(** A call on a loaded yolov3 model with an [output_type] other than
    ["file"]: the image is read, the network is run, and what is found is
    handed to [return_value]; nothing is written. *)
Lemma detectObjectsFromImage_not_file (np_exp : Q -> Q) (argsort : list Q -> list nat)
    (re_subn_suffix : string -> string * Z) (cv2_imread : string -> option image)
    (predict : image -> list ndarray3) (self : CustomObjectDetection)
    (call : image_call) :
  model_loaded self = true -> model_type self = "yolov3" ->
  output_type call <> "file" ->
  exists arrays_of : list detection -> list extracted,
    detectObjectsFromImage np_exp argsort re_subn_suffix cv2_imread predict self call []
    = match read_input cv2_imread call [] with
      | (tr, Raise e) => (tr, Raise e)
      | (tr, Ok im) =>
          match detect_objects np_exp argsort self call (im_height im) (im_width im)
                               (predict im) with
          | Raise e => (tr ++ [Predict im], Raise e)
          | Ok objects =>
              (tr ++ [Predict im],
               Ok (return_value call im objects (arrays_of objects)))
          end
      end.
Proof.
  intros Hloaded Htype Hfile.
  assert (Hextract : forall im objects,
             Forall (fun o => length (box_points o) = 4%nat) objects ->
             exists arrays, forall tr,
               (if extract_detected_objects call
                then extract_objects call im EmptyString
                       (imap (fun cnt o => (cnt, o)) objects)
                else io_ret []) tr = (tr, Ok arrays)).
  { intros im objects Hpoints. destruct (extract_detected_objects call).
    - destruct (extract_objects_trace call im EmptyString
                  (imap (fun cnt o => (cnt, o)) objects) (imap_points _ Hpoints))
        as (suffix & r & Hrun & _ & Hnil).
      destruct (Hnil Hfile) as [-> [xs ->]].
      exists xs. intros tr. rewrite Hrun, app_nil_r. reflexivity.
    - exists []. reflexivity. }
  exists (fun objects =>
            match (if extract_detected_objects call
                   then extract_objects call
                          (match read_input cv2_imread call [] with
                           | (_, Ok im) => im
                           | _ => mkImage 0 0
                           end) EmptyString
                          (imap (fun cnt o => (cnt, o)) objects)
                   else io_ret []) [] with
            | (_, Ok arrays) => arrays
            | (_, Raise _) => []
            end).
  unfold detectObjectsFromImage. rewrite Hloaded. cbn [negb].
  unfold io_bind at 1. rewrite (prepare_output_other re_subn_suffix call [] Hfile).
  unfold io_bind at 1.
  destruct (read_input cv2_imread call []) as [tr [im|e]]; [|reflexivity].
  rewrite (bool_decide_eq_true_2 _ Htype).
  unfold io_bind at 1, io_emit. unfold io_bind at 1, io_lift.
  destruct (detect_objects np_exp argsort self call (im_height im) (im_width im)
              (predict im)) as [objects|e] eqn:Hdet; [|reflexivity].
  unfold io_bind at 1.
  destruct (Hextract im objects (detect_objects_points np_exp argsort _ _ _ _ _ _ Hdet))
    as [arrays Harrays].
  rewrite (Harrays (tr ++ [Predict im])), (Harrays []).
  unfold io_bind. rewrite (bool_decide_eq_false_2 _ Hfile). reflexivity.
Qed.

(** C10.  After [loadModel] with the model type yolov3, a call with an
    [output_type] that is neither ["file"] nor ["array"] makes the events of
    the same call with ["array"], the prediction among them, and where that
    call returns, this one returns [None]; it raises only what that call
    raises.  A call with an [input_type] that is neither ["file"] nor
    ["array"] raises [ValueError] and no prediction is made. *)
Theorem detectObjectsFromImage_output_type (np_exp : Q -> Q)
    (argsort : list Q -> list nat) (re_subn_suffix : string -> string * Z)
    (cv2_imread : string -> option image) (predict : image -> list ndarray3)
    (self : CustomObjectDetection) (call : image_call) :
  (model_loaded self = true -> model_type self = "yolov3" ->
   output_type call <> "file" -> output_type call <> "array" ->
   forall tr r,
     detectObjectsFromImage np_exp argsort re_subn_suffix cv2_imread predict self
       (with_output_type call "array") [] = (tr, r) ->
     detectObjectsFromImage np_exp argsort re_subn_suffix cv2_imread predict self call []
     = (tr, match r with Ok _ => Ok ReturnNone | Raise e => Raise e end)
     /\ (forall ret, r = Ok ret -> predicted tr))
  /\ (input_type call <> "file" -> input_type call <> "array" ->
      exists tr,
        detectObjectsFromImage np_exp argsort re_subn_suffix cv2_imread predict self call []
        = (tr, Raise ValueError)
        /\ ~ predicted tr).
Proof.
  split.
  - intros Hloaded Htype Hfile Harray tr r.
    destruct (detectObjectsFromImage_not_file np_exp argsort re_subn_suffix cv2_imread
                predict self call Hloaded Htype Hfile) as [arrays_of ->].
    destruct (detectObjectsFromImage_not_file np_exp argsort re_subn_suffix cv2_imread
                predict self (with_output_type call "array") Hloaded Htype)
      as [arrays_of' ->]; [discriminate|].
    change (read_input cv2_imread (with_output_type call "array"))
      with (read_input cv2_imread call).
    destruct (read_input_trace cv2_imread call []) as (suffix & r0 & -> & Hno).
    destruct r0 as [im|e].
    + change (detect_objects np_exp argsort self (with_output_type call "array")
                (im_height im) (im_width im) (predict im))
        with (detect_objects np_exp argsort self call (im_height im) (im_width im)
                (predict im)).
      destruct (detect_objects np_exp argsort self call (im_height im) (im_width im)
                  (predict im)) as [objects|e].
      * intros [= <- <-]. rewrite (return_value_other call _ _ _ Hfile Harray).
        split; [reflexivity|]. intros ret _. exists im.
        apply elem_of_app. right. left.
      * intros [= <- <-]. split; [reflexivity | discriminate].
    + intros [= <- <-]. split; [reflexivity | discriminate].
  - intros Hfile Harray. unfold detectObjectsFromImage.
    destruct (negb (model_loaded self)).
    + exists []. split; [reflexivity|]. intros [im H]. inversion H.
    + unfold io_bind at 1.
      destruct (prepare_output_trace re_subn_suffix call [])
        as (suffix & r0 & -> & Hno & Hexn).
      destruct r0 as [folder|e].
      * unfold io_bind at 1.
        rewrite (read_input_invalid cv2_imread call _ Hfile Harray).
        eexists. split; [reflexivity|]. intros [im H]. exact (Hno im H).
      * rewrite (Hexn e eq_refl).
        eexists. split; [reflexivity|]. intros [im H]. exact (Hno im H).
Qed.

Lemma detectObjectsFromImage_output_type_witness :
  (detectObjectsFromImage np_exp_rational stable_argsort no_suffix no_file sample_predict
     sample_detector stream_output_call []
   = ([Predict sample_image], Ok ReturnNone)
   /\ (forall ret,
         Ok (ReturnImageObjects sample_image
               [mkDetection "person" (1200 # 20) [347; -9; 647; 276]%Q]) = Ok ret ->
         predicted [Predict sample_image]))
  /\ (exists tr,
        detectObjectsFromImage np_exp_rational stable_argsort no_suffix no_file
          sample_predict sample_detector stream_input_call []
        = (tr, Raise ValueError)
        /\ ~ predicted tr).
Proof.
  split.
  - apply (proj1 (detectObjectsFromImage_output_type np_exp_rational stable_argsort
                    no_suffix no_file sample_predict sample_detector stream_output_call)
             eq_refl eq_refl ltac:(discriminate) ltac:(discriminate)
             [Predict sample_image]
             (Ok (ReturnImageObjects sample_image
                    [mkDetection "person" (1200 # 20) [347; -9; 647; 276]%Q]))).
    vm_compute. reflexivity.
  - apply (proj2 (detectObjectsFromImage_output_type np_exp_rational stable_argsort
                    no_suffix no_file sample_predict sample_detector stream_input_call));
      discriminate.
Defined.

(** ** The frame loop: one turn *)

Lemma add_region_drawable {A : Type} (image_frame : A)
    (region_of_interest : option (list Z)) :
  drawable region_of_interest ->
  exists drawn,
    add_region_of_interest_to_frame image_frame region_of_interest
    = Ok (image_frame, drawn).
Proof.
  unfold drawable, add_region_of_interest_to_frame, py_index.
  destruct region_of_interest as [[|x0 [|x1 [|x2 [|x3 rest]]]]|]; cbn; intros H;
    try lia; eauto.
Qed.

Lemma add_region_short {A : Type} (image_frame : A) (roi : list Z) :
  (0 < length roi < 4)%nat ->
  add_region_of_interest_to_frame image_frame (Some roi) = Raise IndexError.
Proof.
  unfold add_region_of_interest_to_frame, py_index.
  destruct roi as [|x0 [|x1 [|x2 [|x3 rest]]]]; cbn; intros H; try lia; reflexivity.
Qed.

Lemma py_mod_ok (a b : Z) : b <> 0 -> py_mod a b = Ok (a mod b).
Proof. intros Hb. unfold py_mod. apply Z.eqb_neq in Hb. rewrite Hb. reflexivity. Qed.

Lemma detection_due_ok (call : video_call) (n : Z) :
  frame_detection_interval call <> 0 ->
  detection_due call n
  = Ok ((n =? 1) || (n mod frame_detection_interval call =? 0)).
Proof.
  intros Hi. unfold detection_due. destruct (n =? 1); [reflexivity|].
  rewrite (py_mod_ok _ _ Hi). reflexivity.
Qed.

Lemma window_of_total {A : Type} (d : gmap Z A) (n window : Z) :
  (forall k, 1 <= k <= n -> is_Some (d !! k)) ->
  exists l, window_of d n window = Ok l.
Proof.
  intros Hkeys. unfold window_of.
  destruct (for_each_total (fun _ _ => True)
              (fun idx acc =>
                 if n - window <=? idx
                 then v ← py_getitem d (idx + 1); Ok (acc ++ [v])
                 else Ok acc)
              (seqZ 0 n) []) as (l & Hl & _); [exact I | | eauto].
  intros i idx acc Hidx _. apply lookup_seqZ in Hidx as [-> Hi].
  destruct (n - window <=? 0 + Z.of_nat i); [|eauto].
  destruct (Hkeys (0 + Z.of_nat i + 1)) as [v Hv]; [lia|].
  unfold py_getitem. rewrite Hv. cbn. eauto.
Qed.

Lemma window_summary_total (s : scan) (window : Z) :
  (forall k, 1 <= k <= n_frame s ->
     is_Some (output_frames_dict s !! k) /\ is_Some (output_frames_count_dict s !! k)) ->
  exists summary, window_summary s window = Ok summary.
Proof.
  intros Hkeys. unfold window_summary.
  destruct (window_of_total (output_frames_dict s) (n_frame s) window) as [l1 ->];
    [intros k Hk; apply Hkeys, Hk|].
  destruct (window_of_total (output_frames_count_dict s) (n_frame s) window) as [l2 ->];
    [intros k Hk; apply Hkeys, Hk|].
  cbn. eauto.
Qed.

Lemma per_frame_block_calls (call : video_call) (objects : list detection)
    (counts : gmap string Z) (s : scan) :
  frame_detection_interval call <> 0 ->
  exists new,
    per_frame_block call objects counts s = Ok (add_calls s new)
    /\ per_second_frames new = [] /\ video_complete_calls new = [].
Proof.
  intros Hi. unfold per_frame_block.
  destruct (per_frame_function call).
  - rewrite (detection_due_ok _ _ Hi). cbn.
    destruct ((n_frame s =? 1) || _).
    + eexists. split; [reflexivity|]. split; reflexivity.
    + exists []. unfold add_calls. rewrite app_nil_r. destruct s. auto.
  - exists []. unfold add_calls. rewrite app_nil_r. destruct s. auto.
Qed.

Lemma add_calls_nil (s : scan) : add_calls s [] = s.
Proof. unfold add_calls. rewrite app_nil_r. destruct s. reflexivity. Qed.

Lemma window_block_calls (passed : bool) (window : Z)
    (make : Z -> list (list detection) -> list (gmap string Z) -> gmap string Z -> bool
            -> callback)
    (call : video_call) (s : scan) :
  window <> 0 ->
  (forall k, 1 <= k <= n_frame s ->
     is_Some (output_frames_dict s !! k) /\ is_Some (output_frames_count_dict s !! k)) ->
  exists position objects counts average,
    window_block passed window make call s
    = Ok (add_calls s
            (if passed && negb (n_frame s =? 1) && (n_frame s mod window =? 0)
             then [(n_frame s, make position objects counts average
                                   (return_detected_frame call))]
             else [])).
Proof.
  intros Hw Hkeys. unfold window_block.
  destruct (passed && negb (n_frame s =? 1)); cbn [andb].
  - rewrite (py_mod_ok _ _ Hw). cbn.
    destruct (n_frame s mod window =? 0).
    + destruct (window_summary_total s window Hkeys) as [[[objects counts] average] ->].
      cbn. eexists _, _, _, _. reflexivity.
    + exists 0, [], [], ∅. rewrite add_calls_nil. reflexivity.
  - exists 0, [], [], ∅. rewrite add_calls_nil. reflexivity.
Qed.

Lemma whole_seconds (frames_per_second n count : Z) :
  0 < frames_per_second ->
  frames_per_second * count <= n < frames_per_second * (count + 1) ->
  let count' := if (n + 1) mod frames_per_second =? 0 then count + 1 else count in
  frames_per_second * count' <= n + 1 < frames_per_second * (count' + 1).
Proof.
  intros Hfps Hn. cbv zeta.
  destruct ((n + 1) mod frames_per_second =? 0) eqn:Hm.
  - apply Z.eqb_eq in Hm. apply Z.mod_divide in Hm; [|lia].
    destruct Hm as [q Hq]. assert (q = count + 1) by nia. subst q. nia.
  - apply Z.eqb_neq in Hm. split; [lia|].
    destruct (Z.eq_dec (n + 1) (frames_per_second * (count + 1))) as [Heq|Hne]; [|lia].
    exfalso. apply Hm. rewrite Heq, Z.mul_comm. apply Z_mod_mult.
Qed.

Lemma check_timeout_uncut (call : video_call) (frames_per_second n count : Z) :
  0 < frames_per_second ->
  (forall t, timeout_set (detection_timeout call) = Some t ->
     frames_per_second * count <= n < frames_per_second * (count + 1)) ->
  uncut call frames_per_second (n + 1) ->
  exists count',
    check_timeout call frames_per_second (n + 1) count = Ok (count', false)
    /\ (forall t, timeout_set (detection_timeout call) = Some t ->
          frames_per_second * count' <= n + 1 < frames_per_second * (count' + 1)).
Proof.
  intros Hfps Hinv Huncut. unfold check_timeout, uncut in *.
  destruct (timeout_set (detection_timeout call)) as [t|].
  - rewrite py_mod_ok by lia. cbn.
    pose proof (whole_seconds frames_per_second n count Hfps (Hinv t eq_refl)) as Hw.
    cbv zeta in Hw. eexists. split.
    + f_equal. f_equal. apply Z.leb_gt. nia.
    + intros t' _. exact Hw.
  - exists count. split; [reflexivity|]. discriminate.
Qed.

Lemma check_timeout_cut (call : video_call) (frames_per_second n count t : Z) :
  0 < frames_per_second ->
  timeout_set (detection_timeout call) = Some t ->
  frames_per_second * count <= n < frames_per_second * (count + 1) ->
  n + 1 = frames_per_second * t ->
  exists count', check_timeout call frames_per_second (n + 1) count = Ok (count', true).
Proof.
  intros Hfps Ht Hinv Hcut. unfold check_timeout. rewrite Ht.
  rewrite py_mod_ok by lia. cbn.
  pose proof (whole_seconds frames_per_second n count Hfps Hinv) as Hw.
  cbv zeta in Hw. eexists. f_equal. f_equal. apply Z.leb_le. nia.
Qed.

Lemma per_second_frames_app (l1 l2 : list (Z * callback)) :
  per_second_frames (l1 ++ l2) = per_second_frames l1 ++ per_second_frames l2.
Proof. apply omap_app. Qed.

Lemma video_complete_calls_app (l1 l2 : list (Z * callback)) :
  video_complete_calls (l1 ++ l2) = video_complete_calls l1 ++ video_complete_calls l2.
Proof. apply omap_app. Qed.

(** A turn that the timeout does not end records the frame, calls the
    user functions that are due, and keeps the invariant. *)
Lemma process_frame_uncut (call : video_call) (frames_per_second : Z)
    (frame : frame_outcome) (s : scan) :
  performance_mode call = false ->
  0 < frames_per_second -> frame_detection_interval call <> 0 ->
  drawable (video_region_of_interest call) ->
  scan_inv call frames_per_second s ->
  uncut call frames_per_second (n_frame s + 1) ->
  exists s' new,
    process_frame call frames_per_second frame s = Ok (s', false)
    /\ scan_inv call frames_per_second s'
    /\ n_frame s' = n_frame s + 1
    /\ output_frames_dict s'
       = <[n_frame s + 1 := recorded call (n_frame s + 1) frame]> (output_frames_dict s)
    /\ output_frames_count_dict s'
       = <[n_frame s + 1 := count_objects (recorded call (n_frame s + 1) frame)]>
           (output_frames_count_dict s)
    /\ calls s' = calls s ++ new
    /\ per_second_frames new
       = (if per_second_function call && negb (n_frame s + 1 =? 1)
             && ((n_frame s + 1) mod frames_per_second =? 0)
          then [n_frame s + 1] else [])
    /\ video_complete_calls new = [].
Proof.
  intros Hperf Hfps Hinterval Hdraw (Hn & Hkeys & Hfresh & Hcount) Huncut.
  unfold process_frame. rewrite Hperf.
  assert (Hlog : exists z, (if log_progress call
                            then py_mod (n_frame s + 1) (frame_detection_interval call)
                            else Ok 0) = Ok z).
  { destruct (log_progress call); [rewrite py_mod_ok by assumption|]; eauto. }
  destruct Hlog as [z ->]. cbn [mbind result_bind].
  destruct (check_timeout_uncut call frames_per_second (n_frame s)
              (detection_timeout_count s) Hfps Hcount Huncut) as (count' & -> & Hcount').
  cbn [mbind result_bind]. rewrite (detection_due_ok _ _ Hinterval). cbn [mbind result_bind].
  destruct (add_region_drawable tt _ Hdraw) as [drawn ->]. cbn [mbind result_bind].
  fold (recorded call (n_frame s + 1) frame).
  set (n := n_frame s + 1).
  set (objects := recorded call n frame).
  set (s1 := mkScan n (<[n := objects]> (output_frames_dict s))
                    (<[n := count_objects objects]> (output_frames_count_dict s))
                    count' (calls s)).
  assert (Hkeys1 : forall k, 1 <= k <= n ->
             is_Some (output_frames_dict s1 !! k)
             /\ is_Some (output_frames_count_dict s1 !! k)).
  { intros k Hk. cbn. destruct (decide (k = n)) as [->|Hne].
    - rewrite !lookup_insert_eq. split; eauto.
    - rewrite !lookup_insert_ne by congruence. apply Hkeys. unfold n in *. lia. }
  destruct (per_frame_block_calls call objects (count_objects objects) s1 Hinterval)
    as (new1 & -> & Hps1 & Hvc1).
  cbn [mbind result_bind].
  destruct (window_block_calls (per_second_function call) frames_per_second PerSecond
              call (add_calls s1 new1)) as (p2 & o2 & c2 & a2 & ->); [lia | exact Hkeys1|].
  cbn [mbind result_bind].
  match goal with
  | |- context [window_block ?p ?w PerMinute call ?st] =>
      destruct (window_block_calls p w PerMinute call st) as (p3 & o3 & c3 & a3 & ->);
        [lia | exact Hkeys1|]
  end.
  cbn [mbind result_bind].
  eexists _, _. split; [reflexivity|]. cbn.
  split; [|split; [reflexivity|split; [reflexivity|split; [reflexivity|]]]].
  - unfold scan_inv. cbn. split; [unfold n; lia|]. split; [exact Hkeys1|]. split.
    + intros k Hk. rewrite lookup_insert_ne by (unfold n; lia).
      apply Hfresh. unfold n in Hk. lia.
    + exact Hcount'.
  - rewrite <- !app_assoc. split; [reflexivity|].
    rewrite !per_second_frames_app, !video_complete_calls_app, Hps1, Hvc1.
    destruct (per_second_function call && negb (n =? 1) && (n mod frames_per_second =? 0));
      destruct (per_minute_function call && negb (n =? 1)
                && (n mod (frames_per_second * 60) =? 0)); split; reflexivity.
Qed.

(** ** The frame loop: a scan that no timeout cuts short *)

Lemma uncut_less (call : video_call) (frames_per_second n m : Z) :
  0 < frames_per_second -> m <= n ->
  uncut call frames_per_second n -> uncut call frames_per_second m.
Proof.
  unfold uncut. destruct (timeout_set (detection_timeout call)); [lia | auto].
Qed.

Lemma on_the_second_bool (frames_per_second k : Z) :
  negb (k =? 1) && (k mod frames_per_second =? 0)
  = bool_decide (on_the_second frames_per_second k).
Proof.
  unfold on_the_second. symmetry.
  destruct (k =? 1) eqn:H1; destruct (k mod frames_per_second =? 0) eqn:H2; cbn;
    [apply bool_decide_eq_false_2 | apply bool_decide_eq_false_2
     | apply bool_decide_eq_true_2 | apply bool_decide_eq_false_2]; lia.
Qed.

Lemma scan_frames_uncut (call : video_call) (frames_per_second : Z)
    (frames : list frame_outcome) :
  performance_mode call = false ->
  0 < frames_per_second -> frame_detection_interval call <> 0 ->
  drawable (video_region_of_interest call) ->
  forall s,
    scan_inv call frames_per_second s ->
    uncut call frames_per_second (n_frame s + Z.of_nat (length frames)) ->
    exists s',
      scan_frames call frames_per_second frames s = Ok s'
      /\ scan_inv call frames_per_second s'
      /\ n_frame s' = n_frame s + Z.of_nat (length frames)
      /\ (forall k, k <= n_frame s ->
            output_frames_dict s' !! k = output_frames_dict s !! k
            /\ output_frames_count_dict s' !! k = output_frames_count_dict s !! k)
      /\ (forall (i : nat) frame, frames !! i = Some frame ->
            output_frames_dict s' !! (n_frame s + Z.of_nat i + 1)
            = Some (recorded call (n_frame s + Z.of_nat i + 1) frame)
            /\ output_frames_count_dict s' !! (n_frame s + Z.of_nat i + 1)
               = Some (count_objects (recorded call (n_frame s + Z.of_nat i + 1) frame)))
      /\ (per_second_function call = true ->
          per_second_frames (calls s')
          = per_second_frames (calls s)
            ++ filter (on_the_second frames_per_second)
                      (seqZ (n_frame s + 1) (Z.of_nat (length frames))))
      /\ video_complete_calls (calls s') = video_complete_calls (calls s).
Proof.
  intros Hperf Hfps Hinterval Hdraw.
  induction frames as [|frame rest IH]; intros s Hinv Huncut.
  - exists s. cbn. split; [reflexivity|]. split; [exact Hinv|]. split; [lia|].
    split; [auto|]. split; [intros i frame H; inversion H|].
    split; [intros _; rewrite app_nil_r; reflexivity | reflexivity].
  - cbn [length] in Huncut.
    destruct (process_frame_uncut call frames_per_second frame s Hperf Hfps Hinterval
                Hdraw Hinv)
      as (s1 & new & Hstep & Hinv1 & Hn1 & Hd1 & Hc1 & Hcalls1 & Hps1 & Hvc1).
    { eapply uncut_less; [exact Hfps | | exact Huncut]. lia. }
    destruct (IH s1 Hinv1) as (s' & Hrun & Hinv' & Hn' & Hold & Hnew & Hps & Hvc).
    { rewrite Hn1. eapply uncut_less; [exact Hfps | | exact Huncut]. lia. }
    exists s'. cbn [scan_frames]. rewrite Hstep. cbn [mbind result_bind].
    split; [exact Hrun|]. split; [exact Hinv'|]. split; [cbn [length]; lia|].
    split; [|split; [|split]].
    + intros k Hk. destruct (Hold k) as [H1 H2]; [lia|].
      rewrite H1, H2, Hd1, Hc1. rewrite !lookup_insert_ne by lia. auto.
    + intros [|i] frame' Hi.
      * cbn in Hi. injection Hi as <-.
        destruct (Hold (n_frame s + 1)) as [H1 H2]; [lia|].
        replace (n_frame s + Z.of_nat 0 + 1) with (n_frame s + 1) by lia.
        rewrite H1, H2, Hd1, Hc1, !lookup_insert_eq. auto.
      * cbn in Hi. destruct (Hnew i frame' Hi) as [H1 H2].
        replace (n_frame s + Z.of_nat (S i) + 1) with (n_frame s1 + Z.of_nat i + 1) by lia.
        auto.
    + intros Hpassed. rewrite (Hps Hpassed), Hcalls1, per_second_frames_app, Hps1, Hn1.
      rewrite <- app_assoc. f_equal.
      rewrite (seqZ_cons (n_frame s + 1)) by (cbn [length]; lia).
      rewrite filter_cons, Hpassed. cbn [andb]. rewrite on_the_second_bool.
      replace (Z.succ (n_frame s + 1)) with (n_frame s + 1 + 1) by lia.
      replace (Z.pred (Z.of_nat (length (frame :: rest))))
        with (Z.of_nat (length rest)) by (cbn [length]; lia).
      destruct (decide (on_the_second frames_per_second (n_frame s + 1))) as [o|o];
        [rewrite (bool_decide_eq_true_2 _ o) | rewrite (bool_decide_eq_false_2 _ o)];
        reflexivity.
    + rewrite Hvc, Hcalls1, video_complete_calls_app, Hvc1, app_nil_r. reflexivity.
Qed.

(** ** The block after the loop *)

Lemma py_getitem_ok {A : Type} (d : gmap Z A) (k : Z) (v : A) :
  d !! k = Some v -> py_getitem d k = Ok v.
Proof. intros H. unfold py_getitem. rewrite H. reflexivity. Qed.

Lemma py_getitem_missing {A : Type} (d : gmap Z A) (k : Z) :
  d !! k = None -> py_getitem d k = Raise KeyError.
Proof. intros H. unfold py_getitem. rewrite H. reflexivity. Qed.

(** The loop that gathers the history succeeds on the frames that are in
    the dictionaries. *)
Lemma gather_history (d1 : gmap Z (list detection)) (d2 : gmap Z (gmap string Z))
    (h : Z -> list detection) (c : Z -> gmap string Z) (idxs : list Z) :
  (forall idx, idx ∈ idxs ->
     d1 !! (idx + 1) = Some (h (idx + 1)) /\ d2 !! (idx + 1) = Some (c (idx + 1))) ->
  forall acc : list (list detection) * list (gmap string Z),
    for_each (fun idx acc =>
                objects ← py_getitem d1 (idx + 1);
                counts ← py_getitem d2 (idx + 1);
                Ok (acc.1 ++ [objects], acc.2 ++ [counts]))
             idxs acc
    = Ok (acc.1 ++ map (fun idx => h (idx + 1)) idxs,
          acc.2 ++ map (fun idx => c (idx + 1)) idxs).
Proof.
  induction idxs as [|idx idxs IH]; intros Hkeys acc.
  - cbn. rewrite !app_nil_r. destruct acc. reflexivity.
  - cbn [for_each]. destruct (Hkeys idx) as [H1 H2]; [left|].
    rewrite (py_getitem_ok _ _ _ H1), (py_getitem_ok _ _ _ H2). cbn [mbind result_bind].
    rewrite IH by (intros i Hi; apply Hkeys; right; exact Hi).
    cbn. rewrite <- !app_assoc. reflexivity.
Qed.

Lemma history_seqZ (call : video_call) (frames : list frame_outcome) :
  map (fun idx => recorded call (idx + 1)
                    (default (Ok []) (frames !! Z.to_nat idx)))
      (seqZ 0 (Z.of_nat (length frames)))
  = history call frames.
Proof.
  apply list_eq. intros i. unfold history.
  rewrite list_lookup_fmap, list_lookup_imap.
  destruct (frames !! i) as [frame|] eqn:Hi.
  - rewrite lookup_seqZ_lt by (apply lookup_lt_Some in Hi; lia).
    cbn [fmap option_fmap option_map]. rewrite Z.add_0_l, Nat2Z.id.
    rewrite Hi. reflexivity.
  - rewrite lookup_seqZ_ge by (apply lookup_ge_None in Hi; lia). reflexivity.
Qed.

Lemma video_complete_history (call : video_call) (frames : list frame_outcome) (s : scan) :
  video_complete_function call = true ->
  n_frame s = Z.of_nat (length frames) ->
  (forall (i : nat) frame, frames !! i = Some frame ->
     output_frames_dict s !! (Z.of_nat i + 1) = Some (recorded call (Z.of_nat i + 1) frame)
     /\ output_frames_count_dict s !! (Z.of_nat i + 1)
        = Some (count_objects (recorded call (Z.of_nat i + 1) frame))) ->
  video_complete call s = Ok (push_call s (video_summary call frames)).
Proof.
  intros Hpassed Hn Hkeys. unfold video_complete. rewrite Hpassed.
  rewrite (gather_history _ _
             (fun k => recorded call k (default (Ok []) (frames !! Z.to_nat (k - 1))))
             (fun k => count_objects
                         (recorded call k (default (Ok []) (frames !! Z.to_nat (k - 1)))))).
  - cbn [mbind result_bind fst snd app]. unfold video_summary. rewrite Hn.
    assert (Hh : map (fun idx => recorded call (idx + 1)
                        (default (Ok []) (frames !! Z.to_nat (idx + 1 - 1))))
                     (seqZ 0 (Z.of_nat (length frames)))
                 = history call frames).
    { rewrite <- history_seqZ. apply map_ext. intros idx.
      replace (idx + 1 - 1) with idx by lia. reflexivity. }
    assert (Hc : map (fun idx => count_objects (recorded call (idx + 1)
                        (default (Ok []) (frames !! Z.to_nat (idx + 1 - 1)))))
                     (seqZ 0 (Z.of_nat (length frames)))
                 = map count_objects (history call frames)).
    { rewrite <- Hh, map_map. reflexivity. }
    rewrite Hh, Hc. reflexivity.
  - intros idx Hidx. rewrite Hn in Hidx.
    apply list_elem_of_lookup_1 in Hidx as [i Hi].
    apply lookup_seqZ in Hi as [-> Hi]. rewrite Z.add_0_l.
    destruct (lookup_lt_is_Some_2 frames i) as [frame Hframe]; [lia|].
    replace (Z.of_nat i + 1 - 1) with (Z.of_nat i) by lia.
    rewrite Nat2Z.id, Hframe. apply (Hkeys i frame Hframe).
Qed.

Lemma scan_inv_start (call : video_call) (frames_per_second : Z) :
  0 < frames_per_second -> scan_inv call frames_per_second scan_start.
Proof.
  intros Hfps. unfold scan_inv, scan_start. cbn.
  split; [lia|]. split; [intros k Hk; lia|]. split; [intros; apply lookup_empty|].
  intros; lia.
Qed.

(** A whole scan that no timeout cuts short, with the performance mode
    off: every frame is recorded, the per-second function is called on the
    frames on the second, and the end-of-video function, where one is
    passed, is called once with the summary of all the frames. *)
Lemma detectObjectsFromVideo_uncut (call : video_call) (frames_per_second : Z)
    (frames : list frame_outcome) :
  performance_mode call = false ->
  0 < frames_per_second -> frame_detection_interval call <> 0 ->
  drawable (video_region_of_interest call) ->
  uncut call frames_per_second (Z.of_nat (length frames)) ->
  exists s,
    detectObjectsFromVideo "yolov3" call frames_per_second frames = Ok s
    /\ n_frame s = Z.of_nat (length frames)
    /\ (forall (i : nat) frame, frames !! i = Some frame ->
          output_frames_dict s !! (Z.of_nat i + 1)
          = Some (recorded call (Z.of_nat i + 1) frame)
          /\ output_frames_count_dict s !! (Z.of_nat i + 1)
             = Some (count_objects (recorded call (Z.of_nat i + 1) frame)))
    /\ (per_second_function call = true ->
        per_second_frames (calls s)
        = filter (on_the_second frames_per_second) (seqZ 1 (Z.of_nat (length frames))))
    /\ video_complete_calls (calls s)
       = (if video_complete_function call then [video_summary call frames] else []).
Proof.
  intros Hperf Hfps Hinterval Hdraw Huncut.
  destruct (scan_frames_uncut call frames_per_second frames Hperf Hfps Hinterval Hdraw
              scan_start (scan_inv_start call frames_per_second Hfps))
    as (s1 & Hrun & _ & Hn & _ & Hkeys & Hps & Hvc); [exact Huncut|].
  cbn in Hn, Hkeys, Hps, Hvc.
  unfold detectObjectsFromVideo. cbn [bool_decide decide_rel]. rewrite bool_decide_eq_true_2 by reflexivity.
  rewrite Hrun. cbn [mbind result_bind].
  destruct (video_complete_function call) eqn:Hpassed.
  - rewrite (video_complete_history call frames s1 Hpassed Hn Hkeys).
    eexists. split; [reflexivity|]. cbn.
    split; [exact Hn|]. split; [exact Hkeys|]. split.
    + intros Hsecond. rewrite per_second_frames_app, (Hps Hsecond). cbn.
      rewrite app_nil_r. reflexivity.
    + rewrite video_complete_calls_app, Hvc. reflexivity.
  - unfold video_complete. rewrite Hpassed. exists s1.
    split; [reflexivity|]. split; [exact Hn|]. split; [exact Hkeys|].
    split; [exact Hps | exact Hvc].
Qed.



(** ** The frame loop: an exception of the detector *)

Lemma recorded_raise (call : video_call) (n : Z) (e : py_exn) :
  recorded call n (Raise e) = [].
Proof. unfold recorded. destruct (_ || _); reflexivity. Qed.

Lemma scan_frames_raise (call : video_call) (frames_per_second : Z)
    (frames : list frame_outcome) (i : nat) (e : py_exn) :
  frames !! i = Some (Raise e) ->
  forall s,
    scan_frames call frames_per_second (<[i := Ok []]> frames) s
    = scan_frames call frames_per_second frames s.
Proof.
  revert i. induction frames as [|frame rest IH]; intros [|i] Hi s;
    try (inversion Hi; fail).
  - cbn in Hi. injection Hi as ->. reflexivity.
  - cbn in Hi. cbn [insert list_insert scan_frames].
    destruct (process_frame call frames_per_second frame s) as [[s1 broke]|];
      cbn [mbind result_bind]; [|reflexivity].
    destruct broke; [reflexivity|]. apply (IH i Hi).
Qed.

(** C4.  With the performance mode off, in a scan that no timeout cuts
    short and with a region of interest that is absent or can be drawn, a
    frame on which the detector raises is recorded with an empty list of
    objects and an empty count, the scan goes on to the last frame, every
    frame is recorded with what the detector found on it, and the whole
    scan ends as if the detector had found nothing on that frame. *)
Theorem detector_exception_recorded (call : video_call) (frames_per_second : Z)
    (frames : list frame_outcome) (i : nat) (e : py_exn) :
  performance_mode call = false ->
  0 < frames_per_second -> frame_detection_interval call <> 0 ->
  drawable (video_region_of_interest call) ->
  uncut call frames_per_second (Z.of_nat (length frames)) ->
  frames !! i = Some (Raise e) ->
  exists s,
    detectObjectsFromVideo "yolov3" call frames_per_second frames = Ok s
    /\ output_frames_dict s !! (Z.of_nat i + 1) = Some []
    /\ output_frames_count_dict s !! (Z.of_nat i + 1) = Some ∅
    /\ n_frame s = Z.of_nat (length frames)
    /\ (forall (j : nat) frame, frames !! j = Some frame ->
          output_frames_dict s !! (Z.of_nat j + 1)
          = Some (recorded call (Z.of_nat j + 1) frame))
    /\ detectObjectsFromVideo "yolov3" call frames_per_second (<[i := Ok []]> frames)
       = Ok s.
Proof.
  intros Hperf Hfps Hinterval Hdraw Huncut Hi.
  destruct (detectObjectsFromVideo_uncut call frames_per_second frames Hperf Hfps
              Hinterval Hdraw Huncut) as (s & Hrun & Hn & Hkeys & _ & _).
  exists s. split; [exact Hrun|].
  destruct (Hkeys i _ Hi) as [H1 H2]. rewrite recorded_raise in H1, H2.
  split; [exact H1|]. split; [exact H2|]. split; [exact Hn|]. split.
  - intros j frame Hj. apply (Hkeys j frame Hj).
  - rewrite <- Hrun. unfold detectObjectsFromVideo.
    rewrite (scan_frames_raise call frames_per_second frames i e Hi). reflexivity.
Qed.

Lemma detector_exception_recorded_witness :
  exists s,
    detectObjectsFromVideo "yolov3" plain_video_call 2 faulty_video = Ok s
    /\ output_frames_dict s !! (Z.of_nat 1 + 1) = Some []
    /\ output_frames_count_dict s !! (Z.of_nat 1 + 1) = Some ∅
    /\ n_frame s = Z.of_nat (length faulty_video)
    /\ (forall (j : nat) frame, faulty_video !! j = Some frame ->
          output_frames_dict s !! (Z.of_nat j + 1)
          = Some (recorded plain_video_call (Z.of_nat j + 1) frame))
    /\ detectObjectsFromVideo "yolov3" plain_video_call 2 (<[1%nat := Ok []]> faulty_video)
       = Ok s.
Proof.
  apply (detector_exception_recorded plain_video_call 2 faulty_video 1 TypeError).
  - reflexivity.
  - lia.
  - discriminate.
  - exact I.
  - exact I.
  - reflexivity.
Defined.

(** ** The frame loop: a scan that the timeout cuts short *)

(** The turn at which the count of seconds reaches the timeout: the loop
    breaks with [n_frame] already counting the frame and the frame not
    recorded. *)
Lemma process_frame_cut (call : video_call) (frames_per_second t : Z)
    (frame : frame_outcome) (s : scan) :
  performance_mode call = false ->
  0 < frames_per_second -> frame_detection_interval call <> 0 ->
  timeout_set (detection_timeout call) = Some t ->
  scan_inv call frames_per_second s ->
  n_frame s + 1 = frames_per_second * t ->
  exists count',
    process_frame call frames_per_second frame s
    = Ok (mkScan (n_frame s + 1) (output_frames_dict s) (output_frames_count_dict s)
                 count' (calls s), true).
Proof.
  intros Hperf Hfps Hinterval Ht (Hn & Hkeys & Hfresh & Hcount) Hcut.
  unfold process_frame. rewrite Hperf.
  assert (Hlog : exists z, (if log_progress call
                            then py_mod (n_frame s + 1) (frame_detection_interval call)
                            else Ok 0) = Ok z).
  { destruct (log_progress call); [rewrite py_mod_ok by assumption|]; eauto. }
  destruct Hlog as [z ->]. cbn [mbind result_bind].
  destruct (check_timeout_cut call frames_per_second (n_frame s)
              (detection_timeout_count s) t Hfps Ht (Hcount t Ht) Hcut) as [count' ->].
  cbn [mbind result_bind]. eauto.
Qed.

Lemma scan_frames_cut (call : video_call) (frames_per_second t : Z)
    (frames : list frame_outcome) :
  performance_mode call = false ->
  0 < frames_per_second -> frame_detection_interval call <> 0 ->
  timeout_set (detection_timeout call) = Some t ->
  forall s,
    scan_inv call frames_per_second s ->
    (n_frame s + 1 < frames_per_second * t -> drawable (video_region_of_interest call)) ->
    n_frame s < frames_per_second * t <= n_frame s + Z.of_nat (length frames) ->
    exists s',
      scan_frames call frames_per_second frames s = Ok s'
      /\ n_frame s' = frames_per_second * t
      /\ (forall k, 1 <= k < n_frame s' ->
            is_Some (output_frames_dict s' !! k)
            /\ is_Some (output_frames_count_dict s' !! k))
      /\ output_frames_dict s' !! n_frame s' = None.
Proof.
  intros Hperf Hfps Hinterval Ht.
  induction frames as [|frame rest IH]; intros s Hinv Hdraw Hcut.
  - cbn in Hcut. lia.
  - cbn [length] in Hcut. cbn [scan_frames].
    destruct (decide (n_frame s + 1 = frames_per_second * t)) as [Hnow|Hlater].
    + destruct (process_frame_cut call frames_per_second t frame s Hperf Hfps Hinterval
                  Ht Hinv Hnow) as [count' ->].
      cbn [mbind result_bind]. eexists. split; [reflexivity|]. cbn.
      destruct Hinv as (Hn & Hkeys & Hfresh & _).
      split; [exact Hnow|]. split.
      * intros k Hk. apply Hkeys. lia.
      * apply Hfresh. lia.
    + assert (Hregion : drawable (video_region_of_interest call)) by (apply Hdraw; lia).
      destruct (process_frame_uncut call frames_per_second frame s Hperf Hfps Hinterval
                  Hregion Hinv) as (s1 & new & -> & Hinv1 & Hn1 & _).
      { unfold uncut. rewrite Ht. lia. }
      cbn [mbind result_bind]. apply (IH s1 Hinv1); [intros _; exact Hregion | lia].
Qed.

(** The loop that gathers the history raises [KeyError] on a frame that
    is counted and not recorded. *)
Lemma video_complete_missing (call : video_call) (s : scan) :
  video_complete_function call = true ->
  0 < n_frame s ->
  (forall k, 1 <= k < n_frame s ->
     is_Some (output_frames_dict s !! k) /\ is_Some (output_frames_count_dict s !! k)) ->
  output_frames_dict s !! n_frame s = None ->
  video_complete call s = Raise KeyError.
Proof.
  intros Hpassed Hn Hkeys Hmissing. unfold video_complete. rewrite Hpassed.
  replace (n_frame s) with (n_frame s - 1 + 1) at 1 by lia.
  rewrite seqZ_app by lia. rewrite for_each_app.
  rewrite (gather_history _ _
             (fun k => default [] (output_frames_dict s !! k))
             (fun k => default ∅ (output_frames_count_dict s !! k))).
  - cbn [mbind result_bind]. rewrite (seqZ_cons _ 1) by lia.
    cbn [for_each]. replace (0 + (n_frame s - 1) + 1) with (n_frame s) by lia.
    rewrite (py_getitem_missing _ _ Hmissing). reflexivity.
  - intros idx Hidx. apply list_elem_of_lookup_1 in Hidx as [i Hi].
    apply lookup_seqZ in Hi as [-> Hi].
    destruct (Hkeys (0 + Z.of_nat i + 1)) as [[v1 ->] [v2 ->]]; [lia|]. auto.
Qed.

(** C1: what the code does.  With the performance mode off, a timeout of
    [t] seconds that the video outlasts, an end-of-video function passed
    and a region of interest that is absent or can be drawn (any region
    when the break comes on the first frame, before anything is drawn),
    [detectObjectsFromVideo] breaks out of the loop at the frame
    [frames_per_second * t] and raises [KeyError] in the block of the
    end-of-video function: the function is not called. *)
Theorem detectObjectsFromVideo_timeout_KeyError (call : video_call)
    (frames_per_second t : Z) (frames : list frame_outcome) :
  performance_mode call = false -> video_complete_function call = true ->
  detection_timeout call = Some t -> 0 < t ->
  0 < frames_per_second -> frame_detection_interval call <> 0 ->
  (1 < frames_per_second * t -> drawable (video_region_of_interest call)) ->
  frames_per_second * t <= Z.of_nat (length frames) ->
  detectObjectsFromVideo "yolov3" call frames_per_second frames = Raise KeyError.
Proof.
  intros Hperf Hpassed Htimeout Ht Hfps Hinterval Hdraw Hlong.
  assert (Hset : timeout_set (detection_timeout call) = Some t).
  { rewrite Htimeout. cbn. destruct (t =? 0) eqn:E; [lia | reflexivity]. }
  destruct (scan_frames_cut call frames_per_second t frames Hperf Hfps Hinterval
              Hset scan_start (scan_inv_start call frames_per_second Hfps))
    as (s & Hrun & Hn & Hkeys & Hmissing).
  { exact Hdraw. }
  { cbn. nia. }
  unfold detectObjectsFromVideo. rewrite bool_decide_eq_true_2 by reflexivity.
  rewrite Hrun. cbn [mbind result_bind].
  apply (video_complete_missing call s Hpassed); [nia | exact Hkeys | exact Hmissing].
Qed.

Lemma detectObjectsFromVideo_timeout_KeyError_witness :
  detectObjectsFromVideo "yolov3" timed_video_call 2 (person_video 5) = Raise KeyError.
Proof.
  apply (detectObjectsFromVideo_timeout_KeyError timed_video_call 2 1 (person_video 5)).
  - reflexivity.
  - reflexivity.
  - reflexivity.
  - lia.
  - lia.
  - discriminate.
  - intros _. exact I.
  - cbn. lia.
Defined.

(** The scan of the same video up to the break: two frames are counted,
    one is recorded. *)
Example scan_frames_timed :
  exists s,
    scan_frames timed_video_call 2 (person_video 5) scan_start = Ok s
    /\ n_frame s = 2
    /\ output_frames_dict s !! 1 = Some [seen "person"]
    /\ output_frames_dict s !! 2 = None.
Proof. eexists. split; [vm_compute; reflexivity|]. repeat split. Qed.

(** * Further properties of the code *)

(** ** Intersection over union: the textbook formula and its range *)

Lemma Qmin_cases (x y : Q) :
  ((x <= y)%Q /\ (Qmin x y == x)%Q) \/ ((y <= x)%Q /\ (Qmin x y == y)%Q).
Proof.
  destruct (Q.min_spec x y) as [[H E]|[H E]].
  - left. split; [apply Qlt_le_weak; exact H | exact E].
  - right. split; assumption.
Qed.

Lemma Qmax_cases (x y : Q) :
  ((x <= y)%Q /\ (Qmax x y == y)%Q) \/ ((y <= x)%Q /\ (Qmax x y == x)%Q).
Proof.
  destruct (Q.max_spec x y) as [[H E]|[H E]].
  - left. split; [apply Qlt_le_weak; exact H | exact E].
  - right. split; assumption.
Qed.

(** X1: on two intervals whose ends are in order, [_interval_overlap] is
    the length of their intersection, [max 0 (min x2 x4 - max x1 x3)];
    intervals that only touch overlap by zero. *)
Theorem interval_overlap_closed_form (x1 x2 x3 x4 : Q) :
  (x1 <= x2)%Q -> (x3 <= x4)%Q ->
  (_interval_overlap (x1, x2) (x3, x4) == Qmax 0 (Qmin x2 x4 - Qmax x1 x3))%Q.
Proof.
  intros H12 H34. unfold _interval_overlap.
  destruct (Qmin_cases x2 x4) as [[Hm Em]|[Hm Em]];
    destruct (Qmax_cases x1 x3) as [[Hx Ex]|[Hx Ex]];
    destruct (Qmax_cases 0 (Qmin x2 x4 - Qmax x1 x3)) as [[Hz Ez]|[Hz Ez]];
    rewrite Ez; rewrite ?Em, ?Ex in *;
    destruct (Qltb x3 x1) eqn:E31; destruct (Qltb x4 x1) eqn:E41;
    destruct (Qltb x2 x3) eqn:E23;
    repeat match goal with
           | H : Qltb _ _ = true |- _ => apply Qltb_true in H
           | H : Qltb _ _ = false |- _ => apply Qltb_false in H
           end;
    rewrite ?Em; lra.
Qed.

Lemma interval_overlap_closed_form_witness :
  (_interval_overlap (0, 4) (1, 6) == Qmax 0 (Qmin 4 6 - Qmax 0 1))%Q
  /\ (_interval_overlap (0, 1) (1, 2) == 0)%Q.
Proof.
  split.
  - apply (interval_overlap_closed_form 0 4 1 6); discriminate.
  - rewrite (interval_overlap_closed_form 0 1 1 2) by discriminate. reflexivity.
Defined.

Lemma _interval_overlap_bounds (x1 x2 x3 x4 : Q) :
  (x1 <= x2)%Q -> (x3 <= x4)%Q ->
  (0 <= _interval_overlap (x1, x2) (x3, x4))%Q
  /\ (_interval_overlap (x1, x2) (x3, x4) <= x2 - x1)%Q
  /\ (_interval_overlap (x1, x2) (x3, x4) <= x4 - x3)%Q.
Proof.
  intros H12 H34. unfold _interval_overlap.
  destruct (Qmin_cases x2 x4) as [[Hm Em]|[Hm Em]];
    destruct (Qltb x3 x1) eqn:E31; destruct (Qltb x4 x1) eqn:E41;
    destruct (Qltb x2 x3) eqn:E23;
    repeat match goal with
           | H : Qltb _ _ = true |- _ => apply Qltb_true in H
           | H : Qltb _ _ = false |- _ => apply Qltb_false in H
           end;
    rewrite ?Em; repeat split; lra.
Qed.

Lemma intersect_of_bounds (box1 box2 : BoundBox) :
  ordered box1 -> ordered box2 ->
  (0 <= intersect_of box1 box2)%Q
  /\ (intersect_of box1 box2 <= (xmax box1 - xmin box1) * (ymax box1 - ymin box1))%Q
  /\ (intersect_of box1 box2 <= (xmax box2 - xmin box2) * (ymax box2 - ymin box2))%Q.
Proof.
  intros [Hx1 Hy1] [Hx2 Hy2]. unfold intersect_of.
  destruct (_interval_overlap_bounds _ _ _ _ Hx1 Hx2) as (Hw0 & Hw1 & Hw2).
  destruct (_interval_overlap_bounds _ _ _ _ Hy1 Hy2) as (Hh0 & Hh1 & Hh2).
  repeat split.
  - apply Qmult_le_0_compat; assumption.
  - apply Qmult_le_compat_nonneg; split; assumption.
  - apply Qmult_le_compat_nonneg; split; assumption.
Qed.

(** X2: for two boxes whose corners are in order, [bbox_iou] does not
    depend on the order of its arguments. *)
Theorem bbox_iou_symmetric (box1 box2 : BoundBox) :
  ordered box1 -> ordered box2 -> (bbox_iou box1 box2 == bbox_iou box2 box1)%Q.
Proof. exact (bbox_iou_sym box1 box2). Qed.

Lemma bbox_iou_symmetric_witness :
  (bbox_iou strong_box weak_box == bbox_iou weak_box strong_box)%Q.
Proof.
  apply (bbox_iou_symmetric strong_box weak_box); split; discriminate.
Defined.

Lemma bbox_iou_range (box1 box2 : BoundBox) :
  ordered box1 -> ordered box2 ->
  (0 <= bbox_iou box1 box2)%Q /\ (bbox_iou box1 box2 <= 1)%Q.
Proof.
  intros H1 H2.
  destruct (intersect_of_bounds _ _ H1 H2) as (Hi0 & Hi1 & Hi2).
  assert (Hu : (intersect_of box1 box2 <= union_of box1 box2)%Q).
  { unfold union_of. cbv zeta. lra. }
  rewrite bbox_iou_unfold.
  destruct (Qeq_bool (union_of box1 box2) 0) eqn:E.
  - split; discriminate.
  - assert (Hpos : (0 < union_of box1 box2)%Q).
    { apply Qeq_bool_neq in E. apply Qle_lt_or_eq in Hu.
      destruct (Qlt_le_dec 0 (union_of box1 box2)) as [Hlt|Hle]; [exact Hlt|].
      exfalso. apply E. lra. }
    split.
    + apply Qle_shift_div_l; [exact Hpos|]. lra.
    + apply Qle_shift_div_r; [exact Hpos|]. lra.
Qed.

(** X3: for two boxes whose corners are in order, [bbox_iou] lies
    between 0 and 1. *)
Theorem bbox_iou_unit_interval (box1 box2 : BoundBox) :
  ordered box1 -> ordered box2 ->
  (0 <= bbox_iou box1 box2)%Q /\ (bbox_iou box1 box2 <= 1)%Q.
Proof. exact (bbox_iou_range box1 box2). Qed.

Lemma bbox_iou_unit_interval_witness :
  (0 <= bbox_iou strong_box weak_box)%Q /\ (bbox_iou strong_box weak_box <= 1)%Q.
Proof.
  apply (bbox_iou_unit_interval strong_box weak_box); split; discriminate.
Defined.

(** ** Region of interest: what the filter does to each box *)

Lemma set_classes_same (box : BoundBox) : set_classes box (classes box) = box.
Proof. destruct box; reflexivity. Qed.

Lemma RoI_pass_prefix (x0 x1 y0 y1 : Z) (box : BoundBox) (k : nat) :
  (k <= length (classes box))%nat ->
  for_each (RoI_class x0 x1 y0 y1) (seq 0 k) box
  = Ok (if roi_outside x0 x1 y0 y1 box
        then set_classes box
               (map (fun v => if py_truthy v then 0%Q else v) (take k (classes box))
                ++ drop k (classes box))
        else box).
Proof.
  induction k as [|k IH]; intros Hk.
  - cbn. rewrite drop_0, set_classes_same.
    destruct (roi_outside x0 x1 y0 y1 box); reflexivity.
  - rewrite seq_S, for_each_app, IH by lia. cbn [mbind result_bind for_each].
    destruct (lookup_lt_is_Some_2 (classes box) k) as [v Hv]; [lia|].
    destruct (roi_outside x0 x1 y0 y1 box) eqn:Hout.
    + set (zero := fun v : Q => if py_truthy v then 0%Q else v).
      set (box1 := set_classes box (map zero (take k (classes box)) ++ drop k (classes box))).
      assert (Hlen : length (map zero (take k (classes box))) = k).
      { rewrite length_map, length_take. lia. }
      assert (Hv1 : classes box1 !! (0 + k)%nat = Some v).
      { unfold box1. cbn [classes set_classes].
        rewrite lookup_app_r by lia. rewrite Hlen, Nat.sub_diag, lookup_drop.
        rewrite Nat.add_0_r. exact Hv. }
      rewrite (RoI_class_step _ _ _ _ _ _ _ Hv1).
      change (roi_outside x0 x1 y0 y1 box1) with (roi_outside x0 x1 y0 y1 box).
      rewrite Hout, andb_true_r. cbn [mbind result_bind].
      f_equal. rewrite (take_S_r _ _ _ Hv), map_app. cbn [map].
      destruct (py_truthy v) eqn:Ht.
      * unfold set_class, box1, set_classes. cbn [classes xmin ymin xmax ymax objness].
        f_equal. rewrite insert_app_r_alt by lia. rewrite Hlen, Nat.sub_diag.
        rewrite (drop_S _ _ _ Hv). cbn [insert list_insert].
        rewrite <- app_assoc. cbn [app]. unfold zero at 3. rewrite Ht. reflexivity.
      * unfold box1. f_equal. rewrite (drop_S _ _ _ Hv).
        rewrite <- app_assoc. cbn [app]. unfold zero at 3. rewrite Ht. reflexivity.
    + destruct (lookup_lt_is_Some_2 (classes box) k) as [w Hw]; [lia|].
      rewrite (RoI_class_step _ _ _ _ (0 + k) _ _ Hw). rewrite Hout, andb_false_r.
      reflexivity.
Qed.

Lemma RoI_pass_whole (x0 x1 y0 y1 : Z) (box : BoundBox) :
  for_each (RoI_class x0 x1 y0 y1) (seq 0 (length (classes box))) box
  = Ok (if roi_outside x0 x1 y0 y1 box then roi_zeroed box else box).
Proof.
  rewrite RoI_pass_prefix by lia.
  rewrite firstn_all, drop_all, app_nil_r. reflexivity.
Qed.

Lemma RoI_map (boxes : list BoundBox) (x0 x1 y0 y1 : Z) (n : nat) :
  Forall (fun box => length (classes box) = n) boxes ->
  RoI boxes (Some [x0; x1; y0; y1])
  = Ok (map (fun box => if roi_outside x0 x1 y0 y1 box then roi_zeroed box else box)
            boxes).
Proof.
  intros Hlen. unfold RoI. destruct boxes as [|box0 rest]; [reflexivity|].
  apply traverse_total.
  assert (H0 : length (classes box0) = n) by (inversion Hlen; assumption).
  rewrite H0. eapply Forall_impl; [exact Hlen|].
  intros box Hbox. cbn beta in Hbox. rewrite <- Hbox. apply RoI_pass_whole.
Qed.

(** X4: with a region of four entries and boxes that carry the same
    number of scores, [RoI] returns the boxes in their order, each box
    whose centre lies inside the region as it was and each box whose
    centre lies outside with all its scores at zero; it raises nothing. *)
Theorem RoI_filters (boxes : list BoundBox) (x0 x1 y0 y1 : Z) (n : nat) :
  Forall (fun box => length (classes box) = n) boxes ->
  RoI boxes (Some [x0; x1; y0; y1])
  = Ok (map (fun box => if roi_outside x0 x1 y0 y1 box then roi_zeroed box else box)
            boxes).
Proof. exact (RoI_map boxes x0 x1 y0 y1 n). Qed.

Lemma RoI_filters_witness :
  RoI [unit_box; far_box] (Some [0; 3; 0; 3])
  = Ok (map (fun box => if roi_outside 0 3 0 3 box then roi_zeroed box else box)
            [unit_box; far_box])
  /\ map classes
         (map (fun box => if roi_outside 0 3 0 3 box then roi_zeroed box else box)
              [unit_box; far_box])
     = [[1%Q]; [0%Q]].
Proof.
  split.
  - apply (RoI_filters [unit_box; far_box] 0 3 0 3 1). repeat constructor.
  - reflexivity.
Defined.

(** X5: a [region_of_interest] that has not exactly four entries is
    ignored by [RoI], which returns the boxes as they are; yet
    [add_region_of_interest_to_frame] raises [IndexError] on one of one
    to three entries, and draws the rectangle of the first four entries
    of a longer one. *)
Theorem region_of_interest_wrong_length (boxes : list BoundBox) (roi : list Z)
    (image_frame : image) :
  length roi <> 4%nat ->
  RoI boxes (Some roi) = Ok boxes
  /\ ((0 < length roi < 4)%nat ->
      add_region_of_interest_to_frame image_frame (Some roi) = Raise IndexError)
  /\ ((4 < length roi)%nat ->
      exists x0 x1 y0 y1 rest,
        roi = x0 :: x1 :: y0 :: y1 :: rest
        /\ add_region_of_interest_to_frame image_frame (Some roi)
           = Ok (image_frame, Some (mkRectangle (x0, y0) (x1, y1)))).
Proof.
  intros Hlen.
  destruct roi as [|x0 [|x1 [|y0 [|y1 [|z rest]]]]]; cbn in Hlen; try lia;
    (split; [reflexivity|]); (split; [intros H; cbn in H; try lia; reflexivity|]);
    intros H; cbn in H; try lia.
  exists x0, x1, y0, y1, (z :: rest). split; reflexivity.
Qed.

Lemma region_of_interest_wrong_length_witness :
  RoI [far_box] (Some [0; 3; 0]) = Ok [far_box]
  /\ add_region_of_interest_to_frame sample_image (Some [0; 3; 0]) = Raise IndexError.
Proof.
  pose proof (region_of_interest_wrong_length [far_box] [0; 3; 0] sample_image) as H.
  destruct H as (Hroi & Hshort & _); [cbn; lia|].
  split; [exact Hroi | apply Hshort; cbn; lia].
Defined.

(** ** Selection: the three lists of [get_boxes] *)

Lemma unzip3_app {A B C : Type} (l1 l2 : list (A * B * C)) :
  unzip3 (l1 ++ l2)
  = ((unzip3 l1).1.1 ++ (unzip3 l2).1.1, (unzip3 l1).1.2 ++ (unzip3 l2).1.2,
     (unzip3 l1).2 ++ (unzip3 l2).2).
Proof. unfold unzip3. cbn. rewrite !map_app. reflexivity. Qed.

Lemma get_boxes_label_step (labels : list string) (thresh : Q) (box : BoundBox)
    (i : nat) (acc : selection) :
  (i < length (classes box))%nat -> (i < length labels)%nat ->
  get_boxes_label labels thresh box i acc
  = Ok (acc.1.1 ++ (unzip3 (option_list (select_label labels thresh box i))).1.1,
        acc.1.2 ++ (unzip3 (option_list (select_label labels thresh box i))).1.2,
        acc.2 ++ (unzip3 (option_list (select_label labels thresh box i))).2).
Proof.
  intros Hc Hl. destruct acc as [[vb vl] vs].
  destruct (lookup_lt_is_Some_2 _ _ Hc) as [score Hscore].
  destruct (lookup_lt_is_Some_2 _ _ Hl) as [label Hlabel].
  unfold get_boxes_label, select_label, py_index. rewrite Hscore, Hlabel.
  cbn [mbind result_bind]. destruct (Qltb thresh score); cbn.
  - reflexivity.
  - rewrite !app_nil_r. reflexivity.
Qed.

Lemma get_boxes_label_raises (labels : list string) (thresh : Q) (box : BoundBox)
    (i : nat) (acc : selection) :
  classes box !! i = None -> get_boxes_label labels thresh box i acc = Raise IndexError.
Proof.
  intros Hnone. destruct acc as [[vb vl] vs].
  unfold get_boxes_label, py_index. rewrite Hnone. reflexivity.
Qed.

Lemma get_boxes_labels (labels : list string) (thresh : Q) (box : BoundBox)
    (idxs : list nat) :
  (forall i, i ∈ idxs -> (i < length (classes box))%nat /\ (i < length labels)%nat) ->
  forall acc : selection,
    for_each (get_boxes_label labels thresh box) idxs acc
    = Ok (acc.1.1 ++ (unzip3 (omap (select_label labels thresh box) idxs)).1.1,
          acc.1.2 ++ (unzip3 (omap (select_label labels thresh box) idxs)).1.2,
          acc.2 ++ (unzip3 (omap (select_label labels thresh box) idxs)).2).
Proof.
  induction idxs as [|i idxs IH]; intros Hin [[vb vl] vs].
  - cbn. rewrite !app_nil_r. reflexivity.
  - cbn [for_each]. destruct (Hin i) as [Hc Hl]; [left|].
    rewrite (get_boxes_label_step _ _ _ _ _ Hc Hl). cbn [mbind result_bind].
    rewrite IH by (intros j Hj; apply Hin; right; exact Hj).
    cbn [omap list_omap]. destruct (select_label labels thresh box i) as [[[b l] s]|];
      cbn; rewrite <- ?app_assoc, ?app_nil_r; reflexivity.
Qed.

Lemma get_boxes_box_ok (labels : list string) (thresh : Q) (box : BoundBox)
    (acc : selection) :
  (length labels <= length (classes box))%nat ->
  for_each (get_boxes_label labels thresh box) (seq 0 (length labels)) acc
  = Ok (acc.1.1 ++ (unzip3 (selected labels thresh box)).1.1,
        acc.1.2 ++ (unzip3 (selected labels thresh box)).1.2,
        acc.2 ++ (unzip3 (selected labels thresh box)).2).
Proof.
  intros Hlen. apply get_boxes_labels. intros i Hi.
  apply elem_of_seq in Hi. lia.
Qed.

Lemma get_boxes_box_short (labels : list string) (thresh : Q) (box : BoundBox)
    (acc : selection) :
  (length (classes box) < length labels)%nat ->
  for_each (get_boxes_label labels thresh box) (seq 0 (length labels)) acc
  = Raise IndexError.
Proof.
  intros Hlen.
  replace (length labels) with (length (classes box)
                                + S (length labels - S (length (classes box))))%nat by lia.
  rewrite seq_app, for_each_app.
  rewrite get_boxes_labels by (intros i Hi; apply elem_of_seq in Hi; lia).
  cbn [mbind result_bind seq for_each].
  rewrite get_boxes_label_raises by (apply lookup_ge_None_2; lia). reflexivity.
Qed.

Lemma get_boxes_loop (labels : list string) (thresh : Q) (boxes : list BoundBox) :
  Forall (fun box => length labels <= length (classes box))%nat boxes ->
  forall acc : selection,
    for_each (fun box => for_each (get_boxes_label labels thresh box)
                                  (seq 0 (length labels)))
             boxes acc
    = Ok (acc.1.1 ++ (unzip3 (boxes ≫= selected labels thresh)).1.1,
          acc.1.2 ++ (unzip3 (boxes ≫= selected labels thresh)).1.2,
          acc.2 ++ (unzip3 (boxes ≫= selected labels thresh)).2).
Proof.
  induction 1 as [|box boxes Hbox Hall IH]; intros [[vb vl] vs].
  - cbn. rewrite !app_nil_r. reflexivity.
  - cbn [for_each]. rewrite (get_boxes_box_ok _ _ _ _ Hbox). cbn [mbind result_bind].
    rewrite IH. cbn [mbind list_bind]. rewrite unzip3_app. cbn.
    rewrite <- !app_assoc. reflexivity.
Qed.

Lemma get_boxes_ok (boxes : list BoundBox) (labels : list string) (thresh : Q) :
  Forall (fun box => length labels <= length (classes box))%nat boxes ->
  get_boxes boxes labels thresh = Ok (unzip3 (boxes ≫= selected labels thresh)).
Proof.
  intros Hall. unfold get_boxes. rewrite (get_boxes_loop _ _ _ Hall). reflexivity.
Qed.

Lemma get_boxes_short (boxes : list BoundBox) (labels : list string) (thresh : Q) :
  Exists (fun box => length (classes box) < length labels)%nat boxes ->
  get_boxes boxes labels thresh = Raise IndexError.
Proof.
  unfold get_boxes. generalize (([], [], []) : selection).
  induction boxes as [|box boxes IH]; intros acc Hex; [inversion Hex|].
  cbn [for_each].
  destruct (le_lt_dec (length labels) (length (classes box))) as [Hle|Hlt].
  - rewrite (get_boxes_box_ok _ _ _ _ Hle). cbn [mbind result_bind].
    apply IH. inversion Hex as [? ? Hhd|? ? Htl]; subst; [lia | exact Htl].
  - rewrite (get_boxes_box_short _ _ _ _ Hlt). reflexivity.
Qed.

(** X6: when every box carries a score for every label, [get_boxes]
    returns three parallel lists: box by box and label by label, in that
    order, one entry for each score above the threshold, made of the box,
    the label and the score times 100; a box with several scores above
    the threshold is entered once for each.  When a box carries fewer
    scores than there are labels, [get_boxes] raises [IndexError]. *)
Theorem get_boxes_selects (boxes : list BoundBox) (labels : list string) (thresh : Q) :
  (Forall (fun box => length labels <= length (classes box))%nat boxes ->
   get_boxes boxes labels thresh = Ok (unzip3 (boxes ≫= selected labels thresh)))
  /\ (Exists (fun box => length (classes box) < length labels)%nat boxes ->
      get_boxes boxes labels thresh = Raise IndexError).
Proof. split; [apply get_boxes_ok | apply get_boxes_short]. Qed.

Lemma get_boxes_selects_witness :
  get_boxes [mkBoundBox 0 0 4 4 1 [(7 # 10); (2 # 10); (6 # 10)]%Q]
            ["cat"; "dog"; "owl"] (1 # 2)
  = Ok (unzip3 ([mkBoundBox 0 0 4 4 1 [(7 # 10); (2 # 10); (6 # 10)]%Q]
                  ≫= selected ["cat"; "dog"; "owl"] (1 # 2)))
  /\ (unzip3 ([mkBoundBox 0 0 4 4 1 [(7 # 10); (2 # 10); (6 # 10)]%Q]
                ≫= selected ["cat"; "dog"; "owl"] (1 # 2))).1.2 = ["cat"; "owl"]
  /\ get_boxes [unit_box] ["cat"; "dog"] (1 # 2) = Raise IndexError.
Proof.
  split; [|split].
  - apply (proj1 (get_boxes_selects _ _ _)). repeat constructor.
  - reflexivity.
  - apply (proj2 (get_boxes_selects _ _ _)). constructor. cbn. lia.
Defined.

(** ** Non-maximum suppression changes scores only, and only to zero *)

Lemma only_zeroed_refl (box : BoundBox) : only_zeroed box box.
Proof.
  repeat split. apply Forall2_same_length_lookup_2; [reflexivity|].
  intros i v v' Hv Hv'. left. congruence.
Qed.

Lemma only_zeroed_trans (b1 b2 b3 : BoundBox) :
  only_zeroed b1 b2 -> only_zeroed b2 b3 -> only_zeroed b1 b3.
Proof.
  intros (Hc1 & Ho1 & Hs1) (Hc2 & Ho2 & Hs2). repeat split; [congruence..|].
  revert Hs1 Hs2. generalize (classes b1) (classes b2) (classes b3).
  intros l1 l2 l3 H12. revert l3.
  induction H12 as [|v1 v2 l1 l2 Hv H12 IH]; intros l3 H23; inversion H23; subst;
    constructor; [|apply IH; assumption].
  match goal with H : _ \/ _ |- _ => destruct H as [-> | ->] end;
    [exact Hv | right; reflexivity].
Qed.

Lemma only_zeroed_set (box : BoundBox) (c : nat) (cs : list Q) :
  py_setitem (classes box) c 0%Q = Ok cs -> only_zeroed box (set_classes box cs).
Proof.
  unfold py_setitem. destruct (c <? length (classes box))%nat; [|discriminate].
  intros [= <-]. repeat split. cbn [classes set_classes].
  apply Forall2_same_length_lookup_2; [rewrite length_insert; reflexivity|].
  intros i v v' Hv Hv'. destruct (decide (c = i)) as [<-|Hne].
  - rewrite list_lookup_insert_eq in Hv' by (eapply lookup_lt_Some; eauto).
    right. congruence.
  - rewrite list_lookup_insert_ne in Hv' by exact Hne. left. congruence.
Qed.

Lemma Forall2_only_zeroed_refl (boxes : list BoundBox) :
  Forall2 only_zeroed boxes boxes.
Proof. induction boxes; constructor; [apply only_zeroed_refl | assumption]. Qed.

Lemma Forall2_only_zeroed_trans (l1 l2 l3 : list BoundBox) :
  Forall2 only_zeroed l1 l2 -> Forall2 only_zeroed l2 l3 -> Forall2 only_zeroed l1 l3.
Proof.
  intros H12. revert l3.
  induction H12 as [|b1 b2 l1 l2 Hb H12 IH]; intros l3 H23; inversion H23; subst;
    constructor; [eapply only_zeroed_trans; eassumption | apply IH; assumption].
Qed.

Lemma Forall2_only_zeroed_insert (boxes : list BoundBox) (k : nat) (box box' : BoundBox) :
  boxes !! k = Some box -> only_zeroed box box' ->
  Forall2 only_zeroed boxes (<[k := box']> boxes).
Proof.
  intros Hk Hz. apply Forall2_same_length_lookup_2; [rewrite length_insert; reflexivity|].
  intros i b b' Hb Hb'. destruct (decide (k = i)) as [<-|Hne].
  - rewrite list_lookup_insert_eq in Hb' by (eapply lookup_lt_Some; eauto).
    assert (b = box) by congruence. assert (b' = box') by congruence. subst. exact Hz.
  - rewrite list_lookup_insert_ne in Hb' by exact Hne.
    assert (b' = b) by congruence. subst. apply only_zeroed_refl.
Qed.

Lemma nms_compare_only_zeroed (t : Q) (c : nat) (sorted_indices : list nat) (i j : nat)
    (boxes boxes' : list BoundBox) :
  nms_compare t c sorted_indices i j boxes = Ok boxes' ->
  Forall2 only_zeroed boxes boxes'.
Proof.
  unfold nms_compare, py_index, mbind, result_bind.
  destruct (sorted_indices !! i) as [index_i|]; [|discriminate].
  destruct (boxes !! index_i) as [box_i|]; [|discriminate].
  destruct (sorted_indices !! j) as [index_j|]; [|discriminate].
  destruct (boxes !! index_j) as [box_j|] eqn:Hj; [|discriminate].
  destruct (Qle_bool t (bbox_iou box_i box_j));
    [|intros [= <-]; apply Forall2_only_zeroed_refl].
  destruct (py_setitem (classes box_j) c 0%Q) as [cs|] eqn:Hset; [|discriminate].
  intros [= <-]. apply (Forall2_only_zeroed_insert _ _ _ _ Hj).
  apply (only_zeroed_set _ _ _ Hset).
Qed.

Lemma nms_from_only_zeroed (t : Q) (c : nat) (sorted_indices : list nat) (i : nat)
    (boxes boxes' : list BoundBox) :
  nms_from t c sorted_indices i boxes = Ok boxes' -> Forall2 only_zeroed boxes boxes'.
Proof.
  unfold nms_from, py_index, mbind, result_bind.
  destruct (sorted_indices !! i) as [index_i|]; [|discriminate].
  destruct (boxes !! index_i) as [box_i|]; [|discriminate].
  destruct (classes box_i !! c) as [v|]; [|discriminate].
  destruct (py_truthy v); [|intros [= <-]; apply Forall2_only_zeroed_refl].
  apply (for_each_invariant (fun acc => Forall2 only_zeroed boxes acc));
    [|apply Forall2_only_zeroed_refl].
  intros j acc acc' _ Hacc Hstep.
  apply (Forall2_only_zeroed_trans _ _ _ Hacc (nms_compare_only_zeroed _ _ _ _ _ _ _ Hstep)).
Qed.

Lemma nms_class_only_zeroed (argsort : list Q -> list nat) (t : Q) (c : nat)
    (boxes boxes' : list BoundBox) :
  nms_class argsort t c boxes = Ok boxes' -> Forall2 only_zeroed boxes boxes'.
Proof.
  unfold nms_class. destruct (class_keys c boxes) as [keys|]; cbn; [|discriminate].
  apply (for_each_invariant (fun acc => Forall2 only_zeroed boxes acc));
    [|apply Forall2_only_zeroed_refl].
  intros i acc acc' _ Hacc Hstep.
  apply (Forall2_only_zeroed_trans _ _ _ Hacc (nms_from_only_zeroed _ _ _ _ _ _ Hstep)).
Qed.

Lemma do_nms_only_zeroed (argsort : list Q -> list nat) (t : Q)
    (boxes boxes' : list BoundBox) :
  do_nms argsort boxes t = Ok boxes' -> Forall2 only_zeroed boxes boxes'.
Proof.
  unfold do_nms. destruct boxes as [|box0 rest]; [intros [= <-]; constructor|].
  apply (for_each_invariant (fun acc => Forall2 only_zeroed (box0 :: rest) acc));
    [|apply Forall2_only_zeroed_refl].
  intros c acc acc' _ Hacc Hstep.
  apply (Forall2_only_zeroed_trans _ _ _ Hacc (nms_class_only_zeroed _ _ _ _ _ Hstep)).
Qed.

(** X7: whatever order [np.argsort] returns, the boxes that [do_nms]
    hands back are the boxes it was given, in the same order, with the
    same corners and objectness; each score is the score the box had or
    zero.  No box is added or removed, no score is raised. *)
Theorem do_nms_only_zeroes (argsort : list Q -> list nat) (t : Q)
    (boxes boxes' : list BoundBox) :
  do_nms argsort boxes t = Ok boxes' ->
  length boxes' = length boxes /\ Forall2 only_zeroed boxes boxes'.
Proof.
  intros Hrun. pose proof (do_nms_only_zeroed _ _ _ _ Hrun) as Hz.
  split; [symmetry; apply (Forall2_length _ _ _ Hz) | exact Hz].
Qed.

Lemma do_nms_only_zeroes_witness :
  length [set_class 0 0 weak_box; strong_box] = length [weak_box; strong_box]
  /\ Forall2 only_zeroed [weak_box; strong_box] [set_class 0 0 weak_box; strong_box].
Proof.
  apply (do_nms_only_zeroes stable_argsort (45 # 100) [weak_box; strong_box]
           [set_class 0 0 weak_box; strong_box]).
  vm_compute. reflexivity.
Defined.

(** ** Non-maximum suppression spares the best box of every class *)

Lemma class_keys_values (c : nat) (boxes : list BoundBox) :
  Forall (fun box => c < length (classes box))%nat boxes ->
  class_keys c boxes = Ok (map (fun box => (- default 0 (classes box !! c))%Q) boxes).
Proof.
  intros Hrange. apply traverse_total. apply (Forall_impl _ _ _ Hrange).
  intros box Hc. destruct (lookup_lt_is_Some_2 (classes box) c Hc) as [v Hv].
  unfold py_index. rewrite Hv. reflexivity.
Qed.

Lemma nms_compare_first (t : Q) (c : nat) (sorted_indices : list nat) (i j k0 : nat)
    (boxes boxes' : list BoundBox) :
  NoDup sorted_indices -> sorted_indices !! 0%nat = Some k0 -> (0 < j)%nat ->
  nms_compare t c sorted_indices i j boxes = Ok boxes' ->
  boxes' !! k0 = boxes !! k0.
Proof.
  intros Hnodup H0 Hj.
  unfold nms_compare, py_index, py_setitem, mbind, result_bind.
  destruct (sorted_indices !! i) as [index_i|]; [|discriminate].
  destruct (boxes !! index_i) as [box_i|]; [|discriminate].
  destruct (sorted_indices !! j) as [index_j|] eqn:Hidx; [|discriminate].
  destruct (boxes !! index_j) as [box_j|]; [|discriminate].
  destruct (Qle_bool t (bbox_iou box_i box_j)); [|intros [= <-]; reflexivity].
  destruct (c <? length (classes box_j))%nat; [|discriminate].
  intros [= <-]. apply list_lookup_insert_ne. intros ->.
  pose proof (NoDup_lookup _ _ _ _ Hnodup H0 Hidx). lia.
Qed.

Lemma nms_from_first (t : Q) (c : nat) (sorted_indices : list nat) (i k0 : nat)
    (boxes boxes' : list BoundBox) :
  NoDup sorted_indices -> sorted_indices !! 0%nat = Some k0 ->
  nms_from t c sorted_indices i boxes = Ok boxes' ->
  boxes' !! k0 = boxes !! k0.
Proof.
  intros Hnodup H0. unfold nms_from, py_index, mbind, result_bind.
  destruct (sorted_indices !! i) as [index_i|]; [|discriminate].
  destruct (boxes !! index_i) as [box_i|]; [|discriminate].
  destruct (classes box_i !! c) as [v|]; [|discriminate].
  destruct (py_truthy v); [|intros [= <-]; reflexivity].
  apply (for_each_invariant (fun acc => acc !! k0 = boxes !! k0)); [|reflexivity].
  intros j acc acc' Hj Hacc Hstep. apply elem_of_seq in Hj.
  assert (Hpos : (0 < j)%nat) by lia.
  rewrite (nms_compare_first _ _ _ _ _ _ _ _ Hnodup H0 Hpos Hstep). exact Hacc.
Qed.

Lemma nms_class_keeps_best (argsort : list Q -> list nat) (t : Q) (c : nat)
    (boxes : list BoundBox) :
  argsort_spec argsort -> boxes <> [] ->
  Forall (fun box => c < length (classes box))%nat boxes ->
  exists boxes' k box,
    nms_class argsort t c boxes = Ok boxes'
    /\ Forall2 (zeroed c) boxes boxes'
    /\ boxes !! k = Some box /\ boxes' !! k = Some box
    /\ greatest_score c boxes box.
Proof.
  intros Hargsort Hne Hrange.
  set (keys := map (fun box => (- default 0 (classes box !! c))%Q) boxes).
  assert (Hlen : length keys = length boxes) by apply length_map.
  destruct (Hargsort keys) as [Hperm Hsorted]. rewrite Hlen in Hperm.
  assert (Hnodup : NoDup (argsort keys)) by (rewrite Hperm; apply NoDup_seq).
  assert (Hbound : forall k, k ∈ argsort keys -> (k < length boxes)%nat).
  { intros k Hk. rewrite Hperm in Hk. apply elem_of_seq in Hk. lia. }
  destruct (nms_outer_loop t c (argsort keys) boxes Hnodup Hbound Hrange)
    as (boxes' & Hrun & Hz & _).
  destruct (argsort keys) as [|k0 rest] eqn:Hsort.
  { apply Permutation_length in Hperm. rewrite length_seq in Hperm. cbn in Hperm.
    destruct boxes; [contradiction | discriminate]. }
  destruct (lookup_lt_is_Some_2 boxes k0) as [box Hbox]; [apply Hbound; left|].
  exists boxes', k0, box. unfold nms_class. rewrite (class_keys_values _ _ Hrange).
  fold keys. cbn [mbind result_bind]. rewrite Hsort.
  split; [exact Hrun|]. split; [exact Hz|]. split; [exact Hbox|]. split.
  - rewrite <- Hbox.
    apply (for_each_invariant (fun acc => acc !! k0 = boxes !! k0) _ _) with
      (s := boxes) (3 := Hrun); [|reflexivity].
    intros i acc acc' _ Hacc Hstep.
    rewrite (nms_from_first _ _ _ _ _ _ _ Hnodup eq_refl Hstep). exact Hacc.
  - assert (Hc : (c < length (classes box))%nat).
    { rewrite Forall_forall in Hrange. apply Hrange.
      eapply list_elem_of_lookup_2; eauto. }
    destruct (lookup_lt_is_Some_2 _ _ Hc) as [v Hv].
    exists v. split; [exact Hv|]. intros other w Hother Hw.
    apply list_elem_of_lookup_1 in Hother as [j Hj].
    assert (Hkey : forall i b u, boxes !! i = Some b -> classes b !! c = Some u ->
                     nth i keys 0%Q = (- u)%Q).
    { intros i b u Hb Hu. apply nth_lookup_Some with (d := 0%Q).
      unfold keys. rewrite list_lookup_fmap, Hb. cbn. rewrite Hu. reflexivity. }
    assert (Hle : (nth k0 keys 0 <= nth j keys 0)%Q).
    { assert (Hin : j ∈ k0 :: rest).
      { rewrite Hperm. apply elem_of_seq. apply lookup_lt_Some in Hj. lia. }
      apply elem_of_cons in Hin as [-> | Hin]; [apply Qle_refl|].
      apply StronglySorted_inv in Hsorted as [_ Hall].
      rewrite List.Forall_forall in Hall. apply Hall.
      apply list_elem_of_In. exact Hin. }
    rewrite (Hkey _ _ _ Hbox Hv), (Hkey _ _ _ Hj Hw) in Hle. lra.
Qed.

Lemma greatest_score_keeps (c : nat) (boxes boxes1 : list BoundBox) (k : nat)
    (box box1 : BoundBox) :
  Forall2 (keeps_class c) boxes boxes1 ->
  boxes !! k = Some box -> boxes1 !! k = Some box1 ->
  greatest_score c boxes1 box1 -> greatest_score c boxes box.
Proof.
  intros Hk Hbox Hbox1 (v & Hv & Hmax).
  destruct (Forall2_lookup_lr _ _ _ _ _ _ Hk Hbox Hbox1) as (_ & _ & _ & _ & _ & Hc).
  exists v. split; [congruence|]. intros other w Hother Hw.
  apply list_elem_of_lookup_1 in Hother as [j Hj].
  destruct (Forall2_lookup_l _ _ _ _ _ Hk Hj) as (other1 & Hj1 & Hkj).
  destruct Hkj as (_ & _ & _ & _ & _ & Hcj).
  apply (Hmax other1 w); [eapply list_elem_of_lookup_2; eauto | congruence].
Qed.

Lemma nms_classes_keep_best (argsort : list Q -> list nat) (t : Q) (cs : list nat) :
  argsort_spec argsort -> NoDup cs ->
  forall boxes : list BoundBox,
    boxes <> [] ->
    (forall c, c ∈ cs -> Forall (fun box => c < length (classes box))%nat boxes) ->
    exists boxes',
      for_each (nms_class argsort t) cs boxes = Ok boxes'
      /\ forall c, c ∈ cs ->
           exists k box box',
             boxes !! k = Some box /\ greatest_score c boxes box
             /\ boxes' !! k = Some box' /\ classes box' !! c = classes box !! c.
Proof.
  intros Hargsort. induction cs as [|c0 cs IH]; intros Hnodup boxes Hne Hrange.
  - exists boxes. split; [reflexivity|]. intros c Hc. inversion Hc.
  - apply NoDup_cons in Hnodup as [Hnotin Hnodup].
    destruct (nms_class_keeps_best argsort t c0 boxes Hargsort Hne (Hrange c0 ltac:(left)))
      as (boxes1 & k0 & box0 & Hrun1 & Hz & Hbox0 & Hbox0' & Hbest0).
    assert (Hne1 : boxes1 <> []).
    { intros ->. apply Forall2_length in Hz. destruct boxes; [contradiction|discriminate]. }
    assert (Hrange1 : forall c, c ∈ cs ->
                        Forall (fun box => c < length (classes box))%nat boxes1).
    { intros c Hc. apply (Forall2_zeroed_in_range c c0 boxes boxes1 Hz).
      apply Hrange. right. exact Hc. }
    destruct (IH Hnodup boxes1 Hne1 Hrange1) as (boxes' & Hrun & Hbest).
    destruct (nms_classes_suppress argsort t cs Hargsort boxes1 Hrange1)
      as (boxes'' & Hrun' & _ & Hkeep).
    assert (boxes'' = boxes') by congruence. subst boxes''.
    exists boxes'. split; [cbn; rewrite Hrun1; exact Hrun|].
    intros c Hc. apply elem_of_cons in Hc as [-> | Hc].
    + destruct (Forall2_lookup_l _ _ _ _ _ (Hkeep c0 Hnotin) Hbox0')
        as (box' & Hbox' & Hk).
      exists k0, box0, box'. repeat split; try assumption.
      destruct Hk as (_ & _ & _ & _ & _ & Hsame). exact Hsame.
    + destruct (Hbest c Hc) as (k & box1 & box' & Hbox1 & Hbest1 & Hbox' & Hsame).
      assert (Hne0 : c0 <> c) by (intros ->; contradiction).
      pose proof (Forall2_zeroed_keeps c0 c _ _ Hz Hne0) as Hk1.
      destruct (Forall2_lookup_r _ _ _ _ _ Hk1 Hbox1) as (box & Hbox & Hkb).
      exists k, box, box'. repeat split; try assumption.
      * apply (greatest_score_keeps c boxes boxes1 k box box1 Hk1 Hbox Hbox1 Hbest1).
      * destruct Hkb as (_ & _ & _ & _ & _ & Hcb). congruence.
Qed.

Lemma do_nms_keeps_a_best (argsort : list Q -> list nat) (t : Q)
    (boxes : list BoundBox) (n c : nat) :
  argsort_spec argsort -> boxes <> [] ->
  Forall (fun box => length (classes box) = n) boxes -> (c < n)%nat ->
  exists boxes' k box box',
    do_nms argsort boxes t = Ok boxes'
    /\ boxes !! k = Some box /\ greatest_score c boxes box
    /\ boxes' !! k = Some box' /\ classes box' !! c = classes box !! c.
Proof.
  intros Hargsort Hne Hlen Hc. destruct boxes as [|box0 rest]; [contradiction|].
  assert (H0 : length (classes box0) = n) by (inversion Hlen; assumption).
  destruct (nms_classes_keep_best argsort t (seq 0 n) Hargsort (NoDup_seq 0 n)
              (box0 :: rest) Hne) as (boxes' & Hrun & Hbest).
  { intros c' Hc'. apply elem_of_seq in Hc'. apply (Forall_impl _ _ _ Hlen).
    intros box ->. lia. }
  destruct (Hbest c) as (k & box & box' & H1 & H2 & H3 & H4); [apply elem_of_seq; lia|].
  exists boxes', k, box, box'. unfold do_nms. rewrite H0. auto.
Qed.

(** X8: [do_nms] spares the best box of every class.  On boxes that
    carry [n] scores each and for every class [c < n], every box whose
    score for [c] is above the score of every other box comes out with
    that score unchanged, whatever the threshold.  Among boxes that tie
    for the greatest score, one keeps it (the one [np.argsort] puts
    first); the others may lose it. *)
Theorem do_nms_keeps_best (argsort : list Q -> list nat) (t : Q)
    (boxes : list BoundBox) (n c : nat) :
  argsort_spec argsort -> boxes <> [] ->
  Forall (fun box => length (classes box) = n) boxes -> (c < n)%nat ->
  exists boxes',
    do_nms argsort boxes t = Ok boxes'
    /\ (forall k box,
          boxes !! k = Some box -> strictly_best c boxes k ->
          exists box', boxes' !! k = Some box' /\ classes box' !! c = classes box !! c)
    /\ (exists k box box',
          boxes !! k = Some box /\ greatest_score c boxes box
          /\ boxes' !! k = Some box' /\ classes box' !! c = classes box !! c).
Proof.
  intros Hargsort Hne Hlen Hc.
  destruct (do_nms_keeps_a_best argsort t boxes n c Hargsort Hne Hlen Hc)
    as (boxes' & k0 & box0 & box0' & Hrun & Hbox0 & Hbest0 & Hbox0' & Hsame).
  exists boxes'. split; [exact Hrun|]. split; [|eauto 10].
  intros k box Hbox (box_k & v & Hbox_k & Hv & Hstrict).
  assert (box_k = box) by congruence. subst box_k.
  destruct (decide (k0 = k)) as [-> | Hne0].
  - assert (box0 = box) by congruence. subst box0. eauto.
  - exfalso. destruct Hbest0 as (v0 & Hv0 & Hmax).
    pose proof (Hstrict k0 box0 v0 Hne0 Hbox0 Hv0) as Hlt.
    pose proof (Hmax box v (list_elem_of_lookup_2 _ _ _ Hbox) Hv) as Hle.
    lra.
Qed.

Lemma do_nms_keeps_best_witness :
  exists boxes',
    do_nms stable_argsort [weak_box; strong_box] 0 = Ok boxes'
    /\ (forall k box,
          [weak_box; strong_box] !! k = Some box ->
          strictly_best 0 [weak_box; strong_box] k ->
          exists box', boxes' !! k = Some box'
                       /\ classes box' !! 0%nat = classes box !! 0%nat)
    /\ (exists k box box',
          [weak_box; strong_box] !! k = Some box
          /\ greatest_score 0 [weak_box; strong_box] box
          /\ boxes' !! k = Some box' /\ classes box' !! 0%nat = classes box !! 0%nat).
Proof.
  apply (do_nms_keeps_best stable_argsort 0 [weak_box; strong_box] 1 0).
  - exact stable_argsort_spec.
  - discriminate.
  - repeat constructor.
  - lia.
Defined.

(** Two boxes that tie: with a threshold of zero the second loses its
    score, the first keeps it. *)
Example do_nms_tie :
  do_nms stable_argsort [strong_box; strong_box] 0
  = Ok [strong_box; set_class 0 0 strong_box].
Proof. vm_compute. reflexivity. Qed.

(** ** Non-maximum suppression with a threshold above one *)

Lemma for_each_fixed {A St : Type} (body : A -> St -> result St) (xs : list A) (s : St) :
  (forall x, x ∈ xs -> body x s = Ok s) -> for_each body xs s = Ok s.
Proof.
  induction xs as [|x xs IH]; intros Hall; [reflexivity|].
  cbn. rewrite (Hall x) by left. cbn. apply IH. intros y Hy. apply Hall. right. exact Hy.
Qed.

Lemma nms_class_above_one (argsort : list Q -> list nat) (t : Q) (c : nat)
    (boxes : list BoundBox) :
  argsort_spec argsort -> (1 < t)%Q ->
  Forall ordered boxes ->
  Forall (fun box => c < length (classes box))%nat boxes ->
  nms_class argsort t c boxes = Ok boxes.
Proof.
  intros Hargsort Ht Hord Hrange.
  unfold nms_class. rewrite (class_keys_values _ _ Hrange). cbn [mbind result_bind].
  set (keys := map (fun box => (- default 0 (classes box !! c))%Q) boxes).
  destruct (Hargsort keys) as [Hperm _]. unfold keys in Hperm at 2.
  rewrite length_map in Hperm.
  assert (Hbound : forall p k, argsort keys !! p = Some k ->
                     exists box v, boxes !! k = Some box /\ classes box !! c = Some v
                                   /\ ordered box).
  { intros p k Hk. apply list_elem_of_lookup_2 in Hk. rewrite Hperm in Hk.
    apply elem_of_seq in Hk.
    destruct (lookup_lt_is_Some_2 boxes k) as [box Hbox]; [lia|].
    rewrite Forall_forall in Hrange, Hord.
    pose proof (list_elem_of_lookup_2 _ _ _ Hbox) as Hin.
    destruct (lookup_lt_is_Some_2 _ _ (Hrange _ Hin)) as [v Hv].
    exists box, v. auto. }
  apply for_each_fixed. intros i Hi. apply elem_of_seq in Hi.
  destruct (lookup_lt_is_Some_2 (argsort keys) i) as [index_i Hidx]; [lia|].
  destruct (Hbound _ _ Hidx) as (box_i & v & Hbi & Hv & Hoi).
  unfold nms_from, py_index. rewrite Hidx. cbn [mbind result_bind].
  rewrite Hbi. cbn [mbind result_bind]. rewrite Hv. cbn [mbind result_bind].
  destruct (py_truthy v); [|reflexivity].
  apply for_each_fixed. intros j Hj. apply elem_of_seq in Hj.
  destruct (lookup_lt_is_Some_2 (argsort keys) j) as [index_j Hjdx]; [lia|].
  destruct (Hbound _ _ Hjdx) as (box_j & w & Hbj & Hw & Hoj).
  rewrite (nms_compare_step t c (argsort keys) i j index_i index_j boxes box_i box_j
             Hidx Hjdx Hbi Hbj (lookup_lt_Some _ _ _ Hw)).
  destruct (Qle_bool t (bbox_iou box_i box_j)) eqn:E; [|reflexivity].
  apply Qle_bool_iff in E. destruct (bbox_iou_range _ _ Hoi Hoj) as [_ Hle1].
  exfalso. lra.
Qed.

(** X9: with a threshold above 1, [do_nms] suppresses nothing: on boxes
    whose corners are in order and that carry the same number of scores,
    it hands back the boxes exactly as they were. *)
Theorem do_nms_above_one (argsort : list Q -> list nat) (t : Q)
    (boxes : list BoundBox) (n : nat) :
  argsort_spec argsort -> (1 < t)%Q ->
  Forall ordered boxes -> Forall (fun box => length (classes box) = n) boxes ->
  do_nms argsort boxes t = Ok boxes.
Proof.
  intros Hargsort Ht Hord Hlen. unfold do_nms. destruct boxes as [|box0 rest]; [reflexivity|].
  assert (H0 : length (classes box0) = n) by (inversion Hlen; assumption).
  apply for_each_fixed. intros c Hc. apply elem_of_seq in Hc.
  apply (nms_class_above_one argsort t c _ Hargsort Ht Hord).
  apply (Forall_impl _ _ _ Hlen). intros box ->. lia.
Qed.

Lemma do_nms_above_one_witness :
  do_nms stable_argsort [weak_box; strong_box] (11 # 10) = Ok [weak_box; strong_box].
Proof.
  apply (do_nms_above_one stable_argsort (11 # 10) [weak_box; strong_box] 1).
  - exact stable_argsort_spec.
  - reflexivity.
  - repeat constructor; discriminate.
  - repeat constructor.
Defined.

(** ** Decoding: every box comes from a slot of a cell *)

Lemma decode_cell_inv (np_exp : Q -> Q) (netout : ndarray3) (last : nat)
    (anchors : list Q) (obj_thresh : Q) (net_h net_w : Z) (row col b : nat)
    (boxes boxes' : list BoundBox) :
  decode_cell np_exp netout last anchors obj_thresh net_h net_w (row, col, b) boxes
  = Ok boxes' ->
  boxes' = boxes
  \/ exists anchor_w anchor_h,
       Qltb obj_thresh
            (decoded_slot np_exp obj_thresh
               (fun k => at3 netout row col (b * last + k)%nat) 4%nat) = true
       /\ boxes' = boxes ++ [cell_box np_exp netout last obj_thresh net_h net_w
                                      anchor_w anchor_h row col b].
Proof.
  unfold decode_cell, py_index, mbind, result_bind. cbv zeta.
  destruct (Qltb obj_thresh _) eqn:Hgate; [|intros [= <-]; left; reflexivity].
  destruct (anchors !! (2 * b + 0)%nat) as [aw|]; [|intros [=]].
  destruct (anchors !! (2 * b + 1)%nat) as [ah|]; [|intros [=]].
  intros [= <-]. right. exists aw, ah. split; reflexivity.
Qed.

Lemma decode_netout_each (np_exp : Q -> Q) (netout : ndarray3) (anchors : list Q)
    (obj_thresh : Q) (net_h net_w : Z) (boxes : list BoundBox) (P : BoundBox -> Prop) :
  (forall last anchor_w anchor_h row col b,
     (row < shape_h netout)%nat -> (col < shape_w netout)%nat -> (b < nb_box)%nat ->
     reshape_last netout nb_box = Ok last ->
     Qltb obj_thresh
          (decoded_slot np_exp obj_thresh
             (fun k => at3 netout row col (b * last + k)%nat) 4%nat) = true ->
     P (cell_box np_exp netout last obj_thresh net_h net_w anchor_w anchor_h row col b)) ->
  decode_netout np_exp netout anchors obj_thresh net_h net_w = Ok boxes ->
  Forall P boxes.
Proof.
  intros HP. unfold decode_netout.
  destruct (reshape_last netout nb_box) as [last|e] eqn:Hlast; cbn; [|discriminate].
  destruct (last <=? 4)%nat; [discriminate|].
  intros Hrun.
  apply (for_each_invariant (Forall P) _ _) with (s := []) (3 := Hrun); [|constructor].
  intros [[row col] b] acc acc' Hcell Hacc Hstep.
  apply elem_of_grid_cells in Hcell as (Hrow & Hcol & Hb).
  apply decode_cell_inv in Hstep as [-> | (aw & ah & Hgate & ->)]; [exact Hacc|].
  apply Forall_app. split; [exact Hacc|]. constructor; [|constructor].
  apply (HP last aw ah row col b); auto.
Qed.

Lemma Qltb_lt (x y : Q) : Qltb x y = true <-> (x < y)%Q.
Proof.
  unfold Qltb. rewrite negb_true_iff. split.
  - intros H. apply Qnot_le_lt. intros Hle. apply Qle_bool_iff in Hle. congruence.
  - intros H. destruct (Qle_bool y x) eqn:E; [|reflexivity].
    apply Qle_bool_iff in E. exfalso. apply (Qlt_not_le _ _ H E).
Qed.

Lemma Qltb_ge (x y : Q) : Qltb x y = false <-> (y <= x)%Q.
Proof.
  unfold Qltb. rewrite negb_false_iff. apply Qle_bool_iff.
Qed.

Lemma _sigmoid_bounds (np_exp : Q -> Q) (x : Q) :
  (forall y, 0 <= np_exp y)%Q ->
  (0 < _sigmoid np_exp x)%Q /\ (_sigmoid np_exp x <= 1)%Q.
Proof.
  intros Hexp. unfold _sigmoid. pose proof (Hexp (- x)%Q) as He.
  assert (Hpos : (0 < 1 + np_exp (- x))%Q) by lra.
  split.
  - apply Qlt_shift_div_l; [exact Hpos | lra].
  - apply Qle_shift_div_r; [exact Hpos | lra].
Qed.

Lemma decoded_slot_xy (np_exp : Q -> Q) (obj_thresh : Q) (raw : nat -> Q) :
  decoded_slot np_exp obj_thresh raw 0%nat = _sigmoid np_exp (raw 0%nat)
  /\ decoded_slot np_exp obj_thresh raw 1%nat = _sigmoid np_exp (raw 1%nat).
Proof. split; reflexivity. Qed.

Lemma decoded_slot_class_bounds (np_exp : Q -> Q) (obj_thresh : Q) (raw : nat -> Q)
    (k : nat) :
  (forall y, 0 <= np_exp y)%Q -> (5 <= k)%nat ->
  (0 <= decoded_slot np_exp obj_thresh raw k)%Q
  /\ (decoded_slot np_exp obj_thresh raw k <= decoded_slot np_exp obj_thresh raw 4%nat)%Q.
Proof.
  intros Hexp Hk. rewrite decoded_slot_objectness.
  unfold decoded_slot, mask_below. apply Nat.leb_le in Hk as Hk'. rewrite Hk'.
  set (p := scale_by_objectness (sigmoid_tail np_exp (sigmoid_xy np_exp raw)) k).
  assert (Hp : (p == _sigmoid np_exp (raw 4%nat) * _sigmoid np_exp (raw k))%Q).
  { unfold p, scale_by_objectness, sigmoid_tail, sigmoid_xy. rewrite Hk'.
    assert (H4 : (4 <=? k)%nat = true) by (apply Nat.leb_le; lia).
    assert (H2 : (k <? 2)%nat = false) by (apply Nat.ltb_ge; lia).
    rewrite H4, H2. cbn. reflexivity. }
  destruct (_sigmoid_bounds np_exp (raw 4%nat) Hexp) as [Ho0 Ho1].
  destruct (_sigmoid_bounds np_exp (raw k) Hexp) as [Hs0 Hs1].
  assert (Hp0 : (0 <= p)%Q).
  { rewrite Hp. apply Qmult_le_0_compat; apply Qlt_le_weak; assumption. }
  assert (Hp1 : (p <= _sigmoid np_exp (raw 4%nat))%Q).
  { rewrite Hp. rewrite <- (Qmult_1_r (_sigmoid np_exp (raw 4%nat))) at 2.
    apply Qmult_le_l; assumption. }
  destruct (Qltb obj_thresh p); cbn; split; lra.
Qed.

Lemma decode_netout_score_bounds (np_exp : Q -> Q) (netout : ndarray3) (anchors : list Q)
    (obj_thresh : Q) (net_h net_w : Z) (boxes : list BoundBox) :
  (forall x, 0 <= np_exp x)%Q ->
  decode_netout np_exp netout anchors obj_thresh net_h net_w = Ok boxes ->
  Forall (fun box =>
            (obj_thresh < objness box)%Q
            /\ (0 <= objness box)%Q /\ (objness box <= 1)%Q
            /\ Forall (fun score => (0 <= score)%Q /\ (score <= objness box)%Q)
                      (classes box)) boxes.
Proof.
  intros Hexp. apply decode_netout_each.
  intros last aw ah row col b _ _ _ _ Hgate. apply Qltb_lt in Hgate.
  unfold cell_box. cbn -[decoded_slot].
  split; [exact Hgate|].
  rewrite decoded_slot_objectness.
  destruct (_sigmoid_bounds np_exp (at3 netout row col (b * last + 4)%nat) Hexp)
    as [H0 H1].
  split; [apply Qlt_le_weak; exact H0|]. split; [exact H1|].
  apply Forall_forall. intros score Hscore.
  apply list_elem_of_fmap in Hscore as (k & -> & Hk). apply elem_of_seq in Hk.
  rewrite <- (decoded_slot_objectness np_exp obj_thresh
                (fun k => at3 netout row col (b * last + k)%nat)).
  apply decoded_slot_class_bounds; [exact Hexp | lia].
Qed.

(** X10: when [np.exp] is not negative, every box that [decode_netout]
    returns has an objectness above [obj_thresh] (hence above 0 when
    the threshold is not negative), between 0 and 1, and each of its
    class scores lies between 0 and its objectness. *)
Theorem decode_netout_scores (np_exp : Q -> Q) (netout : ndarray3) (anchors : list Q)
    (obj_thresh : Q) (net_h net_w : Z) (boxes : list BoundBox) :
  (forall x, 0 <= np_exp x)%Q ->
  decode_netout np_exp netout anchors obj_thresh net_h net_w = Ok boxes ->
  Forall (fun box =>
            (obj_thresh < objness box)%Q
            /\ (0 <= objness box)%Q /\ (objness box <= 1)%Q
            /\ Forall (fun score => (0 <= score)%Q /\ (score <= objness box)%Q)
                      (classes box)) boxes.
Proof. exact (decode_netout_score_bounds np_exp netout anchors obj_thresh net_h net_w boxes). Qed.

Lemma decode_netout_scores_witness :
  Forall (fun box =>
            ((1 # 2) < objness box)%Q
            /\ (0 <= objness box)%Q /\ (objness box <= 1)%Q
            /\ Forall (fun score => (0 <= score)%Q /\ (score <= objness box)%Q)
                      (classes box))
         [mkBoundBox (32552 # 59904) (-1180 # 59904) (60632 # 59904) (34460 # 59904)
                     (3 # 4) [(12 # 20)%Q]].
Proof.
  apply (decode_netout_scores np_exp_rational sample_netout sample_anchors (1 # 2)
           416 416).
  - exact np_exp_rational_nonneg.
  - vm_compute. reflexivity.
Defined.

Lemma cell_box_centre (np_exp : Q -> Q) (netout : ndarray3) (last : nat) (obj_thresh : Q)
    (net_h net_w : Z) (anchor_w anchor_h : Q) (row col b : nat) :
  let v := decoded_slot np_exp obj_thresh (fun k => at3 netout row col (b * last + k)%nat) in
  let box := cell_box np_exp netout last obj_thresh net_h net_w anchor_w anchor_h
                      row col b in
  (x_centre box
   == (inject_Z (Z.of_nat col) + v 0%nat) / inject_Z (Z.of_nat (shape_w netout)))%Q
  /\ (y_centre box
      == (inject_Z (Z.of_nat row) + v 1%nat) / inject_Z (Z.of_nat (shape_h netout)))%Q.
Proof.
  intros v box. unfold x_centre, y_centre, box, cell_box. fold v.
  cbn [xmin xmax ymin ymax].
  generalize ((inject_Z (Z.of_nat col) + v 0%nat) / inject_Z (Z.of_nat (shape_w netout)))%Q
             ((inject_Z (Z.of_nat row) + v 1%nat) / inject_Z (Z.of_nat (shape_h netout)))%Q
             (anchor_w * np_exp (v 2%nat) / inject_Z net_w)%Q
             (anchor_h * np_exp (v 3%nat) / inject_Z net_h)%Q.
  intros x y w h. split; field.
Qed.

Lemma in_cell (index size : nat) (s : Q) :
  (index < size)%nat -> (0 < s)%Q -> (s <= 1)%Q ->
  let d := inject_Z (Z.of_nat size) in
  let c := ((inject_Z (Z.of_nat index) + s) / d)%Q in
  (inject_Z (Z.of_nat index) / d < c)%Q
  /\ (c <= (inject_Z (Z.of_nat index) + 1) / d)%Q
  /\ (0 < c)%Q /\ (c <= 1)%Q.
Proof.
  intros Hlt Hs0 Hs1 d c.
  assert (Hd : (0 < d)%Q).
  { unfold d. change 0%Q with (inject_Z 0). rewrite <- Zlt_Qlt. lia. }
  assert (Hi0 : (0 <= inject_Z (Z.of_nat index))%Q).
  { change 0%Q with (inject_Z 0). rewrite <- Zle_Qle. lia. }
  assert (Hi1 : (inject_Z (Z.of_nat index) + 1 <= d)%Q).
  { unfold d. change 1%Q with (inject_Z 1). rewrite <- inject_Z_plus, <- Zle_Qle. lia. }
  unfold c. repeat split.
  - apply Qlt_shift_div_l; [exact Hd|].
    unfold Qdiv. rewrite <- Qmult_assoc, (Qmult_comm (/ d)), Qmult_inv_r by lra. lra.
  - apply Qle_shift_div_l; [exact Hd|].
    unfold Qdiv. rewrite <- Qmult_assoc, (Qmult_comm (/ d)), Qmult_inv_r by lra. lra.
  - apply Qlt_shift_div_l; [exact Hd|]. lra.
  - apply Qle_shift_div_r; [exact Hd|]. lra.
Qed.

Lemma decode_netout_centre_bounds (np_exp : Q -> Q) (netout : ndarray3) (anchors : list Q)
    (obj_thresh : Q) (net_h net_w : Z) (boxes : list BoundBox) :
  (forall x, 0 <= np_exp x)%Q ->
  decode_netout np_exp netout anchors obj_thresh net_h net_w = Ok boxes ->
  Forall (fun box =>
            exists row col : nat,
              (row < shape_h netout)%nat /\ (col < shape_w netout)%nat
              /\ (inject_Z (Z.of_nat col) / inject_Z (Z.of_nat (shape_w netout))
                  < x_centre box)%Q
              /\ (x_centre box
                  <= (inject_Z (Z.of_nat col) + 1) / inject_Z (Z.of_nat (shape_w netout)))%Q
              /\ (inject_Z (Z.of_nat row) / inject_Z (Z.of_nat (shape_h netout))
                  < y_centre box)%Q
              /\ (y_centre box
                  <= (inject_Z (Z.of_nat row) + 1) / inject_Z (Z.of_nat (shape_h netout)))%Q
              /\ (0 < x_centre box)%Q /\ (x_centre box <= 1)%Q
              /\ (0 < y_centre box)%Q /\ (y_centre box <= 1)%Q) boxes.
Proof.
  intros Hexp. apply decode_netout_each.
  intros last aw ah row col b Hrow Hcol _ _ _. exists row, col.
  destruct (cell_box_centre np_exp netout last obj_thresh net_h net_w aw ah row col b)
    as [Hx Hy].
  destruct (decoded_slot_xy np_exp obj_thresh
              (fun k => at3 netout row col (b * last + k)%nat)) as [E0 E1].
  rewrite E0 in Hx. rewrite E1 in Hy.
  destruct (_sigmoid_bounds np_exp (at3 netout row col (b * last + 0)%nat) Hexp)
    as [Hx0 Hx1].
  destruct (_sigmoid_bounds np_exp (at3 netout row col (b * last + 1)%nat) Hexp)
    as [Hy0 Hy1].
  destruct (in_cell col (shape_w netout) _ Hcol Hx0 Hx1) as (A1 & A2 & A3 & A4).
  destruct (in_cell row (shape_h netout) _ Hrow Hy0 Hy1) as (B1 & B2 & B3 & B4).
  rewrite Hx, Hy. repeat split; assumption.
Qed.

(** ** Decoding: shapes that numpy rejects, and a threshold of one *)

Lemma reshape_last_rejects (netout : ndarray3) :
  (shape_h netout = 0 \/ shape_w netout = 0 \/ shape_d netout mod nb_box <> 0)%nat ->
  reshape_last netout nb_box = Raise ValueError.
Proof.
  intros H. unfold reshape_last.
  destruct (shape_h netout * shape_w netout * nb_box =? 0)%nat eqn:Hk; [reflexivity|].
  apply Nat.eqb_neq in Hk.
  destruct H as [H | [H | H]]; [rewrite H in Hk; lia | rewrite H in Hk; lia |].
  rewrite <- Nat.mul_assoc, <- (Nat.mul_assoc _ _ nb_box).
  rewrite !Nat.Div0.mul_mod_distr_l.
  destruct (_ =? 0)%nat eqn:E; [|reflexivity].
  apply Nat.eqb_eq in E. exfalso. nia.
Qed.

(** X12: [decode_netout] raises [ValueError] (from [reshape]) on a tensor
    with an empty grid or a depth that is not a multiple of 3, and
    [IndexError] on a tensor with fewer than five channels per slot, where
    the objectness channel does not exist. *)
Theorem decode_netout_shape_errors (np_exp : Q -> Q) (netout : ndarray3)
    (anchors : list Q) (obj_thresh : Q) (net_h net_w : Z) :
  ((shape_h netout = 0 \/ shape_w netout = 0 \/ shape_d netout mod nb_box <> 0)%nat ->
   decode_netout np_exp netout anchors obj_thresh net_h net_w = Raise ValueError)
  /\ (forall last : nat,
        (0 < shape_h netout)%nat -> (0 < shape_w netout)%nat ->
        shape_d netout = (nb_box * last)%nat -> (last <= 4)%nat ->
        decode_netout np_exp netout anchors obj_thresh net_h net_w = Raise IndexError).
Proof.
  split.
  - intros H. unfold decode_netout. rewrite (reshape_last_rejects _ H). reflexivity.
  - intros last Hh Hw Hd Hlast. unfold decode_netout.
    rewrite (reshape_last_shape _ _ Hh Hw Hd). cbn [mbind result_bind].
    apply Nat.leb_le in Hlast. rewrite Hlast. reflexivity.
Qed.

Lemma decode_netout_shape_errors_witness :
  decode_netout np_exp_rational (mkArray 0 2 18 (fun _ _ _ => 0%Q)) sample_anchors
                (1 # 2) 416 416 = Raise ValueError
  /\ decode_netout np_exp_rational (mkArray 2 2 12 (fun _ _ _ => 0%Q)) sample_anchors
                   (1 # 2) 416 416 = Raise IndexError.
Proof.
  split.
  - apply (proj1 (decode_netout_shape_errors _ _ _ _ _ _)). left. reflexivity.
  - apply (proj2 (decode_netout_shape_errors _ _ _ _ _ _) 4%nat); cbn; lia.
Defined.

(** X13: when [np.exp] is not negative, a threshold of 1 or more lets no
    box through: on a tensor of a shape it accepts, [decode_netout]
    returns the empty list, and it does so without reading the anchors. *)
Theorem decode_netout_threshold_one (np_exp : Q -> Q) (netout : ndarray3)
    (nb_class : nat) (anchors : list Q) (obj_thresh : Q) (net_h net_w : Z) :
  (forall x, 0 <= np_exp x)%Q ->
  (0 < shape_h netout)%nat -> (0 < shape_w netout)%nat ->
  shape_d netout = (nb_box * (5 + nb_class))%nat ->
  (1 <= obj_thresh)%Q ->
  decode_netout np_exp netout anchors obj_thresh net_h net_w = Ok [].
Proof.
  intros Hexp Hh Hw Hd Ht. unfold decode_netout.
  rewrite (reshape_last_shape _ _ Hh Hw Hd). cbn [mbind result_bind].
  replace (5 + nb_class <=? 4)%nat with false by (symmetry; apply Nat.leb_gt; lia).
  apply for_each_fixed. intros [[row col] b] _. unfold decode_cell.
  rewrite decoded_slot_objectness.
  destruct (_sigmoid_bounds np_exp (at3 netout row col (b * (5 + nb_class) + 4)%nat) Hexp)
    as [_ H1].
  replace (Qltb obj_thresh _) with false; [reflexivity|].
  symmetry. apply Qltb_false. lra.
Qed.

Lemma decode_netout_threshold_one_witness :
  decode_netout np_exp_rational sample_netout [] 1 416 416 = Ok [].
Proof.
  apply (decode_netout_threshold_one np_exp_rational sample_netout 1 [] 1 416 416).
  - exact np_exp_rational_nonneg.
  - cbn. lia.
  - cbn. lia.
  - reflexivity.
  - discriminate.
Defined.

(** ** Correction to pixels: the sizes of the network *)

Lemma inject_Z_nonzero (d : Z) : d <> 0 -> Qeq_bool (inject_Z d) 0 = false.
Proof.
  intros Hd. destruct (Qeq_bool (inject_Z d) 0) eqn:E; [|reflexivity].
  apply Qeq_bool_eq in E. unfold Qeq in E. cbn in E. lia.
Qed.

Lemma correct_box_nonzero (image_h image_w net_h net_w : Z) (box : BoundBox) :
  net_h <> 0 -> net_w <> 0 ->
  correct_box image_h image_w net_h net_w box =
    Ok (mkBoundBox (inject_Z (py_int (xmin box * inject_Z image_w)))
                   (inject_Z (py_int (ymin box * inject_Z image_h)))
                   (inject_Z (py_int (xmax box * inject_Z image_w)))
                   (inject_Z (py_int (ymax box * inject_Z image_h)))
                   (objness box) (classes box)).
Proof.
  intros Hh Hw. unfold correct_box, correct_box_fl, py_truediv.
  rewrite (inject_Z_nonzero _ Hh), (inject_Z_nonzero _ Hw). reflexivity.
Qed.

Lemma correct_box_zero (image_h image_w net_h net_w : Z) (box : BoundBox) :
  net_h = 0 \/ net_w = 0 ->
  correct_box image_h image_w net_h net_w box = Raise ZeroDivisionError.
Proof.
  intros H. unfold correct_box, correct_box_fl, py_truediv.
  destruct (Z.eq_dec net_w 0) as [-> | Hw]; [reflexivity|].
  destruct H as [-> | ->]; [|contradiction].
  rewrite (inject_Z_nonzero _ Hw). reflexivity.
Qed.

Lemma correct_yolo_boxes_nonzero (boxes : list BoundBox) (image_h image_w net_h net_w : Z) :
  net_h <> 0 -> net_w <> 0 ->
  correct_yolo_boxes boxes image_h image_w net_h net_w
  = Ok (map (fun box =>
               mkBoundBox (inject_Z (py_int (xmin box * inject_Z image_w)))
                          (inject_Z (py_int (ymin box * inject_Z image_h)))
                          (inject_Z (py_int (xmax box * inject_Z image_w)))
                          (inject_Z (py_int (ymax box * inject_Z image_h)))
                          (objness box) (classes box)) boxes).
Proof.
  intros Hh Hw. apply traverse_total. apply Forall_forall. intros box _.
  apply correct_box_nonzero; assumption.
Qed.

(** X14: [correct_yolo_boxes] divides by the sizes of the network once
    for every box: with a size that is zero it raises
    [ZeroDivisionError] on any list that is not empty, and returns the
    empty list as it is.  With sizes that are not zero it returns as many
    boxes, each with the objectness and the scores it had. *)
Theorem correct_yolo_boxes_net_size (boxes : list BoundBox)
    (image_h image_w net_h net_w : Z) :
  (boxes <> [] -> net_h = 0 \/ net_w = 0 ->
   correct_yolo_boxes boxes image_h image_w net_h net_w = Raise ZeroDivisionError)
  /\ correct_yolo_boxes [] image_h image_w net_h net_w = Ok []
  /\ (net_h <> 0 -> net_w <> 0 ->
      exists boxes',
        correct_yolo_boxes boxes image_h image_w net_h net_w = Ok boxes'
        /\ map objness boxes' = map objness boxes
        /\ map classes boxes' = map classes boxes).
Proof.
  split; [|split].
  - intros Hne Hz. destruct boxes as [|box rest]; [contradiction|].
    unfold correct_yolo_boxes. cbn. rewrite (correct_box_zero _ _ _ _ _ Hz). reflexivity.
  - reflexivity.
  - intros Hh Hw. eexists. split; [apply correct_yolo_boxes_nonzero; assumption|].
    rewrite <- !list_fmap_compose. split; reflexivity.
Qed.

Lemma correct_yolo_boxes_net_size_witness :
  correct_yolo_boxes [unit_box] 480 640 0 416 = Raise ZeroDivisionError
  /\ exists boxes',
       correct_yolo_boxes [unit_box] 480 640 416 416 = Ok boxes'
       /\ map objness boxes' = map objness [unit_box]
       /\ map classes boxes' = map classes [unit_box].
Proof.
  split.
  - apply (proj1 (correct_yolo_boxes_net_size [unit_box] 480 640 0 416));
      [discriminate | left; reflexivity].
  - apply (proj2 (proj2 (correct_yolo_boxes_net_size [unit_box] 480 640 416 416)));
      discriminate.
Defined.

(** ** A region that covers the image filters nothing *)

Lemma py_int_near (x : Q) :
  (x - 1 < inject_Z (py_int x))%Q /\ (inject_Z (py_int x) < x + 1)%Q.
Proof.
  destruct (Qlt_le_dec x 0) as [Hx|Hx].
  - rewrite (py_int_ceiling x) by (apply Qlt_le_weak; exact Hx).
    pose proof (Qle_ceiling x) as H1. pose proof (Qceiling_lt x) as H2.
    unfold Z.sub in H2. rewrite inject_Z_plus in H2.
    change (inject_Z (- (1))) with (- (1))%Q in H2. split; lra.
  - rewrite (py_int_floor x) by exact Hx.
    pose proof (Qfloor_le x) as H1. pose proof (Qlt_floor x) as H2.
    rewrite inject_Z_plus in H2. change (inject_Z 1) with 1%Q in H2. split; lra.
Qed.

Lemma py_int_half (n : Z) : py_int (inject_Z n / 2) = Z.quot n 2.
Proof. unfold py_int, Qdiv, Qmult, Qinv, inject_Z. cbn. rewrite Z.mul_1_r. reflexivity. Qed.

Lemma pixel_centre_in_image (lo hi : Q) (image_d : Z) :
  0 <= image_d -> (0 < (lo + hi) / 2)%Q -> ((lo + hi) / 2 <= 1)%Q ->
  in_range (py_int ((inject_Z (py_int (hi * inject_Z image_d))
                     + inject_Z (py_int (lo * inject_Z image_d))) / 2))
           0 (image_d + 1) = true.
Proof.
  intros Hd H0 H1.
  destruct (py_int_near (lo * inject_Z image_d)) as [A1 A2].
  destruct (py_int_near (hi * inject_Z image_d)) as [B1 B2].
  set (A := py_int (lo * inject_Z image_d)) in *.
  set (B := py_int (hi * inject_Z image_d)) in *.
  assert (HD : (0 <= inject_Z image_d)%Q).
  { change 0%Q with (inject_Z 0). rewrite <- Zle_Qle. exact Hd. }
  assert (Hsum0 : (0 <= (lo + hi) * inject_Z image_d)%Q).
  { apply Qmult_le_0_compat; [|exact HD].
    apply Qlt_le_weak in H0. apply (Qmult_le_compat_r _ _ 2) in H0; [|discriminate].
    rewrite Qmult_0_l in H0. unfold Qdiv in H0.
    rewrite <- Qmult_assoc, (Qmult_comm (/ 2)), Qmult_inv_r, Qmult_1_r in H0
      by discriminate. exact H0. }
  assert (Hsum1 : ((lo + hi) * inject_Z image_d <= 2 * inject_Z image_d)%Q).
  { apply Qmult_le_compat_r; [|exact HD].
    apply (Qmult_le_compat_r _ _ 2) in H1; [|discriminate].
    unfold Qdiv in H1.
    rewrite <- Qmult_assoc, (Qmult_comm (/ 2)), Qmult_inv_r, Qmult_1_r in H1
      by discriminate. lra. }
  assert (Hlow : (inject_Z (-2) < inject_Z (B + A))%Q).
  { rewrite inject_Z_plus. change (inject_Z (-2)) with (-2)%Q. lra. }
  assert (Hhigh : (inject_Z (B + A) < inject_Z (2 * image_d + 2))%Q).
  { rewrite !inject_Z_plus, inject_Z_mult. change (inject_Z 2) with 2%Q. lra. }
  rewrite <- Zlt_Qlt in Hlow, Hhigh.
  rewrite <- inject_Z_plus, py_int_half.
  unfold in_range. apply andb_true_iff. split.
  - apply Z.leb_le. Z.quot_rem_to_equations. lia.
  - apply Z.ltb_lt. Z.quot_rem_to_equations. lia.
Qed.

Lemma decode_netout_class_length (np_exp : Q -> Q) (netout : ndarray3) (anchors : list Q)
    (obj_thresh : Q) (net_h net_w : Z) (boxes : list BoundBox) :
  decode_netout np_exp netout anchors obj_thresh net_h net_w = Ok boxes ->
  exists last,
    reshape_last netout nb_box = Ok last
    /\ Forall (fun box => length (classes box) = (last - 5)%nat) boxes.
Proof.
  intros Hrun.
  destruct (reshape_last netout nb_box) as [last|e] eqn:Hlast.
  2:{ unfold decode_netout in Hrun. rewrite Hlast in Hrun. discriminate. }
  exists last. split; [reflexivity|].
  apply (decode_netout_each _ _ _ _ _ _ _
           (fun box => length (classes box) = (last - 5)%nat)) in Hrun; [exact Hrun|].
  intros l aw ah row col b _ _ _ Hl _. rewrite Hlast in Hl. injection Hl as <-.
  unfold cell_box. cbn [classes]. rewrite length_map, length_seq. reflexivity.
Qed.



(** ** From the network output to the dictionaries: what every entry holds *)

Lemma zip3_unzip3 {A B C : Type} (l : list (A * B * C)) :
  zip3 (unzip3 l).1.1 (unzip3 l).1.2 (unzip3 l).2 = l.
Proof.
  induction l as [|[[a b] c] l IH]; [reflexivity|].
  cbn in *. rewrite IH. reflexivity.
Qed.

Lemma get_boxes_complete (boxes : list BoundBox) (labels : list string) (thresh : Q)
    (sel : selection) :
  get_boxes boxes labels thresh = Ok sel ->
  sel = unzip3 (boxes ≫= selected labels thresh).
Proof.
  intros Hrun.
  destruct (decide (Forall (fun box => length labels <= length (classes box))%nat boxes))
    as [Hall|Hnot].
  - rewrite (get_boxes_ok _ _ _ Hall) in Hrun. congruence.
  - apply not_Forall_Exists in Hnot; [|intros box; apply _].
    rewrite get_boxes_short in Hrun; [discriminate|].
    eapply Exists_impl; [exact Hnot|]. intros box H. cbn in H. lia.
Qed.

Lemma elem_of_selected (labels : list string) (thresh : Q) (box0 box : BoundBox)
    (label : string) (pct : Q) :
  (box, label, pct) ∈ selected labels thresh box0 ->
  box = box0
  /\ exists i score,
       classes box !! i = Some score /\ labels !! i = Some label
       /\ (thresh < score)%Q /\ pct = (score * 100)%Q.
Proof.
  unfold selected. intros H. apply list_elem_of_omap in H as (i & _ & Hsel).
  unfold select_label in Hsel.
  destruct (classes box0 !! i) as [score|] eqn:Hscore; [|discriminate].
  destruct (labels !! i) as [l|] eqn:Hl; [|discriminate].
  destruct (Qltb thresh score) eqn:Hgate; [|discriminate].
  injection Hsel as <- <- <-. split; [reflexivity|].
  exists i, score. repeat split; try assumption. apply Qltb_true. exact Hgate.
Qed.

(** The entries behind the dictionaries of [detect_objects]: every
    dictionary is made of a box that [do_nms] handed over, one of its
    scores above the threshold and the label of that score. *)
Lemma get_boxes_entries (boxes : list BoundBox) (labels : list string) (thresh : Q)
    (v_boxes : list BoundBox) (v_labels : list string) (v_scores : list Q) :
  get_boxes boxes labels thresh = Ok (v_boxes, v_labels, v_scores) ->
  forall box label pct,
    (box, label, pct) ∈ zip3 v_boxes v_labels v_scores ->
    box ∈ boxes
    /\ exists i score,
         classes box !! i = Some score /\ labels !! i = Some label
         /\ (thresh < score)%Q /\ pct = (score * 100)%Q.
Proof.
  intros Hrun box label pct Hin.
  apply get_boxes_complete in Hrun.
  assert (Hzip : zip3 v_boxes v_labels v_scores = boxes ≫= selected labels thresh).
  { pose proof (zip3_unzip3 (boxes ≫= selected labels thresh)) as H.
    rewrite <- Hrun in H. exact H. }
  rewrite Hzip in Hin. apply list_elem_of_bind in Hin as (box0 & Hin & Hbox0).
  apply elem_of_selected in Hin as [-> Hentry]. split; assumption.
Qed.

Lemma RoI_class_only_zeroed (x0 x1 y0 y1 : Z) (c : nat) (box box' : BoundBox) :
  RoI_class x0 x1 y0 y1 c box = Ok box' -> only_zeroed box box'.
Proof.
  destruct (classes box !! c) as [v|] eqn:Hv.
  - rewrite (RoI_class_step _ _ _ _ _ _ _ Hv).
    destruct (py_truthy v && roi_outside x0 x1 y0 y1 box); intros [= <-];
      [|apply only_zeroed_refl].
    apply (only_zeroed_set box c). apply (py_setitem_lookup _ _ v _ Hv).
  - rewrite (RoI_class_raises _ _ _ _ _ _ Hv). discriminate.
Qed.

Lemma RoI_only_zeroed (boxes boxes' : list BoundBox) (region_of_interest : option (list Z)) :
  RoI boxes region_of_interest = Ok boxes' -> Forall2 only_zeroed boxes boxes'.
Proof.
  unfold RoI.
  destruct region_of_interest as [[|x0 [|x1 [|y0 [|y1 [|? ?]]]]]|];
    try (intros [= <-]; apply Forall2_only_zeroed_refl).
  destruct boxes as [|box0 rest]; [intros [= <-]; constructor|].
  apply traverse_Forall2. intros box box' Hpass.
  apply (for_each_invariant (only_zeroed box) _ _) with (s := box) (3 := Hpass);
    [|apply only_zeroed_refl].
  intros c b b' _ Hb Hstep.
  apply (only_zeroed_trans _ _ _ Hb (RoI_class_only_zeroed _ _ _ _ _ _ _ Hstep)).
Qed.

Lemma only_zeroed_score (box box' : BoundBox) (i : nat) (score' : Q) :
  only_zeroed box box' -> classes box' !! i = Some score' ->
  exists score, classes box !! i = Some score /\ (score' = score \/ score' = 0%Q).
Proof.
  intros (_ & _ & Hs) Hi.
  destruct (Forall2_lookup_r _ _ _ _ _ Hs Hi) as (score & Hscore & Hor). eauto.
Qed.

Lemma decode_all_each (np_exp : Q -> Q) (self : CustomObjectDetection) (t : Q)
    (yolo_results : list ndarray3) (boxes : list BoundBox) (P : BoundBox -> Prop) :
  (forall res anchors bs,
     res ∈ yolo_results ->
     decode_netout np_exp res anchors t (input_size self) (input_size self) = Ok bs ->
     Forall P bs) ->
  decode_all np_exp self t yolo_results = Ok boxes -> Forall P boxes.
Proof.
  intros HP. unfold decode_all. intros Hrun.
  apply (for_each_invariant (Forall P) _ _) with (s := []) (3 := Hrun); [|constructor].
  intros [idx res] acc acc' Hin Hacc. unfold py_index, mbind, result_bind.
  destruct (model_anchors self !! idx) as [anchors|]; [|discriminate].
  destruct (decode_netout _ _ _ _ _ _) as [bs|] eqn:Hdec; [|discriminate].
  intros [= <-]. apply Forall_app. split; [exact Hacc|].
  apply (HP res anchors bs); [|exact Hdec].
  apply list_elem_of_lookup_1 in Hin as [i Hi].
  rewrite list_lookup_imap in Hi.
  destruct (yolo_results !! i) as [r|] eqn:Hr; [|discriminate].
  cbn in Hi. injection Hi as <- <-. eapply list_elem_of_lookup_2; eauto.
Qed.

Lemma correct_yolo_boxes_classes (boxes boxes' : list BoundBox)
    (image_h image_w net_h net_w : Z) :
  correct_yolo_boxes boxes image_h image_w net_h net_w = Ok boxes' ->
  Forall2 (fun box box' => classes box' = classes box) boxes boxes'.
Proof.
  apply traverse_Forall2. intros box box'.
  unfold correct_box, correct_box_fl, py_truediv, mbind, result_bind.
  repeat match goal with
         | |- context [Qeq_bool ?a 0] => destruct (Qeq_bool a 0); [discriminate|]
         end.
  intros [= <-]. reflexivity.
Qed.

(** What [detect_objects] returns, traced back through its five steps. *)
Lemma detect_objects_trace (np_exp : Q -> Q) (argsort : list Q -> list nat)
    (self : CustomObjectDetection) (call : image_call) (height width : Z)
    (yolo_results : list ndarray3) (objects : list detection) :
  detect_objects np_exp argsort self call height width yolo_results = Ok objects ->
  exists decoded corrected in_roi kept,
    decode_all np_exp self (minimum_percentage_probability call / 100) yolo_results
    = Ok decoded
    /\ correct_yolo_boxes decoded height width (input_size self) (input_size self)
       = Ok corrected
    /\ RoI corrected (region_of_interest call) = Ok in_roi
    /\ do_nms argsort in_roi (nms_threshold call) = Ok kept
    /\ forall o, o ∈ objects ->
         exists box i score,
           box ∈ kept /\ classes box !! i = Some score
           /\ model_labels self !! i = Some (name o)
           /\ (minimum_percentage_probability call / 100 < score)%Q
           /\ percentage_probability o = (score * 100)%Q
           /\ box_points o = [xmin box; ymin box; xmax box; ymax box].
Proof.
  unfold detect_objects. intros Hrun.
  destruct (decode_all _ _ _ _) as [decoded|] eqn:Hdec; cbn in Hrun; [|discriminate].
  destruct (correct_yolo_boxes _ _ _ _ _) as [corrected|] eqn:Hcor; cbn in Hrun;
    [|discriminate].
  destruct (RoI corrected _) as [in_roi|] eqn:Hroi; cbn in Hrun; [|discriminate].
  destruct (do_nms argsort in_roi _) as [kept|] eqn:Hnms; cbn in Hrun; [|discriminate].
  destruct (get_boxes kept _ _) as [[[v_boxes v_labels] v_scores]|] eqn:Hget;
    cbn in Hrun; [|discriminate].
  injection Hrun as <-. exists decoded, corrected, in_roi, kept.
  do 4 (split; [first [assumption | reflexivity]|]).
  intros o Ho. apply list_elem_of_fmap in Ho as ([[box label] pct] & -> & Hentry).
  destruct (get_boxes_entries _ _ _ _ _ _ Hget _ _ _ Hentry)
    as (Hbox & i & score & Hscore & Hlabel & Hgate & Hpct).
  exists box, i, score. repeat split; assumption.
Qed.

(** X16: every dictionary that [detect_objects] returns carries a
    [name] that is one of the labels of the model; its
    [percentage_probability] is above 0 when
    [minimum_percentage_probability] is not negative, and at most 100
    when [np.exp] is not negative. *)
Theorem detect_objects_percentages (np_exp : Q -> Q) (argsort : list Q -> list nat)
    (self : CustomObjectDetection) (call : image_call) (height width : Z)
    (yolo_results : list ndarray3) (objects : list detection) :
  detect_objects np_exp argsort self call height width yolo_results = Ok objects ->
  Forall (fun o => name o ∈ model_labels self) objects
  /\ ((0 <= minimum_percentage_probability call)%Q ->
      Forall (fun o => (0 < percentage_probability o)%Q) objects)
  /\ ((forall x, 0 <= np_exp x)%Q ->
      Forall (fun o => (percentage_probability o <= 100)%Q) objects).
Proof.
  intros Hrun.
  destruct (detect_objects_trace _ _ _ _ _ _ _ _ Hrun)
    as (decoded & corrected & in_roi & kept & Hdec & Hcor & Hroi & Hnms & Hobj).
  split; [|split].
  - apply Forall_forall. intros o Ho.
    destruct (Hobj o Ho) as (box & i & score & _ & _ & Hlabel & _).
    eapply list_elem_of_lookup_2; eauto.
  - intros Hmin. apply Forall_forall. intros o Ho.
    destruct (Hobj o Ho) as (box & i & score & _ & _ & _ & Hgate & Hpct & _).
    rewrite Hpct.
    assert (H0 : (0 <= minimum_percentage_probability call / 100)%Q).
    { apply Qle_shift_div_l; [reflexivity | lra]. }
    lra.
  - intros Hexp. apply Forall_forall. intros o Ho.
    destruct (Hobj o Ho) as (box & i & score & Hbox & Hscore & _ & _ & Hpct & _).
    assert (Hle : (score <= 1)%Q).
    { apply list_elem_of_lookup_1 in Hbox as [k Hk].
      destruct (Forall2_lookup_r _ _ _ _ _ (do_nms_only_zeroed _ _ _ _ Hnms) Hk)
        as (box_r & Hr & Hz1).
      destruct (only_zeroed_score _ _ _ _ Hz1 Hscore) as (s1 & Hs1 & Hor1).
      destruct (Forall2_lookup_r _ _ _ _ _ (RoI_only_zeroed _ _ _ Hroi) Hr)
        as (box_c & Hc & Hz2).
      destruct (only_zeroed_score _ _ _ _ Hz2 Hs1) as (s2 & Hs2 & Hor2).
      destruct (Forall2_lookup_r _ _ _ _ _ (correct_yolo_boxes_classes _ _ _ _ _ _ Hcor) Hc)
        as (box_d & Hd & Hsame).
      rewrite Hsame in Hs2.
      assert (Hbound : Forall (fun b => Forall (fun s => (s <= 1)%Q) (classes b)) decoded).
      { apply (decode_all_each _ _ _ _ _ _ (fun res anchors bs _ Hres =>
                 Forall_impl _ _ _ (decode_netout_score_bounds _ _ _ _ _ _ _ Hexp Hres)
                   (fun b '(conj _ (conj _ (conj H1 Hs))) =>
                      Forall_impl _ _ _ Hs (fun s '(conj _ Hle) => Qle_trans _ _ _ Hle H1)))
               Hdec). }
      rewrite Forall_forall in Hbound.
      pose proof (Hbound _ (list_elem_of_lookup_2 _ _ _ Hd)) as Hb.
      rewrite Forall_forall in Hb.
      pose proof (Hb _ (list_elem_of_lookup_2 _ _ _ Hs2)) as Hs2le.
      destruct Hor1 as [-> | ->]; [|discriminate].
      destruct Hor2 as [-> | ->]; [exact Hs2le | discriminate]. }
    rewrite Hpct. lra.
Qed.

Lemma detect_objects_percentages_witness :
  Forall (fun o => name o ∈ model_labels sample_detector) [sample_detection]
  /\ Forall (fun o => (0 < percentage_probability o)%Q) [sample_detection]
  /\ Forall (fun o => (percentage_probability o <= 100)%Q) [sample_detection].
Proof.
  pose proof (detect_objects_percentages np_exp_rational stable_argsort sample_detector
                sample_call 480 640 [sample_netout] [sample_detection]) as H.
  destruct H as (H1 & H2 & H3); [vm_compute; reflexivity|].
  split; [exact H1|].
  split; [apply H2; vm_compute; discriminate | apply H3; exact np_exp_rational_nonneg].
Defined.

(** ** A region of interest keeps what it returns inside *)

Lemma reshape_last_value (netout : ndarray3) (n last : nat) :
  reshape_last netout n = Ok last -> last = (shape_d netout / n)%nat.
Proof.
  unfold reshape_last.
  destruct (shape_h netout * shape_w netout * n =? 0)%nat eqn:Hk; [discriminate|].
  destruct (_ mod _ =? 0)%nat; [|discriminate].
  intros [= <-]. apply Nat.eqb_neq in Hk.
  rewrite <- !Nat.mul_assoc, Nat.Div0.div_mul_cancel_l by lia.
  apply Nat.Div0.div_mul_cancel_l. lia.
Qed.

Lemma decode_all_class_length (np_exp : Q -> Q) (self : CustomObjectDetection) (t : Q)
    (yolo_results : list ndarray3) (boxes : list BoundBox) (d : nat) :
  Forall (fun res => shape_d res = d) yolo_results ->
  decode_all np_exp self t yolo_results = Ok boxes ->
  Forall (fun box => length (classes box) = (d / nb_box - 5)%nat) boxes.
Proof.
  intros Hd. apply decode_all_each. intros res anchors bs Hres Hrun.
  destruct (decode_netout_class_length _ _ _ _ _ _ _ Hrun) as (last & Hlast & Hlen).
  apply reshape_last_value in Hlast. rewrite Forall_forall in Hd.
  rewrite (Hd _ Hres) in Hlast. rewrite <- Hlast. exact Hlen.
Qed.

Lemma roi_zeroed_falsy (box : BoundBox) (i : nat) (score : Q) :
  classes (roi_zeroed box) !! i = Some score -> py_truthy score = false.
Proof.
  unfold roi_zeroed. cbn [classes set_classes]. rewrite list_lookup_fmap.
  destruct (classes box !! i) as [v|]; [|discriminate]. cbn.
  destruct (py_truthy v) eqn:Ht; intros [= <-]; [reflexivity | exact Ht].
Qed.

Lemma roi_outside_corners (x0 x1 y0 y1 : Z) (box box' : BoundBox) :
  corners box' = corners box ->
  roi_outside x0 x1 y0 y1 box' = roi_outside x0 x1 y0 y1 box.
Proof.
  unfold corners, roi_outside. intros [= -> -> -> ->]. reflexivity.
Qed.

(** X17: with a region of interest of four entries, a
    [minimum_percentage_probability] that is not negative and network
    outputs of one depth, every dictionary that [detect_objects] returns
    has [box_points] whose centre, as [RoI] computes it, lies in the
    region: [x_centre in range(x0, x1)] and [y_centre in range(y0, y1)]. *)
Theorem detect_objects_inside_region (np_exp : Q -> Q) (argsort : list Q -> list nat)
    (self : CustomObjectDetection) (call : image_call) (height width : Z)
    (yolo_results : list ndarray3) (objects : list detection)
    (x0 x1 y0 y1 : Z) (d : nat) :
  region_of_interest call = Some [x0; x1; y0; y1] ->
  (0 <= minimum_percentage_probability call)%Q ->
  Forall (fun res => shape_d res = d) yolo_results ->
  detect_objects np_exp argsort self call height width yolo_results = Ok objects ->
  Forall (fun o =>
            exists xa ya xb yb,
              box_points o = [xa; ya; xb; yb]
              /\ in_range (py_int ((xb + xa) / 2)) x0 x1 = true
              /\ in_range (py_int ((yb + ya) / 2)) y0 y1 = true) objects.
Proof.
  intros Hregion Hmin Hdepth Hrun.
  destruct (detect_objects_trace _ _ _ _ _ _ _ _ Hrun)
    as (decoded & corrected & in_roi & kept & Hdec & Hcor & Hroi & Hnms & Hobj).
  pose proof (decode_all_class_length _ _ _ _ _ _ Hdepth Hdec) as Hlen.
  assert (Hlen' : Forall (fun box => length (classes box) = (d / nb_box - 5)%nat) corrected).
  { apply Forall_forall. intros box' Hbox'.
    apply list_elem_of_lookup_1 in Hbox' as [k Hk].
    destruct (Forall2_lookup_r _ _ _ _ _ (correct_yolo_boxes_classes _ _ _ _ _ _ Hcor) Hk)
      as (box & Hbox & ->).
    rewrite Forall_forall in Hlen. apply Hlen. eapply list_elem_of_lookup_2; eauto. }
  rewrite Hregion, (RoI_map _ _ _ _ _ _ Hlen') in Hroi. injection Hroi as <-.
  assert (Hthresh : (0 <= minimum_percentage_probability call / 100)%Q).
  { apply Qle_shift_div_l; [reflexivity|]. rewrite Qmult_0_l. exact Hmin. }
  apply Forall_forall. intros o Ho.
  destruct (Hobj o Ho) as (box & i & score & Hbox & Hscore & _ & Hgate & _ & Hpoints).
  exists (xmin box), (ymin box), (xmax box), (ymax box). split; [exact Hpoints|].
  apply list_elem_of_lookup_1 in Hbox as [k Hk].
  destruct (Forall2_lookup_r _ _ _ _ _ (do_nms_only_zeroed _ _ _ _ Hnms) Hk)
    as (box_r & Hr & Hz).
  destruct (only_zeroed_score _ _ _ _ Hz Hscore) as (s1 & Hs1 & Hor).
  assert (Hs : s1 = score).
  { destruct Hor as [-> | ->]; [reflexivity|]. exfalso. lra. }
  subst s1.
  rewrite list_lookup_fmap in Hr.
  destruct (corrected !! k) as [box_c|]; [|discriminate]. cbn in Hr.
  injection Hr as <-.
  assert (Hout : roi_outside x0 x1 y0 y1 box_c = false).
  { destruct (roi_outside x0 x1 y0 y1 box_c) eqn:E; [|reflexivity].
    apply roi_zeroed_falsy in Hs1. unfold py_truthy in Hs1.
    apply negb_false_iff, Qeq_bool_eq in Hs1. exfalso. lra. }
  rewrite Hout in Hz. destruct Hz as (Hcorners & _).
  rewrite <- (roi_outside_corners x0 x1 y0 y1 box_c box Hcorners) in Hout.
  unfold roi_outside in Hout. apply orb_false_iff in Hout as [Hx Hy].
  apply negb_false_iff in Hx, Hy. split; assumption.
Qed.

Lemma detect_objects_inside_region_witness :
  Forall (fun o =>
            exists xa ya xb yb,
              box_points o = [xa; ya; xb; yb]
              /\ in_range (py_int ((xb + xa) / 2)) 0 640 = true
              /\ in_range (py_int ((yb + ya) / 2)) 0 480 = true) [sample_detection].
Proof.
  apply (detect_objects_inside_region np_exp_rational stable_argsort sample_detector
           region_call 480 640 [sample_netout] [sample_detection] 0 640 0 480 18).
  - reflexivity.
  - discriminate.
  - repeat constructor.
  - vm_compute. reflexivity.
Defined.

(** ** detectObjectsFromImage: what is written, and in which order *)

Section ImageRun.

Variable np_exp : Q -> Q.
Variable argsort : list Q -> list nat.
Variable re_subn_suffix : string -> string * Z.
Variable cv2_imread : string -> option image.
Variable predict : image -> list ndarray3.

Lemma read_input_from (call : image_call) (tr : list io_event) :
  read_input cv2_imread call tr
  = (tr ++ (read_input cv2_imread call []).1, (read_input cv2_imread call []).2).
Proof.
  unfold read_input, io_bind, io_raise, io_ret, io_emit.
  destruct (bool_decide (input_type call = "file")).
  - destruct (input_image call) as [path|im0]; [destruct (cv2_imread path)|];
      cbn; rewrite ?app_nil_r; reflexivity.
  - destruct (bool_decide (input_type call = "array"));
      [destruct (input_image call)|]; cbn; rewrite ?app_nil_r; reflexivity.
Qed.

Lemma read_input_reads (call : image_call) :
  Forall (fun e => writes e = false) (read_input cv2_imread call []).1.
Proof.
  unfold read_input, io_bind, io_raise, io_ret, io_emit.
  destruct (bool_decide (input_type call = "file")).
  - destruct (input_image call) as [path|im0]; [destruct (cv2_imread path)|];
      cbn; repeat constructor.
  - destruct (bool_decide (input_type call = "array"));
      [destruct (input_image call)|]; cbn; constructor.
Qed.

Lemma extract_object_from (call : image_call) (image_frame : image) (folder : string)
    (entry : nat * detection) (tr : list io_event) :
  extract_object call image_frame folder entry tr
  = (tr ++ (extract_object call image_frame folder entry []).1,
     (extract_object call image_frame folder entry []).2).
Proof.
  destruct entry as [cnt o]. unfold extract_object, io_bind, io_lift.
  destruct (splitted_image image_frame o) as [crop|e]; [|cbn; rewrite app_nil_r; reflexivity].
  destruct (bool_decide (output_type call = "file")).
  - destruct (empty_image crop); unfold io_raise, io_emit, io_ret; cbn;
      rewrite ?app_nil_r; reflexivity.
  - destruct (bool_decide (output_type call = "array")); unfold io_ret; cbn;
      rewrite app_nil_r; reflexivity.
Qed.

Lemma extract_objects_from (call : image_call) (image_frame : image) (folder : string)
    (entries : list (nat * detection)) :
  forall tr,
    extract_objects call image_frame folder entries tr
    = (tr ++ (extract_objects call image_frame folder entries []).1,
       (extract_objects call image_frame folder entries []).2).
Proof.
  induction entries as [|entry rest IH]; intros tr.
  - cbn. unfold io_ret. cbn. rewrite app_nil_r. reflexivity.
  - cbn [extract_objects]. unfold io_bind at 1 3 5.
    rewrite (extract_object_from call image_frame folder entry tr).
    destruct (extract_object call image_frame folder entry []) as [here [xs|e]];
      cbn [fst snd app]; [|reflexivity].
    unfold io_bind. rewrite (IH (tr ++ here)), (IH here).
    destruct (extract_objects call image_frame folder rest []) as [there [ys|e]];
      cbn [fst snd]; unfold io_ret; rewrite <- app_assoc; reflexivity.
Qed.

Lemma extract_objects_not_file (call : image_call) (image_frame : image) (folder : string)
    (entries : list (nat * detection)) :
  output_type call <> "file" ->
  Forall (fun entry => length (box_points entry.2) = 4%nat) entries ->
  extract_objects call image_frame folder entries []
  = ([], Ok (if bool_decide (output_type call = "array")
             then map (fun entry => ExtractedArray (box_points entry.2)) entries
             else [])).
Proof.
  intros Hfile. induction 1 as [|[cnt o] rest Hpoints _ IH].
  - cbn. destruct (bool_decide (output_type call = "array")); reflexivity.
  - cbn [extract_objects]. unfold io_bind at 1. unfold extract_object.
    cbn [snd] in Hpoints.
    destruct (splitted_image_total image_frame o Hpoints) as [crop Hcrop].
    unfold io_bind at 1, io_lift. rewrite Hcrop.
    rewrite (bool_decide_eq_false_2 _ Hfile).
    destruct (bool_decide (output_type call = "array"));
      unfold io_ret, io_bind; rewrite IH; reflexivity.
Qed.

Lemma extract_objects_file (call : image_call) (image_frame : image) (folder : string)
    (entries : list (nat * detection)) :
  output_type call = "file" ->
  forall written xs,
    extract_objects call image_frame folder entries [] = (written, Ok xs) ->
    xs = map (fun entry => ExtractedPath (String.append folder "-objects")
                                         (name entry.2) entry.1) entries
    /\ written = map ImWriteObject xs
    /\ Forall (fun entry => croppable image_frame entry.2) entries.
Proof.
  intros Hfile. induction entries as [|[cnt o] rest IH]; intros written xs.
  - cbn. unfold io_ret. intros [= <- <-]. repeat split. constructor.
  - cbn [extract_objects]. unfold io_bind at 1. unfold extract_object.
    unfold io_bind at 1, io_lift.
    destruct (splitted_image image_frame o) as [crop|e] eqn:Hcrop; [|discriminate].
    rewrite (bool_decide_eq_true_2 _ Hfile).
    destruct (empty_image crop) eqn:Hempty; [discriminate|].
    unfold io_bind at 1, io_emit, io_ret. unfold io_bind.
    rewrite (extract_objects_from call image_frame folder rest).
    destruct (extract_objects call image_frame folder rest []) as [there [ys|e]] eqn:Hrest;
      cbn [fst snd]; [|discriminate].
    intros [= <- <-]. destruct (IH there ys eq_refl) as (-> & -> & Hall).
    cbn. repeat split. constructor; [|exact Hall].
    exists crop. auto.
Qed.

Lemma extract_objects_file_empty (call : image_call) (image_frame : image)
    (folder : string) (entries : list (nat * detection)) :
  output_type call = "file" ->
  Forall (fun entry => length (box_points entry.2) = 4%nat) entries ->
  Exists (fun entry => exists crop, splitted_image image_frame entry.2 = Ok crop
                                    /\ empty_image crop = true) entries ->
  exists written,
    extract_objects call image_frame folder entries [] = (written, Raise Cv2Error)
    /\ Forall (fun e => exists x, e = ImWriteObject x) written.
Proof.
  intros Hfile. induction 1 as [|[cnt o] rest Hpoints Hrest IH]; intros Hex;
    [inversion Hex|].
  cbn [extract_objects]. unfold io_bind at 1. unfold extract_object.
  unfold io_bind at 1, io_lift. cbn [snd] in Hpoints.
  destruct (splitted_image_total image_frame o Hpoints) as [crop Hcrop].
  rewrite Hcrop, (bool_decide_eq_true_2 _ Hfile).
  destruct (empty_image crop) eqn:Hempty.
  - exists []. split; [reflexivity | constructor].
  - assert (Hex' : Exists (fun entry => exists crop, splitted_image image_frame entry.2
                                                     = Ok crop
                                                     /\ empty_image crop = true) rest).
    { apply Exists_cons in Hex as [(crop' & Hc & He) | Hex]; [|exact Hex].
      cbn [snd] in Hc. rewrite Hcrop in Hc. injection Hc as <-. congruence. }
    destruct (IH Hex') as (there & Hthere & Hwrites).
    unfold io_bind at 1, io_emit, io_ret. unfold io_bind.
    rewrite (extract_objects_from call image_frame folder rest), Hthere. cbn [fst snd].
    eexists. split; [reflexivity|]. cbn. constructor; [eauto | exact Hwrites].
Qed.

(** The whole call of a loaded YOLOv3 detector, step by step. *)
Lemma detectObjectsFromImage_run (self : CustomObjectDetection) (call : image_call) :
  model_loaded self = true -> model_type self = "yolov3" ->
  detectObjectsFromImage np_exp argsort re_subn_suffix cv2_imread predict self call []
  = match prepare_output re_subn_suffix call [] with
    | (tr1, Raise e) => (tr1, Raise e)
    | (tr1, Ok folder) =>
        match read_input cv2_imread call [] with
        | (reads, Raise e) => (tr1 ++ reads, Raise e)
        | (reads, Ok im) =>
            match detect_objects np_exp argsort self call (im_height im) (im_width im)
                                 (predict im) with
            | Raise e => ((tr1 ++ reads) ++ [Predict im], Raise e)
            | Ok objects =>
                match (if extract_detected_objects call
                       then extract_objects call im folder
                              (imap (fun cnt o => (cnt, o)) objects) []
                       else ([], Ok [])) with
                | (written, Raise e) =>
                    (((tr1 ++ reads) ++ [Predict im]) ++ written, Raise e)
                | (written, Ok arrays) =>
                    ((((tr1 ++ reads) ++ [Predict im]) ++ written)
                     ++ (if bool_decide (output_type call = "file")
                         then [ImWrite (output_image_path call)] else []),
                     Ok (return_value call im objects arrays))
                end
            end
        end
    end.
Proof.
  intros Hloaded Htype. unfold detectObjectsFromImage. rewrite Hloaded. cbn [negb].
  unfold io_bind at 1.
  destruct (prepare_output re_subn_suffix call []) as [tr1 [folder|e]]; [|reflexivity].
  unfold io_bind at 1. rewrite (read_input_from call tr1).
  destruct (read_input cv2_imread call []) as [reads [im|e]]; cbn [fst snd];
    [|reflexivity].
  rewrite bool_decide_eq_true_2 by exact Htype.
  unfold io_bind at 1, io_emit. unfold io_bind at 1, io_lift.
  destruct (detect_objects np_exp argsort self call (im_height im) (im_width im)
              (predict im)) as [objects|e]; [|reflexivity].
  unfold io_bind at 1.
  destruct (extract_detected_objects call).
  - rewrite extract_objects_from.
    destruct (extract_objects call im folder (imap (fun cnt o => (cnt, o)) objects) [])
      as [written [arrays|e]]; cbn [fst snd]; [|reflexivity].
    unfold io_bind, io_emit, io_ret.
    destruct (bool_decide (output_type call = "file")); rewrite ?app_nil_r; reflexivity.
  - unfold io_ret at 1. unfold io_bind, io_emit, io_ret.
    destruct (bool_decide (output_type call = "file")); rewrite ?app_nil_r; reflexivity.
Qed.

Lemma map_imap_entries {B : Type} (f : nat -> detection -> B) (objects : list detection) :
  map (fun entry : nat * detection => f entry.1 entry.2)
      (imap (fun cnt o => (cnt, o)) objects)
  = imap f objects.
Proof. rewrite fmap_imap. reflexivity. Qed.

Lemma extract_array (call : image_call) (im : image) (folder : string)
    (objects : list detection) :
  output_type call <> "file" ->
  Forall (fun o => length (box_points o) = 4%nat) objects ->
  (if extract_detected_objects call
   then extract_objects call im folder (imap (fun cnt o => (cnt, o)) objects) []
   else ([], Ok []))
  = ([], Ok (if extract_detected_objects call
             then extracted_entries call folder objects else [])).
Proof.
  intros Hfile Hpoints. destruct (extract_detected_objects call); [|reflexivity].
  rewrite (extract_objects_not_file _ _ _ _ Hfile (imap_points _ Hpoints)).
  unfold extracted_entries. rewrite (bool_decide_eq_false_2 _ Hfile).
  destruct (bool_decide (output_type call = "array")); [|reflexivity].
  rewrite (map_imap_entries (fun _ o => ExtractedArray (box_points o))).
  rewrite <- (imap_const (fun o => ExtractedArray (box_points o))). reflexivity.
Qed.

End ImageRun.

(** X18: with an [output_type] other than ["file"],
    [detectObjectsFromImage] writes nothing to the disk, whatever the
    outcome: it creates no directory and writes no image.  A call of a
    YOLOv3 detector with [output_type = "array"] that returns hands back
    the image with the dictionaries and, with [extract_detected_objects],
    one crop for every dictionary, in their order. *)
Theorem detectObjectsFromImage_array (np_exp : Q -> Q) (argsort : list Q -> list nat)
    (re_subn_suffix : string -> string * Z) (cv2_imread : string -> option image)
    (predict : image -> list ndarray3) (self : CustomObjectDetection)
    (call : image_call) (tr : list io_event) (r : result image_return) :
  output_type call <> "file" ->
  detectObjectsFromImage np_exp argsort re_subn_suffix cv2_imread predict self call []
  = (tr, r) ->
  Forall (fun e => writes e = false) tr
  /\ (output_type call = "array" -> model_type self = "yolov3" ->
      forall ret, r = Ok ret ->
        exists im objects,
          detect_objects np_exp argsort self call (im_height im) (im_width im) (predict im)
          = Ok objects
          /\ ret = if extract_detected_objects call
                   then ReturnImageObjectsArrays
                          im objects (map (fun o => ExtractedArray (box_points o)) objects)
                   else ReturnImageObjects im objects).
Proof.
  intros Hfile.
  pose proof (read_input_reads cv2_imread call) as Hreads.
  destruct (model_loaded self) eqn:Hloaded.
  2:{ unfold detectObjectsFromImage. rewrite Hloaded. cbn. unfold io_raise.
      intros [= <- <-]. split; [constructor | discriminate]. }
  destruct (decide (model_type self = "yolov3")) as [Htype|Htype].
  - rewrite (detectObjectsFromImage_run _ _ _ _ _ _ _ Hloaded Htype).
    rewrite (prepare_output_other _ _ _ Hfile).
    rewrite (bool_decide_eq_false_2 _ Hfile).
    destruct (read_input cv2_imread call []) as [reads [im|e]]; cbn [fst snd] in *.
    2:{ intros [= <- <-]. split; [exact Hreads | discriminate]. }
    destruct (detect_objects np_exp argsort self call (im_height im) (im_width im)
                (predict im)) as [objects|e] eqn:Hdet.
    2:{ intros [= <- <-]. split; [|discriminate].
        cbn. apply Forall_app. split; [exact Hreads | repeat constructor]. }
    rewrite (extract_array call im EmptyString objects Hfile
               (detect_objects_points np_exp argsort _ _ _ _ _ _ Hdet)).
    intros [= <- <-]. split.
    + cbn. rewrite !app_nil_r. apply Forall_app. split; [exact Hreads | repeat constructor].
    + intros Harray _ ret [= <-]. exists im, objects. split; [exact Hdet|].
      unfold return_value, extracted_entries.
      rewrite (bool_decide_eq_false_2 _ Hfile), (bool_decide_eq_true_2 _ Harray).
      destruct (extract_detected_objects call); reflexivity.
  - unfold detectObjectsFromImage. rewrite Hloaded. cbn [negb].
    unfold io_bind at 1. rewrite (prepare_output_other _ _ _ Hfile).
    unfold io_bind at 1. rewrite (read_input_from cv2_imread call []).
    destruct (read_input cv2_imread call []) as [reads [im|e]]; cbn [fst snd app] in *.
    + rewrite (bool_decide_eq_false_2 _ Htype). unfold io_ret. intros [= <- <-].
      split; [exact Hreads|]. intros _ Hyolo. contradiction.
    + intros [= <- <-]. split; [exact Hreads | discriminate].
Qed.

Lemma detectObjectsFromImage_array_witness :
  Forall (fun e => writes e = false) [Predict sample_image]
  /\ exists im objects,
       detect_objects np_exp_rational stable_argsort sample_detector sample_call
                      (im_height im) (im_width im) (sample_predict im) = Ok objects
       /\ ReturnImageObjects sample_image [sample_detection]
          = if extract_detected_objects sample_call
            then ReturnImageObjectsArrays
                   im objects (map (fun o => ExtractedArray (box_points o)) objects)
            else ReturnImageObjects im objects.
Proof.
  pose proof (detectObjectsFromImage_array np_exp_rational stable_argsort no_suffix no_file
                sample_predict sample_detector sample_call [Predict sample_image]
                (Ok (ReturnImageObjects sample_image [sample_detection]))) as H.
  destruct H as [H1 H2]; [discriminate | vm_compute; reflexivity |].
  split; [exact H1|]. apply H2; reflexivity.
Defined.

Lemma imap_entries_Forall (P : detection -> Prop) (objects : list detection) :
  Forall (fun entry : nat * detection => P entry.2) (imap (fun cnt o => (cnt, o)) objects)
  <-> Forall P objects.
Proof.
  rewrite !Forall_forall. split.
  - intros H o Ho. apply list_elem_of_lookup_1 in Ho as [i Hi].
    apply (H (i, o)). apply (list_elem_of_lookup_2 _ i).
    rewrite list_lookup_imap, Hi. reflexivity.
  - intros H [cnt o] Hin. apply list_elem_of_lookup_1 in Hin as [i Hi].
    rewrite list_lookup_imap in Hi.
    destruct (objects !! i) as [o'|] eqn:Ho; [|discriminate]. cbn in Hi.
    injection Hi as <- <-. apply H. eapply list_elem_of_lookup_2; eauto.
Qed.

Lemma imap_entries_Exists (P : detection -> Prop) (objects : list detection) :
  Exists P objects ->
  Exists (fun entry : nat * detection => P entry.2) (imap (fun cnt o => (cnt, o)) objects).
Proof.
  intros H. apply Exists_exists in H as (o & Ho & HP).
  apply list_elem_of_lookup_1 in Ho as [i Hi].
  apply Exists_exists. exists (i, o). split; [|exact HP].
  apply (list_elem_of_lookup_2 _ i). rewrite list_lookup_imap, Hi. reflexivity.
Qed.

(** X19: a call of a loaded YOLOv3 detector with [output_type = "file"]
    that returns has made its external calls in this order: the objects
    directory (with [extract_detected_objects]), the reading of the
    input, the network, one image file for every dictionary (with
    [extract_detected_objects]; [<folder>-objects], the name and the
    index of the dictionary), and last the drawn image at
    [output_image_path].  It returns the dictionaries and, with
    [extract_detected_objects], the paths written, one for every
    dictionary, and the crop of every dictionary then has a row and a
    column.  With [extract_detected_objects] and a dictionary whose crop
    is empty, as for a box with a negative corner, the call raises
    [cv2.error] from [cv2.imwrite] and the drawn image is not written. *)
Theorem detectObjectsFromImage_file (np_exp : Q -> Q) (argsort : list Q -> list nat)
    (re_subn_suffix : string -> string * Z) (cv2_imread : string -> option image)
    (predict : image -> list ndarray3) (self : CustomObjectDetection)
    (call : image_call) :
  model_loaded self = true -> model_type self = "yolov3" ->
  output_type call = "file" ->
  (forall tr ret,
     detectObjectsFromImage np_exp argsort re_subn_suffix cv2_imread predict self call []
     = (tr, Ok ret) ->
     exists reads im objects,
       (re_subn_suffix (output_image_path call)).2 <> 0
       /\ read_input cv2_imread call [] = (reads, Ok im)
       /\ detect_objects np_exp argsort self call (im_height im) (im_width im)
                         (predict im) = Ok objects
       /\ let objects_dir :=
            String.append (re_subn_suffix (output_image_path call)).1 "-objects" in
          let paths := imap (fun cnt o => ExtractedPath objects_dir (name o) cnt) objects in
          tr = (if extract_detected_objects call then [MakeDirs objects_dir] else [])
               ++ reads ++ [Predict im]
               ++ (if extract_detected_objects call then map ImWriteObject paths else [])
               ++ [ImWrite (output_image_path call)]
          /\ ret = (if extract_detected_objects call
                    then ReturnObjectsPaths objects paths
                    else ReturnObjects objects)
          /\ (extract_detected_objects call = true -> Forall (croppable im) objects))
  /\ (forall reads im objects,
        (re_subn_suffix (output_image_path call)).2 <> 0 ->
        read_input cv2_imread call [] = (reads, Ok im) ->
        detect_objects np_exp argsort self call (im_height im) (im_width im) (predict im)
        = Ok objects ->
        extract_detected_objects call = true ->
        Exists (empty_crop im) objects ->
        exists tr,
          detectObjectsFromImage np_exp argsort re_subn_suffix cv2_imread predict self
                                 call [] = (tr, Raise Cv2Error)
          /\ ImWrite (output_image_path call) ∉ tr).
Proof.
  intros Hloaded Htype Hfile. split.
  - intros tr ret.
    rewrite (detectObjectsFromImage_run _ _ _ _ _ _ _ Hloaded Htype).
    unfold prepare_output, return_value.
    rewrite (bool_decide_eq_true_2 _ Hfile).
    destruct (re_subn_suffix (output_image_path call)) as [folder n_subs].
    destruct (n_subs =? 0) eqn:Hsubs; [discriminate|].
    apply Z.eqb_neq in Hsubs.
    destruct (read_input cv2_imread call []) as [reads [im|e]] eqn:Hread.
    2:{ destruct (extract_detected_objects call); discriminate. }
    destruct (detect_objects np_exp argsort self call (im_height im) (im_width im)
                (predict im)) as [objects|e] eqn:Hdet.
    2:{ destruct (extract_detected_objects call); discriminate. }
    destruct (extract_detected_objects call) eqn:Hextract;
      unfold io_bind, io_emit, io_ret; cbv beta iota.
    + destruct (extract_objects call im folder (imap (fun cnt o => (cnt, o)) objects) [])
        as [written [arrays|e]] eqn:Hex; [|discriminate].
      destruct (extract_objects_file _ _ _ _ Hfile _ _ Hex) as (Harrays & Hwritten & Hcrops).
      rewrite (map_imap_entries
                 (fun cnt o => ExtractedPath (String.append folder "-objects") (name o) cnt))
        in Harrays.
      subst arrays written. intros [= <- <-].
      exists reads, im, objects. split; [exact Hsubs|]. split; [reflexivity|].
      split; [exact Hdet|]. cbv zeta. split; [|split].
      * cbn [app]. rewrite <- !app_assoc. reflexivity.
      * reflexivity.
      * intros _. apply imap_entries_Forall in Hcrops. exact Hcrops.
    + intros [= <- <-].
      exists reads, im, objects. split; [exact Hsubs|]. split; [reflexivity|].
      split; [exact Hdet|]. cbv zeta. split; [|split].
      * cbn [app]. rewrite app_nil_r, <- !app_assoc. reflexivity.
      * reflexivity.
      * discriminate.
  - intros reads im objects Hsubs Hread Hdet Hextract Hempty.
    rewrite (detectObjectsFromImage_run _ _ _ _ _ _ _ Hloaded Htype).
    unfold prepare_output. rewrite (bool_decide_eq_true_2 _ Hfile), Hextract.
    destruct (re_subn_suffix (output_image_path call)) as [folder n_subs].
    cbn [snd] in Hsubs. apply Z.eqb_neq in Hsubs. rewrite Hsubs.
    unfold io_bind, io_emit, io_ret. cbn [app]. rewrite Hread, Hdet.
    destruct (extract_objects_file_empty call im folder
                (imap (fun cnt o => (cnt, o)) objects) Hfile
                (imap_points _ (detect_objects_points np_exp argsort _ _ _ _ _ _ Hdet))
                (imap_entries_Exists _ _ Hempty)) as (written & -> & Hwritten).
    eexists. split; [reflexivity|].
    pose proof (read_input_reads cv2_imread call) as Hreads.
    rewrite Hread in Hreads. cbn [fst] in Hreads.
    rewrite Forall_forall in Hreads, Hwritten.
    rewrite elem_of_cons, !elem_of_app. intros [H|[[H|H]|H]].
    + discriminate.
    + specialize (Hreads _ H). discriminate.
    + apply list_elem_of_singleton in H. discriminate.
    + destruct (Hwritten _ H) as [x Hx]. discriminate.
Qed.

Lemma detectObjectsFromImage_file_witness :
  (exists reads im objects,
     (jpg_suffix (output_image_path file_call)).2 <> 0
     /\ read_input no_file file_call [] = (reads, Ok im)
     /\ detect_objects np_exp_rational stable_argsort sample_detector file_call
                       (im_height im) (im_width im) (inner_predict im) = Ok objects
     /\ let objects_dir :=
          String.append (jpg_suffix (output_image_path file_call)).1 "-objects" in
        let paths := imap (fun cnt o => ExtractedPath objects_dir (name o) cnt) objects in
        [MakeDirs "out-objects"; Predict sample_image;
         ImWriteObject (ExtractedPath "out-objects" "person" 0); ImWrite "out.jpg"]
        = (if extract_detected_objects file_call then [MakeDirs objects_dir] else [])
          ++ reads ++ [Predict im]
          ++ (if extract_detected_objects file_call
              then map ImWriteObject paths else [])
          ++ [ImWrite (output_image_path file_call)]
        /\ ReturnObjectsPaths [inner_detection] [ExtractedPath "out-objects" "person" 0]
           = (if extract_detected_objects file_call
              then ReturnObjectsPaths objects paths
              else ReturnObjects objects)
        /\ (extract_detected_objects file_call = true ->
            Forall (croppable im) objects))
  /\ (exists tr,
        detectObjectsFromImage np_exp_rational stable_argsort jpg_suffix no_file
                               sample_predict sample_detector file_call []
        = (tr, Raise Cv2Error)
        /\ ImWrite (output_image_path file_call) ∉ tr).
Proof.
  split.
  - apply (proj1 (detectObjectsFromImage_file np_exp_rational stable_argsort jpg_suffix
                    no_file inner_predict sample_detector file_call
                    eq_refl eq_refl eq_refl)).
    vm_compute. reflexivity.
  - apply (proj2 (detectObjectsFromImage_file np_exp_rational stable_argsort jpg_suffix
                    no_file sample_predict sample_detector file_call
                    eq_refl eq_refl eq_refl) [] sample_image [sample_detection]).
    + discriminate.
    + reflexivity.
    + vm_compute. reflexivity.
    + reflexivity.
    + constructor. eexists. split; [vm_compute; reflexivity | reflexivity].
Defined.

(** X20: the order in which [detectObjectsFromImage] refuses a call.  A
    detector without a model raises [ValueError] before anything else; a
    loaded one with [output_type = "file"] and a path whose suffix the
    pattern does not match raises [ValueError] before it reads the input
    or runs the network.  An [input_type] that is neither ["file"] nor
    ["array"] is refused with [ValueError] only after that: with
    [output_type = "file"], a path that is accepted and
    [extract_detected_objects], the objects directory has been created by
    then. *)
Theorem detectObjectsFromImage_refusals (np_exp : Q -> Q) (argsort : list Q -> list nat)
    (re_subn_suffix : string -> string * Z) (cv2_imread : string -> option image)
    (predict : image -> list ndarray3) (self : CustomObjectDetection)
    (call : image_call) :
  let run := detectObjectsFromImage np_exp argsort re_subn_suffix cv2_imread predict
                                    self call [] in
  (model_loaded self = false -> run = ([], Raise ValueError))
  /\ (model_loaded self = true -> output_type call = "file" ->
      (re_subn_suffix (output_image_path call)).2 = 0 ->
      run = ([], Raise ValueError))
  /\ (model_loaded self = true -> output_type call = "file" ->
      (re_subn_suffix (output_image_path call)).2 <> 0 ->
      extract_detected_objects call = true ->
      input_type call <> "file" -> input_type call <> "array" ->
      run = ([MakeDirs (String.append (re_subn_suffix (output_image_path call)).1
                                      "-objects")],
             Raise ValueError))
  /\ (model_loaded self = true -> output_type call <> "file" ->
      input_type call <> "file" -> input_type call <> "array" ->
      run = ([], Raise ValueError)).
Proof.
  intros run. unfold run, detectObjectsFromImage. repeat split.
  - intros ->. reflexivity.
  - intros -> Hfile Hsubs. cbn [negb]. unfold io_bind at 1, prepare_output.
    rewrite (bool_decide_eq_true_2 _ Hfile).
    destruct (re_subn_suffix (output_image_path call)) as [folder n_subs].
    cbn in Hsubs. subst n_subs. reflexivity.
  - intros -> Hfile Hsubs Hextract Hin_file Hin_array. cbn [negb].
    unfold io_bind at 1, prepare_output.
    rewrite (bool_decide_eq_true_2 _ Hfile), Hextract.
    destruct (re_subn_suffix (output_image_path call)) as [folder n_subs].
    cbn in Hsubs. apply Z.eqb_neq in Hsubs. rewrite Hsubs.
    unfold io_bind at 1, io_emit, io_ret. unfold io_bind at 1.
    rewrite (read_input_invalid _ _ _ Hin_file Hin_array). reflexivity.
  - intros -> Hfile Hin_file Hin_array. cbn [negb].
    unfold io_bind at 1. rewrite (prepare_output_other _ _ _ Hfile).
    unfold io_bind at 1. rewrite (read_input_invalid _ _ _ Hin_file Hin_array).
    reflexivity.
Qed.

Lemma detectObjectsFromImage_refusals_witness :
  detectObjectsFromImage np_exp_rational stable_argsort no_suffix no_file sample_predict
                         sample_detector file_call [] = ([], Raise ValueError)
  /\ detectObjectsFromImage np_exp_rational stable_argsort jpg_suffix no_file
                            sample_predict sample_detector stream_file_call []
     = ([MakeDirs "out-objects"], Raise ValueError).
Proof.
  split.
  - apply (proj1 (proj2 (detectObjectsFromImage_refusals np_exp_rational stable_argsort
                           no_suffix no_file sample_predict sample_detector file_call)));
      reflexivity.
  - apply (proj1 (proj2 (proj2 (detectObjectsFromImage_refusals np_exp_rational
                                  stable_argsort jpg_suffix no_file sample_predict
                                  sample_detector stream_file_call))));
      try reflexivity; discriminate.
Defined.

(** ** The frame loop: counting the objects *)

Lemma count_object_lookup (acc : gmap string Z) (o : detection) (nm : string) :
  count_object acc o !! nm
  = if decide (name o = nm) then Some (default 0 (acc !! nm) + 1) else acc !! nm.
Proof.
  unfold count_object. destruct (decide (name o = nm)) as [<-|Hne].
  - destruct (acc !! name o) as [v|]; rewrite lookup_insert_eq; reflexivity.
  - destruct (acc !! name o) as [v|]; rewrite lookup_insert_ne by exact Hne; reflexivity.
Qed.

Lemma occurrences_cons (nm : string) (o : detection) (objects : list detection) :
  occurrences nm (o :: objects)
  = ((if decide (name o = nm) then 1 else 0) + occurrences nm objects)%nat.
Proof.
  unfold occurrences. rewrite filter_cons.
  destruct (decide (name o = nm)); reflexivity.
Qed.

Lemma occurrences_app (nm : string) (l1 l2 : list detection) :
  occurrences nm (l1 ++ l2) = (occurrences nm l1 + occurrences nm l2)%nat.
Proof. unfold occurrences. rewrite filter_app, length_app. reflexivity. Qed.

Lemma fold_count_object (objects : list detection) (nm : string) :
  forall acc : gmap string Z,
    fold_left count_object objects acc !! nm
    = match occurrences nm objects with
      | O => acc !! nm
      | S k => Some (default 0 (acc !! nm) + Z.of_nat (S k))
      end.
Proof.
  induction objects as [|o rest IH]; intros acc; [reflexivity|].
  cbn [fold_left]. rewrite IH, occurrences_cons, count_object_lookup.
  destruct (decide (name o = nm)); destruct (occurrences nm rest) as [|k]; cbn [Nat.add];
    try reflexivity.
  all: cbn -[Z.of_nat Z.add]; apply (f_equal Some); lia.
Qed.

Lemma count_objects_lookup (objects : list detection) (nm : string) :
  count_objects objects !! nm = count_entry (occurrences nm objects).
Proof.
  unfold count_objects, count_entry. rewrite fold_count_object, lookup_empty.
  destruct (occurrences nm objects); cbn; [reflexivity|]. apply (f_equal Some). lia.
Qed.

(** X21: the counting loop of a frame, with its [try ... += 1 except:
    ... = 1], gives every name the number of objects of the frame that
    carry it, and no entry to a name that no object carries. *)
Theorem count_objects_counts (objects : list detection) (nm : string) :
  count_objects objects !! nm = count_entry (occurrences nm objects).
Proof. exact (count_objects_lookup objects nm). Qed.

Lemma add_counts_lookup (total d : gmap string Z) (nm : string) :
  add_counts total d !! nm
  = match d !! nm with
    | Some v => Some (default 0 (total !! nm) + v)
    | None => total !! nm
    end.
Proof.
  unfold add_counts.
  apply (map_fold_weak_ind
           (fun (r : gmap string Z) (m : gmap string Z) =>
              r !! nm = match m !! nm with
                        | Some v => Some (default 0 (total !! nm) + v)
                        | None => total !! nm
                        end)).
  - rewrite lookup_empty. reflexivity.
  - intros i x m r Hi Hr. destruct (decide (i = nm)) as [->|Hne].
    + rewrite Hi in Hr. rewrite lookup_insert_eq.
      destruct (r !! nm) as [t|] eqn:Ht; rewrite lookup_insert_eq, <- Hr; reflexivity.
    + rewrite (lookup_insert_ne m) by exact Hne. rewrite <- Hr.
      destruct (r !! i); rewrite lookup_insert_ne by exact Hne; reflexivity.
Qed.

Lemma fold_add_counts (frames_objects : list (list detection)) (nm : string) :
  forall acc : gmap string Z,
    fold_left add_counts (map count_objects frames_objects) acc !! nm
    = match occurrences nm (concat frames_objects) with
      | O => acc !! nm
      | S k => Some (default 0 (acc !! nm) + Z.of_nat (S k))
      end.
Proof.
  induction frames_objects as [|objects rest IH]; intros acc; [reflexivity|].
  cbn [map fold_left concat]. rewrite IH, occurrences_app, add_counts_lookup.
  rewrite count_objects_lookup. unfold count_entry.
  destruct (occurrences nm objects) as [|j]; destruct (occurrences nm (concat rest)) as [|k];
    cbn [Nat.eqb Nat.add default]; try reflexivity.
  all: try (rewrite Nat.add_0_r; reflexivity).
  all: cbn -[Z.of_nat Z.add]; apply (f_equal Some); lia.
Qed.

(** X22: the summing loop of a window, with its [try: total + d[k]
    except: d[k]], applied to the counts of the frames of the window,
    gives every name the number of objects that carry it in all these
    frames together, and no entry to a name that none carries. *)
Theorem sum_counts_totals (frames_objects : list (list detection)) (nm : string) :
  sum_counts (map count_objects frames_objects) !! nm
  = count_entry (occurrences nm (concat frames_objects)).
Proof.
  unfold sum_counts, count_entry. rewrite fold_add_counts, lookup_empty.
  destruct (occurrences nm (concat frames_objects)); cbn; [reflexivity|].
  apply (f_equal Some). lia.
Qed.

(** ** The frame loop: the performance mode *)

Lemma process_frame_performance (call : video_call) (frames_per_second : Z)
    (frame : frame_outcome) (s : scan) :
  performance_mode call = true -> frame_detection_interval call <> 0 ->
  drawable (video_region_of_interest call) ->
  process_frame call frames_per_second frame s
  = Ok (mkScan (n_frame s + 1) (output_frames_dict s) (output_frames_count_dict s)
               (detection_timeout_count s) (calls s), false).
Proof.
  intros Hperf Hinterval Hdraw. unfold process_frame. rewrite Hperf.
  destruct (add_region_drawable tt _ Hdraw) as [drawn Hdrawn].
  destruct (log_progress call); [rewrite py_mod_ok by assumption|];
    cbn [mbind result_bind]; rewrite (detection_due_ok _ _ Hinterval);
    cbn [mbind result_bind]; rewrite Hdrawn; reflexivity.
Qed.

Lemma scan_frames_performance (call : video_call) (frames_per_second : Z)
    (frames : list frame_outcome) :
  performance_mode call = true -> frame_detection_interval call <> 0 ->
  drawable (video_region_of_interest call) ->
  forall s,
    scan_frames call frames_per_second frames s
    = Ok (mkScan (n_frame s + Z.of_nat (length frames)) (output_frames_dict s)
                 (output_frames_count_dict s) (detection_timeout_count s) (calls s)).
Proof.
  intros Hperf Hinterval Hdraw. induction frames as [|frame rest IH]; intros s.
  - cbn. rewrite Z.add_0_r. destruct s; reflexivity.
  - cbn [scan_frames]. rewrite (process_frame_performance _ _ _ _ Hperf Hinterval Hdraw).
    cbn [mbind result_bind]. rewrite IH. cbn [n_frame output_frames_dict
      output_frames_count_dict detection_timeout_count calls length].
    do 2 f_equal. lia.
Qed.

(** X23: in performance mode, with a region of interest that is absent
    or can be drawn, the frame loop reads every frame and keeps nothing:
    no user function is called, no frame is recorded and
    [detection_timeout] is ignored, whatever [frames_per_second].  With a
    [video_complete_function] and at least one frame, the block after the
    loop then raises [KeyError] on [output_frames_dict[1]]. *)
Theorem performance_mode_keeps_nothing (call : video_call) (frames_per_second : Z)
    (frames : list frame_outcome) :
  performance_mode call = true -> frame_detection_interval call <> 0 ->
  drawable (video_region_of_interest call) ->
  (video_complete_function call = false ->
   detectObjectsFromVideo "yolov3" call frames_per_second frames
   = Ok (mkScan (Z.of_nat (length frames)) ∅ ∅ 0 []))
  /\ (video_complete_function call = true -> frames <> [] ->
      detectObjectsFromVideo "yolov3" call frames_per_second frames = Raise KeyError).
Proof.
  intros Hperf Hinterval Hdraw. unfold detectObjectsFromVideo.
  rewrite bool_decide_eq_true_2 by reflexivity.
  rewrite (scan_frames_performance _ _ _ Hperf Hinterval Hdraw). cbn [mbind result_bind].
  unfold video_complete, scan_start. cbn [n_frame output_frames_dict
    output_frames_count_dict detection_timeout_count calls]. split.
  - intros ->. rewrite Z.add_0_l. reflexivity.
  - intros -> Hne. destruct frames as [|frame rest]; [contradiction|].
    rewrite seqZ_cons by (cbn [length]; lia). cbn [for_each].
    rewrite (py_getitem_missing _ _ (lookup_empty _)). reflexivity.
Qed.

Lemma performance_mode_keeps_nothing_witness :
  detectObjectsFromVideo "yolov3" fast_second_call 30 (person_video 90)
  = Ok (mkScan (Z.of_nat (length (person_video 90))) ∅ ∅ 0 [])
  /\ detectObjectsFromVideo "yolov3" fast_video_call 30 (person_video 90) = Raise KeyError.
Proof.
  split.
  - apply (proj1 (performance_mode_keeps_nothing fast_second_call 30 (person_video 90)
                    eq_refl ltac:(discriminate) I)). reflexivity.
  - apply (proj2 (performance_mode_keeps_nothing fast_video_call 30 (person_video 90)
                    eq_refl ltac:(discriminate) I)); [reflexivity | discriminate].
Defined.

(** ** The frame loop: a capture that reports no frame rate *)

Lemma process_frame_no_timeout (call : video_call) (frames_per_second : Z)
    (frame : frame_outcome) (s : scan) :
  performance_mode call = false -> frame_detection_interval call <> 0 ->
  drawable (video_region_of_interest call) ->
  timeout_set (detection_timeout call) = None ->
  let n := n_frame s + 1 in
  let objects := recorded call n frame in
  let s1 := mkScan n (<[n := objects]> (output_frames_dict s))
                   (<[n := count_objects objects]> (output_frames_count_dict s))
                   (detection_timeout_count s) (calls s) in
  process_frame call frames_per_second frame s
  = (s2 ← per_frame_block call objects (count_objects objects) s1;
     s3 ← window_block (per_second_function call) frames_per_second PerSecond call s2;
     s4 ← window_block (per_minute_function call) (frames_per_second * 60) PerMinute
                       call s3;
     Ok (s4, false)).
Proof.
  intros Hperf Hinterval Hdraw Hnone n objects s1. unfold process_frame, check_timeout.
  rewrite Hperf, Hnone.
  destruct (add_region_drawable tt _ Hdraw) as [drawn Hdrawn].
  destruct (log_progress call); [rewrite py_mod_ok by assumption|];
    cbn [mbind result_bind]; rewrite (detection_due_ok _ _ Hinterval);
    cbn [mbind result_bind]; rewrite Hdrawn; reflexivity.
Qed.

Lemma window_block_first (passed : bool) (window : Z)
    (make : Z -> list (list detection) -> list (gmap string Z) -> gmap string Z -> bool
            -> callback)
    (call : video_call) (s : scan) :
  n_frame s = 1 -> window_block passed window make call s = Ok s.
Proof.
  intros Hn. unfold window_block. rewrite Hn. cbn. rewrite andb_false_r. reflexivity.
Qed.

Lemma window_block_zero (make : Z -> list (list detection) -> list (gmap string Z)
                                -> gmap string Z -> bool -> callback)
    (call : video_call) (s : scan) :
  n_frame s <> 1 ->
  window_block true 0 make call s = Raise ZeroDivisionError.
Proof.
  intros Hn. unfold window_block. apply Z.eqb_neq in Hn. rewrite Hn. reflexivity.
Qed.

Lemma window_block_not_passed (window : Z)
    (make : Z -> list (list detection) -> list (gmap string Z) -> gmap string Z -> bool
            -> callback)
    (call : video_call) (s : scan) :
  window_block false window make call s = Ok s.
Proof. reflexivity. Qed.

(** X24: with [frames_per_second = 0] (what [int(input_video.get(5))]
    gives for a capture that reports no rate), the performance mode off
    and a detection interval that is not zero: a [detection_timeout]
    makes the first frame raise [ZeroDivisionError], whatever the region
    of interest; without a timeout and with a region of interest that is
    absent or can be drawn, a [per_second_function] or a
    [per_minute_function] makes the second frame raise it, a video of one
    frame being scanned to its end. *)
Theorem zero_frames_per_second (call : video_call) (frames : list frame_outcome) :
  performance_mode call = false -> frame_detection_interval call <> 0 ->
  (forall t, timeout_set (detection_timeout call) = Some t -> frames <> [] ->
     detectObjectsFromVideo "yolov3" call 0 frames = Raise ZeroDivisionError)
  /\ (drawable (video_region_of_interest call) ->
      timeout_set (detection_timeout call) = None ->
      per_second_function call || per_minute_function call = true ->
      (2 <= length frames)%nat ->
      detectObjectsFromVideo "yolov3" call 0 frames = Raise ZeroDivisionError)
  /\ (drawable (video_region_of_interest call) ->
      timeout_set (detection_timeout call) = None ->
      length frames = 1%nat ->
      exists s, detectObjectsFromVideo "yolov3" call 0 frames = Ok s /\ n_frame s = 1).
Proof.
  intros Hperf Hinterval.
  assert (Hfirst : forall frame,
            drawable (video_region_of_interest call) ->
            timeout_set (detection_timeout call) = None ->
            exists new,
              process_frame call 0 frame scan_start
              = Ok (mkScan 1 (<[1 := recorded call 1 frame]> ∅)
                           (<[1 := count_objects (recorded call 1 frame)]> ∅) 0 new,
                    false)).
  { intros frame Hdraw Hnone.
    rewrite (process_frame_no_timeout _ _ _ _ Hperf Hinterval Hdraw Hnone).
    cbn [scan_start n_frame output_frames_dict output_frames_count_dict
         detection_timeout_count calls Z.add].
    match goal with
    | |- context [per_frame_block call ?o ?c ?st] =>
        destruct (per_frame_block_calls call o c st Hinterval) as (new & -> & _)
    end.
    cbn [mbind result_bind]. rewrite window_block_first by reflexivity.
    cbn [mbind result_bind]. rewrite window_block_first by reflexivity.
    cbn [mbind result_bind]. eexists. reflexivity. }
  split; [|split].
  - intros t Ht Hne. destruct frames as [|frame rest]; [contradiction|].
    unfold detectObjectsFromVideo. rewrite bool_decide_eq_true_2 by reflexivity.
    cbn [scan_frames]. unfold process_frame, check_timeout. rewrite Hperf, Ht.
    destruct (log_progress call);
      [rewrite (py_mod_ok _ (frame_detection_interval call)) by assumption|];
      reflexivity.
  - intros Hdraw Hnone Hpassed Hlen.
    destruct frames as [|frame1 [|frame2 rest]]; cbn in Hlen; try lia.
    unfold detectObjectsFromVideo. rewrite bool_decide_eq_true_2 by reflexivity.
    cbn [scan_frames]. destruct (Hfirst frame1 Hdraw Hnone) as (new1 & ->).
    cbn [mbind result_bind].
    rewrite (process_frame_no_timeout _ _ _ _ Hperf Hinterval Hdraw Hnone).
    cbn [n_frame output_frames_dict output_frames_count_dict detection_timeout_count
         calls Z.add Pos.add].
    match goal with
    | |- context [per_frame_block call ?o ?c ?st] =>
        destruct (per_frame_block_calls call o c st Hinterval) as (new & -> & _)
    end.
    cbn [mbind result_bind]. change (0 * 60) with 0.
    destruct (per_second_function call).
    + rewrite window_block_zero by (cbn; lia). reflexivity.
    + rewrite window_block_not_passed. cbn [mbind result_bind].
      cbn [orb] in Hpassed. rewrite Hpassed.
      rewrite window_block_zero by (cbn; lia). reflexivity.
  - intros Hdraw Hnone Hlen. destruct frames as [|frame [|? ?]]; try discriminate.
    unfold detectObjectsFromVideo. rewrite bool_decide_eq_true_2 by reflexivity.
    cbn [scan_frames]. destruct (Hfirst frame Hdraw Hnone) as (new & ->).
    cbn [mbind result_bind]. unfold video_complete.
    destruct (video_complete_function call); [|eauto].
    cbn [n_frame output_frames_dict output_frames_count_dict seqZ Z.to_nat Pos.to_nat
         Pos.iter_op Nat.add seq fmap list_fmap for_each Z.of_nat Z.add].
    change (seqZ 0 1) with [0]. cbn [for_each]. change (0 + 1) with 1.
    rewrite !(py_getitem_ok _ _ _ (lookup_insert_eq _ _ _)).
    cbn [mbind result_bind]. eexists. split; reflexivity.
Qed.

Lemma zero_frames_per_second_witness :
  detectObjectsFromVideo "yolov3" timed_video_call 0 (person_video 3)
  = Raise ZeroDivisionError
  /\ detectObjectsFromVideo "yolov3" plain_video_call 0 (person_video 3)
     = Raise ZeroDivisionError
  /\ exists s, detectObjectsFromVideo "yolov3" plain_video_call 0 (person_video 1) = Ok s
               /\ n_frame s = 1.
Proof.
  split; [|split].
  - apply (proj1 (zero_frames_per_second timed_video_call (person_video 3) eq_refl
                    ltac:(discriminate)) 1); [reflexivity | discriminate].
  - apply (proj1 (proj2 (zero_frames_per_second plain_video_call (person_video 3) eq_refl
                           ltac:(discriminate))));
      [exact I | reflexivity | reflexivity | cbn; lia].
  - apply (proj2 (proj2 (zero_frames_per_second plain_video_call (person_video 1) eq_refl
                           ltac:(discriminate)))); [exact I | reflexivity | reflexivity].
Defined.

(** ** The frame loop: every call of a user function *)

Lemma window_of_history {A : Type} (d : gmap Z A) (hist : list A) (window : Z) :
  (forall (i : nat) x, hist !! i = Some x -> d !! (Z.of_nat i + 1) = Some x) ->
  window_of d (Z.of_nat (length hist)) window
  = Ok (drop (Z.to_nat (Z.of_nat (length hist) - window)) hist).
Proof.
  intros Hd. unfold window_of.
  set (n := Z.of_nat (length hist)). set (m := Z.to_nat (n - window)).
  destruct (for_each_total
              (fun i acc => acc = drop m (take i hist))
              (fun idx acc =>
                 if n - window <=? idx
                 then v ← py_getitem d (idx + 1); Ok (acc ++ [v])
                 else Ok acc)
              (seqZ 0 n) []) as (l & Hl & Hfinal).
  - rewrite take_0, drop_nil. reflexivity.
  - intros i idx acc Hidx ->. apply lookup_seqZ in Hidx as [-> Hi].
    destruct (lookup_lt_is_Some_2 hist i) as [x Hx]; [unfold n in Hi; lia|].
    rewrite (take_S_r _ _ _ Hx), Z.add_0_l.
    destruct (n - window <=? Z.of_nat i) eqn:Hle.
    + apply Z.leb_le in Hle.
      rewrite (py_getitem_ok _ _ _ (Hd i x Hx)). cbn [mbind result_bind].
      eexists. split; [reflexivity|].
      rewrite drop_app_le; [reflexivity|].
      rewrite length_take. apply lookup_lt_Some in Hx. unfold m. lia.
    + apply Z.leb_gt in Hle. eexists. split; [reflexivity|].
      rewrite !drop_ge; [reflexivity | |].
      * rewrite length_app, length_take. cbn. unfold m. lia.
      * rewrite length_take. unfold m. lia.
  - rewrite Hl. f_equal. rewrite Hfinal, length_seqZ. unfold n.
    rewrite Nat2Z.id, firstn_all. reflexivity.
Qed.

Lemma per_frame_block_exact (call : video_call) (objects : list detection)
    (counts : gmap string Z) (s : scan) :
  frame_detection_interval call <> 0 ->
  per_frame_block call objects counts s
  = Ok (add_calls s
          (if per_frame_function call
              && ((n_frame s =? 1) || (n_frame s mod frame_detection_interval call =? 0))
           then [(n_frame s, PerFrame (n_frame s) objects counts
                                      (return_detected_frame call))]
           else [])).
Proof.
  intros Hi. unfold per_frame_block.
  destruct (per_frame_function call); cbn [andb]; [|rewrite add_calls_nil; reflexivity].
  rewrite (detection_due_ok _ _ Hi). cbn [mbind result_bind].
  destruct ((n_frame s =? 1) || _); [reflexivity | rewrite add_calls_nil; reflexivity].
Qed.

Lemma window_block_exact (passed : bool) (window : Z)
    (make : Z -> list (list detection) -> list (gmap string Z) -> gmap string Z -> bool
            -> callback)
    (call : video_call) (s : scan) (hist : list (list detection)) :
  window <> 0 ->
  n_frame s = Z.of_nat (length hist) ->
  (forall (i : nat) objects, hist !! i = Some objects ->
     output_frames_dict s !! (Z.of_nat i + 1) = Some objects
     /\ output_frames_count_dict s !! (Z.of_nat i + 1) = Some (count_objects objects)) ->
  window_block passed window make call s
  = Ok (add_calls s (window_call passed window make call hist)).
Proof.
  intros Hw Hn Hd. unfold window_block, window_call. rewrite Hn.
  destruct (passed && negb (Z.of_nat (length hist) =? 1)); cbn [andb];
    [|rewrite add_calls_nil; reflexivity].
  rewrite (py_mod_ok _ _ Hw). cbn [mbind result_bind].
  destruct (Z.of_nat (length hist) mod window =? 0);
    [|rewrite add_calls_nil; reflexivity].
  unfold window_summary. rewrite Hn.
  rewrite (window_of_history (output_frames_dict s) hist window)
    by (intros i x Hx; apply (Hd i x Hx)).
  cbn [mbind result_bind].
  pose proof (window_of_history (output_frames_count_dict s) (map count_objects hist)
                window) as Hc.
  rewrite length_map in Hc. rewrite Hc.
  - cbn [mbind result_bind]. rewrite <- fmap_drop. unfold push_call. rewrite Hn.
    reflexivity.
  - intros i x Hx. rewrite list_lookup_fmap in Hx.
    destruct (hist !! i) as [objects|] eqn:Ho; [|discriminate].
    cbn in Hx. injection Hx as <-. apply (Hd i objects Ho).
Qed.

(** One turn of the loop that the timeout does not end, with the calls
    it makes. *)
Lemma process_frame_exact (call : video_call) (frames_per_second : Z)
    (frame : frame_outcome) (s : scan) (hist : list (list detection)) :
  performance_mode call = false ->
  0 < frames_per_second -> frame_detection_interval call <> 0 ->
  drawable (video_region_of_interest call) ->
  scan_inv call frames_per_second s ->
  uncut call frames_per_second (n_frame s + 1) ->
  n_frame s = Z.of_nat (length hist) ->
  (forall (i : nat) objects, hist !! i = Some objects ->
     output_frames_dict s !! (Z.of_nat i + 1) = Some objects
     /\ output_frames_count_dict s !! (Z.of_nat i + 1) = Some (count_objects objects)) ->
  let hist' := hist ++ [recorded call (n_frame s + 1) frame] in
  exists s',
    process_frame call frames_per_second frame s = Ok (s', false)
    /\ scan_inv call frames_per_second s'
    /\ n_frame s' = Z.of_nat (length hist')
    /\ (forall (i : nat) objects, hist' !! i = Some objects ->
          output_frames_dict s' !! (Z.of_nat i + 1) = Some objects
          /\ output_frames_count_dict s' !! (Z.of_nat i + 1)
             = Some (count_objects objects))
    /\ calls s' = calls s ++ frame_calls call frames_per_second hist'.
Proof.
  intros Hperf Hfps Hinterval Hdraw Hinv Huncut Hn Hd hist'.
  destruct (process_frame_uncut call frames_per_second frame s Hperf Hfps Hinterval Hdraw
              Hinv Huncut) as (s' & new & Hstep & Hinv' & Hn' & Hd' & Hc' & _).
  assert (Hlen : Z.of_nat (length hist') = n_frame s + 1).
  { unfold hist'. rewrite length_app. cbn. lia. }
  assert (Hfacts : forall (i : nat) objects, hist' !! i = Some objects ->
            output_frames_dict s' !! (Z.of_nat i + 1) = Some objects
            /\ output_frames_count_dict s' !! (Z.of_nat i + 1)
               = Some (count_objects objects)).
  { intros i objects Hi. rewrite Hd', Hc'. unfold hist' in Hi.
    apply lookup_app_Some in Hi as [Hi | [Hge Hi]].
    - pose proof (lookup_lt_Some _ _ _ Hi) as Hlt.
      rewrite !lookup_insert_ne by lia. apply (Hd i objects Hi).
    - apply list_lookup_singleton_Some in Hi as [Hi <-].
      replace (Z.of_nat i + 1) with (n_frame s + 1) by lia.
      rewrite !lookup_insert_eq. auto. }
  exists s'. split; [exact Hstep|]. split; [exact Hinv'|].
  split; [lia|]. split; [exact Hfacts|].
  (* the calls, from the three blocks *)
  destruct Hinv as (_ & _ & _ & Hcount).
  revert Hstep. unfold process_frame. rewrite Hperf.
  assert (Hlog : exists z, (if log_progress call
                            then py_mod (n_frame s + 1) (frame_detection_interval call)
                            else Ok 0) = Ok z).
  { destruct (log_progress call); [rewrite py_mod_ok by assumption|]; eauto. }
  destruct Hlog as [z ->]. cbn [mbind result_bind].
  destruct (check_timeout_uncut call frames_per_second (n_frame s)
              (detection_timeout_count s) Hfps Hcount Huncut) as (count' & -> & _).
  cbn [mbind result_bind]. rewrite (detection_due_ok _ _ Hinterval).
  cbn [mbind result_bind]. fold (recorded call (n_frame s + 1) frame).
  destruct (add_region_drawable tt _ Hdraw) as [drawn ->]. cbn [mbind result_bind].
  set (n := n_frame s + 1) in *.
  set (objects := recorded call n frame) in *.
  set (s1 := mkScan n (<[n := objects]> (output_frames_dict s))
                    (<[n := count_objects objects]> (output_frames_count_dict s))
                    count' (calls s)).
  rewrite (per_frame_block_exact _ _ _ _ Hinterval). cbn [mbind result_bind].
  assert (Hfacts1 : forall added (i : nat) objs, hist' !! i = Some objs ->
            output_frames_dict (add_calls s1 added) !! (Z.of_nat i + 1) = Some objs
            /\ output_frames_count_dict (add_calls s1 added) !! (Z.of_nat i + 1)
               = Some (count_objects objs)).
  { intros added i objs Hi. cbn. rewrite <- Hd', <- Hc'. apply (Hfacts i objs Hi). }
  rewrite (window_block_exact _ _ _ _ _ hist'); [|lia | cbn; lia | apply Hfacts1].
  cbn [mbind result_bind].
  rewrite (window_block_exact _ _ _ _ _ hist'); [|lia | cbn; lia | ].
  2:{ intros i objs Hi. cbn. rewrite <- Hd', <- Hc'. apply (Hfacts i objs Hi). }
  cbn [mbind result_bind]. intros [= <-]. cbn [calls add_calls n_frame].
  unfold frame_calls. rewrite Hlen. fold n. unfold hist'. rewrite last_snoc.
  cbn [default]. fold objects. rewrite <- !app_assoc. reflexivity.
Qed.

Lemma scan_frames_exact (call : video_call) (frames_per_second : Z) :
  performance_mode call = false ->
  0 < frames_per_second -> frame_detection_interval call <> 0 ->
  drawable (video_region_of_interest call) ->
  forall (frames : list frame_outcome) (hist : list (list detection)) (s : scan),
    scan_inv call frames_per_second s ->
    uncut call frames_per_second (n_frame s + Z.of_nat (length frames)) ->
    n_frame s = Z.of_nat (length hist) ->
    (forall (i : nat) objects, hist !! i = Some objects ->
       output_frames_dict s !! (Z.of_nat i + 1) = Some objects
       /\ output_frames_count_dict s !! (Z.of_nat i + 1) = Some (count_objects objects)) ->
    let full := hist ++ imap (fun i frame =>
                                recorded call (Z.of_nat (length hist + i) + 1) frame)
                             frames in
    exists s',
      (forall more, scan_frames call frames_per_second (frames ++ more) s
                    = scan_frames call frames_per_second more s')
      /\ scan_inv call frames_per_second s'
      /\ n_frame s' = Z.of_nat (length full)
      /\ (forall (i : nat) objects, full !! i = Some objects ->
            output_frames_dict s' !! (Z.of_nat i + 1) = Some objects
            /\ output_frames_count_dict s' !! (Z.of_nat i + 1)
               = Some (count_objects objects))
      /\ calls s'
         = calls s
           ++ concat (map (fun k => frame_calls call frames_per_second (take k full))
                          (seq (length hist + 1) (length frames))).
Proof.
  intros Hperf Hfps Hinterval Hdraw.
  induction frames as [|frame rest IH]; intros hist s Hinv Huncut Hn Hd full.
  - exists s. unfold full. cbn. rewrite !app_nil_r. auto.
  - cbn [length] in Huncut.
    destruct (process_frame_exact call frames_per_second frame s hist Hperf Hfps
                Hinterval Hdraw Hinv) as (s1 & Hstep & Hinv1 & Hn1 & Hd1 & Hcalls1);
      [eapply uncut_less; [exact Hfps | | exact Huncut]; lia | exact Hn | exact Hd |].
    set (hist1 := hist ++ [recorded call (n_frame s + 1) frame]) in *.
    assert (Hlen1 : length hist1 = S (length hist)).
    { unfold hist1. rewrite length_app. cbn. lia. }
    destruct (IH hist1 s1 Hinv1) as (s' & Hrun & Hinv' & Hn' & Hd' & Hcalls');
      [rewrite Hn1; eapply uncut_less; [exact Hfps | | exact Huncut]; lia
      | exact Hn1 | exact Hd1 |].
    assert (Hfull : full = hist1 ++ imap (fun i frame =>
                                            recorded call (Z.of_nat (length hist1 + i) + 1)
                                                     frame) rest).
    { unfold full, hist1. cbn [imap]. rewrite <- app_assoc. cbn [app].
      f_equal. f_equal.
      - f_equal. lia.
      - apply imap_ext. intros i x _. cbn. f_equal. rewrite length_app. cbn. lia. }
    exists s'. rewrite Hfull.
    split; [|split; [exact Hinv'|split; [exact Hn'|]]].
    { intros more. rewrite <- app_comm_cons. cbn [scan_frames]. rewrite Hstep.
      cbn [mbind result_bind]. apply Hrun. }
    split; [exact Hd'|].
    rewrite Hcalls', Hcalls1, <- app_assoc. f_equal.
    cbn [length seq map concat]. rewrite Hlen1.
    replace (length hist + 1)%nat with (length hist1) by lia.
    rewrite take_app_length, Hlen1, Nat.add_1_r. reflexivity.
Qed.

(** X25: every call of a user function by a scan that no timeout cuts
    short, with a region of interest that is absent or can be drawn, in
    the order of the calls.  At the frame [n], in this order:
    the per-frame function, when [n] is 1 or a multiple of the detection
    interval, with [n], the objects of the frame and their counts; the
    per-second function, when [n] is not 1 and a multiple of
    [frames_per_second], with [int(n / frames_per_second)], the objects
    and the counts of the last [frames_per_second] frames and the counts
    summed over them, each divided by [frames_per_second] and truncated;
    the per-minute function likewise with [frames_per_second * 60] frames.
    After the last frame the end-of-video function is called once. *)
Theorem detectObjectsFromVideo_calls (call : video_call) (frames_per_second : Z)
    (frames : list frame_outcome) :
  performance_mode call = false ->
  0 < frames_per_second -> frame_detection_interval call <> 0 ->
  drawable (video_region_of_interest call) ->
  uncut call frames_per_second (Z.of_nat (length frames)) ->
  exists s,
    detectObjectsFromVideo "yolov3" call frames_per_second frames = Ok s
    /\ calls s
       = expected_calls call frames_per_second frames
         ++ (if video_complete_function call
             then [(Z.of_nat (length frames), video_summary call frames)] else []).
Proof.
  intros Hperf Hfps Hinterval Hdraw Huncut.
  destruct (scan_frames_exact call frames_per_second Hperf Hfps Hinterval Hdraw frames []
              scan_start (scan_inv_start call frames_per_second Hfps))
    as (s & Hrun & _ & Hn & Hd & Hcalls);
    [exact Huncut | reflexivity | intros i objects Hi; inversion Hi |].
  cbn [app length Nat.add] in Hn, Hd, Hcalls.
  change (imap (fun i frame => recorded call (Z.of_nat i + 1) frame) frames)
    with (history call frames) in Hn, Hd, Hcalls.
  assert (Hlen : length (history call frames) = length frames).
  { unfold history. apply length_imap. }
  unfold detectObjectsFromVideo. rewrite bool_decide_eq_true_2 by reflexivity.
  specialize (Hrun []). rewrite app_nil_r in Hrun. cbn [scan_frames] in Hrun.
  rewrite Hrun. cbn [mbind result_bind].
  destruct (video_complete_function call) eqn:Hvc.
  - rewrite (video_complete_history call frames s Hvc).
    + eexists. split; [reflexivity|]. cbn [calls push_call add_calls].
      rewrite Hcalls, Hn, Hlen. reflexivity.
    + rewrite Hn, Hlen. reflexivity.
    + intros i frame Hi. apply Hd. unfold history. rewrite list_lookup_imap, Hi.
      reflexivity.
  - unfold video_complete. rewrite Hvc. exists s. split; [reflexivity|].
    rewrite Hcalls, app_nil_r. reflexivity.
Qed.

Lemma detectObjectsFromVideo_calls_witness :
  exists s,
    detectObjectsFromVideo "yolov3" plain_video_call 2 (person_video 4) = Ok s
    /\ calls s
       = expected_calls plain_video_call 2 (person_video 4)
         ++ (if video_complete_function plain_video_call
             then [(Z.of_nat (length (person_video 4)),
                    video_summary plain_video_call (person_video 4))] else []).
Proof.
  apply (detectObjectsFromVideo_calls plain_video_call 2 (person_video 4)).
  - reflexivity.
  - lia.
  - discriminate.
  - exact I.
  - exact I.
Defined.

(** The calls of the sample video of four frames at two frames per
    second: the per-frame function at every frame, the per-second function
    at the frames 2 and 4 with the seconds 1 and 2 and an average of one
    person. *)
Example expected_calls_sample :
  map (fun '(n, c) =>
         (n, match c with
             | PerFrame p _ _ _ => ("frame", p, [])
             | PerSecond p objects _ average _ =>
                 ("second", p, map_to_list average)
             | PerMinute p _ _ _ _ => ("minute", p, [])
             | VideoComplete _ _ _ => ("video", 0, [])
             end))
      (expected_calls plain_video_call 2 (person_video 4))
  = [(1, ("frame", 1, [])); (2, ("frame", 2, [])); (2, ("second", 1, [("person", 1)]));
     (3, ("frame", 3, [])); (4, ("frame", 4, [])); (4, ("second", 2, [("person", 1)]))].
Proof. vm_compute. reflexivity. Qed.

(** ** The frame loop: the calls of a scan that the timeout cuts short *)

(** X26: with the performance mode off, a timeout of [t] seconds that
    the video outlasts, no end-of-video function and a region of interest
    that is absent or can be drawn, the scan succeeds and
    ends at the frame [frames_per_second * t]: this frame is counted and
    not recorded, the frames before it are recorded, no later frame is
    read, and the user functions are called as in a scan of the
    [frames_per_second * t - 1] first frames alone; the windowed functions
    are not called at the frame that completes the last second. *)
Theorem detectObjectsFromVideo_timeout_calls (call : video_call)
    (frames_per_second t : Z) (frames : list frame_outcome) :
  performance_mode call = false -> video_complete_function call = false ->
  timeout_set (detection_timeout call) = Some t -> 0 < t ->
  0 < frames_per_second -> frame_detection_interval call <> 0 ->
  drawable (video_region_of_interest call) ->
  frames_per_second * t <= Z.of_nat (length frames) ->
  let before := take (Z.to_nat (frames_per_second * t - 1)) frames in
  exists s,
    detectObjectsFromVideo "yolov3" call frames_per_second frames = Ok s
    /\ n_frame s = frames_per_second * t
    /\ calls s = expected_calls call frames_per_second before
    /\ (forall (i : nat) objects, history call before !! i = Some objects ->
          output_frames_dict s !! (Z.of_nat i + 1) = Some objects)
    /\ (forall k, frames_per_second * t <= k -> output_frames_dict s !! k = None).
Proof.
  intros Hperf Hvc Ht Hpos Hfps Hinterval Hdraw Hlong before.
  assert (Hm : (Z.to_nat (frames_per_second * t - 1) < length frames)%nat) by nia.
  assert (Hlen : length before = Z.to_nat (frames_per_second * t - 1)).
  { unfold before. rewrite length_take. lia. }
  destruct (scan_frames_exact call frames_per_second Hperf Hfps Hinterval Hdraw before []
              scan_start (scan_inv_start call frames_per_second Hfps))
    as (s1 & Hrun & Hinv1 & Hn1 & Hd1 & Hcalls1);
    [unfold uncut; rewrite Ht; cbn [scan_start n_frame]; nia | reflexivity
    | intros i objects Hi; inversion Hi |].
  cbn [app length Nat.add] in Hn1, Hd1, Hcalls1.
  change (imap (fun i frame => recorded call (Z.of_nat i + 1) frame) before)
    with (history call before) in Hn1, Hd1, Hcalls1.
  assert (Hhist : length (history call before) = length before).
  { unfold history. apply length_imap. }
  rewrite Hhist, Hlen in Hn1.
  destruct (lookup_lt_is_Some_2 frames _ Hm) as [frame Hframe].
  destruct (process_frame_cut call frames_per_second t frame s1 Hperf Hfps Hinterval Ht
              Hinv1) as [count' Hcut]; [nia|].
  unfold detectObjectsFromVideo. rewrite bool_decide_eq_true_2 by reflexivity.
  rewrite <- (take_drop (Z.to_nat (frames_per_second * t - 1)) frames).
  fold before. rewrite Hrun.
  rewrite (drop_S _ _ _ Hframe). cbn [scan_frames]. rewrite Hcut.
  cbn [mbind result_bind]. unfold video_complete. rewrite Hvc.
  eexists. split; [reflexivity|]. cbn [n_frame calls output_frames_dict].
  split; [nia|]. split.
  - rewrite Hcalls1. reflexivity.
  - split.
    + intros i objects Hi. apply (Hd1 i objects Hi).
    + intros k Hk. destruct Hinv1 as (_ & _ & Hfresh & _). apply Hfresh. nia.
Qed.

Lemma detectObjectsFromVideo_timeout_calls_witness :
  exists s,
    detectObjectsFromVideo "yolov3" timed_second_call 2 (person_video 9) = Ok s
    /\ n_frame s = 2 * 2
    /\ calls s = expected_calls timed_second_call 2
                               (take (Z.to_nat (2 * 2 - 1)) (person_video 9))
    /\ (forall (i : nat) objects,
          history timed_second_call (take (Z.to_nat (2 * 2 - 1)) (person_video 9)) !! i
          = Some objects ->
          output_frames_dict s !! (Z.of_nat i + 1) = Some objects)
    /\ (forall k, 2 * 2 <= k -> output_frames_dict s !! k = None).
Proof.
  apply (detectObjectsFromVideo_timeout_calls timed_second_call 2 2 (person_video 9)).
  - reflexivity.
  - reflexivity.
  - reflexivity.
  - lia.
  - lia.
  - discriminate.
  - exact I.
  - cbn. lia.
Defined.

(** On nine frames at two frames per second with a timeout of two
    seconds, the per-second function is called once, at the frame 2. *)
Example timed_second_calls :
  per_second_frames
    (expected_calls timed_second_call 2 (take (Z.to_nat (2 * 2 - 1)) (person_video 9)))
  = [2].
Proof. vm_compute. reflexivity. Qed.

(** ** setGpuUsage and the list of GPUs of trainModel *)

Lemma split_comma_cons (s : string) :
  exists piece pieces, split_comma s = piece :: pieces.
Proof.
  destruct s as [|c rest]; cbn; [eauto|].
  destruct (Ascii.eqb c comma); [eauto|]. destruct (split_comma rest); eauto.
Qed.

Lemma join_comma_cons (x y : string) (ys : list string) :
  join_comma (x :: y :: ys) = String.append x (String comma (join_comma (y :: ys))).
Proof. reflexivity. Qed.

Lemma join_split_comma (s : string) : join_comma (split_comma s) = s.
Proof.
  induction s as [|c rest IH]; [reflexivity|].
  cbn [split_comma]. destruct (split_comma_cons rest) as (p & ps & Hp).
  rewrite Hp in *. destruct (Ascii.eqb c comma) eqn:Hc.
  - apply Ascii.eqb_eq in Hc. subst c. rewrite join_comma_cons, IH. reflexivity.
  - rewrite <- IH. destruct ps; reflexivity.
Qed.

Lemma split_comma_piece (s : string) : no_comma s = true -> split_comma s = [s].
Proof.
  induction s as [|c rest IH]; [reflexivity|]. cbn [no_comma split_comma].
  intros [Hc Hrest]%andb_true_iff. apply negb_true_iff in Hc.
  rewrite Hc, (IH Hrest). reflexivity.
Qed.

Lemma split_comma_append (s t : string) :
  no_comma s = true ->
  split_comma (String.append s (String comma t)) = s :: split_comma t.
Proof.
  induction s as [|c rest IH]; cbn [no_comma].
  - intros _. change (split_comma (String comma t) = EmptyString :: split_comma t).
    cbn [split_comma]. rewrite Ascii.eqb_refl. reflexivity.
  - intros [Hc Hrest]%andb_true_iff. apply negb_true_iff in Hc.
    change (split_comma (String c (String.append rest (String comma t)))
            = String c rest :: split_comma t).
    cbn [split_comma]. rewrite Hc, (IH Hrest). reflexivity.
Qed.

Lemma split_join_comma (pieces : list string) :
  pieces <> [] -> Forall (fun piece => no_comma piece = true) pieces ->
  split_comma (join_comma pieces) = pieces.
Proof.
  induction pieces as [|x [|y ys] IH]; intros Hne Hall; [contradiction| |].
  - apply split_comma_piece. apply (Forall_inv Hall).
  - rewrite join_comma_cons, split_comma_append by apply (Forall_inv Hall).
    rewrite IH; [reflexivity | discriminate | apply (Forall_inv_tail Hall)].
Qed.

Lemma digits_no_comma (d : Decimal.uint) :
  no_comma (DecimalString.NilEmpty.string_of_uint d) = true.
Proof. induction d; cbn; auto. Qed.

Lemma str_of_int_no_comma (z : Z) : no_comma (str_of_int z) = true.
Proof.
  unfold str_of_int, DecimalString.NilZero.string_of_int,
    DecimalString.NilZero.string_of_uint.
  destruct (Z.to_int z) as [d|d]; destruct d; cbn; auto using digits_no_comma.
Qed.

Lemma decimal_int_str (z : Z) : decimal_int (str_of_int z) = Ok z.
Proof.
  unfold decimal_int, str_of_int. rewrite DecimalString.NilZero.isi.
  - rewrite DecimalZ.of_to. reflexivity.
  - destruct z as [|p|p]; cbn; try discriminate.
    intros [= H]. exact (DecimalPos.Unsigned.to_uint_nonnil p H).
  - destruct z as [|p|p]; cbn; try discriminate.
    intros [= H]. exact (DecimalPos.Unsigned.to_uint_nonnil p H).
Qed.

Lemma traverse_int_str (int_of_str : string -> result Z) (ids : list Z) :
  (forall z, int_of_str (str_of_int z) = Ok z) ->
  traverse int_of_str (map str_of_int ids) = Ok ids.
Proof.
  intros Hint. induction ids as [|z ids IH]; [reflexivity|].
  cbn. rewrite Hint. cbn. rewrite IH. reflexivity.
Qed.

Lemma multi_gpu_ids (int_of_str : string -> result Z) (ids : list Z) :
  (forall z, int_of_str (str_of_int z) = Ok z) ->
  int_of_str "" = Raise ValueError ->
  multi_gpu int_of_str (join_comma (map str_of_int ids))
  = match ids with [] => Raise ValueError | _ => Ok ids end.
Proof.
  intros Hint Hempty. unfold multi_gpu. destruct ids as [|z ids].
  - cbn. rewrite Hempty. reflexivity.
  - rewrite split_join_comma.
    + apply traverse_int_str, Hint.
    + discriminate.
    + apply Forall_forall. intros piece Hin. apply list_elem_of_fmap in Hin as (k & -> & _).
      apply str_of_int_no_comma.
Qed.

(** X27: [setGpuUsage] stores a string as it is given: splitting it at
    its commas and joining the pieces with commas gives the string back,
    whatever it holds (spaces, empty pieces, no comma at all). *)
Theorem setGpuUsage_keeps_string (s : string) : setGpuUsage (GpusString s) = s.
Proof. exact (join_split_comma s). Qed.

(** X28: with an [int] on strings that reads back what [str] prints of
    an int and refuses the empty string, the list of GPUs that
    [trainModel] computes at line 267 is, after [setGpuUsage] of a list of
    ids that is not empty, this list, and after [setGpuUsage] of a
    positive number [n], the ids [0] to [n - 1]; after [setGpuUsage] of an
    empty list, of a number that is not positive or of the empty string,
    line 267 raises [ValueError]. *)
Theorem setGpuUsage_multi_gpu (int_of_str : string -> result Z) :
  (forall z, int_of_str (str_of_int z) = Ok z) ->
  int_of_str "" = Raise ValueError ->
  (forall ids, ids <> [] -> multi_gpu int_of_str (setGpuUsage (GpusList ids)) = Ok ids)
  /\ (forall n, 0 < n -> multi_gpu int_of_str (setGpuUsage (GpusInt n)) = Ok (seqZ 0 n))
  /\ multi_gpu int_of_str (setGpuUsage (GpusList [])) = Raise ValueError
  /\ (forall n, n <= 0 ->
        multi_gpu int_of_str (setGpuUsage (GpusInt n)) = Raise ValueError)
  /\ multi_gpu int_of_str (setGpuUsage (GpusString "")) = Raise ValueError.
Proof.
  intros Hint Hempty. cbn [setGpuUsage].
  split; [|split; [|split; [|split]]].
  - intros ids Hne. rewrite (multi_gpu_ids _ _ Hint Hempty).
    destruct ids; [contradiction | reflexivity].
  - intros n Hn. rewrite (multi_gpu_ids _ _ Hint Hempty).
    destruct (seqZ 0 n) eqn:Hs; [|reflexivity].
    apply (f_equal length) in Hs. rewrite length_seqZ in Hs. cbn in Hs. lia.
  - apply (multi_gpu_ids _ [] Hint Hempty).
  - intros n Hn. rewrite (multi_gpu_ids _ _ Hint Hempty).
    replace (seqZ 0 n) with (@nil Z); [reflexivity|].
    symmetry. apply length_zero_iff_nil. rewrite length_seqZ. lia.
  - unfold multi_gpu. cbn. rewrite Hempty. reflexivity.
Qed.

Lemma setGpuUsage_multi_gpu_witness :
  multi_gpu decimal_int (setGpuUsage (GpusList [1; 0; 12])) = Ok [1; 0; 12]
  /\ multi_gpu decimal_int (setGpuUsage (GpusInt 3)) = Ok (seqZ 0 3)
  /\ multi_gpu decimal_int (setGpuUsage (GpusInt 0)) = Raise ValueError.
Proof.
  pose proof (setGpuUsage_multi_gpu decimal_int decimal_int_str eq_refl)
    as (Hids & Hn & _ & Hzero & _).
  split; [|split].
  - apply Hids. discriminate.
  - apply Hn. lia.
  - apply Hzero. lia.
Defined.

(** ** _create_training_instances: the check of the labels *)

Lemma list_to_set_cons_size (x : string) (l : list string) :
  size (list_to_set (x :: l) : gset string)
  = if decide (x ∈ l) then size (list_to_set l : gset string)
    else S (size (list_to_set l : gset string)).
Proof.
  rewrite list_to_set_cons. destruct (decide (x ∈ l)) as [Hin|Hout].
  - f_equal. apply subseteq_union_1_L, singleton_subseteq_l, elem_of_list_to_set, Hin.
  - rewrite size_union, size_singleton; [reflexivity|].
    apply disjoint_singleton_l. intros Hin. apply Hout.
    apply elem_of_list_to_set in Hin. exact Hin.
Qed.

Lemma size_list_to_set_le (l : list string) :
  (size (list_to_set l : gset string) <= length l)%nat.
Proof.
  induction l as [|x l IH]; [rewrite list_to_set_nil, size_empty; cbn; lia|].
  rewrite list_to_set_cons_size. cbn [length]. destruct (decide (x ∈ l)); lia.
Qed.

Lemma size_list_to_set_dup (l : list string) :
  ~ NoDup l -> (size (list_to_set l : gset string) < length l)%nat.
Proof.
  induction l as [|x l IH]; intros Hdup; [destruct Hdup; constructor|].
  rewrite list_to_set_cons_size. cbn [length].
  pose proof (size_list_to_set_le l) as Hle.
  destruct (decide (x ∈ l)) as [Hin|Hout]; [lia|].
  assert (Hl : ~ NoDup l) by (intros Hl; apply Hdup; constructor; assumption).
  specialize (IH Hl). lia.
Qed.

Lemma overlap_labels_size (labels : list string) (seen : gset string) :
  (size (list_to_set labels ∩ seen : gset string) <? length labels)%nat = false
  <-> NoDup labels /\ Forall (fun l => l ∈ seen) labels.
Proof.
  rewrite Nat.ltb_ge. split.
  - intros Hsize.
    pose proof (size_list_to_set_le labels) as Hle.
    pose proof (subseteq_size (list_to_set labels ∩ seen) (list_to_set labels : gset string)
                  (intersection_subseteq_l _ _)) as Hsub.
    assert (Hnodup : NoDup labels).
    { destruct (decide (NoDup labels)) as [H|H]; [exact H|].
      pose proof (size_list_to_set_dup labels H). lia. }
    split; [exact Hnodup|].
    assert (Heq : list_to_set labels ∩ seen ≡ (list_to_set labels : gset string)).
    { apply set_subseteq_size_equiv; [apply intersection_subseteq_l | lia]. }
    apply Forall_forall. intros l Hl.
    assert (Hl' : l ∈ (list_to_set labels ∩ seen : gset string)).
    { apply Heq. apply elem_of_list_to_set. exact Hl. }
    apply elem_of_intersection in Hl'. apply Hl'.
  - intros [Hnodup Hall].
    rewrite subseteq_intersection_1_L.
    + rewrite size_list_to_set by exact Hnodup. lia.
    + intros l Hl. apply elem_of_list_to_set in Hl.
      rewrite Forall_forall in Hall. apply (Hall l Hl).
Qed.

(** X29: with labels given, [_create_training_instances] returns the
    tuple of four [None] exactly when a label occurs twice in the list or
    a label occurs in no annotation of the training set; the comparison of
    the size of a set with the length of the list refuses a repeated
    label even where the dataset shows it. *)
Theorem create_training_instances_labels {instance : Type}
    (object_count : instance -> Z) (shuffle : list instance -> list instance)
    (sorted : list string -> list string)
    (parsed_train : list instance * list (string * Z))
    (parsed_valid : option (list instance * list (string * Z)))
    (labels : list string) :
  labels <> [] ->
  _create_training_instances object_count shuffle sorted parsed_train parsed_valid labels
  = Ok None
  <-> ~ (NoDup labels /\ Forall (fun l => l ∈ map fst parsed_train.2) labels).
Proof.
  intros Hne. destruct parsed_train as [train_ints train_labels].
  unfold _create_training_instances. cbn [snd].
  assert (Hlen : (0 <? length labels)%nat = true).
  { apply Nat.ltb_lt. destruct labels; [contradiction | cbn; lia]. }
  set (split := match parsed_valid with
                | Some (valid_ints, _) => (train_ints, valid_ints)
                | None => _
                end).
  destruct split as [train_ints' valid_ints']. rewrite Hlen.
  pose proof (overlap_labels_size labels (list_to_set (map fst train_labels))) as Hsize.
  assert (Hseen : Forall (fun l => l ∈ (list_to_set (map fst train_labels) : gset string))
                         labels
                  <-> Forall (fun l => l ∈ map fst train_labels) labels).
  { rewrite !Forall_forall.
    split; intros H l Hl; specialize (H l Hl); [apply elem_of_list_to_set in H|];
      [exact H | apply elem_of_list_to_set; exact H]. }
  destruct (size _ <? length labels)%nat.
  - split; [|reflexivity]. intros _ [Hnodup Hall].
    assert (true = false); [|discriminate].
    apply Hsize. split; [exact Hnodup | apply Hseen, Hall].
  - split.
    + destruct (py_max _); discriminate.
    + intros Hnot. exfalso. apply Hnot.
      destruct (proj1 Hsize eq_refl) as [Hnodup Hall].
      split; [exact Hnodup | apply Hseen, Hall].
Qed.

Lemma create_training_instances_labels_witness :
  _create_training_instances Z.of_nat id id cat_dataset None twice_cat = Ok None
  <-> ~ (NoDup twice_cat /\ Forall (fun l => l ∈ map fst cat_dataset.2) twice_cat).
Proof.
  apply (create_training_instances_labels Z.of_nat id id cat_dataset None twice_cat).
  discriminate.
Defined.

(** The repeated label is refused although the dataset shows it. *)
Example create_training_instances_twice_cat :
  _create_training_instances Z.of_nat id id cat_dataset None twice_cat = Ok None
  /\ Forall (fun l => l ∈ map fst cat_dataset.2) twice_cat.
Proof.
  split; [vm_compute; reflexivity|]. repeat constructor.
Qed.

(** ** BoundBox: get_label and get_score *)

Lemma np_argmax_from_first (values : list Q) :
  forall (seen : list Q) (best : nat) (best_value : Q),
    first_greatest seen best best_value ->
    exists m, first_greatest (seen ++ values)
                (np_argmax_from best best_value (length seen) values) m.
Proof.
  induction values as [|v rest IH]; intros seen best best_value Hbest.
  - exists best_value. rewrite app_nil_r. exact Hbest.
  - cbn [np_argmax_from]. destruct Hbest as (Hat & Hall & Hfirst).
    replace (seen ++ v :: rest) with ((seen ++ [v]) ++ rest)
      by (rewrite <- app_assoc; reflexivity).
    replace (S (length seen)) with (length (seen ++ [v]))
      by (rewrite length_app; cbn; lia).
    destruct (Qltb best_value v) eqn:Hlt.
    + apply Qltb_lt in Hlt. apply IH. split; [|split].
      * rewrite lookup_app_r by lia. rewrite Nat.sub_diag. reflexivity.
      * apply Forall_app. split.
        -- eapply Forall_impl; [exact Hall|]. intros x Hx. cbn in Hx. lra.
        -- constructor; [lra | constructor].
      * intros j x Hj Hx. rewrite lookup_app_l in Hx by exact Hj.
        rewrite Forall_forall in Hall.
        specialize (Hall x (list_elem_of_lookup_2 _ _ _ Hx)). cbn in Hall. lra.
    + apply Qltb_ge in Hlt. apply IH. split; [|split].
      * rewrite lookup_app_l by (apply lookup_lt_Some in Hat; exact Hat). exact Hat.
      * apply Forall_app. split; [exact Hall | constructor; [exact Hlt | constructor]].
      * intros j x Hj Hx.
        rewrite lookup_app_l in Hx by (apply lookup_lt_Some in Hat; lia).
        apply (Hfirst j x Hj Hx).
Qed.

Lemma np_argmax_first (values : list Q) :
  values <> [] ->
  exists k m, np_argmax values = Ok k /\ first_greatest values k m.
Proof.
  destruct values as [|v rest]; [contradiction|]. intros _.
  destruct (np_argmax_from_first rest [v] 0%nat v) as [m Hm].
  - split; [reflexivity|]. split; [constructor; [lra | constructor]|].
    intros j x Hj. lia.
  - exists (np_argmax_from 0 v 1 rest), m. split; [reflexivity | exact Hm].
Qed.

(** X30: on a box as the constructor leaves it, [get_score] raises
    [ValueError] when the box has no class and otherwise returns the
    greatest class score, read at the first index where it occurs.  Once
    a score other than -1 is stored, [get_score] returns it whatever
    [classes] becomes afterwards: a class that [do_nms] or [RoI] sets to
    zero does not change it. *)
Theorem get_score_greatest_then_kept (box : BoundBox) :
  (classes box = [] -> get_score (new_box box) = Raise ValueError)
  /\ (classes box <> [] ->
      exists k m self,
        get_score (new_box box) = Ok (m, self)
        /\ first_greatest (classes box) k m
        /\ label self = Some k /\ score self = m
        /\ (~ (m == -1)%Q ->
            forall cs, get_score (with_classes self cs) = Ok (m, with_classes self cs))).
Proof.
  split.
  - intros Hnone. unfold get_score, get_label, new_box. cbn. rewrite Hnone. reflexivity.
  - intros Hsome. destruct (np_argmax_first (classes box) Hsome) as (k & m & Hk & Hm).
    exists k, m. unfold get_score at 1, get_label, new_box.
    cbn [score label bound_box]. change (Qeq_bool (-1) (-1)) with true. cbn iota.
    rewrite Hk. cbn [mbind result_bind bound_box label score].
    unfold py_index. rewrite (proj1 Hm). cbn [mbind result_bind].
    eexists. split; [reflexivity|]. split; [exact Hm|].
    split; [reflexivity|]. split; [reflexivity|].
    intros Hm1 cs. unfold get_score, with_classes. cbn [score].
    destruct (Qeq_bool m (-1)) eqn:E; [|reflexivity].
    apply Qeq_bool_iff in E. contradiction.
Qed.

(** ** A region of interest with fewer than four coordinates *)

Lemma process_frame_short_region (call : video_call) (frames_per_second : Z)
    (frame : frame_outcome) (roi : list Z) :
  video_region_of_interest call = Some roi -> (0 < length roi < 4)%nat ->
  frame_detection_interval call <> 0 ->
  first_frame_uncut call frames_per_second ->
  process_frame call frames_per_second frame scan_start = Raise IndexError.
Proof.
  intros Hroi Hlen Hi Hcut. unfold process_frame.
  change (n_frame scan_start + 1) with 1.
  assert (Hlog : (if log_progress call then py_mod 1 (frame_detection_interval call)
                  else Ok 0) = Ok (if log_progress call
                                   then 1 mod frame_detection_interval call else 0)).
  { destruct (log_progress call); [apply py_mod_ok; exact Hi | reflexivity]. }
  rewrite Hlog. cbn [mbind result_bind].
  rewrite (detection_due_ok _ _ Hi), Hroi, (add_region_short tt roi Hlen).
  destruct (performance_mode call) eqn:Hperf; [reflexivity|].
  destruct Hcut as [Hcut | Hcut]; [congruence|].
  unfold check_timeout.
  destruct (timeout_set (detection_timeout call)) as [t|]; [|reflexivity].
  destruct Hcut as [Hfps Ht]. rewrite (py_mod_ok _ _ Hfps). cbn [mbind result_bind].
  change (detection_timeout_count scan_start) with 0.
  assert (Hbreak : (t <=? (if 1 mod frames_per_second =? 0 then 0 + 1 else 0)) = false).
  { apply Z.leb_gt. destruct (1 mod frames_per_second =? 0); lia. }
  rewrite Hbreak. reflexivity.
Qed.

(** X31: a region of interest that holds one, two or three coordinates
    ends the video run with an [IndexError] on the first frame.  The
    detector filters nothing on such a region, but
    [add_region_of_interest_to_frame] reads four entries of every region
    that is not empty, and it is called outside every [try], in
    performance mode and without it.  This holds whenever the frame
    interval is not zero and the timeout does not end the loop on the
    first frame. *)
Theorem video_region_IndexError (call : video_call) (frames_per_second : Z)
    (frame : frame_outcome) (rest : list frame_outcome) (roi : list Z) :
  video_region_of_interest call = Some roi -> (0 < length roi < 4)%nat ->
  frame_detection_interval call <> 0 ->
  first_frame_uncut call frames_per_second ->
  detectObjectsFromVideo "yolov3" call frames_per_second (frame :: rest)
  = Raise IndexError.
Proof.
  intros Hroi Hlen Hi Hcut. unfold detectObjectsFromVideo.
  rewrite bool_decide_eq_true_2 by reflexivity.
  cbn [scan_frames].
  rewrite (process_frame_short_region call frames_per_second frame roi Hroi Hlen Hi Hcut).
  reflexivity.
Qed.

Lemma video_region_IndexError_witness :
  detectObjectsFromVideo "yolov3" short_region_call 25 [Ok []; Ok []] = Raise IndexError.
Proof.
  apply (video_region_IndexError short_region_call 25 (Ok []) [Ok []] [10; 20]).
  - reflexivity.
  - cbn. lia.
  - discriminate.
  - right. exact I.
Defined.
